(* ===== verification/_CoqProject ===== *)
-Q . S2P
Prelude.v
Blocks.v
Status.v
Mvcc.v
WorldState.v
WorldStateTheory.v
Simulation.v
Serial.v
Local.v
Proto.v
Endorse.v
Parser.v
Packager.v
Synchronizer.v
Finality.v
Delivery.v
Streamer.v
Ledger.v
Lifecycle.v
TestOrderer.v
Requests.v
Subscription.v
Dial.v
Wiring.v
Broadcast.v
Submission.v
Closing.v
Query.v
TestPeer.v
Notify.v
Sessions.v
QueryService.v
Kvs.v
Pragmas.v
Database.v
Network.v
Recovery.v
Replica.v
Msp.v
Logging.v
System.v
