(* ===== verification/Prelude.v ===== *)
(** * Verification of the Fabric-X client SDK

    The SDK (src/) lets an application work with a Hyperledger Fabric or
    Fabric-X network: it simulates and endorses transactions, packages and
    submits them, follows the chain, keeps a world state, and waits for
    finality.  package fabrictest is a small network for tests.  This library
    translates the code into executable definitions and proves what makes it
    correct.

    ** Parts and files

    - Prelude.v: bytes, errors, the [result] and [outcome] monads (a Go call
      that returns an error, and one that may also panic), machine integers,
      sorted slices, the order of map iteration, tactics and shared lemmas.
    - Blocks.v: the types of blocks/types.go and the processor of
      blocks/processor.go.
    - Status.v: blocks/status.go, the code tables of blocks/fabric/status.go and
      blocks/fabricx/status.go, and the status filter of the event feed.
    - Mvcc.v: the validator of blocks/mvcc.go, against a reference semantics.
    - WorldState.v, WorldStateTheory.v: [VersionedDB] of state/db.go: the two
      tables, the transaction of [UpdateWorldState] on a connection, with every
      statement and a driver that may fail at any call, the reads and the
      snapshots.
    - Simulation.v: the simulation store of state/sim.go.  A chaincode is a
      tree of calls on it, with a reference semantics of its own.
    - Serial.v: simulation, validation and commit of a block together.
    - Local.v: the submitter of local/submit.go, over the interface
      [SharedState] with its laws and a record getter.
    - Proto.v: the protobuf messages that the code reads and writes, as records,
      and the classes of their codecs; [Wire] is a concrete codec.
    - Endorse.v: endorsement/proposal.go, the builders of
      endorsement/fabric/builder.go and endorsement/fabricx/builder.go, and
      blocks/fabricx/decode.go.
    - Parser.v: the block parsers of blocks/fabric and blocks/fabricx.
    - Packager.v: invocations, proposals and the packager of
      network/fabricx/packager.go; the path from execution to ledger.
    - Synchronizer.v: network/synchronizer.go, [Start] and its readiness
      monitors as a step relation.
    - Finality.v: notification/finality.go and notification/notifier.go, callers
      and sessions as a step relation.
    - Notify.v: the notification stream of network/fabricx/peer.go, its two
      goroutines as a step relation, and the notifier of
      notification/notifier.go that calls it.
    - Sessions.v: [Start] of notification/finality.go with all its sessions, the
      streams of Notify.v and the callers of Finality.v on one listener.
    - Delivery.v: the event feed, from the test peer (fabrictest/peer.go) to the
      converters of network/fabricx/peer.go.
    - Streamer.v: notification/all_tx.go, the queue between the receive loop and
      the handlers as a step relation.
    - Ledger.v: the ledger of fabrictest/ledger.go.
    - Lifecycle.v: an envelope on its way through parser, validator, world state
      and the block that the ledger stores.
    - TestOrderer.v: the batching loop of fabrictest/orderer.go as a step
      relation.
    - Requests.v: [cutBlock] and [revert] of fabrictest/orderer.go, the callers
      and their reply channels.
    - Subscription.v: block delivery, from network/peer.go to
      fabrictest/peer.go, and a subscriber of the ledger over time.
    - Dial.v: network/tls.go and the dialling of network/peer.go and
      network/orderer.go.
    - Wiring.v: the peers and the synchronizers that network/fabric/peer.go and
      network/fabricx/peer.go construct.
    - Broadcast.v: the orderer client of network/orderer.go and the submitter of
      network/submitter.go.
    - Submission.v: the packagers of network/fabric and network/fabricx in a
      submitter, from an endorsement to the orderers.
    - Closing.v: [Close] of both, against an orderer that accepts or rejects
      envelopes (such as that of fabrictest/orderer.go), as a step relation.
    - Query.v: the endorsement client and the height query of
      network/fabric/peer.go, and the test peer that answers it.
    - TestPeer.v: the rest of fabrictest/peer.go, and what a slow subscriber gets
      from a ledger.
    - QueryService.v: the store and the client of state/queryservice, over the
      interface [Client] with its laws.
    - Kvs.v: the interfaces of state/kvs.go as classes with laws, both stores as
      instances, and simulation on a snapshot while the store changes.
    - Pragmas.v: the connections of state/sqlite.
    - Database.v: the file behind a [VersionedDB]: opening, the schema, closing
      and reopening (state/db.go, state/sqlite/sqlite.go).
    - Network.v: fabrictest/network.go, [Start], [Stop] and the running network
      as a step relation.
    - Recovery.v: the database and the synchronizer of a client over crashes and
      restarts.
    - Msp.v: the identities of identity/msp.go and fabrictest/signer.go.
    - Replica.v: the ledger and a client that applies its blocks.
    - Logging.v: the loggers of logging.go; the test logger with its mutex as a
      step relation.
    - System.v: a network from its start and a client that follows it.

    A definition has the name of the Go function it translates; where a name
    occurs in several packages it has a prefix (fabric_, fabricx_, store_,
    grpc_, ...).  A record that a method changes is an argument and a result of
    the definition.  Goroutines are step relations: a step is one channel
    operation, critical section or call, so that every interleaving is a
    sequence of steps; a channel is the list of what it holds, with its
    capacity.  Fields of such a state that the code does not have, which record
    what happened so far, are named in the file.

    ** What the theorems show

    - State: [Validate] decides as a reference MVCC semantics does; the tables
      implement the history of the chain; an update is atomic; snapshots do not
      move; a read-write set is what the chaincode did; simulate, validate and
      commit of a block is serializable, but for keys that were deleted and come
      back ([deleted_read_untracked]), also while blocks commit during the
      simulation; a file holds what the successful updates wrote, whatever
      crashed in between; after any crashes a client of a stream without gaps
      holds a prefix of the chain, and of a well-formed chain it reaches the end
      as soon as nothing fails any more.
    - Transactions: what a parser reads in a packaged envelope is what was
      executed; endorsers build the same transaction whatever the map order; an
      accepted proposal is bound to its creator and nonce; a parsed block has
      exactly the transactions of the raw block.
    - Network: a broadcast writes an envelope once or not at all; [Submit] goes
      by majority; a subscription delivers the chain without gaps, as long as the
      subscriber keeps up and the chain is not reverted; the event
      feed and block delivery agree; the transport is the one configured; the
      answers of peers may come in any order; after a [Close] of an orderer client
      that did not time out, every envelope was answered and every rejection
      logged; a subscription is signed by whom it should be; an execution
      that endorsers agree on reaches the orderers as one envelope that parses
      back to it.
    - Concurrency: the streamer handles batches in order, loses none and can
      always be stopped; the finality listener never blocks and loses no
      caller, over any number of sessions, and keeps the subscription of each
      under way; the notification stream is faithful and returns after a failure;
      the synchronizer has one monitor that is not cancelled and ends when
      cancelled.
    - Test network: chains are linked and numbered; blocks carry the statuses
      that the validator decided; an envelope ends committed, with its writes in
      the world state, or refused, without a row; batches respect their limits;
      a subscriber gets committed blocks in order, and none twice unless the
      chain is reverted, however slow it is; callers of [CutBlock] and [Revert]
      get the answer to their own request, which the loop took once; a
      client that applies the blocks reads what the network reads.
    - Logging: the test logger never writes to a test that has completed.
    - Identities: a signer has the key and the certificate of its directory, and
      the choice of a serialization does not change its signatures.
    - Stores: a query-service snapshot reads one state over all connections,
      fixed at its first read at the latest;
      every SQLite connection is configured or closed.

    Theorems that are called after what goes wrong ([pending_key_collision],
    [unregister_removes_successor], [ready_while_backing_off],
    [notify_may_lose_error], [notify_sender_outlives],
    [notify_waits_after_EOF], [stale_session_takes_subscription],
    [ended_stream_stalls_listener], [full_channel_misses_block],
    [gap_never_filled], [NewSubmitter_leaks], [NewSynchronizer_leaks],
    [fixed_port_leaks], [second_Stop_panics], [Stop_races_with_queue],
    [refused_revert_drops_batch], [duplicate_write_stops_client],
    [fabric_ParseTx_nil_action], [deleted_read_untracked],
    [filter_unrecognized_matches_everything]) show behaviour that a user of the
    code may not expect.

    ** Parameters

    Code outside src/ is a parameter.  Protobuf codecs are classes with the law
    that decoding inverts encoding, instantiated by [Wire] in the examples; the
    hashes of protoutil are arbitrary functions; [CreateSignedTx], the chaincode
    proposal constructors, the file system, the SQLite driver, the ports of the
    operating system ([SocketsLaws]), the x509, ECDSA and TLS functions and the
    gRPC stubs are arguments with what their documentation says as hypotheses;
    the remote query service has the laws of [ServiceLaws], the protobuf encoder
    those of [encoder_total] where a message must encode; the numbers of
    generated enums are classes with the laws that the generated code satisfies.  Random bytes, the
    clock and the answers of peers are arguments.

    ** Bounds

    No definition has fuel: recursion is structural on lists, and loops that
    need not end are step relations ([calm_run] of Recovery.v counts steps, and
    how many are enough is part of the theorem).  Integers are [Z] with their Go range
    where it matters: block numbers against the sign bit that database/sql
    refuses, filter codes against a byte, the 64-bit counter of [pick].  The
    capacities (64 batches, 256 subscriptions, 10 blocks, 64 envelopes, 1 error)
    are those of the code.

    ** Not modelled

    - api/metadatapb, apart from the message: generated code.
    - testdata: a sample chaincode that Fabric runs; nothing of the SDK calls it.
    - Interface types that have one implementation, and functions that only fill
      the fields of a record or pass their arguments on.
    - gRPC itself: a stream is the sequence of its messages, which may break, and
      a server is the calls that reach it.
    - Time: timeouts and pauses are steps that may happen; only the backoff
      sequence of [FinalityListener.Start] is computed.
    - The scheduling of connections by the pool of database/sql. *)

From Stdlib Require Import Strings.Ascii.
From stdpp Require Export sorting strings gmap list prelude.
From Stdlib Require Strings.Byte Strings.String.

Open Scope Z_scope.

(** ** Bytes

    A Go [[]byte] is a list of bytes.  The nil slice and the empty slice are
    the same list: the code only ever looks at slices through [len],
    [bytes.Equal] and [bytes.Compare], which do not tell them apart. *)

Definition bytes := list Byte.byte.

#[export] Instance byte_eq_dec : EqDecision Byte.byte := Byte.byte_eq_dec.
#[export] Instance bytes_eq_dec : EqDecision bytes.
Proof. unfold bytes. apply _. Defined.

(** The conversions [[]byte(s)] and [string(b)]. *)
Definition bytes_of_string (s : string) : bytes := String.list_byte_of_string s.
Definition string_of_bytes (b : bytes) : string := String.string_of_list_byte b.

(** ** Errors and outcomes

    A Go error is the format it was built from, its arguments, and the error
    it wraps.  Messages are never formatted: two errors are equal when they
    come from the same format with the same arguments. *)

Inductive arg :=
  | AStr (s : string)
  | AInt (z : Z)
  | ABool (b : bool)
  | ABytes (b : bytes).

Inductive error :=
  | Errorf (fmt : string) (args : list arg)
  | Wrapf (fmt : string) (args : list arg) (inner : error).

#[export] Instance arg_eq_dec : EqDecision arg.
Proof. solve_decision. Defined.

#[export] Instance error_eq_dec : EqDecision error.
Proof. solve_decision. Defined.

(** A human-readable text stored in a value: a literal, a [fmt.Sprintf], or
    the message of an error. *)
Inductive text :=
  | Lit (s : string)
  | Sprintf (fmt : string) (args : list arg)
  | ErrorText (e : error).

#[export] Instance text_eq_dec : EqDecision text.
Proof. solve_decision. Defined.

(** The result of a Go call that returns [(A, error)] and cannot panic: a value
    with a nil error, or a non-nil error. *)
Inductive result (A : Type) :=
  | Ret (a : A)
  | Fail (e : error).
Arguments Ret {A} a.
Arguments Fail {A} e.

#[export] Instance result_ret : MRet result := @Ret.
#[export] Instance result_bind : MBind result := λ A B f m,
  match m with Ret a => f a | Fail e => Fail e end.
#[export] Instance result_fmap : FMap result := λ A B f m,
  match m with Ret a => Ret (f a) | Fail e => Fail e end.

(** The same for a call that can also end in a run-time panic: a nil
    dereference or an index out of range. *)
Inductive outcome (A : Type) :=
  | Ok (a : A)
  | Err (e : error)
  | Panic.
Arguments Ok {A} a.
Arguments Err {A} e.
Arguments Panic {A}.

#[export] Instance outcome_ret : MRet outcome := @Ok.
#[export] Instance outcome_bind : MBind outcome := λ A B f m,
  match m with Ok a => f a | Err e => Err e | Panic => Panic end.
#[export] Instance outcome_fmap : FMap outcome := λ A B f m,
  match m with Ok a => Ok (f a) | Err e => Err e | Panic => Panic end.

Definition lift {A} (m : result A) : outcome A :=
  match m with Ret a => Ok a | Fail e => Err e end.

(** [fmt.Errorf("...: %w", err)] on the error of a call. *)
Definition wrapf {A} (fmt : string) (args : list arg) (m : result A) : result A :=
  match m with Ret a => Ret a | Fail e => Fail (Wrapf fmt args e) end.

(** Dereference of a pointer: a nil pointer panics. *)
Definition deref {A} (p : option A) : outcome A :=
  match p with Some a => Ok a | None => Panic end.

(** ** Machine integers

    Integers are kept as [Z]; an operation that can leave the range of its Go
    type wraps explicitly. *)

Definition max_uint64 : Z := 2 ^ 64 - 1.
Definition max_int64 : Z := 2 ^ 63 - 1.

Definition uint64_ok (z : Z) : Prop := 0 ≤ z < 2 ^ 64.
Definition int64_ok (z : Z) : Prop := - 2 ^ 63 ≤ z < 2 ^ 63.

Definition wrap_uint64 (z : Z) : Z := z mod 2 ^ 64.
Definition wrap_int64 (z : Z) : Z := (z + 2 ^ 63) mod 2 ^ 64 - 2 ^ 63.

(** ** Slices sorted by a string key *)

Definition key_le {A} (key : A → string) (a b : A) : Prop := String.le (key a) (key b).

#[export] Instance key_le_dec {A} (key : A → string) : RelDecision (key_le key).
Proof. intros a b. unfold key_le. apply _. Defined.

Definition sort_by {A} (key : A → string) (l : list A) : list A := merge_sort (key_le key) l.

(** ** Separators in composed map keys *)

Fixpoint string_free (c : Ascii.ascii) (s : string) : bool :=
  match s with
  | EmptyString => true
  | String a s' => negb (Ascii.eqb a c) && string_free c s'
  end.

(** The separators the code uses: [":"] and the NUL character. *)
Definition colon : Ascii.ascii := ":"%char.
Definition nul : Ascii.ascii := "000"%char.

(** The composed key [a + sep + b] of two strings. *)
Definition join_key (c : Ascii.ascii) (a b : string) : string :=
  a +:+ String c b.

(** ** Iteration over a Go map

    A [range] over a map visits every entry once, in an order that is not
    specified: the order is a parameter of the code that ranges. *)

Definition map_order (order : ∀ A : Type, gmap string A → list (string * A)) : Prop :=
  ∀ A (m : gmap string A), order A m ≡ₚ map_to_list m.

Definition map_list (A : Type) (m : gmap string A) : list (string * A) := map_to_list m.

Lemma map_list_order : map_order map_list.
Proof. by intros A m. Qed.

(** ** Automation *)

Create HintDb sdk discriminated.
#[export] Hint Constants Opaque : sdk.

(** Case analysis on every [match] and [if] of a hypothesis that an outcome
    equation still has, closing the impossible cases. *)
Ltac outcome_inv H :=
  repeat (simplify_eq/=; match type of H with
  | context [match ?x with _ => _ end] => destruct x eqn:?; try discriminate H
  end); simplify_eq/=.

(** Turns boolean tests of the code into propositions. *)
Ltac bool_to_prop :=
  repeat match goal with
  | H : (_ && _)%bool = true |- _ => apply andb_true_iff in H as [? ?]
  | H : (_ || _)%bool = false |- _ => apply orb_false_iff in H as [? ?]
  | H : (_ || _)%bool = true |- _ => apply orb_true_iff in H as [?|?]
  | H : negb _ = true |- _ => apply negb_true_iff in H
  | H : negb _ = false |- _ => apply negb_false_iff in H
  | H : bool_decide _ = true |- _ => apply bool_decide_eq_true in H
  | H : bool_decide _ = false |- _ => apply bool_decide_eq_false in H
  | H : (_ =? _)%Z = true |- _ => apply Z.eqb_eq in H
  | H : (_ =? _)%Z = false |- _ => apply Z.eqb_neq in H
  | H : (_ <? _)%Z = true |- _ => apply Z.ltb_lt in H
  | H : (_ <? _)%Z = false |- _ => apply Z.ltb_ge in H
  | H : (_ <=? _)%Z = true |- _ => apply Z.leb_le in H
  | H : (_ <=? _)%Z = false |- _ => apply Z.leb_gt in H
  end.

(** ** Shared lemmas *)

Lemma string_of_bytes_of_string s : string_of_bytes (bytes_of_string s) = s.
Proof. apply String.string_of_list_byte_of_string. Qed.

Lemma bytes_of_string_of_bytes b : bytes_of_string (string_of_bytes b) = b.
Proof. apply String.list_byte_of_string_of_list_byte. Qed.

#[export] Instance bytes_of_string_inj : Inj (=) (=) bytes_of_string.
Proof. intros a b H. by rewrite <- (string_of_bytes_of_string a), H, string_of_bytes_of_string. Qed.

#[export] Instance key_le_trans {A} (key : A → string) : Transitive (key_le key).
Proof. intros a b c. unfold key_le. apply transitivity. Qed.

#[export] Instance key_le_total {A} (key : A → string) : Total (key_le key).
Proof. intros a b. unfold key_le. apply total, _. Qed.

Lemma sort_by_perm {A} (key : A → string) l : sort_by key l ≡ₚ l.
Proof. apply merge_sort_Permutation. Qed.

Lemma sort_by_sorted {A} (key : A → string) l : StronglySorted (key_le key) (sort_by key l).
Proof. apply StronglySorted_merge_sort; apply _. Qed.

Lemma NoDup_fmap_inj {A B} (f : A → B) (l : list A) x y :
  NoDup (f <$> l) → x ∈ l → y ∈ l → f x = f y → x = y.
Proof.
  induction l as [|a l IH]; csimpl; [by intros _ ?%elem_of_nil|].
  intros [Hn HN]%NoDup_cons [->|Hx]%elem_of_cons [->|Hy]%elem_of_cons Hf; auto.
  - destruct Hn. rewrite Hf. by apply list_elem_of_fmap_2.
  - destruct Hn. rewrite <- Hf. by apply list_elem_of_fmap_2.
Qed.

(** Slices whose elements have distinct keys sort to the same slice whatever
    order they start in. *)
Lemma sort_by_unique {A} (key : A → string) (l1 l2 : list A) :
  NoDup (key <$> l1) → l1 ≡ₚ l2 → sort_by key l1 = sort_by key l2.
Proof.
  intros HN Hp. apply (StronglySorted_unique_strong (key_le key));
    [|apply sort_by_sorted..|by rewrite !sort_by_perm].
  intros x1 x2 Hx1 Hx2 H12 H21.
  rewrite sort_by_perm in Hx1. rewrite sort_by_perm, <- Hp in Hx2.
  apply (NoDup_fmap_inj key l1); [done..|]. by apply (anti_symm String.le).
Qed.

(** Sorting commutes with a map that keeps the keys. *)
Lemma sort_by_fmap {A B} (ka : A → string) (kb : B → string) (f : A → B) l :
  (∀ a, kb (f a) = ka a) → NoDup (ka <$> l) → sort_by kb (f <$> l) = f <$> sort_by ka l.
Proof.
  intros Hk HN. apply (StronglySorted_unique_strong (key_le kb)).
  - intros x1 x2 Hx1 Hx2 H12 H21. rewrite sort_by_perm in Hx1.
    rewrite sort_by_perm in Hx2.
    apply (NoDup_fmap_inj kb (f <$> l)); [|done..|by apply (anti_symm String.le)].
    rewrite <- list_fmap_compose. erewrite list_fmap_ext; [exact HN|].
    intros i x _. apply Hk.
  - apply sort_by_sorted.
  - pose proof (sort_by_sorted ka l) as Hs. induction Hs as [|a l' Hs IH Hall]; csimpl.
    { constructor. }
    constructor; [done|]. apply Forall_fmap. eapply Forall_impl; [exact Hall|].
    intros b. unfold compose, key_le. by rewrite !Hk.
  - by rewrite !sort_by_perm.
Qed.

(** A separator that the first component does not contain makes the composed
    key injective. *)
Lemma join_key_inj c a b a' b' :
  string_free c a = true → string_free c a' = true →
  join_key c a b = join_key c a' b' → a = a' ∧ b = b'.
Proof.
  unfold join_key. revert a'. induction a as [|x a IH]; intros [|x' a']; simpl.
  - by intros _ _ [= ->].
  - intros _ H' [= -> _]. by rewrite Ascii.eqb_refl in H'.
  - intros H _ [= -> _]. by rewrite Ascii.eqb_refl in H.
  - intros [_ H]%andb_true_iff [_ H']%andb_true_iff [= -> Heq].
    destruct (IH a' H H' Heq) as [-> ->]. done.
Qed.

Lemma outcome_bind_ok {A B} (m : outcome A) (f : A → outcome B) b :
  m ≫= f = Ok b ↔ ∃ a, m = Ok a ∧ f a = Ok b.
Proof. destruct m; simpl; naive_solver. Qed.

Lemma result_bind_ret {A B} (m : result A) (f : A → result B) b :
  m ≫= f = Ret b ↔ ∃ a, m = Ret a ∧ f a = Ret b.
Proof. destruct m; simpl; naive_solver. Qed.

Lemma lift_bind_ok {A B} (m : result A) (f : A → outcome B) b :
  lift m ≫= f = Ok b ↔ ∃ a, m = Ret a ∧ f a = Ok b.
Proof. destruct m; simpl; naive_solver. Qed.

Lemma lift_bind_panic {A B} (m : result A) (f : A → outcome B) :
  lift m ≫= f = Panic ↔ ∃ a, m = Ret a ∧ f a = Panic.
Proof. destruct m; simpl; naive_solver. Qed.

Lemma wrapf_ret {A} fmt args (m : result A) a : wrapf fmt args m = Ret a ↔ m = Ret a.
Proof. destruct m; simpl; naive_solver. Qed.

Lemma forallb_ext_in {A} (f g : A → bool) (l : list A) :
  (∀ x, x ∈ l → f x = g x) → forallb f l = forallb g l.
Proof.
  induction l as [|x l IH]; intros H; simpl; [done|].
  rewrite (H x), IH; set_solver.
Qed.

Lemma forallb_fmap {A B} (f : A → B) (p : B → bool) (l : list A) :
  forallb p (f <$> l) = forallb (p ∘ f) l.
Proof. induction l; csimpl; by f_equal. Qed.

(** ** Bytes as numbers *)

(** The conversion [byte(n)] for a number that fits. *)
Definition byte_of_Z (z : Z) : Byte.byte := default Byte.x00 (Byte.of_N (Z.to_N z)).

(** The conversion of a byte to a wider integer. *)
Definition Z_of_byte (b : Byte.byte) : Z := Z.of_N (Byte.to_N b).

Lemma Z_of_byte_of_Z z : 0 ≤ z ≤ 255 → Z_of_byte (byte_of_Z z) = z.
Proof.
  intros Hz. unfold Z_of_byte, byte_of_Z. destruct (Byte.of_N (Z.to_N z)) as [b|] eqn:E; simpl.
  - apply Byte.to_of_N in E. rewrite E. lia.
  - apply Byte.of_N_None_iff in E. lia.
Qed.

Lemma StronglySorted_lt_NoDup (l : list Z) : StronglySorted Z.lt l → NoDup l.
Proof.
  induction 1 as [|x l _ IH Hall]; constructor; [|done].
  intros Hin. rewrite Forall_forall in Hall. specialize (Hall x Hin). lia.
Qed.
