(* ===== verification/Blocks.v ===== *)
(** * The parsed block data model

    Package [blocks]: the protocol-neutral [Status] (blocks/status.go), the
    types of a parsed block (blocks/types.go), and the [Processor] that hands a
    parsed block to a chain of handlers (blocks/processor.go). *)

From S2P Require Import Prelude.

(** ** Status

    [type Status int32]: any 32-bit value, of which eight are named. *)

Abbreviation Status := Z (only parsing).

Definition StatusUnknown : Status := 0.
Definition StatusCommitted : Status := 1.
Definition StatusInvalidSignature : Status := 2.
Definition StatusMVCCConflict : Status := 3.
Definition StatusDuplicateTxID : Status := 4.
Definition StatusMalformed : Status := 5.
Definition StatusUnrecognized : Status := 6.
Definition StatusEndorsementPolicyFailure : Status := 10.

Definition Status_IsFinal (s : Status) : bool := negb (s =? StatusUnknown).

Definition Status_Valid (s : Status) : bool := s =? StatusCommitted.

Definition Status_String (s : Status) : string :=
  if s =? StatusCommitted then "COMMITTED"
  else if s =? StatusInvalidSignature then "INVALID_SIGNATURE"
  else if s =? StatusMVCCConflict then "MVCC_CONFLICT"
  else if s =? StatusDuplicateTxID then "DUPLICATE_TX_ID"
  else if s =? StatusMalformed then "MALFORMED"
  else if s =? StatusUnrecognized then "UNRECOGNIZED"
  else if s =? StatusEndorsementPolicyFailure then "ENDORSEMENT_POLICY_FAILURE"
  else "UNKNOWN".

(** ** Read-write sets and blocks *)

Record Version := MkVersion { ver_BlockNum : Z; ver_TxNum : Z }.

Record KVRead := MkKVRead { rd_Key : string; rd_Version : option Version }.

Record KVWrite := MkKVWrite { wr_Key : string; wr_IsDelete : bool; wr_Value : bytes }.

Record ReadWriteSet := MkRWS { rws_Reads : list KVRead; rws_Writes : list KVWrite }.

Record NsReadWriteSet := MkNsRWS { ns_Namespace : string; ns_RWS : ReadWriteSet }.

Record WriteRecord := MkWriteRecord {
  rec_Namespace : string;
  rec_Key : string;
  rec_BlockNum : Z;
  rec_TxNum : Z;
  rec_Version : Z;
  rec_Value : bytes;
  rec_IsDelete : bool;
  rec_TxID : string }.

Record ConfigTransaction := MkConfigTransaction { cfg_Sequence : Z; cfg_Config : bytes }.

Record Transaction := MkTransaction {
  tx_ID : string;
  tx_Number : Z;
  tx_InputArgs : list bytes;
  tx_Status : Status;
  tx_RawCode : Z;
  tx_Reason : text;
  tx_Event : bytes;
  tx_EventName : string;
  tx_Payload : bytes;
  tx_NsRWS : list NsReadWriteSet }.

Record Block := MkBlock {
  blk_Number : Z;
  blk_Hash : bytes;
  blk_ParentHash : bytes;
  blk_Timestamp : Z;
  blk_Transactions : list Transaction;
  blk_ConfigTransaction : option ConfigTransaction }.

Definition Transaction_Valid (t : Transaction) : bool := Status_Valid (tx_Status t).

Definition SetStatus (t : Transaction) (status : Status) (rawCode : Z) (reason : text) : Transaction :=
  {| tx_ID := tx_ID t; tx_Number := tx_Number t; tx_InputArgs := tx_InputArgs t;
     tx_Status := status; tx_RawCode := rawCode; tx_Reason := reason;
     tx_Event := tx_Event t; tx_EventName := tx_EventName t; tx_Payload := tx_Payload t;
     tx_NsRWS := tx_NsRWS t |}.

(** The assignment [tx.Number = n] of the parsers. *)
Definition SetNumber (t : Transaction) (n : Z) : Transaction :=
  {| tx_ID := tx_ID t; tx_Number := n; tx_InputArgs := tx_InputArgs t;
     tx_Status := tx_Status t; tx_RawCode := tx_RawCode t; tx_Reason := tx_Reason t;
     tx_Event := tx_Event t; tx_EventName := tx_EventName t; tx_Payload := tx_Payload t;
     tx_NsRWS := tx_NsRWS t |}.

(** The assignment [block.Transactions = txs]. *)
Definition SetTransactions (b : Block) (txs : list Transaction) : Block :=
  {| blk_Number := blk_Number b; blk_Hash := blk_Hash b; blk_ParentHash := blk_ParentHash b;
     blk_Timestamp := blk_Timestamp b; blk_Transactions := txs;
     blk_ConfigTransaction := blk_ConfigTransaction b |}.

(** The zero value [blocks.Transaction{}]. *)
Definition zero_Transaction : Transaction :=
  {| tx_ID := ""; tx_Number := 0; tx_InputArgs := []; tx_Status := StatusUnknown;
     tx_RawCode := 0; tx_Reason := Lit ""; tx_Event := []; tx_EventName := "";
     tx_Payload := []; tx_NsRWS := [] |}.

(** The reads and the written keys of a transaction, with their namespaces. *)
Definition tx_reads (tx : Transaction) : list (string * KVRead) :=
  tx_NsRWS tx ≫= λ n, pair (ns_Namespace n) <$> rws_Reads (ns_RWS n).
Definition tx_writes (tx : Transaction) : list (string * string) :=
  tx_NsRWS tx ≫= λ n, (λ w, (ns_Namespace n, wr_Key w)) <$> rws_Writes (ns_RWS n).

(** The interface [RecordGetter]: the latest committed record of a key, [None]
    for a nil record. *)
Definition RecordGetter := string → string → result (option WriteRecord).

#[export] Instance Version_eq_dec : EqDecision Version.
Proof. solve_decision. Defined.
#[export] Instance KVRead_eq_dec : EqDecision KVRead.
Proof. solve_decision. Defined.
#[export] Instance KVWrite_eq_dec : EqDecision KVWrite.
Proof. solve_decision. Defined.
#[export] Instance ReadWriteSet_eq_dec : EqDecision ReadWriteSet.
Proof. solve_decision. Defined.
#[export] Instance NsReadWriteSet_eq_dec : EqDecision NsReadWriteSet.
Proof. solve_decision. Defined.
#[export] Instance WriteRecord_eq_dec : EqDecision WriteRecord.
Proof. solve_decision. Defined.

(** ** Processor

    A handler runs against a world [W] it may change and returns an error or
    nil; the parser is pure.  [ProcessBlock] parses, then runs the handlers in
    order, and stops at the first error with the effects made so far. *)

Section Processor.
Context {W Raw : Type}.

Definition BlockHandler : Type := Block → W → W * outcome unit.

Record Processor := MkProcessor {
  proc_parser : Raw → outcome Block;
  proc_handlers : list BlockHandler }.

Fixpoint run_handlers (hs : list BlockHandler) (b : Block) (w : W) : W * outcome unit :=
  match hs with
  | [] => (w, Ok tt)
  | h :: hs' =>
      match h b w with
      | (w', Ok _) => run_handlers hs' b w'
      | (w', Err e) => (w', Err (Wrapf "handle: %w" [] e))
      | (w', Panic) => (w', Panic)
      end
  end.

Definition ProcessBlock (p : Processor) (raw : Raw) (w : W) : W * outcome unit :=
  match proc_parser p raw with
  | Ok b => run_handlers (proc_handlers p) b w
  | Err e => (w, Err (Wrapf "parse: %w" [] e))
  | Panic => (w, Panic)
  end.

(** A parse error reaches no handler. *)
Lemma ProcessBlock_parse_error p raw w e :
  proc_parser p raw = Err e → ProcessBlock p raw w = (w, Err (Wrapf "parse: %w" [] e)).
Proof. unfold ProcessBlock. by intros ->. Qed.

(** The handlers before a failing one have run, in order, and none after it. *)
Lemma run_handlers_app hs1 hs2 b w :
  run_handlers (hs1 ++ hs2) b w =
    match run_handlers hs1 b w with
    | (w', Ok _) => run_handlers hs2 b w'
    | r => r
    end.
Proof.
  revert w. induction hs1 as [|h hs1 IH]; intros w; simpl; [done|].
  destruct (h b w) as [w' [[]|e|]]; auto.
Qed.

End Processor.

Lemma SetStatus_NsRWS t s c r : tx_NsRWS (SetStatus t s c r) = tx_NsRWS t.
Proof. done. Qed.
Lemma Transaction_Valid_SetStatus t s c r : Transaction_Valid (SetStatus t s c r) = Status_Valid s.
Proof. done. Qed.

(** Only [StatusCommitted] is valid, and every valid status is final. *)
Lemma Status_Valid_committed s : Status_Valid s = true ↔ s = StatusCommitted.
Proof. unfold Status_Valid. by rewrite Z.eqb_eq. Qed.

Lemma Status_Valid_final s : Status_Valid s = true → Status_IsFinal s = true.
Proof. rewrite Status_Valid_committed. by intros ->. Qed.

Lemma elem_of_tx_reads tx ns r :
  (ns, r) ∈ tx_reads tx ↔
  ∃ n, n ∈ tx_NsRWS tx ∧ ns = ns_Namespace n ∧ r ∈ rws_Reads (ns_RWS n).
Proof. unfold tx_reads. rewrite list_elem_of_bind. set_solver. Qed.

Lemma elem_of_tx_writes tx ns k :
  (ns, k) ∈ tx_writes tx ↔
  ∃ n w, n ∈ tx_NsRWS tx ∧ w ∈ rws_Writes (ns_RWS n) ∧ ns = ns_Namespace n ∧ k = wr_Key w.
Proof. unfold tx_writes. rewrite list_elem_of_bind. set_solver. Qed.
