(* ===== verification/Status.v ===== *)
(** * Ledger-specific status codes

    How the status codes of classic Fabric ([peer.TxValidationCode]) and of the
    Fabric-X sidecar ([committerpb.Status]) map onto the neutral [Status]
    (blocks/fabric/status.go, blocks/fabricx/status.go), the inverse tables
    [CodesByStatus] (blocks/status.go), and the expansion of a status filter
    into sidecar codes (network/fabricx/peer.go, fabrictest/peer.go).

    The enumerations themselves are generated code outside this repository:
    their numbers and name tables are the fields of a class, and what the SDK
    relies on is the class of laws beside it. *)

From S2P Require Import Prelude Blocks.

(** ** The enumerations the SDK switches on *)

Class ValidationCodes := {
  VALID : Z;
  BAD_CREATOR_SIGNATURE : Z;
  DUPLICATE_TXID : Z;
  MVCC_READ_CONFLICT : Z;
  PHANTOM_READ_CONFLICT : Z;
  ENDORSEMENT_POLICY_FAILURE : Z;
  NOT_VALIDATED : Z;
  TxValidationCode_name : gmap Z string;
  TxValidationCode_String : Z → string }.

(** The constants of a protobuf enumeration without aliases are distinct, and
    each is in the generated name table. *)
Class ValidationCodesLaws (V : ValidationCodes) := {
  vc_distinct : NoDup [VALID; BAD_CREATOR_SIGNATURE; DUPLICATE_TXID; MVCC_READ_CONFLICT;
                       PHANTOM_READ_CONFLICT; ENDORSEMENT_POLICY_FAILURE; NOT_VALIDATED];
  vc_named : ∀ c, c ∈ [VALID; BAD_CREATOR_SIGNATURE; DUPLICATE_TXID; MVCC_READ_CONFLICT;
                       PHANTOM_READ_CONFLICT; ENDORSEMENT_POLICY_FAILURE; NOT_VALIDATED] →
             c ∈ dom TxValidationCode_name }.

Class CommitterCodes := {
  STATUS_UNSPECIFIED : Z;
  COMMITTED : Z;
  ABORTED_SIGNATURE_INVALID : Z;
  ABORTED_MVCC_CONFLICT : Z;
  REJECTED_DUPLICATE_TX_ID : Z;
  Status_name : gmap Z string;
  CommitterStatus_String : Z → string }.

(** Distinct, named constants; the rejection of a duplicate id is the code 100
    and the other named constants are below it, as the comments in
    network/fabricx/peer.go:199 and blocks/fabricx/status.go:34 record. *)
Class CommitterCodesLaws (V : CommitterCodes) := {
  cc_distinct : NoDup [STATUS_UNSPECIFIED; COMMITTED; ABORTED_SIGNATURE_INVALID;
                       ABORTED_MVCC_CONFLICT; REJECTED_DUPLICATE_TX_ID];
  cc_named : ∀ c, c ∈ [STATUS_UNSPECIFIED; COMMITTED; ABORTED_SIGNATURE_INVALID;
                       ABORTED_MVCC_CONFLICT; REJECTED_DUPLICATE_TX_ID] → c ∈ dom Status_name;
  cc_duplicate : REJECTED_DUPLICATE_TX_ID = 100;
  cc_below : ∀ c, c ∈ [STATUS_UNSPECIFIED; COMMITTED; ABORTED_SIGNATURE_INVALID;
                       ABORTED_MVCC_CONFLICT] → c < 100 }.

(** ** The forward maps *)

Definition StatusFromValidationCode `{ValidationCodes} (code : Z) : Status * Z * text :=
  let status :=
    if code =? VALID then StatusCommitted
    else if code =? BAD_CREATOR_SIGNATURE then StatusInvalidSignature
    else if code =? DUPLICATE_TXID then StatusDuplicateTxID
    else if (code =? MVCC_READ_CONFLICT) || (code =? PHANTOM_READ_CONFLICT) then StatusMVCCConflict
    else if code =? ENDORSEMENT_POLICY_FAILURE then StatusEndorsementPolicyFailure
    else if code =? NOT_VALIDATED then StatusUnknown
    else StatusMalformed in
  (status, code, Lit (TxValidationCode_String code)).

Definition StatusFromCommitterStatus `{CommitterCodes} (s : Z) : Status * Z * text :=
  let status :=
    if s =? COMMITTED then StatusCommitted
    else if s =? STATUS_UNSPECIFIED then StatusUnknown
    else if s =? ABORTED_SIGNATURE_INVALID then StatusInvalidSignature
    else if s =? ABORTED_MVCC_CONFLICT then StatusMVCCConflict
    else if s =? REJECTED_DUPLICATE_TX_ID then StatusDuplicateTxID
    else if 100 <=? s then StatusMalformed else StatusUnrecognized in
  (status, s, Lit (CommitterStatus_String s)).

(** ** The inverse tables

    [CodesByStatus] walks the named codes in increasing order and keeps the
    first raw code that each status gets. *)

Definition codes_step (fn : Z → Status * Z * text) (result : gmap Z Z) (code : Z) : gmap Z Z :=
  let '(status, rawCode, _) := fn code in
  match result !! status with
  | Some _ => result
  | None => <[status := rawCode]> result
  end.

Definition CodesByStatus (names : gmap Z string) (fn : Z → Status * Z * text) : gmap Z Z :=
  let codes := merge_sort Z.le (map_to_list names).*1 in
  foldl (codes_step fn) ∅ codes.

Definition fabric_CodesByStatus `{ValidationCodes} : gmap Z Z :=
  CodesByStatus TxValidationCode_name StatusFromValidationCode.

Definition fabricx_CodesByStatus `{CommitterCodes} : gmap Z Z :=
  CodesByStatus Status_name StatusFromCommitterStatus.

(** ** Filtering a stream by status

    [filter_codes] is the switch of [toProtoFilterStatus] for one status; a
    status the switch does not name appends nothing. *)

Definition filter_codes `{CommitterCodes} (s : Status) : list Z :=
  if s =? StatusCommitted then [COMMITTED]
  else if (s =? StatusInvalidSignature) || (s =? StatusEndorsementPolicyFailure)
       then [ABORTED_SIGNATURE_INVALID]
  else if s =? StatusMVCCConflict then [ABORTED_MVCC_CONFLICT]
  else if s =? StatusDuplicateTxID then [REJECTED_DUPLICATE_TX_ID]
  else if s =? StatusMalformed then
    filter (λ code, 101 ≤ code) (map_to_list Status_name).*1
  else if s =? StatusUnknown then [STATUS_UNSPECIFIED]
  else [].

Definition toProtoFilterStatus `{CommitterCodes} (statuses : list Status) : list Z :=
  statuses ≫= filter_codes.

(** [statusMatches] of the test peer: an empty filter matches everything. *)
Definition statusMatches (status : Z) (filt : list Z) : bool :=
  match filt with
  | [] => true
  | _ => bool_decide (status ∈ filt)
  end.

(** The status of a [StatusFrom...] triple. *)
Definition status_of (t : Status * Z * text) : Status := t.1.1.
Definition rawCode_of (t : Status * Z * text) : Z := t.1.2.

(** ** Example enumerations: the numbers of the published protobuf files *)

Definition fabric_codes : ValidationCodes := {|
  VALID := 0; BAD_CREATOR_SIGNATURE := 4; DUPLICATE_TXID := 9; MVCC_READ_CONFLICT := 11;
  PHANTOM_READ_CONFLICT := 12; ENDORSEMENT_POLICY_FAILURE := 10; NOT_VALIDATED := 254;
  TxValidationCode_name := list_to_map
    [(0, "VALID"); (4, "BAD_CREATOR_SIGNATURE"); (9, "DUPLICATE_TXID");
     (10, "ENDORSEMENT_POLICY_FAILURE"); (11, "MVCC_READ_CONFLICT");
     (12, "PHANTOM_READ_CONFLICT"); (254, "NOT_VALIDATED"); (255, "INVALID_OTHER_REASON")];
  TxValidationCode_String := λ _, "code" |}.

Definition committer_codes : CommitterCodes := {|
  STATUS_UNSPECIFIED := 0; COMMITTED := 1; ABORTED_SIGNATURE_INVALID := 2;
  ABORTED_MVCC_CONFLICT := 3; REJECTED_DUPLICATE_TX_ID := 100;
  Status_name := list_to_map
    [(0, "STATUS_UNSPECIFIED"); (1, "COMMITTED"); (2, "ABORTED_SIGNATURE_INVALID");
     (3, "ABORTED_MVCC_CONFLICT"); (100, "REJECTED_DUPLICATE_TX_ID");
     (101, "MALFORMED_BAD_ENVELOPE"); (102, "MALFORMED_MISSING_TX_ID")];
  CommitterStatus_String := λ _, "status" |}.

(** ** Lemmas *)

Section CodesByStatus.
Context (fn : Z → Status * Z * text).

Lemma codes_step_keeps m code s c : m !! s = Some c → codes_step fn m code !! s = Some c.
Proof.
  intros Hs. unfold codes_step. destruct (fn code) as [[s' c'] r].
  destruct (m !! s') eqn:E; [done|]. rewrite lookup_insert_ne; [done|]. intros ->. by rewrite E in Hs.
Qed.

Lemma codes_fold_keeps codes m s c :
  m !! s = Some c → foldl (codes_step fn) m codes !! s = Some c.
Proof. revert m. induction codes; simpl; auto using codes_step_keeps. Qed.

(** Over a sorted list of codes the table holds, for each status, the raw code
    of the smallest code with that status. *)
Lemma codes_fold_spec codes m s :
  StronglySorted Z.le codes → m !! s = None →
  foldl (codes_step fn) m codes !! s =
    rawCode_of ∘ fn <$> head (filter (λ code, status_of (fn code) = s) codes).
Proof.
  intros Hs. revert m. induction Hs as [|code codes Hs IH Hall]; intros m Hm; simpl; [done|].
  unfold codes_step at 2. rewrite filter_cons. unfold status_of, rawCode_of, compose.
  destruct (fn code) as [[s' c'] r] eqn:E; simpl. case_decide as Hd; simpl.
  - subst s'. rewrite Hm. rewrite E. apply codes_fold_keeps, lookup_insert_eq.
  - apply IH. destruct (m !! s'); [done|]. by rewrite lookup_insert_ne.
Qed.

Lemma head_filter_minimal (P : Z → Prop) `{∀ x, Decision (P x)} codes k :
  StronglySorted Z.le codes →
  head (filter P codes) = Some k ↔ k ∈ codes ∧ P k ∧ ∀ k', k' ∈ codes → P k' → k ≤ k'.
Proof.
  induction 1 as [|c codes Hs IH Hall]; [by split; [|intros [?%elem_of_nil _]]|].
  rewrite filter_cons. case_decide as Hc; simpl.
  - rewrite Forall_forall in Hall. split.
    + intros [= <-]. split_and!; [by left|done|].
      intros k' [->|Hk']%elem_of_cons _; [lia|]. by apply Hall.
    + intros ([->|Hk]%elem_of_cons & Pk & Hmin); [done|].
      f_equal. apply Z.le_antisymm; [by apply Hall|]. apply Hmin; [by left|done].
  - rewrite IH. setoid_rewrite elem_of_cons. split.
    + intros (?&?&Hmin). split_and!; [auto..|]. intros k' [->|?] ?; [done|auto].
    + intros ([->|?]&?&Hmin); [done|]. split_and!; auto.
Qed.

Lemma sorted_codes (names : gmap Z string) :
  StronglySorted Z.le (merge_sort Z.le (map_to_list names).*1).
Proof. apply StronglySorted_merge_sort; apply _. Qed.

Lemma elem_of_codes (names : gmap Z string) k :
  k ∈ merge_sort Z.le (map_to_list names).*1 ↔ k ∈ dom names.
Proof.
  rewrite merge_sort_Permutation, elem_of_dom, list_elem_of_fmap. split.
  - intros [[k' v] [-> Hv]]. apply elem_of_map_to_list in Hv. eauto.
  - intros [v Hv]. exists (k, v). by rewrite elem_of_map_to_list.
Qed.

Lemma CodesByStatus_lookup names s c :
  CodesByStatus names fn !! s = Some c ↔
  ∃ k, k ∈ dom names ∧ status_of (fn k) = s ∧ rawCode_of (fn k) = c ∧
       ∀ k', k' ∈ dom names → status_of (fn k') = s → k ≤ k'.
Proof.
  unfold CodesByStatus.
  rewrite (codes_fold_spec _ _ _ (sorted_codes names) (lookup_empty _)).
  rewrite fmap_Some. setoid_rewrite head_filter_minimal; [|apply sorted_codes].
  setoid_rewrite elem_of_codes. unfold compose. naive_solver.
Qed.

End CodesByStatus.

(** The table returned by [CodesByStatus] is defined exactly on the statuses that some
    named code maps to, and gives the raw code of the smallest such code, so it
    does not depend on the iteration order of the name map. *)
Theorem CodesByStatus_smallest names (fn : Z → Status * Z * text) s c :
  CodesByStatus names fn !! s = Some c ↔
  ∃ k, k ∈ dom names ∧ status_of (fn k) = s ∧ rawCode_of (fn k) = c ∧
       ∀ k', k' ∈ dom names → status_of (fn k') = s → k ≤ k'.
Proof. apply CodesByStatus_lookup. Qed.

(** ** The tables of the two ledgers *)

Ltac code_cases :=
  repeat (case_match; bool_to_prop; simplify_eq; try done).

Section FabricCodes.
Context {V : ValidationCodes} {VL : ValidationCodesLaws V}.

Lemma vc_neq :
  VALID ≠ BAD_CREATOR_SIGNATURE ∧ VALID ≠ DUPLICATE_TXID ∧ VALID ≠ MVCC_READ_CONFLICT ∧
  VALID ≠ PHANTOM_READ_CONFLICT ∧ VALID ≠ ENDORSEMENT_POLICY_FAILURE ∧ VALID ≠ NOT_VALIDATED ∧
  MVCC_READ_CONFLICT ≠ BAD_CREATOR_SIGNATURE ∧ MVCC_READ_CONFLICT ≠ DUPLICATE_TXID ∧
  PHANTOM_READ_CONFLICT ≠ BAD_CREATOR_SIGNATURE ∧ PHANTOM_READ_CONFLICT ≠ DUPLICATE_TXID ∧
  NOT_VALIDATED ≠ BAD_CREATOR_SIGNATURE ∧ NOT_VALIDATED ≠ DUPLICATE_TXID ∧
  NOT_VALIDATED ≠ MVCC_READ_CONFLICT ∧ NOT_VALIDATED ≠ PHANTOM_READ_CONFLICT ∧
  NOT_VALIDATED ≠ ENDORSEMENT_POLICY_FAILURE.
Proof.
  pose proof vc_distinct as HN. rewrite !NoDup_cons, !not_elem_of_cons in HN.
  destruct_and!. split_and!; congruence.
Qed.

(** Which codes have the three statuses a validator produces. *)
Lemma validation_committed c : status_of (StatusFromValidationCode c) = StatusCommitted ↔ c = VALID.
Proof.
  unfold status_of, StatusFromValidationCode. simpl. split; [by code_cases|].
  intros ->. by rewrite Z.eqb_refl.
Qed.

Lemma validation_unknown c : status_of (StatusFromValidationCode c) = StatusUnknown ↔ c = NOT_VALIDATED.
Proof.
  pose proof vc_neq. destruct_and!. unfold status_of, StatusFromValidationCode. simpl.
  split; [by code_cases|]. intros ->. code_cases; congruence.
Qed.

Lemma validation_mvcc c :
  status_of (StatusFromValidationCode c) = StatusMVCCConflict ↔
  c = MVCC_READ_CONFLICT ∨ c = PHANTOM_READ_CONFLICT.
Proof.
  pose proof vc_neq. destruct_and!. unfold status_of, StatusFromValidationCode. simpl.
  split; [code_cases; auto|].
  intros [-> | ->]; rewrite ?Z.eqb_refl, ?orb_true_r; simpl; code_cases; congruence.
Qed.

End FabricCodes.

Section FabricXCodes.
Context {V : CommitterCodes} {VL : CommitterCodesLaws V}.

Lemma cc_neq :
  STATUS_UNSPECIFIED ≠ COMMITTED ∧ STATUS_UNSPECIFIED ≠ ABORTED_SIGNATURE_INVALID ∧
  STATUS_UNSPECIFIED ≠ ABORTED_MVCC_CONFLICT ∧ COMMITTED ≠ ABORTED_SIGNATURE_INVALID ∧
  COMMITTED ≠ ABORTED_MVCC_CONFLICT ∧ ABORTED_SIGNATURE_INVALID ≠ ABORTED_MVCC_CONFLICT.
Proof.
  pose proof cc_distinct as HN. rewrite !NoDup_cons, !not_elem_of_cons in HN.
  destruct_and!. split_and!; congruence.
Qed.

Lemma cc_small :
  STATUS_UNSPECIFIED < 100 ∧ COMMITTED < 100 ∧ ABORTED_SIGNATURE_INVALID < 100 ∧
  ABORTED_MVCC_CONFLICT < 100.
Proof. split_and!; apply cc_below; set_solver. Qed.

Lemma committer_status c s :
  status_of (StatusFromCommitterStatus c) = s ↔
  (c = COMMITTED ∧ s = StatusCommitted) ∨
  (c = STATUS_UNSPECIFIED ∧ s = StatusUnknown) ∨
  (c = ABORTED_SIGNATURE_INVALID ∧ s = StatusInvalidSignature) ∨
  (c = ABORTED_MVCC_CONFLICT ∧ s = StatusMVCCConflict) ∨
  (c = 100 ∧ s = StatusDuplicateTxID) ∨
  (101 ≤ c ∧ s = StatusMalformed) ∨
  (c < 100 ∧ s = StatusUnrecognized ∧ c ≠ COMMITTED ∧ c ≠ STATUS_UNSPECIFIED ∧
   c ≠ ABORTED_SIGNATURE_INVALID ∧ c ≠ ABORTED_MVCC_CONFLICT).
Proof.
  pose proof cc_neq. pose proof cc_small. destruct_and!.
  unfold status_of, StatusFromCommitterStatus. simpl. rewrite cc_duplicate.
  split; [intros <-|]; code_cases; auto 10; intuition (subst; auto with lia; lia).
Qed.

Lemma committer_committed c : status_of (StatusFromCommitterStatus c) = StatusCommitted ↔ c = COMMITTED.
Proof. rewrite committer_status. split; [|by left]. intros Hs. unfold StatusCommitted in Hs.
  repeat destruct Hs as [[? Hs']|Hs]; try discriminate Hs'; [done|]. by destruct Hs as (? & ? & _).
Qed.

Lemma filter_codes_spec c s :
  c ∈ dom Status_name →
  c ∈ filter_codes s ↔
  s ≠ StatusUnrecognized ∧
    (status_of (StatusFromCommitterStatus c) = s ∨
     s = StatusEndorsementPolicyFailure ∧
     status_of (StatusFromCommitterStatus c) = StatusInvalidSignature).
Proof.
  intros Hc. rewrite !committer_status.
  pose proof cc_neq. pose proof cc_small. pose proof cc_duplicate. destruct_and!.
  assert (c ∈ filter (λ code, 101 ≤ code) (map_to_list Status_name).*1 ↔ 101 ≤ c) as Hmal.
  { rewrite list_elem_of_filter. rewrite <- elem_of_codes, merge_sort_Permutation in Hc. naive_solver. }
  unfold filter_codes, StatusCommitted, StatusInvalidSignature, StatusEndorsementPolicyFailure,
    StatusMVCCConflict, StatusDuplicateTxID, StatusMalformed, StatusUnknown, StatusUnrecognized.
  code_cases; rewrite ?Hmal, ?list_elem_of_singleton, ?elem_of_nil; split;
    intuition (subst; try done; try lia).
Qed.

End FabricXCodes.

Lemma fabric_codes_read_back {V : ValidationCodes} (VL : ValidationCodesLaws V) :
  (∀ s c, fabric_CodesByStatus !! s = Some c → status_of (StatusFromValidationCode c) = s) ∧
  fabric_CodesByStatus !! StatusCommitted = Some VALID ∧
  fabric_CodesByStatus !! StatusUnknown = Some NOT_VALIDATED ∧
  fabric_CodesByStatus !! StatusMVCCConflict = Some (MVCC_READ_CONFLICT `min` PHANTOM_READ_CONFLICT).
Proof.
  unfold fabric_CodesByStatus. split; [|split_and!]; setoid_rewrite CodesByStatus_lookup.
  - by intros s c (k & _ & <- & <- & _).
  - exists VALID. setoid_rewrite validation_committed.
    split_and!; [apply vc_named; set_solver|done..|]. intros k _ ->. lia.
  - exists NOT_VALIDATED. setoid_rewrite validation_unknown.
    split_and!; [apply vc_named; set_solver|done..|]. intros k _ ->. lia.
  - exists (MVCC_READ_CONFLICT `min` PHANTOM_READ_CONFLICT). setoid_rewrite validation_mvcc.
    split_and!; [|lia|done|intros k _ [-> | ->]; lia].
    destruct (Z.min_spec MVCC_READ_CONFLICT PHANTOM_READ_CONFLICT) as [[_ ->]|[_ ->]];
      apply vc_named; set_solver.
Qed.

(** Every code in the Fabric table reads back as the status it is listed under; the
    three outcomes of a validator have the codes VALID, NOT_VALIDATED and the
    smaller of the two read-conflict codes. *)
Theorem fabric_CodesByStatus_roundtrip {V : ValidationCodes} (VL : ValidationCodesLaws V) :
  (∀ s c, fabric_CodesByStatus !! s = Some c → status_of (StatusFromValidationCode c) = s) ∧
  fabric_CodesByStatus !! StatusCommitted = Some VALID ∧
  fabric_CodesByStatus !! StatusUnknown = Some NOT_VALIDATED ∧
  fabric_CodesByStatus !! StatusMVCCConflict = Some (MVCC_READ_CONFLICT `min` PHANTOM_READ_CONFLICT).
Proof. exact (fabric_codes_read_back VL). Qed.

Instance fabric_codes_laws : ValidationCodesLaws fabric_codes.
Proof. split; [by apply (bool_decide_unpack _)|]. apply Forall_forall. by apply (bool_decide_unpack _). Qed.

Lemma fabric_CodesByStatus_roundtrip_witness :
  @fabric_CodesByStatus fabric_codes !! StatusMVCCConflict = Some 11.
Proof. apply (fabric_CodesByStatus_roundtrip fabric_codes_laws). Defined.

Lemma fabricx_codes_read_back {V : CommitterCodes} (VL : CommitterCodesLaws V) :
  (∀ s c, fabricx_CodesByStatus !! s = Some c → status_of (StatusFromCommitterStatus c) = s) ∧
  fabricx_CodesByStatus !! StatusCommitted = Some COMMITTED ∧
  fabricx_CodesByStatus !! StatusUnknown = Some STATUS_UNSPECIFIED ∧
  fabricx_CodesByStatus !! StatusMVCCConflict = Some ABORTED_MVCC_CONFLICT.
Proof.
  unfold fabricx_CodesByStatus. split; [|split_and!]; setoid_rewrite CodesByStatus_lookup.
  { by intros s c (k & _ & <- & <- & _). }
  1: exists COMMITTED. 2: exists STATUS_UNSPECIFIED. 3: exists ABORTED_MVCC_CONFLICT.
  all: split_and!; [apply cc_named; set_solver|apply committer_status; auto 6|done|].
  all: intros k _ Hk%committer_status; enough (k = _) as -> by reflexivity.
  all: decompose [and or] Hk; done.
Qed.

(** The same for the sidecar table, whose three validator outcomes are
    COMMITTED, STATUS_UNSPECIFIED and ABORTED_MVCC_CONFLICT. *)
Theorem fabricx_CodesByStatus_roundtrip {V : CommitterCodes} (VL : CommitterCodesLaws V) :
  (∀ s c, fabricx_CodesByStatus !! s = Some c → status_of (StatusFromCommitterStatus c) = s) ∧
  fabricx_CodesByStatus !! StatusCommitted = Some COMMITTED ∧
  fabricx_CodesByStatus !! StatusUnknown = Some STATUS_UNSPECIFIED ∧
  fabricx_CodesByStatus !! StatusMVCCConflict = Some ABORTED_MVCC_CONFLICT.
Proof. exact (fabricx_codes_read_back VL). Qed.

Instance committer_codes_laws : CommitterCodesLaws committer_codes.
Proof.
  split; [by apply (bool_decide_unpack _)| |done|];
    apply Forall_forall; by apply (bool_decide_unpack _).
Qed.

Lemma fabricx_CodesByStatus_roundtrip_witness :
  @fabricx_CodesByStatus committer_codes !! StatusMVCCConflict = Some 3.
Proof. apply (fabricx_CodesByStatus_roundtrip committer_codes_laws). Defined.

(** A named sidecar code is in the expansion of a filter exactly when the
    filter lists the status the code decodes to, an endorsement-policy failure
    standing for an invalid signature and [StatusUnrecognized] for nothing. *)
Theorem toProtoFilterStatus_exact {V : CommitterCodes} (VL : CommitterCodesLaws V) statuses c :
  c ∈ dom Status_name →
  c ∈ toProtoFilterStatus statuses ↔
  ∃ s, s ∈ statuses ∧ s ≠ StatusUnrecognized ∧
    (status_of (StatusFromCommitterStatus c) = s ∨
     s = StatusEndorsementPolicyFailure ∧
     status_of (StatusFromCommitterStatus c) = StatusInvalidSignature).
Proof.
  intros Hc. unfold toProtoFilterStatus. rewrite list_elem_of_bind.
  setoid_rewrite (filter_codes_spec _ _ Hc). naive_solver.
Qed.

Lemma toProtoFilterStatus_exact_witness :
  102 ∈ @toProtoFilterStatus committer_codes [StatusMalformed].
Proof.
  apply (toProtoFilterStatus_exact committer_codes_laws); [by apply (bool_decide_unpack _)|].
  exists StatusMalformed. split_and!; [set_solver|done|by left].
Defined.

(** A filter that lists [StatusUnrecognized] alone expands to the empty code
    list, which the stream reads as "no filter": every transaction matches,
    although the request's documentation says such a filter matches nothing. *)
Theorem filter_unrecognized_matches_everything {V : CommitterCodes} (code : Z) :
  toProtoFilterStatus [StatusUnrecognized] = [] ∧
  statusMatches code (toProtoFilterStatus [StatusUnrecognized]) = true.
Proof. done. Qed.
