(* ===== verification/Mvcc.v ===== *)
(** * The MVCC validator

    [MVCCValidator] (blocks/mvcc.go) with the constructors of the two ledgers
    (blocks/fabric/mvcc.go, blocks/fabricx/mvcc.go), a reference semantics of
    MVCC validation over (namespace, key) pairs, and the theorems that relate
    them. *)

From S2P Require Import Prelude Blocks Status.

Definition UncustomizedCode : Z := 99.

Record MVCCValidator := MkMVCCValidator {
  mv_db : RecordGetter;
  mv_Codes : gmap Z Z;
  mv_monotonicVersions : bool;
  mv_pendingWrites : gset string }.

Definition NewMVCCValidator (db : RecordGetter) (monotonicVersions : bool) : MVCCValidator :=
  {| mv_db := db; mv_Codes := ∅; mv_monotonicVersions := monotonicVersions;
     mv_pendingWrites := ∅ |}.

Definition fabric_NewMVCCValidator `{ValidationCodes} (db : RecordGetter) : MVCCValidator :=
  let v := NewMVCCValidator db false in
  {| mv_db := mv_db v; mv_Codes := fabric_CodesByStatus;
     mv_monotonicVersions := mv_monotonicVersions v; mv_pendingWrites := mv_pendingWrites v |}.

Definition fabricx_NewMVCCValidator `{CommitterCodes} (db : RecordGetter) : MVCCValidator :=
  let v := NewMVCCValidator db true in
  {| mv_db := mv_db v; mv_Codes := fabricx_CodesByStatus;
     mv_monotonicVersions := mv_monotonicVersions v; mv_pendingWrites := mv_pendingWrites v |}.

(** A read of a missing map entry, the nil map included, misses. *)
Definition codeFor (l : MVCCValidator) (status : Status) : Z :=
  match mv_Codes l !! status with
  | Some code => code
  | None => UncustomizedCode
  end.

(** The key [ns + ":" + key] of the pending-writes set. *)
Definition pending_key (ns key : string) : string := join_key colon ns key.

(** ** checkNs

    The first loop looks for a read of a key that an earlier transaction of
    the block wrote; the second compares each read with the committed record,
    a tombstone counting as no record. *)

Fixpoint check_pending (l : MVCCValidator) (ns : string) (reads : list KVRead) : option text :=
  match reads with
  | [] => None
  | r :: reads' =>
      if bool_decide (pending_key ns (rd_Key r) ∈ mv_pendingWrites l)
      then Some (Sprintf "key %q was already written earlier in this block" [AStr (rd_Key r)])
      else check_pending l ns reads'
  end.

(** [rec != nil && rec.IsDelete] makes [rec] nil. *)
Definition live_record (rec : option WriteRecord) : option WriteRecord :=
  match rec with
  | Some rc => if rec_IsDelete rc then None else Some rc
  | None => None
  end.

Fixpoint check_committed (l : MVCCValidator) (ns : string) (reads : list KVRead)
    : Status * text * option error :=
  match reads with
  | [] => (StatusCommitted, Lit "", None)
  | r :: reads' =>
      match mv_db l ns (rd_Key r) with
      | Fail err =>
          (StatusUnknown, Lit "", Some (Wrapf "failed to get state for key %q: %v" [AStr (rd_Key r)] err))
      | Ret rec =>
          match live_record rec, rd_Version r with
          | None, None => check_committed l ns reads'
          | None, Some v =>
              (StatusMVCCConflict,
               Sprintf "key %q: expected version %d:%d, but key does not exist"
                 [AStr (rd_Key r); AInt (ver_BlockNum v); AInt (ver_TxNum v)], None)
          | Some _, None =>
              (StatusMVCCConflict,
               Sprintf "key %q: expected no existing record, but one exists" [AStr (rd_Key r)], None)
          | Some rc, Some v =>
              if mv_monotonicVersions l then
                if negb (rec_Version rc =? ver_BlockNum v) then
                  (StatusMVCCConflict,
                   Sprintf "key %q: read version=%d, blockchain version=%d"
                     [AStr (rd_Key r); AInt (ver_BlockNum v); AInt (rec_Version rc)], None)
                else check_committed l ns reads'
              else
                if negb (rec_BlockNum rc =? ver_BlockNum v) || negb (rec_TxNum rc =? ver_TxNum v) then
                  (StatusMVCCConflict,
                   Sprintf "key %q: read version=%d:%d, blockchain version=%d:%d"
                     [AStr (rd_Key r); AInt (ver_BlockNum v); AInt (ver_TxNum v);
                      AInt (rec_BlockNum rc); AInt (rec_TxNum rc)], None)
                else check_committed l ns reads'
          end
      end
  end.

Definition checkNs (l : MVCCValidator) (ns : string) (reads : list KVRead)
    : Status * text * option error :=
  match check_pending l ns reads with
  | Some reason => (StatusMVCCConflict, reason, None)
  | None => check_committed l ns reads
  end.

(** ** Validate *)

(** The inner loop over the namespaces of one transaction, which breaks at the
    first error or status other than committed. *)
Fixpoint check_namespaces (l : MVCCValidator) (nsrws : list NsReadWriteSet)
    : Status * text * option error :=
  match nsrws with
  | [] => (StatusCommitted, Lit "", None)
  | n :: nsrws' =>
      match checkNs l (ns_Namespace n) (rws_Reads (ns_RWS n)) with
      | (s, _, Some err) => (s, ErrorText err, Some err)
      | (s, r, None) => if negb (s =? StatusCommitted) then (s, r, None) else check_namespaces l nsrws'
      end
  end.

Definition with_pending (l : MVCCValidator) (p : gset string) : MVCCValidator :=
  {| mv_db := mv_db l; mv_Codes := mv_Codes l; mv_monotonicVersions := mv_monotonicVersions l;
     mv_pendingWrites := p |}.

(** The pending keys of a valid transaction. *)
Definition add_pending (p : gset string) (nsrws : list NsReadWriteSet) : gset string :=
  foldl (λ p n, foldl (λ p w, {[ pending_key (ns_Namespace n) (wr_Key w) ]} ∪ p)
                      p (rws_Writes (ns_RWS n))) p nsrws.

(** The loop over the transactions.  [txs] are the transactions not reached
    yet; the result holds the validator, those transactions after the in-place
    updates, their part of the filter (zero where the loop did not reach), and
    the error that ended the loop. *)
Fixpoint validate_loop (l : MVCCValidator) (txs : list Transaction)
    : MVCCValidator * list Transaction * list Z * option error :=
  match txs with
  | [] => (l, [], [], None)
  | tx :: txs' =>
      let '(status, reason, vErr) := check_namespaces l (tx_NsRWS tx) in
      let code := codeFor l status in
      if (code <? 0) || (255 <? code) then
        (l, tx :: txs', replicate (length (tx :: txs')) 0,
         Some (Errorf "validation code %d for status %v does not fit in a transaction filter byte"
                 [AInt code; AInt status]))
      else
        let tx' := SetStatus tx status code reason in
        match vErr with
        | Some err => (l, tx' :: txs', code :: replicate (length txs') 0, Some err)
        | None =>
            let l' := if status =? StatusCommitted
                      then with_pending l (add_pending (mv_pendingWrites l) (tx_NsRWS tx)) else l in
            let '(l'', done, filt, err) := validate_loop l' txs' in
            (l'', tx' :: done, code :: filt, err)
        end
  end.

Definition Validate (l : MVCCValidator) (block : Block)
    : MVCCValidator * Block * list Z * option error :=
  let '(l', txs, txFilter, err) := validate_loop (with_pending l ∅) (blk_Transactions block) in
  (l', SetTransactions block txs, txFilter, err).

(** ** Reference semantics

    MVCC over the committed records [view] and the set of (namespace, key)
    pairs that earlier valid transactions of the block wrote. *)

Definition read_matches (mono : bool) (rec : option WriteRecord) (r : KVRead) : bool :=
  match live_record rec, rd_Version r with
  | None, None => true
  | Some rc, Some v =>
      if mono then rec_Version rc =? ver_BlockNum v
      else (rec_BlockNum rc =? ver_BlockNum v) && (rec_TxNum rc =? ver_TxNum v)
  | _, _ => false
  end.

Section Spec.
Context (view : string → string → option WriteRecord) (mono : bool).

Definition read_ok (written : gset (string * string)) (nr : string * KVRead) : bool :=
  bool_decide ((nr.1, rd_Key nr.2) ∉ written) && read_matches mono (view nr.1 (rd_Key nr.2)) nr.2.

Definition spec_tx (written : gset (string * string)) (tx : Transaction) : bool :=
  forallb (read_ok written) (tx_reads tx).

Fixpoint spec_validate (written : gset (string * string)) (txs : list Transaction) : list bool :=
  match txs with
  | [] => []
  | tx :: txs' =>
      let ok := spec_tx written tx in
      ok :: spec_validate (if ok then list_to_set (tx_writes tx) ∪ written else written) txs'
  end.
End Spec.

(** No namespace of the block contains the separator of the pending keys. *)
Definition namespaces_ok (txs : list Transaction) : bool :=
  forallb (λ tx, forallb (λ n, string_free colon (ns_Namespace n)) (tx_NsRWS tx)) txs.

Definition byte_code (c : Z) : Prop := 0 ≤ c ≤ 255.

(** ** Lemmas on the loops *)

Lemma check_pending_None l ns reads :
  check_pending l ns reads = None ↔
  ∀ r, r ∈ reads → pending_key ns (rd_Key r) ∉ mv_pendingWrites l.
Proof.
  induction reads as [|r reads IH]; simpl; [set_solver|].
  case_bool_decide; [set_solver|]. rewrite IH. set_solver.
Qed.

(** With a store that answers every read, the second loop ends in committed
    exactly when every read matches, and in a conflict otherwise. *)
Lemma check_committed_spec l view ns reads :
  (∀ n k, mv_db l n k = Ret (view n k)) →
  ∃ reason, check_committed l ns reads =
    (if forallb (λ r, read_matches (mv_monotonicVersions l) (view ns (rd_Key r)) r) reads
     then StatusCommitted else StatusMVCCConflict, reason, None).
Proof.
  intros Hdb. induction reads as [|r reads [reason IH]]; simpl; [eauto|].
  rewrite Hdb. unfold read_matches at 1.
  destruct (live_record _) as [rc|], (rd_Version r) as [v|]; simpl; eauto.
  destruct (mv_monotonicVersions l).
  - destruct (rec_Version rc =? ver_BlockNum v); simpl; eauto.
  - destruct (rec_BlockNum rc =? ver_BlockNum v), (rec_TxNum rc =? ver_TxNum v); simpl; eauto.
Qed.

(** Whatever the store answers, committed without an error means that every
    read matched the record it got. *)
Lemma check_committed_sound l ns reads reason :
  check_committed l ns reads = (StatusCommitted, reason, None) →
  ∀ r, r ∈ reads → ∃ rec, mv_db l ns (rd_Key r) = Ret rec ∧
    read_matches (mv_monotonicVersions l) rec r = true.
Proof.
  induction reads as [|r reads IH]; simpl; [by intros _ r ?%elem_of_nil|].
  intros H r'. rewrite elem_of_cons. unfold read_matches in *.
  destruct (mv_db l ns (rd_Key r)) as [rec|] eqn:Hrec; [|done].
  destruct (live_record rec) as [rc|] eqn:Hl, (rd_Version r) as [v|] eqn:Hv;
    try discriminate H; [destruct (mv_monotonicVersions l)|].
  - destruct (rec_Version rc =? ver_BlockNum v) eqn:?; [|done].
    intros [->|?]; [exists rec; by rewrite Hl, Hv|auto].
  - destruct (rec_BlockNum rc =? _) eqn:E1, (rec_TxNum rc =? _) eqn:E2; try discriminate H.
    intros [->|?]; [exists rec; by rewrite Hl, Hv, E1, E2|auto].
  - intros [->|?]; [exists rec; by rewrite Hl, Hv|auto].
Qed.

(** An error comes with the unknown status. *)
Lemma check_committed_status l ns reads s reason e :
  check_committed l ns reads = (s, reason, Some e) → s = StatusUnknown.
Proof. induction reads; simpl; [done|]. repeat case_match; naive_solver. Qed.

Lemma elem_of_add_pending p nsrws k :
  k ∈ add_pending p nsrws ↔
  k ∈ p ∨ ∃ n w, n ∈ nsrws ∧ w ∈ rws_Writes (ns_RWS n) ∧ k = pending_key (ns_Namespace n) (wr_Key w).
Proof.
  unfold add_pending. revert p. induction nsrws as [|n nsrws IH]; intros p; simpl; [set_solver|].
  rewrite IH. assert (∀ ws p, k ∈ foldl (λ p w, {[pending_key (ns_Namespace n) (wr_Key w)]} ∪ p) p ws ↔
    k ∈ p ∨ ∃ w, w ∈ ws ∧ k = pending_key (ns_Namespace n) (wr_Key w)) as ->.
  { clear. induction ws as [|w ws IH]; intros p; simpl; [set_solver|]. rewrite IH. set_solver. }
  set_solver.
Qed.

(** [pending] holds the composed keys of the pairs in [written]. *)
Definition pending_rel (pending : gset string) (written : gset (string * string)) : Prop :=
  ∀ ns k, string_free colon ns = true → pending_key ns k ∈ pending ↔ (ns, k) ∈ written.

Lemma pending_rel_add pending written tx :
  forallb (λ n, string_free colon (ns_Namespace n)) (tx_NsRWS tx) = true →
  pending_rel pending written →
  pending_rel (add_pending pending (tx_NsRWS tx)) (list_to_set (tx_writes tx) ∪ written).
Proof.
  rewrite forallb_forall. intros Hns Hrel ns k Hf.
  rewrite elem_of_add_pending, elem_of_union, elem_of_list_to_set, elem_of_tx_writes, (Hrel ns k Hf).
  split; [|naive_solver]. intros [?|(n & w & Hn & Hw & Heq)]; [auto|left].
  assert (string_free colon (ns_Namespace n) = true) as Hf' by (by apply Hns, list_elem_of_In).
  destruct (join_key_inj _ _ _ _ _ Hf Hf' Heq) as [-> ->]. eauto 6.
Qed.

Lemma checkNs_spec l view ns reads written :
  (∀ n k, mv_db l n k = Ret (view n k)) →
  string_free colon ns = true → pending_rel (mv_pendingWrites l) written →
  ∃ reason, checkNs l ns reads =
    (if forallb (λ r, read_ok view (mv_monotonicVersions l) written (ns, r)) reads
     then StatusCommitted else StatusMVCCConflict, reason, None).
Proof.
  intros Hdb Hf Hrel. unfold checkNs.
  destruct (check_pending l ns reads) as [t|] eqn:Hp.
  - exists t. destruct (forallb _ reads) eqn:E; [|done].
    enough (check_pending l ns reads = None) by congruence.
    apply check_pending_None. intros r Hr%list_elem_of_In.
    rewrite forallb_forall in E. specialize (E r Hr). unfold read_ok in E. bool_to_prop. simpl in *.
    by rewrite (Hrel _ _ Hf).
  - rewrite check_pending_None in Hp. destruct (check_committed_spec l view ns reads Hdb) as [reason ->].
    exists reason. erewrite forallb_ext_in; [done|]. intros r Hr. unfold read_ok. simpl.
    rewrite bool_decide_true; [done|]. rewrite <- (Hrel _ _ Hf). by apply Hp.
Qed.

Lemma check_namespaces_spec l view tx written :
  (∀ n k, mv_db l n k = Ret (view n k)) →
  forallb (λ n, string_free colon (ns_Namespace n)) (tx_NsRWS tx) = true →
  pending_rel (mv_pendingWrites l) written →
  ∃ reason, check_namespaces l (tx_NsRWS tx) =
    (if spec_tx view (mv_monotonicVersions l) written tx
     then StatusCommitted else StatusMVCCConflict, reason, None).
Proof.
  intros Hdb Hns Hrel. unfold spec_tx, tx_reads.
  induction (tx_NsRWS tx) as [|n nsrws IH]; simpl in *; [eauto|].
  apply andb_true_iff in Hns as [Hn Hns].
  destruct (checkNs_spec l view (ns_Namespace n) (rws_Reads (ns_RWS n)) written Hdb Hn Hrel) as [reason ->].
  rewrite forallb_app. rewrite forallb_fmap. unfold compose at 1.
  destruct (forallb (λ r, read_ok _ _ _ _) (rws_Reads _)); simpl; eauto.
Qed.

(** Nothing but the status fields of a transaction changes. *)
Definition same_body (tx tx' : Transaction) : Prop :=
  tx' = SetStatus tx (tx_Status tx') (tx_RawCode tx') (tx_Reason tx').

Lemma same_body_refl tx : same_body tx tx.
Proof. by destruct tx. Qed.

Lemma same_body_writes tx tx' : same_body tx tx' → tx_writes tx' = tx_writes tx.
Proof. by intros ->. Qed.

Lemma validate_loop_spec l view written txs :
  (∀ n k, mv_db l n k = Ret (view n k)) →
  byte_code (codeFor l StatusCommitted) → byte_code (codeFor l StatusMVCCConflict) →
  namespaces_ok txs = true → pending_rel (mv_pendingWrites l) written →
  ∃ l' txs', let spec := spec_validate view (mv_monotonicVersions l) written txs in
    validate_loop l txs =
      (l', txs', (λ ok : bool, codeFor l (if ok then StatusCommitted else StatusMVCCConflict)) <$> spec, None) ∧
    Transaction_Valid <$> txs' = spec ∧ Forall2 same_body txs txs'.
Proof.
  revert l written. induction txs as [|tx txs IH]; intros l written Hdb Hc Hm Hns Hrel; simpl.
  { exists l, []. by repeat constructor. }
  apply andb_true_iff in Hns as [Hns1 Hns2].
  destruct (check_namespaces_spec l view tx written Hdb Hns1 Hrel) as [reason ->].
  set (ok := spec_tx _ _ _ _). simpl.
  assert (byte_code (codeFor l (if ok then StatusCommitted else StatusMVCCConflict))) as [Hlo Hhi]
    by (by destruct ok).
  rewrite (proj2 (Z.ltb_ge _ _) Hlo), (proj2 (Z.ltb_ge _ _) Hhi). simpl.
  set (l1 := if _ =? _ then _ else l).
  destruct (IH l1 (if ok then list_to_set (tx_writes tx) ∪ written else written))
    as (l' & txs' & Heq & Hval & Hbody); [by destruct ok..|done| |].
  { destruct ok; [by apply pending_rel_add|done]. }
  assert (mv_monotonicVersions l1 = mv_monotonicVersions l ∧ codeFor l1 = codeFor l) as [Hmono Hcode]
    by (by destruct ok).
  rewrite Hmono, Hcode in *. rewrite Heq.
  eexists _, _. split_and!; [done| |by constructor].
  csimpl. rewrite Hval. f_equal. by destruct ok.
Qed.

Lemma check_namespaces_sound l nsrws reason err :
  check_namespaces l nsrws = (StatusCommitted, reason, err) → ∀ n r,
  n ∈ nsrws → r ∈ rws_Reads (ns_RWS n) →
  (∃ rec, mv_db l (ns_Namespace n) (rd_Key r) = Ret rec ∧
     read_matches (mv_monotonicVersions l) rec r = true) ∧
  pending_key (ns_Namespace n) (rd_Key r) ∉ mv_pendingWrites l.
Proof.
  induction nsrws as [|m ms IH]; simpl; [by intros _ n r ?%elem_of_nil|].
  unfold checkNs. destruct (check_pending l _ _) eqn:Hp; [done|].
  destruct (check_committed l _ _) as [[s q] [e|]] eqn:E; simpl.
  - intros [= -> _ _]. by apply check_committed_status in E.
  - destruct (Z.eqb_spec s StatusCommitted) as [->|]; simpl; [|congruence].
    intros Hck n r [->|Hn]%elem_of_cons Hr; [|by eapply IH].
    split; [by eapply check_committed_sound|]. rewrite check_pending_None in Hp. auto.
Qed.

Lemma validate_loop_sound l txs l' txs' filt :
  validate_loop l txs = (l', txs', filt, None) →
  ∀ i tx' ns r, txs' !! i = Some tx' → Transaction_Valid tx' = true → (ns, r) ∈ tx_reads tx' →
  (∃ rec, mv_db l ns (rd_Key r) = Ret rec ∧ read_matches (mv_monotonicVersions l) rec r = true) ∧
  pending_key ns (rd_Key r) ∉ mv_pendingWrites l ∧
  ∀ j txj, (j < i)%nat → txs' !! j = Some txj → Transaction_Valid txj = true →
    (ns, rd_Key r) ∉ tx_writes txj.
Proof.
  revert l l' txs' filt. induction txs as [|tx txs IH]; simpl.
  { by intros l l' txs' filt [= <- <- <-]. }
  intros l l' txs' filt. destruct (check_namespaces l (tx_NsRWS tx)) as [[s reason] vErr] eqn:Hck.
  destruct (_ || _); [done|]. destruct vErr as [e|]; [done|].
  set (l1 := if s =? StatusCommitted then _ else l).
  destruct (validate_loop l1 txs) as [[[l2 done'] filt'] err] eqn:Hloop.
  intros [= <- <- <- ->] i tx' ns r Hi Hvalid Hr.
  assert (mv_db l1 = mv_db l ∧ mv_monotonicVersions l1 = mv_monotonicVersions l) as [Hdb Hmono]
    by (unfold l1; by destruct (s =? _)).
  destruct i as [|i]; simpl in Hi.
  - injection Hi as <-. unfold Transaction_Valid in Hvalid. simpl in Hvalid.
    apply Status_Valid_committed in Hvalid as ->.
    apply elem_of_tx_reads in Hr as (n & Hn & -> & Hr). simpl in Hn.
    destruct (check_namespaces_sound l _ _ _ Hck n r Hn Hr) as [Hrec Hp].
    split_and!; [done..|]. intros j ? ?; lia.
  - destruct (IH _ _ _ _ Hloop i tx' ns r Hi Hvalid Hr) as (Hrec & Hpend & Hprev).
    rewrite Hdb, Hmono in Hrec. split_and!; [done| |].
    + unfold l1 in Hpend. destruct (s =? _); [|done]. simpl in Hpend.
      rewrite elem_of_add_pending in Hpend. naive_solver.
    + intros [|j] txj Hj; simpl; [|apply Hprev; lia].
      intros [= <-] Hv (n & w & Hn & Hw & -> & Hk)%elem_of_tx_writes. simpl in Hn.
      unfold Transaction_Valid, Status_Valid in Hv. simpl in Hv.
      unfold l1 in Hpend. rewrite Hv in Hpend. simpl in Hpend.
      apply Hpend, elem_of_add_pending. right. exists n, w. by rewrite Hk.
Qed.

Lemma validate_loop_frame l txs l' txs' filt err :
  validate_loop l txs = (l', txs', filt, err) →
  length filt = length txs ∧ Forall byte_code filt ∧ Forall2 same_body txs txs' ∧
  (err ≠ None → ∃ i, (i < length txs)%nat ∧ ∀ j, (i < j < length txs)%nat →
     txs' !! j = txs !! j ∧ filt !! j = Some 0).
Proof.
  assert (∀ n, Forall byte_code (replicate n 0)) as Hz.
  { intros n. apply Forall_replicate. by split. }
  assert (∀ l, Forall2 same_body l l) as Hrefl.
  { intros m. induction m; constructor; auto using same_body_refl. }
  revert l l' txs' filt err. induction txs as [|tx txs IH]; simpl; intros l l' txs' filt err.
  { intros [= <- <- <- <-]. by repeat constructor. }
  destruct (check_namespaces l (tx_NsRWS tx)) as [[s reason] vErr].
  destruct (_ || _) eqn:Hcode.
  { intros [= <- <- <- <-]. simpl. rewrite length_replicate.
    split_and!; [done|by apply (Hz (S _))|done|]. intros _. exists 0%nat. split; [lia|].
    intros j Hj. split; [done|]. destruct j; [lia|]. apply lookup_replicate_2. simpl. lia. }
  bool_to_prop. assert (byte_code (codeFor l s)) by done.
  destruct vErr as [e|].
  { intros [= <- <- <- <-]. simpl. rewrite length_replicate.
    split_and!; [done|by constructor|by constructor|]. intros _. exists 0%nat. split; [lia|].
    intros [|j] Hj; [lia|]. split; [done|]. apply lookup_replicate_2. lia. }
  set (l1 := if s =? StatusCommitted then _ else l).
  destruct (validate_loop l1 txs) as [[[l2 done'] filt'] err'] eqn:Hloop.
  intros [= <- <- <- <-]. destruct (IH _ _ _ _ _ Hloop) as (Hlen & ? & ? & Herr).
  split_and!; [simpl; congruence|by constructor|by constructor|]. intros [i [Hi Hj]]%Herr.
  exists (S i). split; [simpl; lia|]. intros [|j] Hij; [lia|]. apply Hj. simpl in *. lia.
Qed.

(** Without an error every check ends in one of two statuses. *)
Definition decided (s : Status) : Prop := s = StatusCommitted ∨ s = StatusMVCCConflict.

Lemma check_committed_decided l ns reads s reason :
  check_committed l ns reads = (s, reason, None) → decided s.
Proof. unfold decided. induction reads; simpl; [naive_solver|]. repeat case_match; naive_solver. Qed.

Lemma check_namespaces_decided l nsrws s reason :
  check_namespaces l nsrws = (s, reason, None) → decided s.
Proof.
  unfold decided. induction nsrws as [|n nsrws IH]; simpl; [naive_solver|]. unfold checkNs.
  destruct (check_pending _ _ _) as [r|]; simpl; [naive_solver|].
  destruct (check_committed _ _ _) as [[s' r'] [e|]] eqn:E; [done|].
  destruct (negb _); [|done]. intros [= <- <-]. by eapply check_committed_decided.
Qed.

(** What a validated transaction and its filter entry say is the same. *)
Lemma validate_loop_codes l txs l' txs' filt :
  validate_loop l txs = (l', txs', filt, None) →
  filt = (λ tx, codeFor l (tx_Status tx)) <$> txs' ∧
  Forall (λ tx, decided (tx_Status tx) ∧ tx_RawCode tx = codeFor l (tx_Status tx)) txs'.
Proof.
  revert l l' txs' filt. induction txs as [|tx txs IH]; simpl; intros l l' txs' filt; [by intros [= <- <- <-]|].
  destruct (check_namespaces l (tx_NsRWS tx)) as [[s reason] [e|]] eqn:Hc; destruct (_ || _); try done.
  set (l1 := if s =? StatusCommitted then _ else l).
  destruct (validate_loop l1 txs) as [[[l2 txs2] filt2] err2] eqn:Hloop.
  intros [= <- <- <- ->]. destruct (IH _ _ _ _ Hloop) as [-> Hall].
  assert (∀ s, codeFor l1 s = codeFor l s) as Hl1 by (intros s'; unfold l1; by destruct (s =? _)).
  split.
  - csimpl. f_equal. apply list_fmap_ext. intros i tx' _. apply Hl1.
  - constructor; [split; [by eapply check_namespaces_decided|done]|].
    eapply Forall_impl; [exact Hall|]. simpl. intros tx'. by rewrite Hl1.
Qed.

Lemma Validate_codes l block l' block' filt :
  Validate l block = (l', block', filt, None) →
  block' = SetTransactions block (blk_Transactions block') ∧
  Forall2 same_body (blk_Transactions block) (blk_Transactions block') ∧
  filt = (λ tx, codeFor l (tx_Status tx)) <$> blk_Transactions block' ∧ Forall byte_code filt ∧
  Forall (λ tx, decided (tx_Status tx) ∧ tx_RawCode tx = codeFor l (tx_Status tx)) (blk_Transactions block').
Proof.
  unfold Validate. destruct (validate_loop _ _) as [[[? txs] filt'] err] eqn:E. intros [= <- <- <- ->].
  destruct (validate_loop_codes _ _ _ _ _ E) as [Hf Hall].
  destruct (validate_loop_frame _ _ _ _ _ _ E) as (_ & Hb & Hs & _). by split_and!.
Qed.

(** ** The validator against the reference semantics *)

(** C3: on a block whose namespaces do not contain ":", with a store that answers
    every read and codes that fit in a byte, [Validate] returns no error, marks
    exactly the transactions that the reference semantics accepts as committed,
    changes nothing but status fields, and the filter carries the configured code
    of each outcome.  In that semantics a read without a version is accepted
    exactly when the key has no live record. *)
Theorem Validate_refines_spec l view block :
  (∀ n k, mv_db l n k = Ret (view n k)) →
  byte_code (codeFor l StatusCommitted) → byte_code (codeFor l StatusMVCCConflict) →
  namespaces_ok (blk_Transactions block) = true →
  let spec := spec_validate view (mv_monotonicVersions l) ∅ (blk_Transactions block) in
  ∃ l' block', Validate l block =
      (l', block', (λ ok : bool, codeFor l (if ok then StatusCommitted else StatusMVCCConflict)) <$> spec, None) ∧
    Transaction_Valid <$> blk_Transactions block' = spec ∧
    Forall2 same_body (blk_Transactions block) (blk_Transactions block') ∧
    block' = SetTransactions block (blk_Transactions block').
Proof.
  intros Hdb Hc Hm Hns spec.
  destruct (validate_loop_spec (with_pending l ∅) view ∅ (blk_Transactions block))
    as (l' & txs' & Heq & Hval & Hbody); [done..| |].
  { intros ns k _. set_solver. }
  exists l', (SetTransactions block txs'). unfold Validate. by rewrite Heq.
Qed.

(** Whatever the namespaces and the store, when [Validate] returns no error every
    transaction it marks committed read the record the store has for each key
    it read, and no earlier transaction marked committed in the same block
    wrote any of those keys. *)
Theorem Validate_sound l block l' block' txFilter i tx ns r :
  Validate l block = (l', block', txFilter, None) →
  blk_Transactions block' !! i = Some tx → Transaction_Valid tx = true → (ns, r) ∈ tx_reads tx →
  (∃ rec, mv_db l ns (rd_Key r) = Ret rec ∧ read_matches (mv_monotonicVersions l) rec r = true) ∧
  ∀ j txj, (j < i)%nat → blk_Transactions block' !! j = Some txj → Transaction_Valid txj = true →
    (ns, rd_Key r) ∉ tx_writes txj.
Proof.
  unfold Validate. destruct (validate_loop _ _) as [[[? ?] ?] ?] eqn:E. intros [= <- <- <- ->] Hi Hv Hr.
  by destruct (validate_loop_sound _ _ _ _ _ E i tx ns r Hi Hv Hr) as (? & _ & ?).
Qed.

(** The filter always has one byte-sized entry per transaction and only status
    fields change; after an error the transactions behind the failing one are
    untouched and their filter entries are zero. *)
Theorem Validate_frame l block l' block' txFilter err :
  Validate l block = (l', block', txFilter, err) →
  let txs := blk_Transactions block in
  let txs' := blk_Transactions block' in
  length txFilter = length txs ∧ Forall byte_code txFilter ∧ Forall2 same_body txs txs' ∧
  (err ≠ None → ∃ i, (i < length txs)%nat ∧ ∀ j, (i < j < length txs)%nat →
     txs' !! j = txs !! j ∧ txFilter !! j = Some 0).
Proof.
  unfold Validate. destruct (validate_loop _ _) as [[[? ?] ?] ?] eqn:E. intros [= <- <- <- <-].
  by apply (validate_loop_frame _ _ _ _ _ _ E).
Qed.

(** Concrete inputs: a store with one live key at block 3, and the transactions
    that read and write it. *)
Module Demo.

Definition record : WriteRecord := MkWriteRecord "cc" "k" 3 1 0 [] false "t0".
Definition view (ns k : string) : option WriteRecord :=
  if bool_decide (ns = "cc" ∧ k = "k") then Some record else None.
Definition db : RecordGetter := λ ns k, Ret (view ns k).

Definition tx (ns : string) (reads : list KVRead) (writes : list KVWrite) : Transaction :=
  {| tx_ID := "t"; tx_Number := 0; tx_InputArgs := []; tx_Status := StatusUnknown;
     tx_RawCode := 0; tx_Reason := Lit ""; tx_Event := []; tx_EventName := ""; tx_Payload := [];
     tx_NsRWS := [MkNsRWS ns (MkRWS reads writes)] |}.

Definition block (txs : list Transaction) : Block :=
  {| blk_Number := 4; blk_Hash := []; blk_ParentHash := []; blk_Timestamp := 0;
     blk_Transactions := txs; blk_ConfigTransaction := None |}.

(** Two transactions that read [k] at its version and write it, and one that
    reads a key that does not exist. *)
Definition read_write : Transaction :=
  tx "cc" [MkKVRead "k" (Some (MkVersion 3 1))] [MkKVWrite "k" false []].
Definition contended : Block :=
  block [read_write; read_write; tx "cc" [MkKVRead "absent" None] []].

End Demo.

Lemma Validate_refines_spec_witness :
  ∃ l' block', Validate (@fabric_NewMVCCValidator fabric_codes Demo.db) Demo.contended =
    (l', block', [0; 11; 0], None) ∧ Transaction_Valid <$> blk_Transactions block' = [true; false; true].
Proof.
  destruct (Validate_refines_spec (@fabric_NewMVCCValidator fabric_codes Demo.db) Demo.view Demo.contended)
    as (l' & block' & Heq & Hval & _); [done|by vm_compute..|].
  exists l', block'. split; [exact Heq|exact Hval].
Defined.

Lemma Validate_sound_witness :
  ("cc", "absent") ∉ tx_writes (SetStatus Demo.read_write StatusCommitted 0 (Lit "")).
Proof.
  eapply (Validate_sound (@fabric_NewMVCCValidator fabric_codes Demo.db) Demo.contended _ _ _ 2 _
    "cc" (MkKVRead "absent" None)) with (j := 0%nat);
    [vm_compute; reflexivity|reflexivity|reflexivity|by left|lia|reflexivity|reflexivity].
Defined.

Lemma Validate_frame_witness :
  ∃ l' block', Validate (@fabric_NewMVCCValidator fabric_codes (λ _ _, Fail (Errorf "io" []))) Demo.contended =
    (l', block', [254; 0; 0], Some (Wrapf "failed to get state for key %q: %v" [AStr "k"] (Errorf "io" []))) ∧
  length [254; 0; 0] = length (blk_Transactions Demo.contended).
Proof.
  eexists _, _. split; [vm_compute; reflexivity|].
  eapply (Validate_frame (@fabric_NewMVCCValidator fabric_codes (λ _ _, Fail (Errorf "io" [])))
            Demo.contended). vm_compute. reflexivity.
Defined.

(** The pending key [ns + ":" + key] is ambiguous once a namespace contains ":": two
    transactions on different keys of different namespaces share it, and the
    second is rejected as a conflict although the reference semantics accepts
    both. *)
Theorem pending_key_collision :
  let txs := [Demo.tx "a:b" [] [MkKVWrite "c" false []]; Demo.tx "a" [MkKVRead "b:c" None] []] in
  ∃ l' block' filt, Validate (NewMVCCValidator Demo.db false) (Demo.block txs) = (l', block', filt, None) ∧
    Transaction_Valid <$> blk_Transactions block' = [true; false] ∧
    spec_validate Demo.view false ∅ txs = [true; true].
Proof. eexists _, _, _. split_and!; vm_compute; reflexivity. Qed.
