(* ===== verification/WorldState.v ===== *)
(** * The versioned world state

    [VersionedDB] (state/db.go): an insert-only store of every version of every
    key on two SQL tables.  The tables are values, each SQL statement of the
    source is a function on them, and a call to the driver can fail at any
    point: [faults n] tells whether the [n]-th call of an update does. *)

From S2P Require Import Prelude Blocks.

(** ** The tables *)

(** A row of [worldstate]; the primary key is (channel, namespace, key,
    version_block, version_tx). *)
Record Row := MkRow {
  row_channel : string;
  row_namespace : string;
  row_key : string;
  row_block : Z;
  row_tx : Z;
  row_version : Z;
  row_value : bytes;
  row_is_delete : bool;
  row_tx_id : string }.

(** The two tables of the schema: [worldstate] in insertion order, and
    [channel_progress], whose primary key is the channel. *)
Record Backend := MkBackend {
  worldstate : list Row;
  channel_progress : gmap string Z }.

(** [init] on a new database: both tables exist and are empty. *)
Definition init : Backend := {| worldstate := []; channel_progress := ∅ |}.

Record VersionedDB := MkVersionedDB { channel : string }.

#[export] Instance Row_eq_dec : EqDecision Row.
Proof. solve_decision. Defined.

(** ** SQL statements *)

(** [WHERE channel=$1 AND namespace=$2 AND key=$3]. *)
Definition of_key (ch ns key : string) (r : Row) : Prop :=
  row_channel r = ch ∧ row_namespace r = ns ∧ row_key r = key.
#[export] Instance of_key_dec ch ns key r : Decision (of_key ch ns key r).
Proof. unfold of_key. apply _. Defined.

Definition primary_key (r : Row) : string * string * string * Z * Z :=
  (row_channel r, row_namespace r, row_key r, row_block r, row_tx r).

(** [SELECT MAX(version)]: no row gives NULL. *)
Definition max_version (rows : list Row) : option Z :=
  foldl (λ acc r, Some (match acc with Some m => m `max` row_version r | None => row_version r end))
    None rows.

(** [COALESCE((SELECT MAX(version) + 1 ...), 0)]. *)
Definition next_version (rows : list Row) (ch ns key : string) : Z :=
  match max_version (filter (of_key ch ns key) rows) with
  | Some m => m + 1
  | None => 0
  end.

(** The row with the primary key of [r]. *)
Definition find_row (rows : list Row) (r : Row) : option Row :=
  head (filter (λ r', primary_key r' = primary_key r) rows).

Definition set_version (r : Row) (v : Z) : Row :=
  {| row_channel := row_channel r; row_namespace := row_namespace r; row_key := row_key r;
     row_block := row_block r; row_tx := row_tx r; row_version := v; row_value := row_value r;
     row_is_delete := row_is_delete r; row_tx_id := row_tx_id r |}.

(** [INSERT ... ON CONFLICT DO NOTHING] of [r], whose version column is
    computed; the number is the rows affected. *)
Definition insert_row (rows : list Row) (r : Row) : Z * list Row :=
  match find_row rows r with
  | Some _ => (0, rows)
  | None => (1, rows ++ [set_version r (next_version rows (row_channel r) (row_namespace r) (row_key r))])
  end.

(** [INSERT INTO channel_progress ... ON CONFLICT DO UPDATE ... WHERE
    EXCLUDED.last_block > channel_progress.last_block]. *)
Definition upsert_progress (p : gmap string Z) (ch : string) (last_block : Z) : gmap string Z :=
  match p !! ch with
  | Some old => if old <? last_block then <[ch := last_block]> p else p
  | None => <[ch := last_block]> p
  end.

(** [ORDER BY version DESC LIMIT 1]. *)
Definition latest (rows : list Row) : option Row :=
  foldl (λ best r, match best with
                   | Some b => if row_version b <? row_version r then Some r else best
                   | None => Some r
                   end) None rows.

(** ** A SQL transaction

    A connection holds the committed tables and, between [BeginTx] and the end
    of the transaction, the working copy that its statements see and change.
    [Commit] makes the working copy the committed tables, [Rollback] drops it.
    The calls of an update form a state and error monad over the connection and
    the number of driver calls made; an error leaves the connection as it is at
    that moment. *)

Definition driver_error : error := Errorf "driver" [].
Definition high_bit_error : error := Errorf "uint64 values with high bit set are not supported" [].
Definition ErrNoRows : error := Errorf "sql: no rows in result set" [].
Definition ErrTxDone : error := Errorf "sql: transaction has already been committed or rolled back" [].
(** What database/sql answers on a handle that was closed. *)
Definition ErrDBClosed : error := Errorf "sql: database is closed" [].

Record sql_conn := MkSqlConn { sc_committed : Backend; sc_working : option Backend }.

Definition sql (A : Type) := sql_conn → nat → sql_conn * nat * result A.

#[export] Instance sql_ret : MRet sql := λ A a c n, (c, n, Ret a).
#[export] Instance sql_bind : MBind sql := λ A B f m c n,
  match m c n with (c', n', Ret a) => f a c' n' | (c', n', Fail e) => (c', n', Fail e) end.

Definition throw {A} (e : error) : sql A := λ c n, (c, n, Fail e).

Section Update.
Context (faults : nat → bool).

(** One driver call, whose error the caller wraps in [fmt]. *)
Definition call (fmt : string) : sql unit := λ c n,
  (c, S n, if faults n then Fail (Wrapf fmt [] driver_error) else Ret tt).

(** database/sql converts a [uint64] argument to [int64] and refuses one whose
    high bit is set. *)
Definition uint64_arg (fmt : string) (z : Z) : sql unit := λ c n,
  (c, n, if 2 ^ 63 <=? z then Fail (Wrapf fmt [] high_bit_error) else Ret tt).

(** A statement of the open transaction. *)
Definition in_tx {A} (f : Backend → A * Backend) : sql A := λ c n,
  match sc_working c with
  | None => (c, n, Fail ErrTxDone)
  | Some w => let '(a, w') := f w in (MkSqlConn (sc_committed c) (Some w'), n, Ret a)
  end.

Definition on_worldstate {A} (f : list Row → A * list Row) : sql A :=
  in_tx (λ w, let '(a, rows) := f (worldstate w) in
              (a, {| worldstate := rows; channel_progress := channel_progress w |})).

Definition on_progress (f : gmap string Z → gmap string Z) : sql unit :=
  in_tx (λ w, (tt, {| worldstate := worldstate w; channel_progress := f (channel_progress w) |})).

Definition start_copy : sql unit := λ c n, (MkSqlConn (sc_committed c) (Some (sc_committed c)), n, Ret tt).

Definition publish_copy : sql unit := λ c n,
  match sc_working c with
  | None => (c, n, Fail (Wrapf "commit batch insert: %w" [] ErrTxDone))
  | Some w => (MkSqlConn w None, n, Ret tt)
  end.

(** A call that fails has no effect. *)
Definition BeginTx : sql unit := call "begin batch insert: %w" ;; start_copy.
Definition Commit : sql unit := call "commit batch insert: %w" ;; publish_copy.

(** After a [Commit] there is nothing to drop. *)
Definition Rollback (c : sql_conn) : sql_conn := MkSqlConn (sc_committed c) None.

(** The row a write asks for; its version column is computed by the insert. *)
Definition row_of (ch : string) (bnum : Z) (tx : Transaction) (ns : string) (w : KVWrite) : Row :=
  {| row_channel := ch; row_namespace := ns; row_key := wr_Key w; row_block := bnum;
     row_tx := tx_Number tx; row_version := 0; row_value := wr_Value w;
     row_is_delete := wr_IsDelete w; row_tx_id := tx_ID tx |}.

(** [bytes.Equal], [is_delete] and [tx_id] of an existing row against a write. *)
Definition same_content (existing r : Row) : bool :=
  bool_decide (row_value existing = row_value r) &&
  Bool.eqb (row_is_delete existing) (row_is_delete r) &&
  bool_decide (row_tx_id existing = row_tx_id r).

Definition conflict_error (existing r : Row) : error :=
  Errorf "conflicting write at channel=%s namespace=%s key=%s block=%d tx=%d: existing (is_delete=%v tx_id=%s) differs from replayed (is_delete=%v tx_id=%s)"
    [AStr (row_channel r); AStr (row_namespace r); AStr (row_key r); AInt (row_block r); AInt (row_tx r);
     ABool (row_is_delete existing); AStr (row_tx_id existing); ABool (row_is_delete r); AStr (row_tx_id r)].

(** The body of the innermost loop of [UpdateWorldState]. *)
Definition write_row (r : Row) : sql unit :=
  uint64_arg "batch insert exec: %w" (row_block r) ;;
  call "batch insert exec: %w" ;;
  affected ← on_worldstate (λ rows, insert_row rows r);
  call "batch insert rows affected: %w" ;;
  if 0 <? affected then mret tt
  else
    call "check conflicting write: %w" ;;
    row ← on_worldstate (λ rows, (find_row rows r, rows));
    match row with
    | None => throw (Wrapf "check conflicting write: %w" [] ErrNoRows)
    | Some existing =>
        if same_content existing r then mret tt else throw (conflict_error existing r)
    end.

Fixpoint for_each {A} (f : A → sql unit) (l : list A) : sql unit :=
  match l with
  | [] => mret tt
  | a :: l' => f a ;; for_each f l'
  end.

Definition write_transaction (ch : string) (bnum : Z) (tx : Transaction) : sql unit :=
  if negb (Transaction_Valid tx) then mret tt
  else for_each (λ n, for_each (λ w, write_row (row_of ch bnum tx (ns_Namespace n) w))
                               (rws_Writes (ns_RWS n)))
                (tx_NsRWS tx).

(** The calls of [UpdateWorldState] before [Commit]. *)
Definition update_statements (db : VersionedDB) (b : Block) : sql unit :=
  BeginTx ;;
  call "prepare batch insert: %w" ;;
  call "prepare conflict check: %w" ;;
  for_each (write_transaction (channel db) (blk_Number b)) (blk_Transactions b) ;;
  uint64_arg "update last block: %w" (blk_Number b) ;;
  call "update last block: %w" ;;
  on_progress (λ p, upsert_progress p (channel db) (blk_Number b)).

(** The calls on a connection without open transaction, and the deferred
    [Rollback]. *)
Definition in_transaction (body : sql unit) (s : Backend) : sql_conn * result unit :=
  let '(c, _, r) := body (MkSqlConn s None) 0%nat in (Rollback c, r).

Definition UpdateWorldState (db : VersionedDB) (b : Block) (s : Backend) : Backend * result unit :=
  let '(c, r) := in_transaction (update_statements db b ;; Commit) s in (sc_committed c, r).

(** [Handle] of the [BlockHandler] interface. *)
Definition Handle (db : VersionedDB) (b : Block) (s : Backend) : Backend * result unit :=
  UpdateWorldState db b s.

End Update.

(** ** Reads

    [fault] is the error of the driver call, if it fails.  [Scan] into the
    unsigned fields of a [WriteRecord] refuses a negative column. *)

Definition scan_uint64 (z : Z) : result Z :=
  if z <? 0 then Fail (Errorf "sql: Scan error: converting driver.Value type int64 to a uint64" [AInt z])
  else Ret z.

Definition scan_row (r : Row) : result WriteRecord :=
  blockNum ← scan_uint64 (row_block r);
  txNum ← scan_uint64 (row_tx r);
  version ← scan_uint64 (row_version r);
  mret {| rec_Namespace := row_namespace r; rec_Key := row_key r; rec_BlockNum := blockNum;
          rec_TxNum := txNum; rec_Version := version; rec_Value := row_value r;
          rec_IsDelete := row_is_delete r; rec_TxID := row_tx_id r |}.

Definition scan_optional (fmt : string) (row : option Row) : result (option WriteRecord) :=
  match row with
  | None => Ret None
  | Some r => wrapf fmt [] (Some <$> scan_row r)
  end.

Definition GetAt (fault : option error) (db : VersionedDB) (namespace key : string) (lastBlock : Z)
    (s : Backend) : result (option WriteRecord) :=
  if 2 ^ 63 <=? lastBlock then Fail (Wrapf "get: %w" [] high_bit_error)
  else match fault with
  | Some e => Fail (Wrapf "get: %w" [] e)
  | None =>
      scan_optional "get: %w"
        (latest (filter (λ r, of_key (channel db) namespace key r ∧ row_block r ≤ lastBlock) (worldstate s)))
  end.

Definition Get (fault : option error) (db : VersionedDB) (namespace key : string) (s : Backend)
    : result (option WriteRecord) :=
  match fault with
  | Some e => Fail (Wrapf "get current: %w" [] e)
  | None =>
      scan_optional "get current: %w" (latest (filter (of_key (channel db) namespace key) (worldstate s)))
  end.

Definition BlockNumber (fault : option error) (db : VersionedDB) (s : Backend) : result Z :=
  match fault with
  | Some e => Fail (Wrapf "query last processed block: %w" [] e)
  | None =>
      match channel_progress s !! channel db with
      | None => Ret 0
      | Some last => if last <? 0 then Fail (Errorf "invalid negative block number: %d" [AInt last])
                     else Ret last
      end
  end.

(** [versionedSnapshot]: the database and the height the view is pinned to. *)
Record versionedSnapshot := MkSnapshot { snap_db : VersionedDB; snap_block : Z }.

Definition Snapshot (fault : option error) (db : VersionedDB) (s : Backend) : result versionedSnapshot :=
  n ← BlockNumber fault db s;
  mret {| snap_db := db; snap_block := n |}.

Definition SnapshotAt (fault : option error) (db : VersionedDB) (block : Z) (s : Backend)
    : result versionedSnapshot :=
  n ← BlockNumber fault db s;
  mret {| snap_db := db; snap_block := block `min` n |}.

Definition snapshot_Get (fault : option error) (v : versionedSnapshot) (namespace key : string)
    (s : Backend) : result (option WriteRecord) :=
  GetAt fault (snap_db v) namespace key (snap_block v) s.

(** [ORDER BY version_block, version_tx]. *)
Definition height_le (a b : Row) : Prop :=
  row_block a < row_block b ∨ row_block a = row_block b ∧ row_tx a ≤ row_tx b.
#[export] Instance height_le_dec : RelDecision height_le.
Proof. intros a b. unfold height_le. apply _. Defined.

(** [iter_fault] is the error [rows.Err] reports after the iteration. *)
Definition GetHistory (fault iter_fault : option error) (db : VersionedDB) (namespace key : string) (s : Backend)
    : result (list WriteRecord) :=
  match fault with
  | Some e => Fail (Wrapf "get history: %w" [] e)
  | None =>
      let rows := merge_sort height_le (filter (of_key (channel db) namespace key) (worldstate s)) in
      result ← wrapf "scan history: %w" []
                 (foldr (λ r acc, w ← scan_row r; ws ← acc; mret (w :: ws)) (Ret []) rows);
      match iter_fault with
      | Some e => Fail (Wrapf "iterate history: %w" [] e)
      | None => mret result
      end
  end.

(** The database as a [blocks.RecordGetter]. *)
Definition as_getter (db : VersionedDB) (s : Backend) : RecordGetter := λ ns key, Get None db ns key s.

(** ** Specification

    The writes of a block, in the order the loops reach them, and the effect of
    one insert as a function on the rows. *)

Definition no_faults : nat → bool := λ _, false.

Definition tx_rows (ch : string) (bnum : Z) (tx : Transaction) : list Row :=
  tx_NsRWS tx ≫= λ n, row_of ch bnum tx (ns_Namespace n) <$> rws_Writes (ns_RWS n).

Definition block_rows (ch : string) (b : Block) : list Row :=
  filter (λ tx, Transaction_Valid tx = true) (blk_Transactions b) ≫= tx_rows ch (blk_Number b).

(** Inserting [r]: a new primary key appends a row, an existing one must hold
    the same content. *)
Definition insert_spec (rows : list Row) (r : Row) : option (list Row) :=
  match find_row rows r with
  | Some existing => if same_content existing r then Some rows else None
  | None => Some (rows ++ [set_version r (next_version rows (row_channel r) (row_namespace r) (row_key r))])
  end.

Fixpoint insert_all (rows : list Row) (rs : list Row) : option (list Row) :=
  match rs with
  | [] => Some rows
  | r :: rs' => rows' ← insert_spec rows r; insert_all rows' rs'
  end.

(** The columns of a row that a read scans into unsigned integers are in range. *)
Definition row_ok (r : Row) : Prop := 0 ≤ row_block r < 2 ^ 63 ∧ 0 ≤ row_tx r.

(** The tables are well formed: primary keys are unique, and the versions of a
    key count up from zero in insertion order. *)
Record wf (s : Backend) : Prop := {
  wf_primary : NoDup (primary_key <$> worldstate s);
  wf_versions : ∀ ch ns key,
    row_version <$> filter (of_key ch ns key) (worldstate s) =
    seqZ 0 (Z.of_nat (length (filter (of_key ch ns key) (worldstate s))));
  wf_rows : Forall row_ok (worldstate s);
  wf_progress : ∀ ch n, channel_progress s !! ch = Some n → 0 ≤ n < 2 ^ 63 }.

(** A block as it comes from a parser: a [uint64] number, non-negative
    transaction indices. *)
Definition block_ok (b : Block) : Prop :=
  uint64_ok (blk_Number b) ∧ Forall (λ tx, 0 ≤ tx_Number tx) (blk_Transactions b).

(** ** Lemmas on the statements *)

Lemma sql_bind_ret {A B} (m : sql A) (f : A → sql B) c n b c' n' :
  (m ≫= f) c n = (c', n', Ret b) ↔
  ∃ a c1 n1, m c n = (c1, n1, Ret a) ∧ f a c1 n1 = (c', n', Ret b).
Proof. unfold mbind, sql_bind. destruct (m c n) as [[c1 n1] [a|e]]; naive_solver. Qed.

(** Everything but [Commit] leaves the committed tables alone. *)
Definition uncommitted {A} (m : sql A) : Prop := ∀ c n, sc_committed (m c n).1.1 = sc_committed c.

Lemma uncommitted_bind {A B} (m : sql A) (f : A → sql B) :
  uncommitted m → (∀ a, uncommitted (f a)) → uncommitted (m ≫= f).
Proof.
  intros Hm Hf c n. unfold mbind, sql_bind. specialize (Hm c n). destruct (m c n) as [[c1 n1] [a|e]]; simpl in *; [|done].
  by rewrite Hf.
Qed.

Lemma uncommitted_in_tx {A} (f : Backend → A * Backend) : uncommitted (in_tx f).
Proof. intros c n. unfold in_tx. destruct (sc_working c) as [w|]; [|done]. by destruct (f w). Qed.

Lemma uncommitted_for_each {A} (f : A → sql unit) l : (∀ a, uncommitted (f a)) → uncommitted (for_each f l).
Proof. intros Hf. induction l as [|a l IH]; [done|]. by apply uncommitted_bind. Qed.

Lemma uncommitted_write_row faults r : uncommitted (write_row faults r).
Proof.
  unfold write_row. repeat (apply uncommitted_bind; [done || apply uncommitted_in_tx|intros ?]).
  case_match; [done|]. repeat (apply uncommitted_bind; [done || apply uncommitted_in_tx|intros ?]).
  by repeat case_match.
Qed.

Lemma uncommitted_write_transaction faults ch n tx : uncommitted (write_transaction faults ch n tx).
Proof.
  unfold write_transaction. case_match; [done|]. apply uncommitted_for_each. intros ns.
  apply uncommitted_for_each. intros w. apply uncommitted_write_row.
Qed.

(** [Commit] changes the committed tables only when it succeeds. *)
Lemma Commit_fail faults c n c' n' e : Commit faults c n = (c', n', Fail e) → sc_committed c' = sc_committed c.
Proof.
  unfold Commit, call, publish_copy, mbind, sql_bind. destruct (faults n); [by intros [= <- _ _]|].
  by destruct (sc_working c); intros [= <- _ _].
Qed.

Lemma for_each_app {A} (f : A → sql unit) l1 l2 s n :
  for_each f (l1 ++ l2) s n = (for_each f l1 ;; for_each f l2) s n.
Proof.
  revert s n. induction l1 as [|a l1 IH]; intros s n; simpl; [done|].
  unfold mbind, sql_bind. destruct (f a s n) as [[s1 n1] [[]|]]; [apply IH|done].
Qed.

Lemma for_each_bind {A B} (f : B → sql unit) (g : A → list B) l s n :
  for_each (λ a, for_each f (g a)) l s n = for_each f (l ≫= g) s n.
Proof.
  revert s n. induction l as [|a l IH]; intros s n; csimpl; [done|].
  rewrite for_each_app. unfold mbind, sql_bind.
  destruct (for_each f (g a) s n) as [[s1 n1] [[]|]]; [apply IH|done].
Qed.

Lemma for_each_ext {A} (f g : A → sql unit) l s n :
  (∀ a s n, f a s n = g a s n) → for_each f l s n = for_each g l s n.
Proof.
  intros Hfg. revert s n. induction l as [|a l IH]; intros s n; simpl; [done|].
  unfold mbind, sql_bind. rewrite Hfg. destruct (g a s n) as [[s1 n1] [[]|]]; [apply IH|done].
Qed.

Lemma for_each_fmap {A B} (f : B → sql unit) (g : A → B) l :
  for_each (λ a, f (g a)) l = for_each f (g <$> l).
Proof. induction l as [|a l IH]; csimpl; [done|]. by rewrite IH. Qed.

Lemma write_transaction_flat faults ch bnum tx s n :
  write_transaction faults ch bnum tx s n =
  for_each (write_row faults) (if Transaction_Valid tx then tx_rows ch bnum tx else []) s n.
Proof.
  unfold write_transaction. destruct (Transaction_Valid tx); simpl; [|done].
  unfold tx_rows. rewrite <- for_each_bind.
  apply for_each_ext. intros m ? ?. by rewrite for_each_fmap.
Qed.

(** The three nested loops are one loop over the rows of the block. *)
Lemma write_transactions_flat faults ch b s n :
  for_each (write_transaction faults ch (blk_Number b)) (blk_Transactions b) s n =
  for_each (write_row faults) (block_rows ch b) s n.
Proof.
  unfold block_rows. generalize (blk_Transactions b) as txs. intros txs.
  erewrite for_each_ext; [|intros; apply write_transaction_flat].
  rewrite for_each_bind. f_equal. induction txs as [|tx txs IH]; csimpl; [done|].
  rewrite filter_cons, IH. by destruct (Transaction_Valid tx).
Qed.

(** One write that succeeds had the effect of the specification. *)
Lemma write_row_ret faults r s w n u c' n' :
  write_row faults r (MkSqlConn s (Some w)) n = (c', n', Ret u) →
  row_block r < 2 ^ 63 ∧ ∃ rows', insert_spec (worldstate w) r = Some rows' ∧
    c' = MkSqlConn s (Some (MkBackend rows' (channel_progress w))).
Proof.
  unfold write_row, call, uint64_arg, on_worldstate, in_tx, mbind, sql_bind, mret, sql_ret, throw,
    insert_row, insert_spec. simpl.
  destruct (2 ^ 63 <=? row_block r) eqn:Hb; [done|]. apply Z.leb_gt in Hb.
  destruct (faults n); [done|].
  destruct (find_row (worldstate w) r) as [existing|] eqn:Hf; simpl.
  - repeat (destruct (faults _); [done|]). simpl; rewrite ?Hf.
    destruct (same_content existing r); [|done]. intros [= <- <-]. eauto.
  - destruct (faults _); [done|]. intros [= <- <-]. eauto.
Qed.

(** Without faults a write whose insert is possible succeeds. *)
Lemma write_row_no_faults r s w n rows' :
  row_block r < 2 ^ 63 → insert_spec (worldstate w) r = Some rows' →
  ∃ n', write_row no_faults r (MkSqlConn s (Some w)) n =
    (MkSqlConn s (Some (MkBackend rows' (channel_progress w))), n', Ret tt).
Proof.
  intros Hb Hins. unfold write_row, call, uint64_arg, on_worldstate, in_tx, mbind, sql_bind, mret, sql_ret,
    throw, insert_row, no_faults. rewrite (proj2 (Z.leb_gt _ _) Hb).
  unfold insert_spec in Hins. simpl. destruct (find_row (worldstate w) r) as [existing|] eqn:Hf; simpl.
  - simpl; rewrite ?Hf. destruct (same_content existing r); simplify_eq/=. eauto.
  - simplify_eq. eauto.
Qed.

Lemma write_rows_ret faults rs s w n u c' n' :
  for_each (write_row faults) rs (MkSqlConn s (Some w)) n = (c', n', Ret u) →
  Forall (λ r, row_block r < 2 ^ 63) rs ∧ ∃ rows', insert_all (worldstate w) rs = Some rows' ∧
    c' = MkSqlConn s (Some (MkBackend rows' (channel_progress w))).
Proof.
  revert w n. induction rs as [|r rs IH]; intros w n; simpl.
  { intros [= <- <-]. split; [done|]. eexists. split; [done|]. by destruct w. }
  rewrite sql_bind_ret. intros (? & c1 & n1 & (? & rows1 & H1 & ->)%write_row_ret & (? & rows2 & H2 & ->)%IH).
  rewrite H1. split; [by constructor|]. by exists rows2.
Qed.

Lemma write_rows_no_faults rs s w n rows' :
  Forall (λ r, row_block r < 2 ^ 63) rs → insert_all (worldstate w) rs = Some rows' →
  ∃ n', for_each (write_row no_faults) rs (MkSqlConn s (Some w)) n =
    (MkSqlConn s (Some (MkBackend rows' (channel_progress w))), n', Ret tt).
Proof.
  intros Hall. revert w n. induction Hall as [|r rs Hr Hall IH]; intros w n; simpl.
  { intros [= <-]. destruct w. by eexists. }
  rewrite bind_Some. intros (rows1 & H1 & H2).
  destruct (write_row_no_faults r s w n rows1 Hr H1) as [n1 Hw].
  destruct (IH (MkBackend rows1 (channel_progress w)) n1 H2) as [n2 Hw2].
  exists n2. unfold mbind, sql_bind. by rewrite Hw.
Qed.

Lemma block_rows_block ch b : Forall (λ r, row_block r = blk_Number b) (block_rows ch b).
Proof.
  apply Forall_forall. intros r (tx & Hr & _)%list_elem_of_bind.
  unfold tx_rows in Hr. apply list_elem_of_bind in Hr as (n & (w & -> & _)%list_elem_of_fmap & _). done.
Qed.

Lemma block_rows_channel ch b : Forall (λ r, row_channel r = ch) (block_rows ch b).
Proof.
  apply Forall_forall. intros r (tx & Hr & _)%list_elem_of_bind.
  unfold tx_rows in Hr. apply list_elem_of_bind in Hr as (n & (w & -> & _)%list_elem_of_fmap & _). done.
Qed.

(** The state after an update that succeeded. *)
Definition after_update (db : VersionedDB) (b : Block) (s : Backend) (rows' : list Row) : Backend :=
  MkBackend rows' (upsert_progress (channel_progress s) (channel db) (blk_Number b)).

Lemma UpdateWorldState_ret faults db b s s' :
  UpdateWorldState faults db b s = (s', Ret tt) →
  blk_Number b < 2 ^ 63 ∧
  ∃ rows', insert_all (worldstate s) (block_rows (channel db) b) = Some rows' ∧
           s' = after_update db b s rows'.
Proof.
  unfold UpdateWorldState, in_transaction. destruct ((update_statements _ _ _ ;; _) _ _) as [[c n1] [[]|]] eqn:H; [|done].
  intros [= <-]. apply sql_bind_ret in H as (? & ? & ? & H & Hcommit). unfold update_statements in H.
  repeat (apply sql_bind_ret in H as (? & ? & ? & ? & H)).
  unfold BeginTx, Commit, start_copy, publish_copy, call, uint64_arg, on_progress, in_tx, mbind, sql_bind in *.
  repeat (case_match; simplify_eq/=). bool_to_prop.
  match goal with Hf : for_each _ _ _ _ = _ |- _ =>
    rewrite write_transactions_flat in Hf; apply write_rows_ret in Hf as (? & rows' & ? & ?) end.
  simplify_eq/=. split; [done|]. by exists rows'.
Qed.

(** Whatever call fails, [Commit] is not reached or does nothing. *)
Lemma in_transaction_fail faults (body : sql unit) s c e :
  uncommitted body → in_transaction (body ;; Commit faults) s = (c, Fail e) → c = MkSqlConn s None.
Proof.
  intros Hb. unfold in_transaction, mbind, sql_bind. pose proof (Hb (MkSqlConn s None) 0%nat) as Hc.
  destruct (body (MkSqlConn s None) 0%nat) as [[c1 n1] [[]|e1]]; simpl in *.
  - destruct (Commit faults c1 n1) as [[c2 n2] [[]|e2]] eqn:E; [done|]. apply Commit_fail in E.
    intros [= <- _]. unfold Rollback. by rewrite E, Hc.
  - intros [= <- _]. unfold Rollback. by rewrite Hc.
Qed.

Lemma uncommitted_update_statements faults db b : uncommitted (update_statements faults db b).
Proof.
  unfold update_statements. repeat (apply uncommitted_bind; [|intros _]); try apply uncommitted_in_tx; try done.
  apply uncommitted_for_each. intros tx. apply uncommitted_write_transaction.
Qed.

Lemma UpdateWorldState_fail faults db b s t e :
  UpdateWorldState faults db b s = (t, Fail e) → t = s.
Proof.
  unfold UpdateWorldState. destruct (in_transaction _ s) as [c r] eqn:E. intros [= <- ->].
  apply in_transaction_fail in E as ->; [done|apply uncommitted_update_statements].
Qed.

Lemma UpdateWorldState_no_faults db b s rows' :
  blk_Number b < 2 ^ 63 → insert_all (worldstate s) (block_rows (channel db) b) = Some rows' →
  UpdateWorldState no_faults db b s = (after_update db b s rows', Ret tt).
Proof.
  intros Hb Hins. unfold UpdateWorldState, in_transaction, update_statements, BeginTx, Commit,
    start_copy, publish_copy, call, uint64_arg, on_progress, in_tx, mbind, sql_bind, no_faults. fold no_faults. simpl. rewrite write_transactions_flat.
  destruct (write_rows_no_faults (block_rows (channel db) b) s s 3%nat rows') as [n' ->]; [|done|].
  { eapply Forall_impl; [apply block_rows_block|]. simpl. by intros r ->. }
  by rewrite (proj2 (Z.leb_gt _ _) Hb).
Qed.
