(* ===== verification/WorldStateTheory.v ===== *)
(** * Correctness of the versioned world state

    The invariant of the two tables and that every update keeps it, the
    insert-only and idempotence contracts of [UpdateWorldState], the isolation
    of channels, the stability of snapshots, and the refinement of an abstract
    history: reading at a height gives the last write of the chain up to it. *)

From S2P Require Import Prelude Blocks WorldState.

(** ** Inserts *)

Lemma find_row_None rows r : find_row rows r = None ↔ primary_key r ∉ primary_key <$> rows.
Proof.
  unfold find_row. rewrite head_None, list_elem_of_fmap. split.
  - intros Hf (r' & Hk & Hr'). assert (r' ∈ ([] : list Row)) as []%elem_of_nil.
    rewrite <- Hf. by apply list_elem_of_filter.
  - intros Hn. destruct (filter _ rows) as [|r' l] eqn:E; [done|].
    assert (r' ∈ filter (λ r', primary_key r' = primary_key r) rows) as [Hk Hr]%list_elem_of_filter
      by (rewrite E; by left).
    destruct Hn. by exists r'.
Qed.

Lemma find_row_Some rows r e : find_row rows r = Some e → e ∈ rows ∧ primary_key e = primary_key r.
Proof.
  unfold find_row. intros [l E]%head_Some.
  assert (e ∈ filter (λ r', primary_key r' = primary_key r) rows) as [? ?]%list_elem_of_filter
    by (rewrite E; by left). done.
Qed.

(** A row found stays the row found when rows are appended. *)
Lemma find_row_app rows ext r e : find_row rows r = Some e → find_row (rows ++ ext) r = Some e.
Proof. unfold find_row. rewrite filter_app. intros [l ->]%head_Some. done. Qed.

(** With unique primary keys the row found is the row. *)
Lemma find_row_elem rows e :
  NoDup (primary_key <$> rows) → e ∈ rows → find_row rows e = Some e.
Proof.
  intros HN He. destruct (find_row rows e) as [e'|] eqn:E.
  - apply find_row_Some in E as [He' Hk]. f_equal. by apply (NoDup_fmap_inj primary_key rows).
  - apply find_row_None in E. destruct E. by apply list_elem_of_fmap_2.
Qed.

Lemma insert_spec_prefix rows r rows' : insert_spec rows r = Some rows' → ∃ ext, rows' = rows ++ ext.
Proof.
  unfold insert_spec. intros H. destruct (find_row rows r); [case_match|]; simplify_eq.
  - exists []. by rewrite app_nil_r.
  - eauto.
Qed.

(** Rows are only ever appended. *)
Lemma insert_all_prefix rows rs rows' : insert_all rows rs = Some rows' → ∃ ext, rows' = rows ++ ext.
Proof.
  revert rows. induction rs as [|r rs IH]; intros rows; simpl.
  { intros [= <-]. exists []. by rewrite app_nil_r. }
  rewrite bind_Some. intros (rows1 & [e1 ->]%insert_spec_prefix & [e2 ->]%IH).
  exists (e1 ++ e2). by rewrite app_assoc.
Qed.

(** What is appended are rows that were asked for. *)
Lemma insert_all_new rows rs rows' : insert_all rows rs = Some rows' →
  ∃ new, rows' = rows ++ new ∧ ∀ e, e ∈ new → ∃ r v, r ∈ rs ∧ e = set_version r v.
Proof.
  revert rows. induction rs as [|r rs IH]; intros rows; simpl.
  { intros [= <-]. exists []. split; [by rewrite app_nil_r|by intros e ?%elem_of_nil]. }
  rewrite bind_Some. intros (rows1 & H1 & (new & -> & Hnew)%IH). unfold insert_spec in H1.
  destruct (find_row rows r); [case_match|]; simplify_eq.
  - exists new. split; [done|]. intros e (r' & v & ? & ->)%Hnew. exists r', v. split; [by right|done].
  - eexists (_ :: new). split; [by rewrite <- app_assoc|]. intros e [->|He]%elem_of_cons.
    + eexists r, _. split; [by left|done].
    + destruct (Hnew e He) as (r' & v & ? & ->). exists r', v. split; [by right|done].
Qed.

(** After an insert the row is there with the content asked for. *)
Lemma insert_spec_found rows r rows' :
  insert_spec rows r = Some rows' → ∃ e, find_row rows' r = Some e ∧ same_content e r = true.
Proof.
  unfold insert_spec. destruct (find_row rows r) as [e|] eqn:E.
  - destruct (same_content e r) eqn:Hs; [|done]. intros [= <-]. eauto.
  - intros [= <-]. set (r' := set_version r _). exists r'. split.
    + unfold find_row in *. rewrite filter_app. apply head_None in E as ->. simpl.
      rewrite filter_cons. by rewrite decide_True.
    + unfold same_content. by rewrite !bool_decide_true, Bool.eqb_reflx.
Qed.

Lemma insert_all_found rows rs rows' r :
  insert_all rows rs = Some rows' → r ∈ rs →
  ∃ e, find_row rows' r = Some e ∧ same_content e r = true.
Proof.
  revert rows. induction rs as [|r0 rs IH]; intros rows; simpl; [by intros _ ?%elem_of_nil|].
  rewrite bind_Some. intros (rows1 & H1 & H2) [->|Hr]%elem_of_cons; [|by eapply IH].
  apply insert_spec_found in H1 as (e & Hf & Hs). apply insert_all_prefix in H2 as [ext ->].
  exists e. auto using find_row_app.
Qed.

(** Inserting again rows that are present with their content changes nothing. *)
Lemma insert_all_replay rows rs :
  (∀ r, r ∈ rs → ∃ e, find_row rows r = Some e ∧ same_content e r = true) →
  insert_all rows rs = Some rows.
Proof.
  induction rs as [|r rs IH]; intros H; simpl; [done|].
  destruct (H r) as (e & Hf & Hs); [by left|]. unfold insert_spec. rewrite Hf, Hs. csimpl.
  apply IH. intros r' Hr'. apply H. by right.
Qed.

(** Rows whose primary keys are all taken add nothing. *)
Lemma insert_all_taken rows rs rows' :
  insert_all rows rs = Some rows' → (∀ r, r ∈ rs → is_Some (find_row rows r)) → rows' = rows.
Proof.
  revert rows. induction rs as [|r rs IH]; intros rows; simpl; [by intros [= <-]|].
  rewrite bind_Some. intros (rows1 & H1 & H2) Ht. destruct (Ht r) as [e He]; [by left|].
  unfold insert_spec in H1. rewrite He in H1. case_match; simplify_eq. apply (IH _ H2). intros r' Hr'. apply Ht. by right.
Qed.

(** Rows outside a predicate that no inserted row satisfies are kept as they are. *)
Lemma insert_all_filter (P : Row → Prop) `{∀ r, Decision (P r)} rows rs rows' :
  (∀ r v, P (set_version r v) ↔ P r) → Forall (λ r, ¬ P r) rs →
  insert_all rows rs = Some rows' → filter P rows' = filter P rows.
Proof.
  intros HP Hall. revert rows. induction Hall as [|r rs Hr Hall IH]; intros rows; simpl; [by intros [= ->]|].
  rewrite bind_Some. intros (rows1 & H1 & Hrest). rewrite (IH _ Hrest). clear IH Hrest.
  unfold insert_spec in H1. destruct (find_row rows r); [case_match; by simplify_eq|].
  injection H1 as <-. rewrite filter_app, filter_cons, decide_False by (by rewrite HP).
  by rewrite app_nil_r.
Qed.

(** ** Versions *)

Lemma seqZ_snoc m n : 0 ≤ n → seqZ m (n + 1) = seqZ m n ++ [m + n].
Proof. intros Hn. rewrite seqZ_app by lia. by rewrite (seqZ_cons _ 1). Qed.

Lemma max_version_dense l :
  row_version <$> l = seqZ 0 (Z.of_nat (length l)) →
  max_version l = match l with [] => None | _ => Some (Z.of_nat (length l) - 1) end.
Proof.
  induction l as [|r l IH] using rev_ind; [done|].
  rewrite length_app, Nat2Z.inj_add, fmap_app. simpl. rewrite seqZ_snoc by lia.
  intros [Hl [= Hr]]%app_inj_tail. unfold max_version in *. rewrite foldl_app. simpl. rewrite IH by done.
  destruct l; simpl in *; f_equal; lia.
Qed.

(** The next version of a key is the number of its rows. *)
Lemma next_version_dense rows ch ns key :
  row_version <$> filter (of_key ch ns key) rows = seqZ 0 (Z.of_nat (length (filter (of_key ch ns key) rows))) →
  next_version rows ch ns key = Z.of_nat (length (filter (of_key ch ns key) rows)).
Proof.
  intros Hd. unfold next_version. rewrite (max_version_dense _ Hd).
  destruct (filter _ rows); simpl; lia.
Qed.

(** Rows in increasing version order, as a dense key has them. *)
Definition version_lt (a b : Row) : Prop := row_version a < row_version b.

Lemma list_filter_ext {A} (P Q : A → Prop) `{∀ x, Decision (P x)} `{∀ x, Decision (Q x)} (l : list A) :
  (∀ x, x ∈ l → P x ↔ Q x) → filter P l = filter Q l.
Proof.
  induction l as [|x l IH]; intros HPQ; [done|]. rewrite !filter_cons, IH by (intros; apply HPQ; by right).
  destruct (HPQ x (list_elem_of_here _ _)). by repeat case_decide; naive_solver.
Qed.

Lemma StronglySorted_filter {A} (R : relation A) (P : A → Prop) `{∀ x, Decision (P x)} l :
  StronglySorted R l → StronglySorted R (filter P l).
Proof.
  induction 1 as [|a l Hs IH Hall]; [constructor|]. rewrite filter_cons. case_decide; [|done].
  constructor; [done|]. rewrite Forall_forall in *. intros x Hx. apply Hall.
  by apply list_elem_of_filter in Hx as [_ ?].
Qed.

Lemma dense_sorted l n : row_version <$> l = seqZ n (Z.of_nat (length l)) → StronglySorted version_lt l.
Proof.
  revert n. induction l as [|r l IH]; intros n; simpl; [constructor|].
  rewrite seqZ_cons by lia. intros [= Hr Hl]. replace (Z.pred _) with (Z.of_nat (length l)) in Hl by lia.
  constructor; [by eapply IH|]. apply Forall_forall. intros x Hx. unfold version_lt. rewrite Hr.
  assert (row_version x ∈ seqZ (Z.succ n) (Z.of_nat (length l))) as ?%elem_of_seqZ; [|lia].
  rewrite <- Hl. by apply list_elem_of_fmap_2.
Qed.

(** Over such rows the row with the highest version is the last one. *)
Lemma latest_last l : StronglySorted version_lt l → latest l = last l.
Proof.
  induction l as [|r l IH] using rev_ind; [done|]. intros Hs. unfold latest in *.
  rewrite foldl_app, last_snoc. simpl. apply StronglySorted_app in Hs as (Hlt & Hl & _).
  rewrite (IH Hl). destruct (last l) as [b|] eqn:Hb; [|done].
  assert (version_lt b r) as Hbr; [|unfold version_lt in Hbr; by rewrite (proj2 (Z.ltb_lt _ _) Hbr)].
  apply Hlt; [by apply last_Some_elem_of|by left].
Qed.

Lemma wf_sorted s ch ns key :
  wf s → StronglySorted version_lt (filter (of_key ch ns key) (worldstate s)).
Proof. intros Hwf. eapply dense_sorted, wf_versions, Hwf. Qed.

(** ** The invariant *)

Lemma of_key_set_version ch ns key r v : of_key ch ns key (set_version r v) ↔ of_key ch ns key r.
Proof. done. Qed.

Lemma insert_spec_wf rows p r rows' :
  wf (MkBackend rows p) → row_ok r → insert_spec rows r = Some rows' → wf (MkBackend rows' p).
Proof.
  intros Hwf Hb. unfold insert_spec. destruct (find_row rows r) as [e|] eqn:Hf.
  { destruct (same_content e r); [|done]. by intros [= <-]. }
  intros [= <-]. apply find_row_None in Hf. destruct Hwf as [HN Hv HB Hp]. simpl in *.
  split; simpl; [| | |done].
  - rewrite fmap_app. apply NoDup_app. split_and!; [done| |apply NoDup_singleton].
    intros k Hk ->%list_elem_of_singleton. by apply Hf.
  - intros ch ns key. rewrite filter_app, filter_cons.
    case_decide as Hk; [|by rewrite app_nil_r].
    apply of_key_set_version in Hk as (<- & <- & <-).
    rewrite fmap_app, Hv, length_app, Nat2Z.inj_add. simpl.
    rewrite seqZ_snoc by lia. do 2 f_equal. by rewrite next_version_dense.
  - apply Forall_app. split; [done|]. by apply Forall_singleton.
Qed.

Lemma insert_all_wf rows p rs rows' :
  wf (MkBackend rows p) → Forall row_ok rs →
  insert_all rows rs = Some rows' → wf (MkBackend rows' p).
Proof.
  intros Hwf Hall. revert rows Hwf. induction Hall as [|r rs Hr Hall IH]; intros rows Hwf; simpl; [by intros [= <-]|].
  rewrite bind_Some. intros (rows1 & H1 & H2). eapply IH; [|done]. by eapply insert_spec_wf.
Qed.

Lemma elem_of_block_rows ch b r :
  r ∈ block_rows ch b ↔
  ∃ tx, tx ∈ blk_Transactions b ∧ Transaction_Valid tx = true ∧ r ∈ tx_rows ch (blk_Number b) tx.
Proof.
  unfold block_rows. rewrite list_elem_of_bind. setoid_rewrite list_elem_of_filter. naive_solver.
Qed.

Lemma tx_rows_tx ch bnum tx r : r ∈ tx_rows ch bnum tx → row_tx r = tx_Number tx.
Proof.
  unfold tx_rows. by intros (n & (w & -> & _)%list_elem_of_fmap & _)%list_elem_of_bind.
Qed.

Lemma block_rows_ok ch b : block_ok b → blk_Number b < 2 ^ 63 → Forall row_ok (block_rows ch b).
Proof.
  intros [[? _] Htx] ?. apply Forall_forall. intros r Hr. split.
  - pose proof (block_rows_block ch b) as Hb. rewrite Forall_forall in Hb. rewrite (Hb r Hr). lia.
  - apply elem_of_block_rows in Hr as (tx & Hin & _ & Hr). rewrite (tx_rows_tx _ _ _ _ Hr). rewrite Forall_forall in Htx. auto.
Qed.

Lemma upsert_progress_lookup p ch n ch' :
  upsert_progress p ch n !! ch' =
    if decide (ch = ch') then Some (match p !! ch with Some old => old `max` n | None => n end) else p !! ch'.
Proof.
  unfold upsert_progress. case_decide as Hc; [subst ch'|].
  - destruct (p !! ch) as [old|] eqn:E; [|apply lookup_insert_eq].
    destruct (Z.ltb_spec old n); [rewrite lookup_insert_eq|rewrite E]; f_equal; lia.
  - destruct (p !! ch); [case_match|]; rewrite ?lookup_insert_ne; done.
Qed.

Lemma wf_init : wf init.
Proof. split; simpl; [constructor|done|constructor|]. intros ch n. by rewrite lookup_empty. Qed.

Lemma UpdateWorldState_preserves_wf faults db b s s' r :
  wf s → block_ok b → UpdateWorldState faults db b s = (s', r) → wf s'.
Proof.
  intros Hwf Hok Hup. destruct r as [[]|e].
  - apply UpdateWorldState_ret in Hup as (Hb & rows' & Hins & ->).
    assert (wf (MkBackend rows' (channel_progress s))) as [? ? ? Hp].
    { refine (insert_all_wf _ _ _ _ _ _ Hins); [by destruct s|by apply block_rows_ok]. }
    split; [done..|]. intros ch n. simpl. rewrite upsert_progress_lookup. destruct Hok as [[? _] _].
    case_decide; [|apply Hp]. intros [= <-]. destruct (channel_progress s !! channel db) eqn:E; [|lia].
    apply Hp in E. simpl in E. lia.
  - by apply UpdateWorldState_fail in Hup as ->.
Qed.

(** ** Sequences of updates *)

(** One update, of any channel and block, that may fail at any driver call. *)
Definition update_step (s t : Backend) : Prop :=
  ∃ faults db b r, block_ok b ∧ UpdateWorldState faults db b s = (t, r).

Lemma update_step_extends s t :
  update_step s t →
  (∃ ext, worldstate t = worldstate s ++ ext) ∧
  ∀ ch n, channel_progress s !! ch = Some n → ∃ n', channel_progress t !! ch = Some n' ∧ n ≤ n'.
Proof.
  intros (faults & db & b & [[]|e] & _ & Hup).
  - apply UpdateWorldState_ret in Hup as (_ & rows' & [ext ->]%insert_all_prefix & ->).
    split; [by eexists|]. intros ch n Hn. simpl. rewrite upsert_progress_lookup.
    case_decide as Hc; [|eauto with lia]. subst ch. rewrite Hn. eexists; split; [done|lia].
  - apply UpdateWorldState_fail in Hup as ->. split; [exists []; by rewrite app_nil_r|eauto with lia].
Qed.

Lemma update_steps_extend s t :
  rtc update_step s t →
  (∃ ext, worldstate t = worldstate s ++ ext) ∧
  ∀ ch n, channel_progress s !! ch = Some n → ∃ n', channel_progress t !! ch = Some n' ∧ n ≤ n'.
Proof.
  induction 1 as [s|s s1 t [[e1 H1] Hp1]%update_step_extends _ [[e2 H2] Hp2]].
  { split; [exists []; by rewrite app_nil_r|eauto with lia]. }
  split; [exists (e1 ++ e2); by rewrite H2, H1, app_assoc|].
  intros ch n (n1 & Hn1 & ?)%Hp1. apply Hp2 in Hn1 as (n2 & ? & ?). eauto with lia.
Qed.

Lemma update_steps_wf s t : rtc update_step s t → wf s → wf t.
Proof.
  induction 1 as [|s s1 t (faults & db & b & r & Hb & Hup) _ IH]; [done|].
  intros Hwf. apply IH. by eapply UpdateWorldState_preserves_wf.
Qed.

(** ** Reads over well-formed tables *)

Definition record_of (r : Row) : WriteRecord :=
  {| rec_Namespace := row_namespace r; rec_Key := row_key r; rec_BlockNum := row_block r;
     rec_TxNum := row_tx r; rec_Version := row_version r; rec_Value := row_value r;
     rec_IsDelete := row_is_delete r; rec_TxID := row_tx_id r |}.

Definition row_scans (r : Row) : Prop := 0 ≤ row_block r ∧ 0 ≤ row_tx r ∧ 0 ≤ row_version r.

Lemma wf_row_scans s r : wf s → r ∈ worldstate s → row_scans r.
Proof.
  intros Hwf Hr. destruct (proj1 (Forall_forall _ _) (wf_rows _ Hwf) r Hr) as [? ?].
  split_and!; [lia|done|].
  assert (row_version r ∈ row_version <$>
    filter (of_key (row_channel r) (row_namespace r) (row_key r)) (worldstate s)) as Hv.
  { apply list_elem_of_fmap_2, list_elem_of_filter. by split. }
  rewrite (wf_versions _ Hwf) in Hv. apply elem_of_seqZ in Hv. lia.
Qed.

Lemma scan_row_ret r : row_scans r → scan_row r = Ret (record_of r).
Proof.
  intros (Hb & Ht & Hv). unfold scan_row, scan_uint64.
  by rewrite (proj2 (Z.ltb_ge _ _) Hb), (proj2 (Z.ltb_ge _ _) Ht), (proj2 (Z.ltb_ge _ _) Hv).
Qed.

Lemma scan_optional_ret fmt o :
  (∀ r, o = Some r → row_scans r) → scan_optional fmt o = Ret (record_of <$> o).
Proof. intros H. destruct o as [r|]; simpl; [|done]. by rewrite scan_row_ret by auto. Qed.

Lemma StronglySorted_filter_of_key s ch ns key h :
  wf s → StronglySorted version_lt
    (filter (λ r, row_block r ≤ h ∧ of_key ch ns key r) (worldstate s)).
Proof. intros Hwf. rewrite <- list_filter_filter. by apply StronglySorted_filter, wf_sorted. Qed.

(** Reading at a height picks the last row of the key up to that height. *)
Lemma GetAt_last db ns key h s :
  wf s → h < 2 ^ 63 →
  GetAt None db ns key h s =
    scan_optional "get: %w"
      (last (filter (λ r, row_block r ≤ h) (filter (of_key (channel db) ns key) (worldstate s)))).
Proof.
  intros Hwf Hh. unfold GetAt. rewrite (proj2 (Z.leb_gt _ _) Hh), list_filter_filter.
  erewrite list_filter_iff; [rewrite latest_last; [done|]|intros r; apply and_comm].
  by apply StronglySorted_filter_of_key.
Qed.

Lemma Get_last db ns key s :
  wf s →
  Get None db ns key s =
    scan_optional "get current: %w" (last (filter (of_key (channel db) ns key) (worldstate s))).
Proof. intros Hwf. unfold Get. by rewrite latest_last by (by apply wf_sorted). Qed.

(** ** The abstract history of a channel

    The blocks of a channel in increasing order, and what the two tables hold
    for it: the rows of a key are its writes along the chain, numbered from
    zero. *)

(** A block as a parser produces it: transaction indices increase, and a
    transaction writes a key of a namespace at most once. *)
Record block_wf (b : Block) : Prop := {
  bwf_ok : block_ok b;
  bwf_numbers : StronglySorted Z.lt (tx_Number <$> blk_Transactions b);
  bwf_keys : Forall (λ tx, NoDup (tx_writes tx)) (blk_Transactions b) }.

(** The states a database reaches for the channel of [db]: new blocks in
    increasing order, blocks handled again, updates that fail, and updates of
    other channels. *)
Inductive history (db : VersionedDB) : list Block → Backend → Prop :=
  | history_init : history db [] init
  | history_apply blocks b faults s t :
      history db blocks s → block_wf b → (∀ b', b' ∈ blocks → blk_Number b' < blk_Number b) →
      UpdateWorldState faults db b s = (t, Ret tt) → history db (blocks ++ [b]) t
  | history_replay blocks b faults s t r :
      history db blocks s → b ∈ blocks → UpdateWorldState faults db b s = (t, r) → history db blocks t
  | history_fail blocks db' b faults s t e :
      history db blocks s → UpdateWorldState faults db' b s = (t, Fail e) → history db blocks t
  | history_other blocks db' b faults s t r :
      history db blocks s → channel db' ≠ channel db → block_ok b →
      UpdateWorldState faults db' b s = (t, r) → history db blocks t.

(** Rows numbered with consecutive versions from [n]. *)
Definition numbered (n : Z) (rs : list Row) : list Row :=
  imap (λ i r, set_version r (n + Z.of_nat i)) rs.

(** The writes of a key along a chain of blocks. *)
Definition key_history (ch ns key : string) (blocks : list Block) : list Row :=
  numbered 0 (filter (of_key ch ns key) (blocks ≫= block_rows ch)).

Record history_inv (db : VersionedDB) (blocks : list Block) (s : Backend) : Prop := {
  hi_wf : wf s;
  hi_blocks : Forall block_wf blocks;
  hi_rows : ∀ ns key, filter (of_key (channel db) ns key) (worldstate s) =
                      key_history (channel db) ns key blocks;
  hi_sorted : StronglySorted Z.lt (blk_Number <$> blocks);
  hi_progress : channel_progress s !! channel db = blk_Number <$> last blocks }.

Lemma numbered_app n rs1 rs2 :
  numbered n (rs1 ++ rs2) = numbered n rs1 ++ numbered (n + Z.of_nat (length rs1)) rs2.
Proof.
  unfold numbered. rewrite imap_app. f_equal. apply imap_ext. intros i r _. simpl. f_equal. lia.
Qed.

Lemma length_numbered n rs : length (numbered n rs) = length rs.
Proof. apply length_imap. Qed.

Lemma numbered_cons n r rs : numbered n (r :: rs) = set_version r n :: numbered (n + 1) rs.
Proof.
  unfold numbered. rewrite imap_cons. f_equal; [f_equal; lia|].
  apply imap_ext. intros i x _. simpl. f_equal. lia.
Qed.

Lemma elem_of_numbered n rs r : r ∈ numbered n rs → ∃ r0 v, r0 ∈ rs ∧ r = set_version r0 v ∧ n ≤ v.
Proof.
  unfold numbered. intros (i & x & -> & Hx)%elem_of_lookup_imap_1.
  exists x, (n + Z.of_nat i). split_and!; [|done|lia]. by eapply list_elem_of_lookup_2.
Qed.

Lemma numbered_elem n rs r : r ∈ rs → ∃ v, set_version r v ∈ numbered n rs.
Proof.
  intros [i Hi]%list_elem_of_lookup. exists (n + Z.of_nat i). unfold numbered.
  apply list_elem_of_lookup. exists i. by rewrite list_lookup_imap, Hi.
Qed.

Lemma insert_all_fresh p rows rs :
  wf (MkBackend rows p) → Forall row_ok rs →
  NoDup (primary_key <$> rs) → (∀ r, r ∈ rs → primary_key r ∉ primary_key <$> rows) →
  ∃ rows', insert_all rows rs = Some rows' ∧ ∀ ch ns key,
    filter (of_key ch ns key) rows' =
      filter (of_key ch ns key) rows ++
      numbered (Z.of_nat (length (filter (of_key ch ns key) rows))) (filter (of_key ch ns key) rs).
Proof.
  intros Hwf Hall HN Hfresh. revert rows Hwf Hfresh. induction Hall as [|r rs Hr Hall IH]; intros rows Hwf Hfresh.
  { exists rows. split; [done|]. intros. by rewrite app_nil_r. }
  apply NoDup_cons in HN as [Hn HN].
  assert (find_row rows r = None) as Hf by (apply find_row_None, Hfresh; by left).
  set (rows1 := rows ++ [set_version r (next_version rows (row_channel r) (row_namespace r) (row_key r))]).
  assert (insert_spec rows r = Some rows1) as Hins by (unfold insert_spec; by rewrite Hf).
  destruct (IH HN rows1) as (rows' & Hall' & Hfilter).
  { by eapply insert_spec_wf. }
  { intros r' Hr'. unfold rows1. rewrite fmap_app. simpl. intros [Hk|Hk%list_elem_of_singleton]%elem_of_app.
    - eapply Hfresh; [by right|done].
    - apply Hn. change (primary_key (set_version r _)) with (primary_key r) in Hk.
      rewrite <- Hk. by apply list_elem_of_fmap_2. }
  exists rows'. simpl. rewrite Hins. split; [done|]. intros ch ns key. rewrite Hfilter. unfold rows1.
  rewrite filter_app, !filter_cons.
  destruct (decide (of_key ch ns key r)) as [Hk|Hk];
    [rewrite decide_True by done|rewrite decide_False by done].
  - rewrite length_app, numbered_cons, <- app_assoc. simpl. do 2 f_equal.
    + destruct Hk as (<- & <- & <-). by rewrite next_version_dense by apply (wf_versions _ Hwf).
    + f_equal. lia.
  - by rewrite app_nil_r.
Qed.

Lemma primary_key_tx_rows ch bnum tx :
  primary_key <$> tx_rows ch bnum tx = (λ nk, (ch, nk.1, nk.2, bnum, tx_Number tx)) <$> tx_writes tx.
Proof.
  unfold tx_rows, tx_writes. induction (tx_NsRWS tx) as [|n ns IH]; csimpl; [done|].
  rewrite !fmap_app, IH, <- !list_fmap_compose. done.
Qed.



Lemma tx_rows_block ch bnum tx r : r ∈ tx_rows ch bnum tx → row_block r = bnum.
Proof.
  unfold tx_rows. by intros (n & (w & -> & _)%list_elem_of_fmap & _)%list_elem_of_bind.
Qed.

(** The primary keys of a well-formed block are distinct. *)
Lemma block_rows_NoDup ch b : block_wf b → NoDup (primary_key <$> block_rows ch b).
Proof.
  intros [_ Hnum Hkeys]. unfold block_rows.
  induction (blk_Transactions b) as [|tx txs IH]; [constructor|].
  apply Forall_cons in Hkeys as [Hk Hkeys]. apply StronglySorted_inv in Hnum as [Hnum Hlt].
  rewrite filter_cons. case_decide; [|by apply IH]. csimpl. rewrite fmap_app. apply NoDup_app.
  split_and!; [| |by apply IH].
  - rewrite primary_key_tx_rows. apply NoDup_fmap; [|done]. intros [n1 k1] [n2 k2]. naive_solver.
  - intros k (r1 & -> & Hr1)%list_elem_of_fmap (r2 & Heq & Hr2)%list_elem_of_fmap.
    apply list_elem_of_bind in Hr2 as (tx2 & Hr2%tx_rows_tx & [_ Htx2]%list_elem_of_filter).
    apply tx_rows_tx in Hr1. rewrite Forall_forall in Hlt.
    assert (row_tx r1 = row_tx r2) by (unfold primary_key in Heq; congruence).
    assert (tx_Number tx < tx_Number tx2) by (by apply Hlt, list_elem_of_fmap_2). lia.
Qed.

(** Every row of the channel comes from a block of the history. *)
Lemma history_rows db blocks s r :
  (∀ ns key, filter (of_key (channel db) ns key) (worldstate s) = key_history (channel db) ns key blocks) →
  r ∈ worldstate s → row_channel r = channel db →
  ∃ b r0 v, b ∈ blocks ∧ r0 ∈ block_rows (channel db) b ∧ r = set_version r0 v ∧ 0 ≤ v.
Proof.
  intros Hrows Hr Hch.
  assert (r ∈ key_history (channel db) (row_namespace r) (row_key r) blocks) as Hk.
  { rewrite <- Hrows. by apply list_elem_of_filter. }
  apply elem_of_numbered in Hk as (r0 & v & Hr0 & -> & Hv).
  apply list_elem_of_filter in Hr0 as [_ (b & Hb & Hin)%list_elem_of_bind]. eauto 10.
Qed.

(** Conversely every write of the history has its row. *)
Lemma history_row_present db blocks s b r :
  history_inv db blocks s → b ∈ blocks → r ∈ block_rows (channel db) b →
  ∃ e, find_row (worldstate s) r = Some e ∧ same_content e r = true.
Proof.
  intros Hinv Hb Hr. assert (row_channel r = channel db) as Hch.
  { pose proof (block_rows_channel (channel db) b) as Hall. rewrite Forall_forall in Hall. auto. }
  destruct (numbered_elem 0 (filter (of_key (channel db) (row_namespace r) (row_key r))
              (blocks ≫= block_rows (channel db))) r) as [v Hv].
  { apply list_elem_of_filter. split; [done|]. apply list_elem_of_bind. eauto. }
  fold (key_history (channel db) (row_namespace r) (row_key r) blocks) in Hv.
  rewrite <- (hi_rows _ _ _ Hinv) in Hv. apply list_elem_of_filter in Hv as [_ Hv].
  exists (set_version r v). split.
  - apply (find_row_elem _ _ (wf_primary _ (hi_wf _ _ _ Hinv)) Hv).
  - unfold same_content. by rewrite !bool_decide_true, Bool.eqb_reflx.
Qed.

Lemma history_numbers db blocks s b :
  history_inv db blocks s → b ∈ blocks →
  ∃ n, channel_progress s !! channel db = Some n ∧ blk_Number b ≤ n.
Proof.
  intros [_ _ _ Hsort Hp] Hb. rewrite Hp. clear Hp.
  induction blocks as [|b1 blocks IH] using rev_ind; [by apply elem_of_nil in Hb|].
  rewrite last_snoc. simpl. eexists; split; [done|].
  rewrite fmap_app in Hsort. apply StronglySorted_app in Hsort as (Hlt & _ & _).
  apply elem_of_app in Hb as [Hb| ->%list_elem_of_singleton]; [|lia].
  apply Z.lt_le_incl, Hlt; [by apply list_elem_of_fmap_2|by left].
Qed.

(** A block handled again leaves the tables as they are. *)
Lemma history_replay_same db blocks s b :
  history_inv db blocks s → b ∈ blocks →
  insert_all (worldstate s) (block_rows (channel db) b) = Some (worldstate s) ∧
  upsert_progress (channel_progress s) (channel db) (blk_Number b) = channel_progress s.
Proof.
  intros Hinv Hb. split.
  - apply insert_all_replay. intros r Hr. by eapply history_row_present.
  - destruct (history_numbers _ _ _ _ Hinv Hb) as (n & Hn & Hle).
    apply map_eq. intros ch. rewrite upsert_progress_lookup, Hn. case_decide; [|done].
    subst ch. rewrite Hn. f_equal. lia.
Qed.

Lemma history_fresh db blocks s b r :
  history_inv db blocks s → (∀ b', b' ∈ blocks → blk_Number b' < blk_Number b) →
  r ∈ block_rows (channel db) b → primary_key r ∉ primary_key <$> worldstate s.
Proof.
  intros Hinv Hlt Hr (r' & Heq & Hr')%list_elem_of_fmap.
  pose proof (block_rows_channel (channel db) b) as Hch. rewrite Forall_forall in Hch.
  pose proof (block_rows_block (channel db) b) as Hbl. rewrite Forall_forall in Hbl.
  assert (row_channel r' = channel db ∧ row_block r' = blk_Number b) as [Hc' Hb'].
  { rewrite <- (Hch r Hr), <- (Hbl r Hr). unfold primary_key in Heq. split; congruence. }
  destruct (history_rows db blocks s r' (hi_rows _ _ _ Hinv) Hr' Hc') as (b' & r0 & v & Hin & Hr0 & -> & _).
  pose proof (block_rows_block (channel db) b') as Hbl'. rewrite Forall_forall in Hbl'.
  specialize (Hbl' r0 Hr0). specialize (Hlt b' Hin). simpl in Hb'. lia.
Qed.

Lemma key_history_snoc ch ns key blocks b :
  key_history ch ns key (blocks ++ [b]) =
  key_history ch ns key blocks ++
  numbered (Z.of_nat (length (key_history ch ns key blocks))) (filter (of_key ch ns key) (block_rows ch b)).
Proof.
  unfold key_history. rewrite bind_app, filter_app, numbered_app. f_equal.
  rewrite length_numbered. csimpl. by rewrite app_nil_r.
Qed.

Lemma history_inv_apply db blocks b s t faults :
  history_inv db blocks s → block_wf b → (∀ b', b' ∈ blocks → blk_Number b' < blk_Number b) →
  UpdateWorldState faults db b s = (t, Ret tt) → history_inv db (blocks ++ [b]) t.
Proof.
  intros Hinv Hb Hlt Hup. pose proof Hup as (Hmax & rows' & Hins & ->)%UpdateWorldState_ret.
  destruct (insert_all_fresh (channel_progress s) (worldstate s) (block_rows (channel db) b))
    as (rows'' & Hins' & Hfilter).
  { destruct s. apply Hinv. }
  { apply block_rows_ok; [apply Hb|done]. }
  { by apply block_rows_NoDup. }
  { intros r. by apply (history_fresh db blocks s b). }
  rewrite Hins in Hins'. injection Hins' as <-. split; simpl.
  - by eapply UpdateWorldState_preserves_wf; [apply Hinv|apply Hb|].
  - apply Forall_app. split; [apply Hinv|by apply Forall_singleton].
  - intros ns key. by rewrite Hfilter, key_history_snoc, (hi_rows _ _ _ Hinv).
  - rewrite fmap_app. apply StronglySorted_app. split_and!; [|apply Hinv|by repeat constructor].
    intros x1 x2 (b1 & -> & Hb1)%list_elem_of_fmap ->%list_elem_of_singleton. auto.
  - rewrite upsert_progress_lookup, decide_True, (hi_progress _ _ _ Hinv), last_snoc by done.
    destruct (last blocks) as [b0|] eqn:Hl; simpl; [|done]. f_equal.
    apply last_Some_elem_of, Hlt in Hl. lia.
Qed.

Lemma history_inv_other db db' blocks b s t faults r :
  history_inv db blocks s → channel db' ≠ channel db → block_ok b →
  UpdateWorldState faults db' b s = (t, r) → history_inv db blocks t.
Proof.
  intros Hinv Hch Hb Hup. destruct r as [[]|e]; [|by apply UpdateWorldState_fail in Hup as ->].
  pose proof Hup as (_ & rows' & Hins & ->)%UpdateWorldState_ret. split; simpl.
  - by eapply UpdateWorldState_preserves_wf; [apply Hinv|apply Hb|].
  - apply Hinv.
  - intros ns key. rewrite <- (hi_rows _ _ _ Hinv). 
    refine (insert_all_filter (of_key (channel db) ns key) _ _ _ _ _ Hins); [done|].
    eapply Forall_impl; [apply block_rows_channel|]. intros x Hx [Hc _]. congruence.
  - apply Hinv.
  - rewrite upsert_progress_lookup, decide_False by done. apply Hinv.
Qed.

Lemma history_invariant db blocks s : history db blocks s → history_inv db blocks s.
Proof.
  induction 1 as [|blocks b faults s t _ IH Hb Hlt Hup|blocks b faults s t r _ IH Hb Hup
                  |blocks db' b faults s t e _ IH Hup|blocks db' b faults s t r _ IH Hch Hb Hup].
  - split; [apply wf_init|constructor|done|constructor|apply lookup_empty].
  - by eapply history_inv_apply.
  - destruct r as [[]|e]; [|by apply UpdateWorldState_fail in Hup as ->].
    apply UpdateWorldState_ret in Hup as (_ & rows' & Hins & ->).
    destruct (history_replay_same _ _ _ _ IH Hb) as [Hsame Hp]. unfold after_update.
    rewrite Hp. rewrite Hins in Hsame. injection Hsame as ->. by destruct s.
  - by apply UpdateWorldState_fail in Hup as ->.
  - by eapply history_inv_other.
Qed.

(** ** Rows of a key in height order *)

Lemma StronglySorted_bind {A B} (R : relation A) (S : relation B) (f : A → list B) l :
  StronglySorted R l → (∀ a, a ∈ l → StronglySorted S (f a)) →
  (∀ a1 a2 b1 b2, R a1 a2 → b1 ∈ f a1 → b2 ∈ f a2 → S b1 b2) →
  StronglySorted S (l ≫= f).
Proof.
  intros Hs Hf HR. induction Hs as [|a l Hs IH Hall]; csimpl; [constructor|].
  apply StronglySorted_app. split_and!; [|apply Hf; by left|apply IH; intros; apply Hf; by right].
  intros b1 b2 Hb1 (a2 & Hb2 & Ha2)%list_elem_of_bind. rewrite Forall_forall in Hall. eauto.
Qed.

Lemma StronglySorted_fmap_inv {A B} (R : relation B) (f : A → B) l :
  StronglySorted R (f <$> l) → StronglySorted (λ a1 a2, R (f a1) (f a2)) l.
Proof.
  induction l as [|a l IH]; csimpl; [constructor|]. intros [Hs Hall]%StronglySorted_inv.
  constructor; [auto|]. by rewrite Forall_fmap in Hall.
Qed.

Lemma StronglySorted_all {A} (R : relation A) l : (∀ a b, a ∈ l → b ∈ l → R a b) → StronglySorted R l.
Proof.
  induction l as [|a l IH]; intros H; constructor.
  - apply IH. set_solver.
  - apply Forall_forall. set_solver.
Qed.

Lemma block_rows_sorted ch b : block_wf b → StronglySorted height_le (block_rows ch b).
Proof.
  intros Hb. unfold block_rows.
  eapply (StronglySorted_bind (λ t1 t2, tx_Number t1 < tx_Number t2)).
  - apply StronglySorted_filter, StronglySorted_fmap_inv, Hb.
  - intros tx _. apply StronglySorted_all. intros r1 r2 Hr1 Hr2. right.
    rewrite (tx_rows_tx _ _ _ _ Hr1), (tx_rows_tx _ _ _ _ Hr2). split; [|lia].
    by rewrite (tx_rows_block _ _ _ _ Hr1), (tx_rows_block _ _ _ _ Hr2).
  - intros t1 t2 r1 r2 Ht Hr1 Hr2. right.
    rewrite (tx_rows_tx _ _ _ _ Hr1), (tx_rows_tx _ _ _ _ Hr2). split; [|lia].
    by rewrite (tx_rows_block _ _ _ _ Hr1), (tx_rows_block _ _ _ _ Hr2).
Qed.

Lemma StronglySorted_imap {A} (R : relation A) (f : nat → A → A) l :
  (∀ i j a b, R a b → R (f i a) (f j b)) → StronglySorted R l → StronglySorted R (imap f l).
Proof.
  intros Hf Hs. revert f Hf. induction Hs as [|a l Hs IH Hall]; intros f Hf; simpl; constructor.
  - apply IH. intros i j x y. apply Hf.
  - rewrite Forall_forall in *. intros x (i & y & -> & Hy)%elem_of_lookup_imap_1.
    apply Hf, Hall. by eapply list_elem_of_lookup_2.
Qed.

Lemma key_history_sorted db blocks s ns key :
  history_inv db blocks s → StronglySorted height_le (key_history (channel db) ns key blocks).
Proof.
  intros [_ Hwf _ Hnum _]. unfold key_history, numbered.
  apply StronglySorted_imap; [done|]. apply StronglySorted_filter.
  eapply (StronglySorted_bind (λ b1 b2, blk_Number b1 < blk_Number b2)).
  - by apply StronglySorted_fmap_inv.
  - intros b Hb. rewrite Forall_forall in Hwf. auto using block_rows_sorted.
  - intros b1 b2 r1 r2 Hlt Hr1 Hr2. left.
    pose proof (block_rows_block (channel db) b1) as H1. rewrite Forall_forall in H1.
    pose proof (block_rows_block (channel db) b2) as H2. rewrite Forall_forall in H2.
    by rewrite (H1 _ Hr1), (H2 _ Hr2).
Qed.

Instance height_le_trans : Transitive height_le.
Proof. intros a b c. unfold height_le. lia. Qed.
Instance height_le_total : Total height_le.
Proof. intros a b. unfold height_le. lia. Qed.

(** The rows of a key, sorted by height, are its history. *)
Lemma sort_key_history db blocks s ns key :
  history_inv db blocks s →
  merge_sort height_le (filter (of_key (channel db) ns key) (worldstate s)) =
  key_history (channel db) ns key blocks.
Proof.
  intros Hinv. pose proof (hi_rows _ _ _ Hinv ns key) as Hrows.
  apply (StronglySorted_unique_strong height_le).
  - intros x1 x2 Hx1 Hx2 H12 H21. rewrite merge_sort_Permutation in Hx1. rewrite <- Hrows in Hx2.
    apply list_elem_of_filter in Hx1 as [(? & ? & ?) Hx1].
    apply list_elem_of_filter in Hx2 as [(? & ? & ?) Hx2].
    apply (NoDup_fmap_inj primary_key (worldstate s)); [apply Hinv|done..|].
    assert (row_block x1 = row_block x2 ∧ row_tx x1 = row_tx x2) as [? ?] by (unfold height_le in *; lia).
    unfold primary_key. congruence.
  - apply StronglySorted_merge_sort; apply _.
  - by eapply key_history_sorted.
  - by rewrite merge_sort_Permutation, Hrows.
Qed.

(** Every row of a key's history scans. *)
Lemma key_history_scans db blocks s ns key r :
  history_inv db blocks s → r ∈ key_history (channel db) ns key blocks → row_scans r.
Proof.
  intros Hinv (r0 & v & Hr0 & -> & Hv)%elem_of_numbered.
  apply list_elem_of_filter in Hr0 as [_ (b & Hr0 & Hb)%list_elem_of_bind].
  pose proof (hi_blocks _ _ _ Hinv) as Hblocks. rewrite Forall_forall in Hblocks.
  destruct (bwf_ok _ (Hblocks b Hb)) as [[Hn _] Htx]. rewrite Forall_forall in Htx.
  pose proof (block_rows_block (channel db) b) as Hbl. rewrite Forall_forall in Hbl.
  apply elem_of_block_rows in Hr0 as Hr. destruct Hr as (tx & Hin & _ & Hr).
  unfold row_scans. simpl. rewrite (Hbl _ Hr0), (tx_rows_tx _ _ _ _ Hr). auto.
Qed.

Lemma scan_all_ret l :
  Forall row_scans l →
  foldr (λ r acc, w ← scan_row r; ws ← acc; mret (w :: ws)) (Ret []) l = Ret (record_of <$> l).
Proof.
  induction 1 as [|r l Hr Hl IH]; simpl; [done|]. by rewrite scan_row_ret, IH.
Qed.

(** ** Theorems *)

(** The height of a channel, zero before its first block. *)
Definition channel_height (db : VersionedDB) (s : Backend) : Z := default 0 (channel_progress s !! channel db).

(** What goes on after a view of [db] was opened: blocks of its channel that are
    higher than everything so far, or that were handled before; anything on
    other channels; and any update may fail. *)
Definition later_step (db : VersionedDB) (s t : Backend) : Prop :=
  ∃ faults db' b r, block_ok b ∧
    (channel db' = channel db → channel_height db s < blk_Number b ∨
       ∀ r, r ∈ block_rows (channel db') b → is_Some (find_row (worldstate s) r)) ∧
    UpdateWorldState faults db' b s = (t, r).

Lemma later_step_update db s t : later_step db s t → update_step s t.
Proof. intros (faults & db' & b & r & ? & _ & ?). by exists faults, db', b, r. Qed.

Lemma later_step_rows db h s t ns key :
  later_step db s t → h ≤ channel_height db s →
  filter (λ r, row_block r ≤ h ∧ of_key (channel db) ns key r) (worldstate t) =
  filter (λ r, row_block r ≤ h ∧ of_key (channel db) ns key r) (worldstate s).
Proof.
  intros (faults & db' & b & [[]|e] & _ & Hh & Hup) Hle; [|by apply UpdateWorldState_fail in Hup as ->].
  apply UpdateWorldState_ret in Hup as (_ & rows' & Hins & ->). simpl.
  destruct (decide (channel db' = channel db)) as [Hc|Hc].
  - destruct (Hh Hc) as [Hlt|Ht]; [|by rewrite (insert_all_taken _ _ _ Hins Ht)].
    refine (insert_all_filter (λ r, row_block r ≤ h ∧ of_key (channel db) ns key r) _ _ _ _ _ Hins); [done|].
    eapply Forall_impl; [apply block_rows_block|]. simpl. intros r Hr [Hb _]. lia.
  - refine (insert_all_filter (λ r, row_block r ≤ h ∧ of_key (channel db) ns key r) _ _ _ _ _ Hins); [done|].
    eapply Forall_impl; [apply block_rows_channel|]. simpl. intros r Hr (_ & Hch & _). congruence.
Qed.

(** Heights only grow. *)
Lemma update_step_height db s t : update_step s t → wf s → channel_height db s ≤ channel_height db t.
Proof.
  intros Hs Hwf. pose proof (update_step_extends _ _ Hs) as [_ Hp].
  assert (wf t) as Hwft by (eapply update_steps_wf; [by apply rtc_once|done]).
  unfold channel_height. destruct (channel_progress s !! channel db) as [n|] eqn:E; simpl.
  - destruct (Hp _ _ E) as (n' & -> & ?). done.
  - destruct (channel_progress t !! channel db) as [n'|] eqn:E'; simpl; [|done]. apply (wf_progress _ Hwft) in E'. lia.
Qed.

(** No row is higher than its channel. *)
Definition rows_covered (s : Backend) : Prop :=
  ∀ r, r ∈ worldstate s → ∃ n, channel_progress s !! row_channel r = Some n ∧ row_block r ≤ n.

Lemma update_steps_covered s t : rtc update_step s t → rows_covered s → rows_covered t.
Proof.
  induction 1 as [|s s1 t Hs _ IH]; [done|]. intros Hc. apply IH. clear IH.
  pose proof (update_step_extends _ _ Hs) as [_ Hp]. destruct Hs as (faults & db & b & [[]|e] & _ & Hup);
    [|by apply UpdateWorldState_fail in Hup as ->].
  apply UpdateWorldState_ret in Hup as (_ & rows' & (new & -> & Hnew)%insert_all_new & ->).
  intros r [Hr|(r0 & v & Hr0 & ->)%Hnew]%elem_of_app.
  - destruct (Hc r Hr) as (n & (n' & Hn' & ?)%Hp & ?). exists n'. split; [done|lia].
  - pose proof (proj1 (Forall_forall _ _) (block_rows_block (channel db) b) _ Hr0) as Hb.
    pose proof (proj1 (Forall_forall _ _) (block_rows_channel (channel db) b) _ Hr0) as Hch. simpl in *.
    rewrite Hch, Hb. eexists. split; [by rewrite upsert_progress_lookup, decide_True|]. case_match; lia.
Qed.

Lemma SnapshotAt_bound db block s v :
  wf s → SnapshotAt None db block s = Ret v → snap_db v = db ∧ snap_block v < 2 ^ 63.
Proof.
  intros Hwf. unfold SnapshotAt, BlockNumber. destruct (channel_progress s !! channel db) eqn:E.
  - apply (wf_progress _ Hwf) in E. rewrite (proj2 (Z.ltb_ge _ _)) by lia.
    intros [= <-]. simpl. split; [done|lia].
  - intros [= <-]. simpl. split; [done|lia].
Qed.

(** C13: the invariant of the tables (unique primary keys, versions of a key counting
    up from zero in insertion order, heights in range) holds of a new database
    and is kept by every update, of any channel, block and driver faults,
    whether it succeeds or fails. *)
Theorem tables_well_formed s : rtc update_step init s → wf s.
Proof. intros Hs. eapply update_steps_wf; [done|apply wf_init]. Qed.

(** A write of a valid transaction of a block, and the row that holds it. *)
Definition block_write (b : Block) (tx : Transaction) (ns : string) (w : KVWrite) : Prop :=
  tx ∈ blk_Transactions b ∧ Transaction_Valid tx = true ∧
  ∃ n, n ∈ tx_NsRWS tx ∧ ns_Namespace n = ns ∧ w ∈ rws_Writes (ns_RWS n).

Definition stores (ch : string) (b : Block) (tx : Transaction) (ns : string) (w : KVWrite) (e : Row) : Prop :=
  row_channel e = ch ∧ row_namespace e = ns ∧ row_key e = wr_Key w ∧ row_block e = blk_Number b ∧
  row_tx e = tx_Number tx ∧ row_value e = wr_Value w ∧ row_is_delete e = wr_IsDelete w ∧ row_tx_id e = tx_ID tx.

Lemma block_rows_writes ch b r :
  r ∈ block_rows ch b ↔ ∃ tx ns w, block_write b tx ns w ∧ r = row_of ch (blk_Number b) tx ns w.
Proof.
  rewrite elem_of_block_rows. unfold tx_rows, block_write. setoid_rewrite list_elem_of_bind.
  setoid_rewrite list_elem_of_fmap. naive_solver.
Qed.

(** C8: an update is all or nothing.  With any driver faults it either returns an error
    and leaves both tables as they were; or it returns nil, and then every write of
    every valid transaction of the block has its row with its content, what the table
    held before is still there, every row that it gained is such a write, and the
    height of the channel is at least the block and no other channel's changed. *)
Theorem UpdateWorldState_atomic faults db b s t r :
  UpdateWorldState faults db b s = (t, r) →
  (∃ e, r = Fail e ∧ t = s) ∨
  (r = Ret tt ∧
   (∀ tx ns w, block_write b tx ns w → ∃ e, e ∈ worldstate t ∧ stores (channel db) b tx ns w e) ∧
   (∃ new, worldstate t = worldstate s ++ new ∧
      ∀ e, e ∈ new → ∃ tx ns w, block_write b tx ns w ∧ stores (channel db) b tx ns w e) ∧
   (∃ n, channel_progress t !! channel db = Some n ∧
      n = (match channel_progress s !! channel db with Some old => old `max` blk_Number b | None => blk_Number b end)) ∧
   ∀ ch, ch ≠ channel db → channel_progress t !! ch = channel_progress s !! ch).
Proof.
  intros Hup. destruct r as [[]|e]; [right|left; exists e; by apply UpdateWorldState_fail in Hup].
  split; [done|]. apply UpdateWorldState_ret in Hup as (_ & rows' & Hins & ->). split_and!.
  - intros tx ns w Hw. destruct (insert_all_found _ _ _ (row_of (channel db) (blk_Number b) tx ns w) Hins) as (e & He & Hs).
    { apply block_rows_writes. by exists tx, ns, w. }
    apply find_row_Some in He as [He [= ? ? ? ? ?]]. exists e. split; [done|].
    unfold same_content in Hs. rewrite !andb_true_iff, !bool_decide_eq_true, Bool.eqb_true_iff in Hs.
    destruct Hs as [[? ?] ?]. by split_and!.
  - destruct (insert_all_new _ _ _ Hins) as (new & -> & Hnew). exists new. split; [done|].
    intros e (r0 & v & (tx & ns & w & Hw & ->)%block_rows_writes & ->)%Hnew. by exists tx, ns, w.
  - eexists. split; [|done]. simpl. by rewrite upsert_progress_lookup, decide_True.
  - intros ch Hch. simpl. by rewrite upsert_progress_lookup, decide_False by done.
Qed.

(** Replaying a block is a no-op: once a block was handled, handling it again in
    any state reached by later updates succeeds and changes neither table. *)
Theorem UpdateWorldState_idempotent faults db b s s' t :
  UpdateWorldState faults db b s = (s', Ret tt) → rtc update_step s' t →
  UpdateWorldState no_faults db b t = (t, Ret tt).
Proof.
  intros (Hb & rows' & Hins & ->)%UpdateWorldState_ret [[ext Hext] Hp]%update_steps_extend. simpl in *.
  rewrite (UpdateWorldState_no_faults db b t (worldstate t)); [|done|].
  - unfold after_update. f_equal.
    destruct (Hp (channel db) (match channel_progress s !! channel db with
                               | Some old => old `max` blk_Number b | None => blk_Number b end))
      as (n' & Hn' & Hle).
    { by rewrite upsert_progress_lookup, decide_True. }
    destruct t as [rows p]. simpl in *. f_equal. apply map_eq. intros ch.
    rewrite upsert_progress_lookup, Hn'. case_decide; [|done]. subst ch. rewrite Hn'. f_equal.
    destruct (channel_progress s !! channel db); lia.
  - rewrite Hext. apply insert_all_replay. intros r Hr.
    destruct (insert_all_found _ _ _ _ Hins Hr) as (e & Hf & Hs). eauto using find_row_app.
Qed.

(** A write that collides with a row of the same height and different content is
    refused: the update fails whatever the faults, and the tables stay. *)
Theorem UpdateWorldState_conflict faults db b s r e :
  r ∈ block_rows (channel db) b → find_row (worldstate s) r = Some e → same_content e r = false →
  ∃ err, UpdateWorldState faults db b s = (s, Fail err).
Proof.
  intros Hr Hf Hs. destruct (UpdateWorldState faults db b s) as [t [[]|err]] eqn:Hup.
  - apply UpdateWorldState_ret in Hup as (_ & rows' & Hins & _).
    destruct (insert_all_found _ _ _ _ Hins Hr) as (e' & Hf' & Hs').
    apply insert_all_prefix in Hins as [ext ->]. apply (find_row_app _ ext) in Hf. congruence.
  - exists err. by apply UpdateWorldState_fail in Hup as ->.
Qed.

(** A transaction that writes a key twice with different contents makes the update
    of its block fail, in every database and whatever the driver does: the second
    insert collides with the first at the same height. *)
Theorem duplicate_write_refused faults db b s tx n1 n2 w1 w2 :
  tx ∈ blk_Transactions b → Transaction_Valid tx = true → n1 ∈ tx_NsRWS tx → n2 ∈ tx_NsRWS tx →
  ns_Namespace n1 = ns_Namespace n2 → w1 ∈ rws_Writes (ns_RWS n1) → w2 ∈ rws_Writes (ns_RWS n2) →
  wr_Key w1 = wr_Key w2 → wr_Value w1 ≠ wr_Value w2 ∨ wr_IsDelete w1 ≠ wr_IsDelete w2 →
  ∃ err, UpdateWorldState faults db b s = (s, Fail err).
Proof.
  intros Htx Hv Hn1 Hn2 Hns Hw1 Hw2 Hk Hne.
  assert (∀ n w, n ∈ tx_NsRWS tx → w ∈ rws_Writes (ns_RWS n) →
    row_of (channel db) (blk_Number b) tx (ns_Namespace n) w ∈ block_rows (channel db) b) as Hin.
  { intros n w Hn Hw. unfold block_rows. apply list_elem_of_bind. exists tx.
    split; [|by apply list_elem_of_filter]. apply list_elem_of_bind. exists n. split; [|done].
    by apply list_elem_of_fmap_2. }
  destruct (UpdateWorldState faults db b s) as [t [[]|err]] eqn:Hup; [|exists err; by apply UpdateWorldState_fail in Hup as ->].
  apply UpdateWorldState_ret in Hup as (_ & rows' & Hins & _). exfalso.
  destruct (insert_all_found _ _ _ _ Hins (Hin n1 w1 Hn1 Hw1)) as (e1 & Hf1 & Hs1).
  destruct (insert_all_found _ _ _ _ Hins (Hin n2 w2 Hn2 Hw2)) as (e2 & Hf2 & Hs2).
  assert (e1 = e2) as ->.
  { unfold find_row, primary_key in Hf1, Hf2. simpl in Hf1, Hf2. rewrite Hns, Hk in Hf1. congruence. }
  unfold same_content in Hs1, Hs2. simpl in Hs1, Hs2.
  apply andb_true_iff in Hs1 as [[Hv1 Hd1]%andb_true_iff _], Hs2 as [[Hv2 Hd2]%andb_true_iff _].
  apply bool_decide_eq_true in Hv1, Hv2. apply eqb_prop in Hd1, Hd2. destruct Hne; congruence.
Qed.

(** The records of a database as of a block. *)
Definition world_at (db : VersionedDB) (block : Z) (s : Backend) (ns key : string) : option WriteRecord :=
  record_of <$> last (filter (λ r, row_block r ≤ block ∧ of_key (channel db) ns key r) (worldstate s)).

(** A view that was opened below the height of its channel; it shows [v]. *)
Definition view_open (v : string → string → option WriteRecord) (sn : versionedSnapshot) (s : Backend) : Prop :=
  wf s ∧ snap_block sn ≤ channel_height (snap_db sn) s ∧ snap_block sn < 2 ^ 63 ∧
  ∀ ns key, snapshot_Get None sn ns key s = Ret (v ns key).

Lemma snapshot_Get_world sn s ns key :
  wf s → snap_block sn < 2 ^ 63 → snapshot_Get None sn ns key s = Ret (world_at (snap_db sn) (snap_block sn) s ns key).
Proof.
  intros Hwf Hh. unfold snapshot_Get, world_at. rewrite GetAt_last, list_filter_filter by done.
  apply scan_optional_ret. intros r [_ Hr]%last_Some_elem_of%list_elem_of_filter. by apply (wf_row_scans s).
Qed.

(** One later update leaves the reads of a view as they are. *)
Lemma later_step_view v sn s t : view_open v sn s → later_step (snap_db sn) s t → view_open v sn t.
Proof.
  intros (Hwf & Hle & Hh & Hv) Hstep. pose proof (later_step_update _ _ _ Hstep) as Hup.
  assert (wf t) as Hwft by (eapply update_steps_wf; [by apply rtc_once|done]).
  split_and!; [done| |done|].
  - etrans; [exact Hle|]. by apply update_step_height.
  - intros ns key. rewrite <- Hv, !snapshot_Get_world by done. unfold world_at.
    by rewrite (later_step_rows _ _ _ _ _ _ Hstep Hle).
Qed.

(** [SnapshotAt] opens a view of the records as of the block asked for, whether or
    not the database has reached it. *)
Lemma SnapshotAt_view db block s sn :
  rtc update_step init s → SnapshotAt None db block s = Ret sn → view_open (world_at db block s) sn s.
Proof.
  intros Hs Hsn. assert (wf s) as Hwf by (eapply update_steps_wf; [done|apply wf_init]).
  assert (rows_covered s) as Hcov by (eapply update_steps_covered; [done|by intros r ?%elem_of_nil]).
  destruct (SnapshotAt_bound _ _ _ _ Hwf Hsn) as [Hdb Hh].
  assert (snap_block sn = block `min` channel_height db s) as Hb.
  { unfold SnapshotAt, BlockNumber, channel_height in *. destruct (channel_progress s !! channel db) as [n|]; [|by injection Hsn as <-].
    destruct (n <? 0); [done|]. by injection Hsn as <-. }
  split_and!; [done|rewrite Hdb, Hb; lia|done|]. intros ns key. rewrite snapshot_Get_world by done.
  unfold world_at. rewrite Hdb, Hb. do 3 f_equal. apply list_filter_ext. intros r Hr.
  destruct (Hcov r Hr) as (n & Hn & Hle). unfold of_key, channel_height. split; [intros [? ?]; split; [lia|done]|].
  intros [? (Hch & ? & ?)]. rewrite <- Hch, Hn. simpl. split; [lia|done].
Qed.

(** A snapshot does not move: a view opened at any block, also above the current
    height, shows the records as of that block that the database had when it was
    opened, and reads the same record of every key after any later updates. *)
Theorem snapshot_stable db block s t sn ns key :
  rtc update_step init s → SnapshotAt None db block s = Ret sn → rtc (later_step db) s t →
  snapshot_Get None sn ns key t = Ret (world_at db block s ns key).
Proof.
  intros Hs Hsn Hsteps. pose proof (SnapshotAt_view _ _ _ _ Hs Hsn) as Hv.
  assert (snap_db sn = db) as Hdb by (eapply SnapshotAt_bound; [apply Hv|done]). subst db.
  assert (view_open (world_at (snap_db sn) block s) sn t) as (_ & _ & _ & Ht); [|apply Ht].
  clear Hs Hsn. generalize dependent (world_at (snap_db sn) block s). intros v Hv.
  induction Hsteps; eauto using later_step_view.
Qed.

(** The latest record of a key along a chain. *)
Definition chain_view (db : VersionedDB) (blocks : list Block) (ns key : string) : option WriteRecord :=
  record_of <$> last (key_history (channel db) ns key blocks).

Lemma Get_history db blocks s ns key :
  history_inv db blocks s → Get None db ns key s = Ret (chain_view db blocks ns key).
Proof.
  intros Hinv. rewrite Get_last, (hi_rows _ _ _ Hinv) by apply Hinv. apply scan_optional_ret.
  intros r Hr%last_Some_elem_of. by eapply key_history_scans.
Qed.

(** The height of a chain, as [BlockNumber] reports it. *)
Definition chain_height (blocks : list Block) : Z :=
  match last blocks with Some b => blk_Number b | None => 0 end.

Lemma BlockNumber_history db blocks s :
  history_inv db blocks s → BlockNumber None db s = Ret (chain_height blocks).
Proof.
  intros Hinv. unfold BlockNumber, chain_height. rewrite (hi_progress _ _ _ Hinv).
  destruct (last blocks) as [b|] eqn:E; simpl; [|done].
  apply last_Some_elem_of in E. destruct (proj1 (Forall_forall _ _) (hi_blocks _ _ _ Hinv) b E) as [[[Hn _] _] _ _].
  by rewrite (proj2 (Z.ltb_ge _ _) Hn).
Qed.

Lemma UpdateWorldState_next db blocks b s :
  history db blocks s → block_wf b → (∀ b', b' ∈ blocks → blk_Number b' < blk_Number b) →
  blk_Number b < 2 ^ 63 →
  ∃ t, UpdateWorldState no_faults db b s = (t, Ret tt) ∧ history db (blocks ++ [b]) t.
Proof.
  intros Hh Hb Hlt Hmax. pose proof (history_invariant _ _ _ Hh) as Hinv.
  destruct (insert_all_fresh (channel_progress s) (worldstate s) (block_rows (channel db) b))
    as (rows' & Hins & _).
  { destruct s. apply Hinv. }
  { apply block_rows_ok; [apply Hb|done]. }
  { by apply block_rows_NoDup. }
  { intros r. by apply (history_fresh db blocks s b). }
  pose proof (UpdateWorldState_no_faults db b s rows' Hmax Hins) as Hup.
  eexists. split; [done|by eapply history_apply].
Qed.

Lemma GetHistory_history db blocks s ns key :
  history_inv db blocks s →
  GetHistory None None db ns key s = Ret (record_of <$> key_history (channel db) ns key blocks).
Proof.
  intros Hinv. unfold GetHistory. rewrite (sort_key_history _ _ _ _ _ Hinv), scan_all_ret; [done|].
  apply Forall_forall. intros r. by eapply key_history_scans.
Qed.

(** C5: the store implements the history of its channel: in every state reached by
    handling a chain of blocks in order (with replays, failures and other
    channels in between), reading a key at a height gives the last write to it
    in a valid transaction of a block up to that height, reading the latest
    state gives the last write of the chain, the history of a key is all its
    writes in chain order, and the version of each record is the number of
    writes before it. *)
Theorem reads_refine_history db blocks s ns key h :
  history db blocks s → h < 2 ^ 63 →
  let writes := key_history (channel db) ns key blocks in
  GetAt None db ns key h s = Ret (record_of <$> last (filter (λ r, row_block r ≤ h) writes)) ∧
  Get None db ns key s = Ret (record_of <$> last writes) ∧
  GetHistory None None db ns key s = Ret (record_of <$> writes) ∧
  ∀ i r, writes !! i = Some r → row_version r = Z.of_nat i.
Proof.
  intros Hinv%history_invariant Hh writes. split_and!.
  - rewrite GetAt_last, (hi_rows _ _ _ Hinv) by (done || apply Hinv). apply scan_optional_ret.
    intros r [_ Hr]%last_Some_elem_of%list_elem_of_filter. by eapply key_history_scans.
  - by apply Get_history.
  - by apply GetHistory_history.
  - intros i r Hi. unfold writes, key_history, numbered in Hi. rewrite list_lookup_imap in Hi.
    apply fmap_Some in Hi as (r0 & _ & ->). simpl. lia.
Qed.

(** The next block of a chain is always accepted: without driver faults the update
    succeeds, the height becomes the number of the block, and the new state is
    the history extended by the block. *)
Theorem UpdateWorldState_progress db blocks b s :
  history db blocks s → block_wf b → (∀ b', b' ∈ blocks → blk_Number b' < blk_Number b) →
  blk_Number b < 2 ^ 63 →
  ∃ t, UpdateWorldState no_faults db b s = (t, Ret tt) ∧
       BlockNumber None db t = Ret (blk_Number b) ∧ history db (blocks ++ [b]) t.
Proof.
  intros Hh Hb Hlt Hmax. destruct (UpdateWorldState_next db blocks b s) as (t & Hup & Ht); [done..|].
  exists t. split_and!; [done| |done].
  rewrite (BlockNumber_history db (blocks ++ [b])) by (by apply history_invariant).
  unfold chain_height. by rewrite last_snoc.
Qed.

(** Channels are isolated: an update of one channel does not change what any read
    of another channel returns. *)
Theorem channels_isolated faults db db' b s t r ns key h :
  channel db' ≠ channel db → UpdateWorldState faults db b s = (t, r) →
  Get None db' ns key t = Get None db' ns key s ∧
  GetAt None db' ns key h t = GetAt None db' ns key h s ∧
  GetHistory None None db' ns key t = GetHistory None None db' ns key s ∧
  BlockNumber None db' t = BlockNumber None db' s.
Proof.
  intros Hch Hup. destruct r as [[]|e]; [|by apply UpdateWorldState_fail in Hup as ->].
  apply UpdateWorldState_ret in Hup as (_ & rows' & Hins & ->).
  assert (filter (of_key (channel db') ns key) rows' = filter (of_key (channel db') ns key) (worldstate s)) as Hf.
  { refine (insert_all_filter (of_key (channel db') ns key) _ _ _ _ _ Hins); [done|].
    eapply Forall_impl; [apply block_rows_channel|]. intros x Hx [Hc _]. congruence. }
  unfold Get, GetAt, GetHistory, BlockNumber. simpl. rewrite Hf, upsert_progress_lookup, decide_False by done.
  split_and!; [done| |done..]. destruct (2 ^ 63 <=? h); [done|]. do 2 f_equal.
  erewrite !(list_filter_iff (λ r, of_key _ _ _ r ∧ _) (λ r, row_block r ≤ h ∧ of_key (channel db') ns key r))
    by (intros; apply and_comm).
  by rewrite <- !list_filter_filter, Hf.
Qed.

(** ** Concrete histories *)

Module Chain.

Definition db : VersionedDB := MkVersionedDB "mychannel".
Definition value (s : string) : bytes := bytes_of_string s.

Definition tx (id : string) (number : Z) (status : Status) (writes : list KVWrite) : Transaction :=
  {| tx_ID := id; tx_Number := number; tx_InputArgs := []; tx_Status := status;
     tx_RawCode := 0; tx_Reason := Lit ""; tx_Event := []; tx_EventName := ""; tx_Payload := [];
     tx_NsRWS := [MkNsRWS "cc" (MkRWS [] writes)] |}.

Definition block (n : Z) (txs : list Transaction) : Block :=
  {| blk_Number := n; blk_Hash := []; blk_ParentHash := []; blk_Timestamp := 0;
     blk_Transactions := txs; blk_ConfigTransaction := None |}.

(** Block 1 writes [k], block 2 has an invalid write of [k] and a valid delete. *)
Definition b1 : Block := block 1 [tx "t1" 0 StatusCommitted [MkKVWrite "k" false (value "v1")]].
Definition b2 : Block :=
  block 2 [tx "t2" 0 StatusMVCCConflict [MkKVWrite "k" false (value "bad")];
           tx "t3" 1 StatusCommitted [MkKVWrite "k" true []; MkKVWrite "j" false (value "w")]].

Definition s1 : Backend := (UpdateWorldState no_faults db b1 init).1.
Definition s2 : Backend := (UpdateWorldState no_faults db b2 s1).1.

Lemma b1_wf : block_wf b1.
Proof. split; [split; [by vm_compute|by repeat constructor]|by repeat constructor|].
  repeat constructor; by apply (bool_decide_unpack _). Qed.

Lemma b2_wf : block_wf b2.
Proof. split; [split; [by vm_compute|by repeat constructor]|by repeat constructor|].
  repeat constructor; by apply (bool_decide_unpack _). Qed.

Lemma history1 : history db [b1] s1.
Proof.
  apply (history_apply db [] b1 no_faults init); [constructor|apply b1_wf| |reflexivity].
  by intros ? ?%elem_of_nil.
Qed.

Lemma history2 : history db [b1; b2] s2.
Proof.
  apply (history_apply db [b1] b2 no_faults s1); [apply history1|apply b2_wf| |reflexivity].
  by intros b ->%list_elem_of_singleton.
Qed.

End Chain.

Lemma tables_well_formed_witness : wf Chain.s2.
Proof.
  apply tables_well_formed. eapply rtc_l; [|eapply rtc_once].
  - exists no_faults, Chain.db, Chain.b1, (Ret tt). split; [apply Chain.b1_wf|reflexivity].
  - exists no_faults, Chain.db, Chain.b2, (Ret tt). split; [apply Chain.b2_wf|reflexivity].
Defined.

Lemma UpdateWorldState_atomic_witness :
  (∃ e, UpdateWorldState (λ n, (n =? 5)%nat) Chain.db Chain.b2 Chain.s1 = (Chain.s1, Fail e)) ∧
  ∃ e, e ∈ worldstate Chain.s1 ∧ row_value e = Chain.value "v1" ∧ row_tx_id e = "t1".
Proof.
  split.
  - destruct (UpdateWorldState_atomic (λ n, (n =? 5)%nat) Chain.db Chain.b2 Chain.s1 _ _ eq_refl)
      as [(e & Hr & Ht)|[Hr _]]; [|by vm_compute in Hr].
    exists e. by vm_compute in Hr |- *; rewrite Hr.
  - destruct (UpdateWorldState_atomic no_faults Chain.db Chain.b1 init _ _ eq_refl)
      as [(e & Hr & _)|(_ & Hall & _)]; [by vm_compute in Hr|].
    destruct (Hall (Chain.tx "t1" 0 StatusCommitted [MkKVWrite "k" false (Chain.value "v1")]) "cc"
      (MkKVWrite "k" false (Chain.value "v1"))) as (e & He & _ & _ & _ & _ & _ & Hv & _ & Hid).
    { split_and!; [by left|reflexivity|]. eexists. split_and!; [by left|reflexivity|by left]. }
    by exists e.
Defined.

Lemma UpdateWorldState_idempotent_witness :
  UpdateWorldState no_faults Chain.db Chain.b1 Chain.s2 = (Chain.s2, Ret tt).
Proof.
  apply (UpdateWorldState_idempotent no_faults Chain.db Chain.b1 init Chain.s1); [reflexivity|].
  apply rtc_once. exists no_faults, Chain.db, Chain.b2, (Ret tt). split; [apply Chain.b2_wf|reflexivity].
Defined.

Lemma UpdateWorldState_conflict_witness :
  ∃ err, UpdateWorldState no_faults Chain.db
    (Chain.block 1 [Chain.tx "t1" 0 StatusCommitted [MkKVWrite "k" false (Chain.value "other")]]) Chain.s1
    = (Chain.s1, Fail err).
Proof. eapply UpdateWorldState_conflict; [by left|reflexivity|reflexivity]. Defined.

Lemma snapshot_stable_witness :
  snapshot_Get None (MkSnapshot Chain.db 1) "cc" "k" Chain.s2 =
  Ret (Some (MkWriteRecord "cc" "k" 1 0 0 (Chain.value "v1") false "t1")).
Proof.
  rewrite (snapshot_stable Chain.db 7 Chain.s1 Chain.s2); [reflexivity| |reflexivity|].
  - apply rtc_once. exists no_faults, Chain.db, Chain.b1, (Ret tt). split; [apply Chain.b1_wf|reflexivity].
  - apply rtc_once. exists no_faults, Chain.db, Chain.b2, (Ret tt).
    split_and!; [apply Chain.b2_wf|by left|reflexivity].
Defined.

Lemma reads_refine_history_witness :
  GetAt None Chain.db "cc" "k" 1 Chain.s2 =
    Ret (Some (MkWriteRecord "cc" "k" 1 0 0 (Chain.value "v1") false "t1")) ∧
  Get None Chain.db "cc" "k" Chain.s2 = Ret (Some (MkWriteRecord "cc" "k" 2 1 1 [] true "t3")).
Proof.
  destruct (reads_refine_history Chain.db [Chain.b1; Chain.b2] Chain.s2 "cc" "k" 1 Chain.history2)
    as (HGetAt & HGet & _); [lia|]. by rewrite HGetAt, HGet.
Defined.

Lemma UpdateWorldState_progress_witness :
  ∃ t, UpdateWorldState no_faults Chain.db Chain.b2 Chain.s1 = (t, Ret tt) ∧
       BlockNumber None Chain.db t = Ret 2.
Proof.
  destruct (UpdateWorldState_progress Chain.db [Chain.b1] Chain.b2 Chain.s1) as (t & ? & ? & _);
    [apply Chain.history1|apply Chain.b2_wf|by intros b ->%list_elem_of_singleton|by vm_compute|].
  by exists t.
Defined.

Lemma channels_isolated_witness :
  Get None (MkVersionedDB "other") "cc" "k" Chain.s2 = Ret None.
Proof.
  destruct (channels_isolated no_faults Chain.db (MkVersionedDB "other") Chain.b2 Chain.s1
              Chain.s2 (Ret tt) "cc" "k" 0) as [-> _]; [done|reflexivity|reflexivity].
Defined.
