(* ===== verification/Simulation.v ===== *)
(** * Simulation of chaincode on a snapshot

    [SimulationStore] (state/sim.go): the stub that executes a transaction on a
    snapshot and records its read-write set.  A chaincode is any terminating
    program over the operations of the stub; the theorems say what its recorded
    read-write set means. *)

From S2P Require Import Prelude Blocks Mvcc.

Record Log := MkLog { log_Address : bytes; log_Topics : list bytes; log_Data : bytes }.

Record SimulationStore := MkSimulationStore {
  sim_namespace : string;
  sim_snap : RecordGetter;
  sim_blockNum : Z;
  sim_reads : gmap string KVRead;
  sim_writes : gmap string KVWrite;
  sim_logs : list Log;
  sim_monotonicVersions : bool }.

Definition NewSimulationStore (snap : RecordGetter) (namespace : string) (blockNum : Z)
    (monotonicVersions : bool) : SimulationStore :=
  {| sim_namespace := namespace; sim_snap := snap; sim_blockNum := blockNum; sim_reads := ∅;
     sim_writes := ∅; sim_logs := []; sim_monotonicVersions := monotonicVersions |}.

(** The assignments [s.reads[key] = read], [s.writes[key] = write] and
    [s.logs = append(s.logs, log)]. *)
Definition put_read (s : SimulationStore) (key : string) (read : KVRead) : SimulationStore :=
  {| sim_namespace := sim_namespace s; sim_snap := sim_snap s; sim_blockNum := sim_blockNum s;
     sim_reads := <[key := read]> (sim_reads s); sim_writes := sim_writes s;
     sim_logs := sim_logs s; sim_monotonicVersions := sim_monotonicVersions s |}.

Definition put_write (s : SimulationStore) (key : string) (write : KVWrite) : SimulationStore :=
  {| sim_namespace := sim_namespace s; sim_snap := sim_snap s; sim_blockNum := sim_blockNum s;
     sim_reads := sim_reads s; sim_writes := <[key := write]> (sim_writes s);
     sim_logs := sim_logs s; sim_monotonicVersions := sim_monotonicVersions s |}.

Definition append_log (s : SimulationStore) (log : Log) : SimulationStore :=
  {| sim_namespace := sim_namespace s; sim_snap := sim_snap s; sim_blockNum := sim_blockNum s;
     sim_reads := sim_reads s; sim_writes := sim_writes s;
     sim_logs := sim_logs s ++ [log]; sim_monotonicVersions := sim_monotonicVersions s |}.

(** The version a read of a live record carries. *)
Definition read_version (mono : bool) (record : WriteRecord) : Version :=
  if mono then MkVersion (rec_Version record) 0
  else MkVersion (rec_BlockNum record) (rec_TxNum record).

Definition GetState (s : SimulationStore) (key : string) : SimulationStore * result bytes :=
  match sim_writes s !! key with
  | Some record => if wr_IsDelete record then (s, Ret []) else (s, Ret (wr_Value record))
  | None =>
      match sim_snap s (sim_namespace s) key with
      | Fail err => (s, Fail err)
      | Ret None => (put_read s key (MkKVRead key None), Ret [])
      | Ret (Some record) =>
          if rec_IsDelete record then (s, Ret [])
          else (put_read s key (MkKVRead key (Some (read_version (sim_monotonicVersions s) record))),
                Ret (rec_Value record))
      end
  end.

Definition DelState (s : SimulationStore) (key : string) : SimulationStore * result unit :=
  (put_write s key (MkKVWrite key true []), Ret tt).

Definition PutState (s : SimulationStore) (key : string) (value : bytes) : SimulationStore * result unit :=
  if (String.length key =? 0)%nat then (s, Fail (Errorf "key is empty" []))
  else if (length value =? 0)%nat then DelState s key
  else (put_write s key (MkKVWrite key false value), Ret tt).

Definition AddLog (s : SimulationStore) (address : bytes) (topics : list bytes) (data : bytes)
    : SimulationStore :=
  append_log s (MkLog address topics data).

Definition sim_Version (s : SimulationStore) : Z := sim_blockNum s.

(** [Result] ranges over the two maps; [order] is the iteration order of a Go
    map, which the runtime chooses. *)
Definition Result (order : ∀ A : Type, gmap string A → list (string * A)) (s : SimulationStore) : ReadWriteSet :=
  {| rws_Reads := (order KVRead (sim_reads s)).*2; rws_Writes := (order KVWrite (sim_writes s)).*2 |}.

(** ** Chaincode

    A terminating program over the operations of the stub, which may branch on
    everything they return. *)
Inductive chaincode (R : Type) :=
  | Return (r : R)
  | CallGet (key : string) (k : result bytes → chaincode R)
  | CallPut (key : string) (value : bytes) (k : result unit → chaincode R)
  | CallDel (key : string) (k : result unit → chaincode R)
  | CallLog (address : bytes) (topics : list bytes) (data : bytes) (k : chaincode R).
Arguments Return {R} r.
Arguments CallGet {R} key k.
Arguments CallPut {R} key value k.
Arguments CallDel {R} key k.
Arguments CallLog {R} address topics data k.

Fixpoint run {R} (p : chaincode R) (s : SimulationStore) : SimulationStore * R :=
  match p with
  | Return r => (s, r)
  | CallGet key k => let '(s', v) := GetState s key in run (k v) s'
  | CallPut key value k => let '(s', e) := PutState s key value in run (k e) s'
  | CallDel key k => let '(s', e) := DelState s key in run (k e) s'
  | CallLog address topics data k => run k (AddLog s address topics data)
  end.

(** ** The invariant of a simulation *)

(** A recorded read carries the version of the record the snapshot has. *)
Definition read_faithful (s : SimulationStore) (key : string) (r : KVRead) : Prop :=
  ∃ record, sim_snap s (sim_namespace s) key = Ret record ∧
    rd_Key r = key ∧
    match record with
    | None => rd_Version r = None
    | Some rc => rec_IsDelete rc = false ∧ rd_Version r = Some (read_version (sim_monotonicVersions s) rc)
    end.

Record sim_inv (s : SimulationStore) : Prop := {
  si_reads : map_Forall (read_faithful s) (sim_reads s);
  si_writes : map_Forall (λ key w, wr_Key w = key ∧ (wr_IsDelete w = true ↔ wr_Value w = [])) (sim_writes s) }.

(** What a simulation never changes, and the reads it only adds to. *)
Record sim_extends (s t : SimulationStore) : Prop := {
  se_namespace : sim_namespace t = sim_namespace s;
  se_snap : sim_snap t = sim_snap s;
  se_blockNum : sim_blockNum t = sim_blockNum s;
  se_mono : sim_monotonicVersions t = sim_monotonicVersions s;
  se_reads : sim_reads s ⊆ sim_reads t }.

#[export] Instance sim_extends_preorder : PreOrder sim_extends.
Proof.
  split.
  - by intros s.
  - intros s t u [? ? ? ? ?] [? ? ? ? ?]. split; try congruence. by trans (sim_reads t).
Qed.

Lemma sim_inv_new snap ns n mono : sim_inv (NewSimulationStore snap ns n mono).
Proof. split; apply map_Forall_empty. Qed.

Lemma read_faithful_unique s key r r' : read_faithful s key r → read_faithful s key r' → r = r'.
Proof.
  intros (o & Hs & Hk & Hr) (o' & Hs' & Hk' & Hr'). rewrite Hs in Hs'. injection Hs' as <-.
  destruct r, r'; simpl in *. destruct o; naive_solver.
Qed.

Lemma put_read_step s key r :
  sim_inv s → read_faithful s key r → sim_inv (put_read s key r) ∧ sim_extends s (put_read s key r).
Proof.
  intros [Hr Hw] Hf. split; split; simpl; try done.
  - by apply map_Forall_insert_2.
  - destruct (sim_reads s !! key) as [r'|] eqn:E.
    + rewrite (read_faithful_unique s key r r') by (done || by apply (Hr key)). by rewrite insert_id.
    + by apply insert_subseteq.
Qed.

Lemma put_write_step s key w :
  sim_inv s → wr_Key w = key → (wr_IsDelete w = true ↔ wr_Value w = []) →
  sim_inv (put_write s key w) ∧ sim_extends s (put_write s key w).
Proof. intros [Hr Hw] Hk Hv. split; split; simpl; try done. by apply map_Forall_insert_2. Qed.

Lemma GetState_step s key s' v : sim_inv s → GetState s key = (s', v) → sim_inv s' ∧ sim_extends s s'.
Proof.
  intros Hinv. unfold GetState. destruct (sim_writes s !! key) as [w|].
  { by destruct (wr_IsDelete w); intros [= <- <-]. }
  destruct (sim_snap s _ key) as [[rc|]|err] eqn:E; [| |by intros [= <- <-]].
  - destruct (rec_IsDelete rc) eqn:Ed; intros [= <- <-]; [done|].
    apply put_read_step; [done|]. by exists (Some rc).
  - intros [= <- <-]. apply put_read_step; [done|]. by exists None.
Qed.

Lemma DelState_step s key s' e : sim_inv s → DelState s key = (s', e) → sim_inv s' ∧ sim_extends s s'.
Proof. intros Hinv [= <- <-]. by apply put_write_step. Qed.

Lemma PutState_step s key v s' e : sim_inv s → PutState s key v = (s', e) → sim_inv s' ∧ sim_extends s s'.
Proof.
  intros Hinv. unfold PutState. destruct (_ =? 0)%nat; [by intros [= <- <-]|].
  destruct v as [|b v]; simpl; [by apply DelState_step|]. intros [= <- <-]. by apply put_write_step.
Qed.

Lemma run_step {R} (p : chaincode R) s s' r : sim_inv s → run p s = (s', r) → sim_inv s' ∧ sim_extends s s'.
Proof.
  revert s. induction p as [r0|key k IH|key v k IH|key k IH|a t d k IH]; intros s Hinv; simpl.
  - by intros [= <- <-].
  - destruct (GetState s key) as [s1 v] eqn:E. destruct (GetState_step _ _ _ _ Hinv E) as [H1 He].
    intros [? He']%IH; [|done]. split; [done|]. by trans s1.
  - destruct (PutState s key v) as [s1 e] eqn:E. destruct (PutState_step _ _ _ _ _ Hinv E) as [H1 He].
    intros [? He']%IH; [|done]. split; [done|]. by trans s1.
  - intros [? He']%IH; [|by apply (DelState_step s key _ (Ret tt))]. split; [done|].
    etrans; [|exact He']. by apply (DelState_step s key _ (Ret tt)).
  - intros [? He']%IH; [|by destruct Hinv]. split; [done|]. etrans; [|exact He']. by split.
Qed.

(** ** Replaying a chaincode on another state *)

Definition view := string → option WriteRecord.

(** A store that reads the records of [v] in its namespace. *)
Definition reads_from (s : SimulationStore) (v : view) : Prop :=
  ∀ key, sim_snap s (sim_namespace s) key = Ret (v key).

(** In two views of one ledger, equal versions mean equal values. *)
Definition versions_identify (mono : bool) (old new : view) : Prop :=
  ∀ key a b, old key = Some a → live_record (new key) = Some b → rec_IsDelete a = false →
    read_matches mono (new key) (MkKVRead key (Some (read_version mono a))) = true →
    rec_Value b = rec_Value a.

(** A key that is deleted in the old view does not live in the new one. *)
Definition deletes_stay (old new : view) : Prop :=
  ∀ key a, old key = Some a → rec_IsDelete a = true → live_record (new key) = None.

Definition same_effects (s t : SimulationStore) : Prop :=
  sim_namespace t = sim_namespace s ∧ sim_monotonicVersions t = sim_monotonicVersions s ∧
  sim_writes t = sim_writes s ∧ sim_logs t = sim_logs s.

Definition validates (s : SimulationStore) (new : view) : Prop :=
  map_Forall (λ key r, read_matches (sim_monotonicVersions s) (new key) r = true) (sim_reads s).

Section Replay.
Context (old new : view).

Lemma GetState_snapshot_value s key :
  sim_writes s !! key = None → reads_from s old →
  (GetState s key).2 = Ret (default [] (rec_Value <$> live_record (old key))).
Proof.
  intros Hw Hs. unfold GetState. rewrite Hw, Hs. destruct (old key) as [rc|]; simpl; [|done].
  by destruct (rec_IsDelete rc).
Qed.

Lemma GetState_keeps s key s' v : GetState s key = (s', v) →
  same_effects s s' ∧ sim_snap s' = sim_snap s.
Proof.
  unfold GetState. destruct (sim_writes s !! key) as [w|]; [by destruct (wr_IsDelete w); intros [= <- <-]|].
  destruct (sim_snap s _ key) as [[rc|]|e]; [destruct (rec_IsDelete rc)| |]; by intros [= <- <-].
Qed.
End Replay.

(** A validated read of the snapshot has the same value in the new view. *)
Lemma validated_value old new s key s' v final :
  sim_inv s → reads_from s old → sim_writes s !! key = None →
  GetState s key = (s', v) → sim_extends s' final → validates final new →
  versions_identify (sim_monotonicVersions s) old new → deletes_stay old new →
  rec_Value <$> live_record (old key) = rec_Value <$> live_record (new key).
Proof.
  intros Hinv Hs Hw. unfold GetState. rewrite Hw, Hs.
  intros Hget Hext Hval Hid Hdel. pose proof (se_mono _ _ Hext) as Hm.
  assert (∀ r, sim_reads s' !! key = Some r → sim_monotonicVersions s' = sim_monotonicVersions s →
          read_matches (sim_monotonicVersions s) (new key) r = true) as Hread.
  { intros r Hr Hs'. rewrite <- Hs', <- Hm. apply Hval. eapply lookup_weaken; [done|apply Hext]. }
  destruct (old key) as [rc|] eqn:Eo; [destruct (rec_IsDelete rc) eqn:Ed|]; injection Hget as <- <-; simpl in *.
  - rewrite Ed. by rewrite (Hdel key rc Eo Ed).
  - specialize (Hread _ (lookup_insert_eq _ _ _) eq_refl). rewrite Ed. simpl.
    destruct (live_record (new key)) as [rc'|] eqn:En.
    + simpl. f_equal. symmetry. by apply (Hid key).
    + unfold read_matches in Hread. by rewrite En in Hread.
  - specialize (Hread _ (lookup_insert_eq _ _ _) eq_refl). unfold read_matches in Hread. simpl in Hread.
    by destruct (live_record (new key)).
Qed.

Lemma same_effects_put_write s t key w : same_effects s t → same_effects (put_write s key w) (put_write t key w).
Proof. intros (? & ? & Hw & ?). split_and!; simpl; congruence. Qed.

Lemma PutState_same s t key v :
  same_effects s t → (PutState t key v).2 = (PutState s key v).2 ∧
  same_effects (PutState s key v).1 (PutState t key v).1.
Proof.
  intros Hst. unfold PutState. destruct (_ =? 0)%nat; [done|].
  destruct v; simpl; (split; [done|by apply same_effects_put_write]).
Qed.

Lemma PutState_snap s key v : sim_snap (PutState s key v).1 = sim_snap s.
Proof. unfold PutState. destruct (_ =? 0)%nat; [done|]. by destruct v. Qed.

Lemma PutState_namespace s key v : sim_namespace (PutState s key v).1 = sim_namespace s.
Proof. unfold PutState. destruct (_ =? 0)%nat; [done|]. by destruct v. Qed.

Lemma run_replay {R} old new (p : chaincode R) s t final r :
  sim_inv s → reads_from s old → reads_from t new → same_effects s t →
  run p s = (final, r) → validates final new →
  versions_identify (sim_monotonicVersions s) old new → deletes_stay old new →
  ∃ final', run p t = (final', r) ∧ same_effects final final'.
Proof.
  intros Hinv Hs Ht Hst Hrun Hval Hid Hdel. revert s t Hinv Hs Ht Hst Hrun Hid.
  induction p as [r0|key k IH|key v k IH|key k IH|a ts d k IH]; intros s t Hinv Hs Ht Hst Hrun Hid; simpl in *.
  - injection Hrun as <- <-. by exists t.
  - destruct (GetState s key) as [s1 v] eqn:E. destruct (GetState t key) as [t1 v'] eqn:E'.
    destruct (GetState_step _ _ _ _ Hinv E) as [Hinv1 Hext].
    destruct (run_step _ _ _ _ Hinv1 Hrun) as [_ Hfin].
    destruct (GetState_keeps _ _ _ _ E) as [(Hn1 & Hm1 & Hw1 & Hl1) Hsn1].
    destruct (GetState_keeps _ _ _ _ E') as [(Hn2 & Hm2 & Hw2 & Hl2) Hsn2].
    assert (v' = v) as ->.
    { destruct Hst as (? & ? & Hw & ?). destruct (sim_writes s !! key) as [w|] eqn:Ew.
      - unfold GetState in E, E'. rewrite Hw, Ew in E'. rewrite Ew in E.
        destruct (wr_IsDelete w); congruence.
      - pose proof (GetState_snapshot_value old s key Ew Hs) as Hv.
        pose proof (GetState_snapshot_value new t key ltac:(congruence) Ht) as Hv'.
        rewrite E in Hv. rewrite E' in Hv'. simpl in *. subst v v'.
        by rewrite (validated_value old new s key s1 _ final Hinv Hs Ew E Hfin Hval Hid Hdel). }
    destruct Hst as (? & ? & ? & ?). apply (IH v s1 t1); try done.
    + intros key'. rewrite Hsn1, Hn1. apply Hs.
    + intros key'. rewrite Hsn2, Hn2. apply Ht.
    + split_and!; congruence.
    + by rewrite Hm1.
  - destruct (PutState s key v) as [s1 e] eqn:E. destruct (PutState t key v) as [t1 e'] eqn:E'.
    pose proof (PutState_same s t key v Hst) as [He Hst1]. rewrite E, E' in He, Hst1. simpl in *. subst e'.
    pose proof (PutState_snap s key v) as Hs1. pose proof (PutState_namespace s key v) as Hn1.
    pose proof (PutState_snap t key v) as Ht1. pose proof (PutState_namespace t key v) as Hn2.
    rewrite E in Hs1, Hn1. rewrite E' in Ht1, Hn2. simpl in *.
    destruct (PutState_step _ _ _ _ _ Hinv E) as [Hinv1 Hext].
    apply (IH e s1 t1); try done.
    + intros key'. rewrite Hs1, Hn1. apply Hs.
    + intros key'. rewrite Ht1, Hn2. apply Ht.
    + by rewrite (se_mono _ _ Hext).
  - eapply (IH (Ret tt) (put_write s key _) (put_write t key _)); try done.
    + by apply (DelState_step s key _ (Ret tt)).
    + by apply same_effects_put_write.
  - apply (IH (AddLog s a ts d) (AddLog t a ts d)); try done.
    + by destruct Hinv.
    + destruct Hst as (? & ? & ? & Hl). split_and!; simpl; congruence.
Qed.

(** ** The recorded read-write set *)

Lemma elem_of_order {A} order (m : gmap string A) a :
  map_order order → a ∈ (order A m).*2 ↔ ∃ key, m !! key = Some a.
Proof.
  intros Hord. rewrite (Hord A m), list_elem_of_fmap. split.
  - intros ([key a'] & -> & Hin%elem_of_map_to_list). eauto.
  - intros [key Hin]. exists (key, a). by rewrite elem_of_map_to_list.
Qed.

Lemma elem_of_Result_reads order s key r :
  map_order order → sim_reads s !! key = Some r → r ∈ rws_Reads (Result order s).
Proof. intros Hord Hr. apply elem_of_order; eauto. Qed.

Lemma order_NoDup {A} order (m : gmap string A) (key : A → string) :
  map_order order → map_Forall (λ k a, key a = k) m → NoDup (key <$> (order A m).*2).
Proof.
  intros Hord Hk. rewrite (Hord A m), <- list_fmap_compose.
  erewrite list_fmap_ext; [apply NoDup_fst_map_to_list|].
  intros i [k a] Hin%list_elem_of_lookup_2%elem_of_map_to_list. by apply Hk.
Qed.

(** ** What a chaincode did

    A reference semantics that knows nothing of the maps of the store: it keeps
    the list of the calls made so far, and answers a read with the last value
    written to the key, or else out of the snapshot. *)

Inductive access :=
  | AGet (key : string)
  | APut (key : string) (value : bytes)
  | ADel (key : string)
  | ALog (log : Log).

(** The key and the value that a call writes, the empty value for a delete; a
    put of the empty key is refused. *)
Definition write_of (a : access) : option (string * bytes) :=
  match a with
  | APut key value => if decide (key = "") then None else Some (key, value)
  | ADel key => Some (key, [])
  | _ => None
  end.

Definition log_of (a : access) : option Log :=
  match a with ALog log => Some log | _ => None end.

Definition last_write (calls : list access) (key : string) : option bytes :=
  foldl (λ acc a, match write_of a with
                  | Some (k, v) => if decide (k = key) then Some v else acc
                  | None => acc
                  end) None calls.

Definition ref_get (snap : string → result (option WriteRecord)) (calls : list access) (key : string) : result bytes :=
  match last_write calls key with
  | Some v => Ret v
  | None => rec ← snap key; Ret (default [] (rec_Value <$> live_record rec))
  end.

Fixpoint ref_run {R} (snap : string → result (option WriteRecord)) (p : chaincode R) (calls : list access)
    : list access * R :=
  match p with
  | Return r => (calls, r)
  | CallGet key k => ref_run snap (k (ref_get snap calls key)) (calls ++ [AGet key])
  | CallPut key value k =>
      ref_run snap (k (if decide (key = "") then Fail (Errorf "key is empty" []) else Ret tt)) (calls ++ [APut key value])
  | CallDel key k => ref_run snap (k (Ret tt)) (calls ++ [ADel key])
  | CallLog address topics data k => ref_run snap k (calls ++ [ALog (MkLog address topics data)])
  end.

(** A call that read [key] while no write of it had been made. *)
Definition snapshot_read (calls : list access) (key : string) : Prop :=
  ∃ earlier later, calls = earlier ++ AGet key :: later ∧ last_write earlier key = None.

Lemma snapshot_read_snoc calls a key :
  snapshot_read (calls ++ [a]) key ↔ snapshot_read calls key ∨ a = AGet key ∧ last_write calls key = None.
Proof.
  split.
  - intros (earlier & later & Heq & Hw). destruct later as [|x later _] using rev_ind.
    + apply app_inj_tail in Heq as [-> ->]. by right.
    + rewrite app_comm_cons, app_assoc in Heq. apply app_inj_tail in Heq as [-> _]. left. by exists earlier, later.
  - intros [(earlier & later & -> & Hw)|[-> Hw]]; [|by exists calls, []].
    exists earlier, (later ++ [a]). by rewrite <- app_assoc.
Qed.

(** The read that a snapshot's answer asks to record. *)
Definition read_of (mono : bool) (key : string) (answer : result (option WriteRecord)) : option KVRead :=
  match answer with
  | Fail _ => None
  | Ret None => Some (MkKVRead key None)
  | Ret (Some rc) => if rec_IsDelete rc then None else Some (MkKVRead key (Some (read_version mono rc)))
  end.

Definition write_entry (key : string) (v : bytes) : KVWrite := MkKVWrite key (bool_decide (v = [])) v.

(** The store holds what the calls did. *)
Record traced (calls : list access) (s : SimulationStore) : Prop := {
  tr_writes : ∀ key, sim_writes s !! key = write_entry key <$> last_write calls key;
  tr_reads : ∀ key rd, sim_reads s !! key = Some rd ↔
    snapshot_read calls key ∧ read_of (sim_monotonicVersions s) key (sim_snap s (sim_namespace s) key) = Some rd;
  tr_logs : sim_logs s = omap log_of calls }.

Lemma last_write_snoc calls a key :
  last_write (calls ++ [a]) key =
    match write_of a with Some (k, v) => if decide (k = key) then Some v else last_write calls key
                        | None => last_write calls key end.
Proof. unfold last_write. by rewrite foldl_app. Qed.

Lemma omap_log_snoc calls a : omap log_of (calls ++ [a]) = omap log_of calls ++ option_list (log_of a).
Proof. rewrite omap_app. by destruct a. Qed.

(** A call that is not a read adds none. *)
Lemma snapshot_read_other calls a key : (∀ k, a ≠ AGet k) → snapshot_read (calls ++ [a]) key ↔ snapshot_read calls key.
Proof. rewrite snapshot_read_snoc. naive_solver. Qed.

Lemma traced_put_write calls a s key v : traced calls s → write_of a = Some (key, v) → (∀ k, a ≠ AGet k) → log_of a = None →
  traced (calls ++ [a]) (put_write s key (write_entry key v)).
Proof.
  intros [Hw Hr Hl] Ha Hg Hlog. split; simpl.
  - intros key'. rewrite last_write_snoc, Ha. case_decide; [subst; apply lookup_insert_eq|]. by rewrite lookup_insert_ne.
  - intros key' rd. by rewrite snapshot_read_other.
  - by rewrite omap_log_snoc, Hlog, app_nil_r.
Qed.

Lemma traced_PutState calls s key v : traced calls s →
  (PutState s key v).2 = (if decide (key = "") then Fail (Errorf "key is empty" []) else Ret tt) ∧
  traced (calls ++ [APut key v]) (PutState s key v).1.
Proof.
  intros Ht. unfold PutState. destruct (decide (key = "")) as [->|Hk]; simpl.
  - split; [done|]. destruct Ht as [Hw Hr Hl]. split.
    + intros key'. by rewrite last_write_snoc.
    + intros key' rd. by rewrite snapshot_read_other.
    + by rewrite omap_log_snoc, app_nil_r.
  - destruct key as [|a key]; [done|]. simpl.
    assert (write_of (APut (String a key) v) = Some (String a key, v)) as Ha by done.
    destruct v as [|b v]; simpl; (split; [done|]); by apply (traced_put_write calls _ s (String a key) _ Ht Ha).
Qed.

Lemma traced_GetState calls s key : traced calls s →
  (GetState s key).2 = ref_get (sim_snap s (sim_namespace s)) calls key ∧
  traced (calls ++ [AGet key]) (GetState s key).1.
Proof.
  intros [Hw Hr Hl]. unfold GetState, ref_get. rewrite Hw.
  assert (∀ s' : SimulationStore, sim_writes s' = sim_writes s → sim_logs s' = sim_logs s →
    sim_monotonicVersions s' = sim_monotonicVersions s → sim_snap s' = sim_snap s → sim_namespace s' = sim_namespace s →
    (∀ k rd, sim_reads s' !! k = Some rd ↔ sim_reads s !! k = Some rd ∨
       k = key ∧ last_write calls key = None ∧ read_of (sim_monotonicVersions s) key (sim_snap s (sim_namespace s) key) = Some rd) →
    traced (calls ++ [AGet key]) s') as Hnext.
  { intros s' Hw' Hl' Hm' Hs' Hn' Hr'. split.
    - intros k. by rewrite Hw', last_write_snoc, Hw.
    - intros k rd. rewrite Hr', Hr, snapshot_read_snoc, Hm', Hs', Hn'. naive_solver.
    - by rewrite Hl', omap_log_snoc, app_nil_r. }
  destruct (last_write calls key) as [v|] eqn:El; simpl.
  - split; [by case_bool_decide; subst|]. case_bool_decide; apply Hnext; try done; intros k rd; (split; [by left|by intros [?|(_ & ? & _)]]).
  - assert (∀ rd, read_of (sim_monotonicVersions s) key (sim_snap s (sim_namespace s) key) = Some rd →
      traced (calls ++ [AGet key]) (put_read s key rd)) as Hput.
    { intros rd Hrd. apply Hnext; try done. intros k rd'. simpl. rewrite lookup_insert_Some. split.
      - intros [[<- <-]|[_ ?]]; [by right|by left].
      - intros [Hk|(-> & _ & Hrd')]; [|left; split; [done|congruence]]. destruct (decide (key = k)) as [<-|?]; [|by right].
        left. apply Hr in Hk as [_ Hk]. split; [done|congruence]. }
    destruct (sim_snap s (sim_namespace s) key) as [[rc|]|e] eqn:Es; simpl.
    + destruct (rec_IsDelete rc) eqn:Ed; simpl; (split; [done|]).
      * apply Hnext; try done. intros k rd. split; [by left|]. intros [?|(_ & _ & Hrd)]; [done|]. simpl in Hrd. by rewrite Ed in Hrd.
      * apply Hput. simpl. by rewrite Ed.
    + split; [done|]. by apply Hput.
    + split; [done|]. apply Hnext; try done. intros k rd. split; [by left|]. by intros [?|(_ & _ & ?)].
Qed.

Lemma traced_run {R} (p : chaincode R) calls s s' r :
  traced calls s → run p s = (s', r) →
  ∃ calls', ref_run (sim_snap s (sim_namespace s)) p calls = (calls', r) ∧ traced calls' s'.
Proof.
  revert calls s. induction p as [r0|key k IH|key v k IH|key k IH|a t d k IH]; intros calls s Ht; simpl.
  - intros [= <- <-]. eauto.
  - destruct (GetState s key) as [s1 v] eqn:E. destruct (traced_GetState calls s key Ht) as [Hv Ht1].
    destruct (GetState_keeps _ _ _ _ E) as [(Hn & _) Hsn]. rewrite E in Hv, Ht1. simpl in *. subst v.
    rewrite <- Hsn, <- Hn. by apply IH.
  - destruct (PutState s key v) as [s1 e] eqn:E. destruct (traced_PutState calls s key v Ht) as [He Ht1].
    pose proof (PutState_snap s key v) as Hsn. pose proof (PutState_namespace s key v) as Hn.
    rewrite E in He, Ht1, Hsn, Hn. simpl in *. subst e. rewrite <- Hsn, <- Hn. by apply IH.
  - apply (IH (Ret tt) _ (put_write s key (write_entry key []))).
    by apply (traced_put_write calls (ADel key) s key []).
  - apply (IH _ (AddLog s a t d)). destruct Ht as [Hw Hr Hl]. split; simpl.
    + intros key. by rewrite last_write_snoc.
    + intros key rd. by rewrite snapshot_read_other.
    + by rewrite omap_log_snoc, Hl.
Qed.

(** C16: the read-write set of a simulation says what the chaincode did.  The chaincode
    computes what it computes in the reference semantics, and for the calls that it makes
    there: a write is in the set exactly when it is the last one that a call made of its
    key, with its value, and as a delete exactly when that is empty; a read is in the set
    exactly when a call read the key before any write of it and the snapshot answered with
    a live record, whose version it has, or with none; no key occurs twice as a read or
    twice as a write; and the events are those of the calls, in order. *)
Theorem simulation_result_faithful {R} order (p : chaincode R) snap ns n mono s r :
  map_order order → run p (NewSimulationStore snap ns n mono) = (s, r) →
  let rws := Result order s in
  ∃ calls, ref_run (snap ns) p [] = (calls, r) ∧
    (∀ w, w ∈ rws_Writes rws ↔ ∃ v, last_write calls (wr_Key w) = Some v ∧ wr_Value w = v ∧ (wr_IsDelete w = true ↔ v = [])) ∧
    (∀ rd, rd ∈ rws_Reads rws ↔ snapshot_read calls (rd_Key rd) ∧
       ∃ record, snap ns (rd_Key rd) = Ret record ∧
         match record with
         | None => rd_Version rd = None
         | Some rc => rec_IsDelete rc = false ∧
             rd_Version rd = Some (if mono then MkVersion (rec_Version rc) 0 else MkVersion (rec_BlockNum rc) (rec_TxNum rc))
         end) ∧
    NoDup (rd_Key <$> rws_Reads rws) ∧ NoDup (wr_Key <$> rws_Writes rws) ∧ sim_logs s = omap log_of calls.
Proof.
  intros Hord Hrun rws. destruct (run_step _ _ _ _ (sim_inv_new _ _ _ _) Hrun) as [[Hr Hw] [Hns Hsn _ Hm _]].
  destruct (traced_run p [] (NewSimulationStore snap ns n mono) s r) as (calls & Href & [Hcw Hcr Hcl]); [|done|].
  { split; simpl; try done. intros key rd. rewrite lookup_empty. split; [done|].
    by intros [(earlier & later & ?%app_cons_not_nil & _) _]. }
  simpl in *. exists calls. split_and!; try done.
  - intros w. rewrite elem_of_order by done. setoid_rewrite Hcw. split.
    + intros [key (v & Hv & ->)%fmap_Some]. exists v. simpl. split_and!; [done..|]. by rewrite bool_decide_eq_true.
    + intros (v & Hv & Hval & Hd). exists (wr_Key w). rewrite Hv. simpl. f_equal. destruct w as [k d v']. simpl in *. subst v'.
      unfold write_entry. f_equal. apply Bool.eq_true_iff_eq. by rewrite bool_decide_eq_true, Hd.
  - intros rd. rewrite elem_of_order by done. setoid_rewrite Hcr. rewrite Hsn, Hns, Hm. unfold read_of, read_version. split.
    + intros [key [Hread Hrd]]. destruct (snap ns key) as [[rc|]|] eqn:Es; [destruct (rec_IsDelete rc) eqn:Ed| |];
        simplify_eq/=; (split; [done|]; eexists; by split).
    + intros [Hread (record & Hrec & Hv)]. exists (rd_Key rd). split; [done|]. rewrite Hrec.
      destruct rd as [k v], record as [rc|]; simpl in *; [destruct Hv as [-> ->]|by rewrite Hv]. done.
  - apply order_NoDup; [done|]. intros k rd (_ & _ & Hk & _)%Hr. done.
  - apply order_NoDup; [done|]. intros k w [Hk _]%Hw. done.
Qed.

(** A chaincode reads its own writes: after a successful [PutState] (or a delete,
    for an empty value) every later [GetState] of the key returns the value
    written, without recording a read, until the key is written again. *)
Theorem read_own_write {R} s key value s1 (p : chaincode R) s2 r :
  PutState s key value = (s1, Ret tt) → run p s1 = (s2, r) →
  sim_writes s2 !! key = sim_writes s1 !! key → GetState s2 key = (s2, Ret value).
Proof.
  unfold PutState. destruct (_ =? 0)%nat; [done|]. unfold GetState.
  destruct value as [|b value]; intros [= <-] _ ->; simpl; by rewrite lookup_insert_eq.
Qed.

(** ** Concrete chaincodes *)

Module Stub.

(** Adds a character to the value of a key. *)
Definition append (key : string) : chaincode (result bytes) :=
  CallGet key (λ v, match v with
    | Fail e => Return (Fail e)
    | Ret b => CallPut key (b ++ bytes_of_string "x") (λ e, Return (Ret b))
    end).

Definition live (v : string) : WriteRecord := MkWriteRecord "cc" "k" 3 1 4 (bytes_of_string v) false "t0".
Definition deleted : WriteRecord := MkWriteRecord "cc" "k" 2 0 3 [] true "t0".

Definition on (record : option WriteRecord) : SimulationStore :=
  NewSimulationStore (λ _ _, Ret record) "cc" 3 false.

End Stub.

(** A read of a deleted key is not part of the read set: the chaincode that appends
    to a key, simulated where the key is deleted, has an empty read set, so its
    read-write set validates in any later state; in one where the key lives
    again it would have written another value. *)
Theorem deleted_read_untracked :
  let s := (run (Stub.append "k") (Stub.on (Some Stub.deleted))).1 in
  let t := (run (Stub.append "k") (Stub.on (Some (Stub.live "v")))).1 in
  sim_reads s = ∅ ∧ (∀ new, validates s new) ∧ sim_writes s ≠ sim_writes t.
Proof.
  split_and!; [reflexivity|intros new; apply map_Forall_empty|].
  intros Heq%(f_equal (lookup "k")). by vm_compute in Heq.
Qed.

Lemma simulation_result_faithful_witness :
  let rws := Result map_list (run (Stub.append "k") (Stub.on (Some (Stub.live "v")))).1 in
  MkKVWrite "k" false (bytes_of_string "vx") ∈ rws_Writes rws ∧ MkKVRead "k" (Some (MkVersion 3 1)) ∈ rws_Reads rws.
Proof.
  destruct (simulation_result_faithful map_list (Stub.append "k") (λ _ _, Ret (Some (Stub.live "v")))
    "cc" 3 false _ _ map_list_order eq_refl) as (calls & Href & Hw & Hr & _).
  injection Href as <-. split.
  - apply Hw. by exists (bytes_of_string "vx").
  - apply Hr. split; [by exists [], [APut "k" (bytes_of_string "vx")]|]. by exists (Some (Stub.live "v")).
Defined.

Lemma read_own_write_witness :
  (GetState (run (CallPut "j" (bytes_of_string "w") (λ e, Return e))
               (PutState (Stub.on None) "k" (bytes_of_string "v")).1).1 "k").2 = Ret (bytes_of_string "v").
Proof.
  apply (f_equal snd (read_own_write (Stub.on None) "k" (bytes_of_string "v") _
    (CallPut "j" (bytes_of_string "w") (λ e, Return e)) _ _ eq_refl eq_refl eq_refl)).
Defined.
