(* ===== verification/Serial.v ===== *)
(** * Serializability of simulate, validate and commit

    A chaincode is simulated on a snapshot of the world state (state/sim.go on
    state/db.go), its read-write set travels in a block, and the block is
    validated against the committed state (blocks/mvcc.go) and applied.  The
    theorems of this file join the three components. *)

From S2P Require Import Prelude Blocks Mvcc WorldState WorldStateTheory Simulation.

(** ** Rows and the records read from them *)

Lemma Get_row db ns key s :
  wf s → ∃ o, Get None db ns key s = Ret (record_of <$> o) ∧
    ∀ r, o = Some r → r ∈ worldstate s ∧ of_key (channel db) ns key r.
Proof.
  intros Hwf. rewrite Get_last by done. eexists. split; [apply scan_optional_ret|].
  - intros r [_ Hr]%last_Some_elem_of%list_elem_of_filter. by apply (wf_row_scans s).
  - by intros r [? ?]%last_Some_elem_of%list_elem_of_filter.
Qed.

Lemma GetAt_row db ns key h s :
  wf s → h < 2 ^ 63 → ∃ o, GetAt None db ns key h s = Ret (record_of <$> o) ∧
    ∀ r, o = Some r → r ∈ worldstate s ∧ of_key (channel db) ns key r.
Proof.
  intros Hwf Hh. rewrite GetAt_last by done. eexists. split; [apply scan_optional_ret|].
  - intros r [_ [_ Hr]%list_elem_of_filter]%last_Some_elem_of%list_elem_of_filter. by apply (wf_row_scans s).
  - by intros r [_ [? ?]%list_elem_of_filter]%last_Some_elem_of%list_elem_of_filter.
Qed.

(** A row of a key is identified by its version, and by its height. *)
Lemma row_by_version s ch ns key r r' :
  wf s → r ∈ worldstate s → r' ∈ worldstate s → of_key ch ns key r → of_key ch ns key r' →
  row_version r = row_version r' → r = r'.
Proof.
  intros Hwf Hr Hr' Hk Hk' Hv.
  apply (NoDup_fmap_inj row_version (filter (of_key ch ns key) (worldstate s))); [|by apply list_elem_of_filter..|done].
  rewrite (wf_versions _ Hwf). apply NoDup_seqZ.
Qed.

Lemma row_by_height s ch ns key r r' :
  wf s → r ∈ worldstate s → r' ∈ worldstate s → of_key ch ns key r → of_key ch ns key r' →
  row_block r = row_block r' → row_tx r = row_tx r' → r = r'.
Proof.
  intros Hwf Hr Hr' (? & ? & ?) (? & ? & ?) Hb Ht.
  apply (NoDup_fmap_inj primary_key (worldstate s)); [apply Hwf|done..|].
  unfold primary_key. congruence.
Qed.

(** ** The views of the two stores *)

Definition of_result (r : result (option WriteRecord)) : option WriteRecord :=
  match r with Ret o => o | Fail _ => None end.

Definition committed_view (db : VersionedDB) (s : Backend) (ns : string) : view :=
  λ key, of_result (Get None db ns key s).

Definition snapshot_view (v : versionedSnapshot) (s : Backend) (ns : string) : view :=
  λ key, of_result (snapshot_Get None v ns key s).

Lemma committed_view_row db s ns key a :
  wf s → committed_view db s ns key = Some a →
  ∃ r, a = record_of r ∧ r ∈ worldstate s ∧ of_key (channel db) ns key r.
Proof.
  intros Hwf. unfold committed_view. destruct (Get_row db ns key s Hwf) as (o & -> & Ho).
  destruct o as [r|]; [|done]. intros [= <-]. exists r. split; [done|]. by apply Ho.
Qed.

Lemma committed_view_ret db s ns key : wf s → Get None db ns key s = Ret (committed_view db s ns key).
Proof. intros Hwf. unfold committed_view. by destruct (Get_row db ns key s Hwf) as (o & -> & _). Qed.

Section View.
Context (db : VersionedDB) (block : Z) (s : Backend) (v : versionedSnapshot).
Context (Hwf : wf s) (Hv : SnapshotAt None db block s = Ret v).

Lemma snapshot_view_ret ns key : snapshot_Get None v ns key s = Ret (snapshot_view v s ns key).
Proof.
  destruct (SnapshotAt_bound _ _ _ _ Hwf Hv) as [_ Hh]. unfold snapshot_view, snapshot_Get.
  by destruct (GetAt_row (snap_db v) ns key _ s Hwf Hh) as (o & -> & _).
Qed.

Lemma snapshot_view_row ns key a :
  snapshot_view v s ns key = Some a →
  ∃ r, a = record_of r ∧ r ∈ worldstate s ∧ of_key (channel db) ns key r.
Proof.
  destruct (SnapshotAt_bound _ _ _ _ Hwf Hv) as [Hdb Hh]. unfold snapshot_view, snapshot_Get. rewrite Hdb.
  destruct (GetAt_row db ns key _ s Hwf Hh) as (o & -> & Ho).
  destruct o as [r|]; [|done]. intros [= <-]. exists r. split; [done|]. by apply Ho.
Qed.

(** The snapshot and any later committed state are views of one ledger. *)
Lemma views_identify mono t ns :
  wf t → (∃ ext, worldstate t = worldstate s ++ ext) →
  versions_identify mono (snapshot_view v s ns) (committed_view db t ns).
Proof.
  intros Hwft [ext Hext] key a b Ha Hb Hd Hm.
  apply snapshot_view_row in Ha as (r & -> & Hr & Hk).
  unfold read_matches in Hm. rewrite Hb in Hm. simpl in Hm.
  assert (committed_view db t ns key = Some b) as Hc.
  { unfold live_record in Hb. destruct (committed_view db t ns key) as [rc|]; [|done].
    by destruct (rec_IsDelete rc); simplify_eq. }
  apply committed_view_row in Hc as (r' & -> & Hr' & Hk'); [|done].
  assert (r ∈ worldstate t) as Hrt by (rewrite Hext; apply elem_of_app; by left).
  enough (r' = r) as -> by done. destruct mono; simpl in Hm; bool_to_prop.
  - by apply (row_by_version t (channel db) ns key).
  - by apply (row_by_height t (channel db) ns key).
Qed.
End View.

(** ** Commit order is a serial order *)

(** The block cut before its [i]-th transaction. *)
Definition before (b : Block) (i : nat) : Block := SetTransactions b (take i (blk_Transactions b)).

Lemma block_ok_before b i : block_ok b → block_ok (before b i).
Proof. intros [? Htx]. split; [done|]. simpl. by apply Forall_take. Qed.

(** The commit of the transactions before the [i]-th leaves a key that none of
    them wrote as it was. *)
Lemma before_keeps db b i s t ns key :
  UpdateWorldState no_faults db (before b i) s = (t, Ret tt) →
  (∀ j tx, (j < i)%nat → blk_Transactions b !! j = Some tx → Transaction_Valid tx = true →
     (ns, key) ∉ tx_writes tx) →
  committed_view db t ns key = committed_view db s ns key.
Proof.
  intros (_ & rows' & Hins & ->)%UpdateWorldState_ret Hw. unfold committed_view, Get. simpl.
  do 3 f_equal. refine (insert_all_filter (of_key (channel db) ns key) _ _ _ _ _ Hins); [done|].
  apply Forall_forall. intros r (tx & Htx & Hval & Hr)%elem_of_block_rows (_ & Hns & Hkey).
  apply list_elem_of_lookup in Htx as [j Hj]. apply lookup_take_Some in Hj as [Hj Hlt].
  apply (Hw j tx Hlt Hj Hval), elem_of_tx_writes.
  apply list_elem_of_bind in Hr as (n & (w & -> & Hwr)%list_elem_of_fmap & Hn).
  exists n, w. by simpl in *.
Qed.

(** ** Simulated transactions

    A simulation that an endorser ran: the chaincode, its namespace, the
    database at the time, the block of the snapshot, the order in which [Result]
    ranged over its maps, and what came of it. *)
Section Serial.
Context {R : Type}.

Record simulation := MkSimulation {
  sm_code : chaincode R;
  sm_namespace : string;
  sm_state : Backend;
  sm_block : Z;
  sm_snap : versionedSnapshot;
  sm_order : ∀ A : Type, gmap string A → list (string * A);
  sm_final : SimulationStore;
  sm_result : R }.

(** The transaction [tx] carries the read-write set of the simulation [m], which
    was run on a snapshot of [db] at any time before the state [s1]. *)
Definition simulated (db : VersionedDB) (mono : bool) (s1 : Backend) (m : simulation) (tx : Transaction) : Prop :=
  map_order (sm_order m) ∧ rtc update_step init (sm_state m) ∧
  SnapshotAt None db (sm_block m) (sm_state m) = Ret (sm_snap m) ∧
  run (sm_code m) (NewSimulationStore (λ ns k, snapshot_Get None (sm_snap m) ns k (sm_state m)) (sm_namespace m)
    (snap_block (sm_snap m)) mono) = (sm_final m, sm_result m) ∧
  rtc update_step (sm_state m) s1 ∧
  tx_NsRWS tx = [MkNsRWS (sm_namespace m) (Result (sm_order m) (sm_final m))].

(** One transaction: run again on the committed state just before it, the
    chaincode of a committed transaction does what it did on its snapshot. *)
Lemma replayed_in_order (m : simulation) db s1 s2 l b l' b' txFilter i tx n :
  simulated db (mv_monotonicVersions l) s1 m tx → (∀ ns k, mv_db l ns k = as_getter db s1 ns k) →
  Validate l b = (l', b', txFilter, None) → block_ok b' →
  blk_Transactions b' !! i = Some tx → Transaction_Valid tx = true →
  UpdateWorldState no_faults db (before b' i) s1 = (s2, Ret tt) →
  deletes_stay (snapshot_view (sm_snap m) (sm_state m) (sm_namespace m)) (committed_view db s2 (sm_namespace m)) →
  ∃ final', run (sm_code m) (NewSimulationStore (as_getter db s2) (sm_namespace m) n (mv_monotonicVersions l)) =
      (final', sm_result m) ∧
    sim_writes final' = sim_writes (sm_final m) ∧ sim_logs final' = sim_logs (sm_final m).
Proof.
  destruct m as [p ns s0 block v order final r]. unfold simulated. simpl.
  intros (Hord & H0 & Hv & Hrun & H01 & Hrws) Hdb Hval Hok Hi Hvalid Hup Hdel.
  assert (wf s0) as Hwf0 by (eapply update_steps_wf; [done|apply wf_init]).
  assert (wf s1) as Hwf1 by (by eapply update_steps_wf).
  assert (update_step s1 s2) as H12 by (exists no_faults, db, (before b' i), (Ret tt); auto using block_ok_before).
  assert (wf s2) as Hwf2 by (eapply update_steps_wf; [by apply rtc_once|done]).
  assert (rtc update_step s0 s2) as H02 by (by eapply rtc_r).
  destruct (run_step _ _ _ _ (sim_inv_new _ _ _ _) Hrun) as [Hinv Hext].
  destruct (run_replay (snapshot_view v s0 ns) (committed_view db s2 ns) p
    (NewSimulationStore (λ ns k, snapshot_Get None v ns k s0) ns (snap_block v) (mv_monotonicVersions l))
    (NewSimulationStore (as_getter db s2) ns n (mv_monotonicVersions l)) final r)
    as (final' & Hrun' & _ & _ & Hw & Hl); try done.
  - intros key. by apply (snapshot_view_ret db block).
  - intros key. by apply committed_view_ret.
  - intros key rd Hrd. rewrite (se_mono _ _ Hext). simpl.
    pose proof (si_reads _ Hinv key rd Hrd) as (_ & _ & Hkey & _).
    unfold Validate in Hval. destruct (validate_loop _ _) as [[[? ?] ?] ?] eqn:E. simplify_eq/=.
    destruct (validate_loop_sound _ _ _ _ _ E i tx ns rd Hi Hvalid) as ((rec & Hrec & Hm) & _ & Hprev).
    { apply elem_of_tx_reads. exists (MkNsRWS ns (Result order final)). rewrite Hrws.
      split_and!; [by left|done|]. by eapply elem_of_Result_reads. }
    rewrite (before_keeps db _ i s1 s2 ns _ Hup Hprev).
    simpl in Hrec. rewrite Hdb in Hrec. unfold committed_view. unfold as_getter in Hrec. by rewrite Hrec.
  - eapply views_identify; [done..|]. by apply update_steps_extend in H02 as [? _].
  - by exists final'.
Qed.

(** ** Serial execution

    The valid transactions one after the other, each executed on the state that
    the ones before it left, and committed on its own. *)

Definition with_rws (tx : Transaction) (ns : string) (rws : ReadWriteSet) : Transaction :=
  {| tx_ID := tx_ID tx; tx_Number := tx_Number tx; tx_InputArgs := tx_InputArgs tx; tx_Status := tx_Status tx;
     tx_RawCode := tx_RawCode tx; tx_Reason := tx_Reason tx; tx_Event := tx_Event tx; tx_EventName := tx_EventName tx;
     tx_Payload := tx_Payload tx; tx_NsRWS := [MkNsRWS ns rws] |}.

Fixpoint serial_run (db : VersionedDB) (mono : bool) (b : Block) (work : list (simulation * Transaction)) (s : Backend)
    : option (list (R * list Log) * Backend) :=
  match work with
  | [] => Some ([], s)
  | (m, tx) :: rest =>
      if Transaction_Valid tx then
        let '(final, r) := run (sm_code m) (NewSimulationStore (as_getter db s) (sm_namespace m) (blk_Number b) mono) in
        match UpdateWorldState no_faults db
                (SetTransactions b [with_rws tx (sm_namespace m) (Result (sm_order m) final)]) s with
        | (s', Ret _) => '(outs, t) ← serial_run db mono b rest s'; Some ((r, sim_logs final) :: outs, t)
        | (_, Fail _) => None
        end
      else serial_run db mono b rest s
  end.

(** What the committed transactions returned when they were simulated, and the
    events they raised. *)
Definition outputs (work : list (simulation * Transaction)) : list (R * list Log) :=
  (λ mt, (sm_result mt.1, sim_logs (sm_final mt.1))) <$> filter (λ mt, Transaction_Valid mt.2 = true) work.

Lemma insert_all_app rows rs1 rs2 :
  insert_all rows (rs1 ++ rs2) = insert_all rows rs1 ≫= λ rows', insert_all rows' rs2.
Proof.
  revert rows. induction rs1 as [|r rs1 IH]; intros rows; simpl; [done|].
  destruct (insert_spec rows r) as [rows1|]; csimpl; [apply IH|done].
Qed.

Lemma before_rows ch b i tx : blk_Transactions b !! i = Some tx →
  block_rows ch (before b (S i)) =
    block_rows ch (before b i) ++ if Transaction_Valid tx then tx_rows ch (blk_Number b) tx else [].
Proof.
  intros Hi. unfold block_rows. simpl. rewrite (take_S_r _ _ _ Hi), filter_app, bind_app. f_equal.
  rewrite filter_cons, filter_nil. destruct (Transaction_Valid tx); csimpl; [by rewrite app_nil_r|done].
Qed.

Lemma before_all b : before b (length (blk_Transactions b)) = b.
Proof. unfold before. rewrite firstn_all. by destruct b. Qed.

(** Reads see the rows only. *)
Lemma as_getter_rows db s t : worldstate s = worldstate t → as_getter db s = as_getter db t.
Proof. intros Hw. unfold as_getter, Get. by rewrite Hw. Qed.

(** A committed transaction on its own has the rows that it has in the block. *)
Lemma single_rows ch b tx m final :
  Transaction_Valid tx = true → tx_NsRWS tx = [MkNsRWS (sm_namespace m) (Result (sm_order m) (sm_final m))] →
  sim_writes final = sim_writes (sm_final m) →
  block_rows ch (SetTransactions b [with_rws tx (sm_namespace m) (Result (sm_order m) final)]) =
    tx_rows ch (blk_Number b) tx.
Proof.
  intros Hv Hrws Hw. unfold block_rows, tx_rows. simpl. rewrite filter_cons, decide_True by done. csimpl.
  by rewrite Hrws, Hw, app_nil_r.
Qed.

Section Block.
Context (db : VersionedDB) (s1 : Backend) (l : MVCCValidator) (b : Block) (l' : MVCCValidator) (b' : Block) (txFilter : list Z).
Context (Hdb : ∀ ns k, mv_db l ns k = as_getter db s1 ns k).
Context (Hval : Validate l b = (l', b', txFilter, None)) (Hok : block_ok b') (Hnum : blk_Number b' < 2 ^ 63).

(** The proviso: when a transaction of the block is its turn, no key that its
    snapshot had as deleted is alive. *)
Definition no_revival (work : list (simulation * Transaction)) : Prop :=
  ∀ i m tx s2, work !! i = Some (m, tx) → Transaction_Valid tx = true →
    UpdateWorldState no_faults db (before b' i) s1 = (s2, Ret tt) →
    deletes_stay (snapshot_view (sm_snap m) (sm_state m) (sm_namespace m)) (committed_view db s2 (sm_namespace m)).

Lemma serial_run_from sims i rows_i rows s :
  Forall2 (simulated db (mv_monotonicVersions l) s1) sims (blk_Transactions b') →
  no_revival (zip sims (blk_Transactions b')) → (i ≤ length (blk_Transactions b'))%nat →
  insert_all (worldstate s1) (block_rows (channel db) (before b' i)) = Some rows_i → worldstate s = rows_i →
  insert_all (worldstate s1) (block_rows (channel db) b') = Some rows →
  ∃ t, serial_run db (mv_monotonicVersions l) b' (drop i (zip sims (blk_Transactions b'))) s =
      Some (outputs (drop i (zip sims (blk_Transactions b'))), t) ∧ worldstate t = rows.
Proof.
  intros Hsims Hno Hle. remember (length (blk_Transactions b') - i)%nat as k eqn:Hk.
  revert i rows_i s Hle Hk. induction k as [|k IH]; intros i rows_i s Hle Hk Hi Hs Hall.
  - assert (i = length (blk_Transactions b')) as -> by lia. rewrite before_all in Hi. rewrite drop_ge.
    + exists s. split; [done|congruence].
    + rewrite length_zip_with. lia.
  - destruct (lookup_lt_is_Some_2 (blk_Transactions b') i ltac:(lia)) as [tx Htx].
    destruct (Forall2_lookup_r _ _ _ _ _ Hsims Htx) as (m & Hm & Hsim).
    assert (zip sims (blk_Transactions b') !! i = Some (m, tx)) as Hz
      by (apply lookup_zip_with_Some; eauto).
    rewrite (drop_S _ _ _ Hz). unfold outputs. simpl. rewrite filter_cons. simpl.
    pose proof (before_rows (channel db) b' i tx Htx) as Hrows.
    destruct (Transaction_Valid tx) eqn:Hv.
    + assert (UpdateWorldState no_faults db (before b' i) s1 = (after_update db (before b' i) s1 rows_i, Ret tt)) as Hup
        by (by apply UpdateWorldState_no_faults).
      destruct (replayed_in_order m db s1 _ l b l' b' txFilter i tx (blk_Number b') Hsim Hdb Hval Hok Htx Hv Hup
        (Hno i m tx _ Hz Hv Hup)) as (final & Hrun & Hw & Hl).
      rewrite (as_getter_rows db s (after_update db (before b' i) s1 rows_i)), Hrun by done.
      destruct Hsim as (_ & _ & _ & _ & _ & Hrws).
      destruct (insert_all rows_i (tx_rows (channel db) (blk_Number b') tx)) as [rows'|] eqn:Hins.
      * rewrite (UpdateWorldState_no_faults db _ s rows'); [|done|by rewrite (single_rows _ _ _ _ _ Hv Hrws Hw), Hs].
        destruct (IH (S i) rows' (after_update db (SetTransactions b'
          [with_rws tx (sm_namespace m) (Result (sm_order m) final)]) s rows')) as (t & Ht & Htr); [lia|lia| |done|done|].
        { by rewrite Hrows, insert_all_app, Hi. }
        unfold outputs in Ht. rewrite Ht. simpl. rewrite Hl. by exists t.
      * exfalso. assert (block_rows (channel db) b' = block_rows (channel db) (before b' (S i)) ++
          (block_rows (channel db) (SetTransactions b' (drop (S i) (blk_Transactions b'))))) as Hsplit.
        { unfold block_rows at 3. simpl. unfold block_rows. simpl. rewrite <- bind_app, <- filter_app. by rewrite take_drop. }
        rewrite Hsplit, insert_all_app, Hrows, insert_all_app, Hi in Hall. csimpl in Hall. by rewrite Hins in Hall.
    + rewrite decide_False by done. apply (IH (S i) rows_i s); [lia|lia| |done|done].
      by rewrite Hrows, app_nil_r.
Qed.

End Block.

(** C1: simulate, validate and commit is serializable.  Take a block whose transactions
    carry the read-write sets of simulations that endorsers ran, each in one namespace and
    on a snapshot of the database at any earlier time.  When the block is validated against
    the database and committed, then executing the committed transactions one after the
    other, each on the state that the ones before it left, gives every transaction the
    result and the events that it had when it was simulated, and in the end the world
    state that the commit of the block gives.  The one proviso is that no key that the
    snapshot of a transaction has as deleted is alive when its turn comes: a read of a
    deleted key leaves no trace in the read set ([deleted_read_untracked]). *)
Theorem commit_serializable (sims : list simulation) db s1 l b l' b' txFilter faults t :
  (∀ ns k, mv_db l ns k = as_getter db s1 ns k) →
  Forall2 (simulated db (mv_monotonicVersions l) s1) sims (blk_Transactions b) →
  Validate l b = (l', b', txFilter, None) → block_ok b' →
  UpdateWorldState faults db b' s1 = (t, Ret tt) →
  no_revival db s1 b' (zip sims (blk_Transactions b')) →
  ∃ t', serial_run db (mv_monotonicVersions l) b' (zip sims (blk_Transactions b')) s1 =
      Some (outputs (zip sims (blk_Transactions b')), t') ∧ worldstate t' = worldstate t.
Proof.
  intros Hdb Hsims Hval Hok (Hnum & rows & Hins & ->)%UpdateWorldState_ret Hno.
  destruct (Validate_codes _ _ _ _ _ Hval) as (_ & Hbody & _).
  eapply (serial_run_from db s1 l b l' b' txFilter Hdb Hval Hok Hnum sims 0 (worldstate s1) rows s1); [|done|lia|done..].
  apply Forall2_same_length_lookup. split.
  - by rewrite (Forall2_length _ _ _ Hsims), (Forall2_length _ _ _ Hbody).
  - intros i m tx Hm Htx. destruct (Forall2_lookup_r _ _ _ _ _ Hbody Htx) as (tx0 & Htx0 & Hb).
    destruct (Forall2_lookup_lr _ _ _ _ _ _ Hsims Hm Htx0) as (? & ? & ? & ? & ? & Hrws). split_and!; try done.
    by rewrite Hb.
Qed.

End Serial.
Arguments simulation : clear implicits.

(** ** A concrete commit

    Three simulations of the append chaincode on the snapshot of block 1: two of
    the same key, the second of which the validator refuses, and one of a key
    that does not exist. *)

Module Commit.

Definition snap : versionedSnapshot := MkSnapshot Chain.db 1.
Definition run_append (key : string) : SimulationStore * result bytes :=
  run (Stub.append key) (NewSimulationStore (λ ns k, snapshot_Get None snap ns k Chain.s1) "cc" 1 true).
Definition appended : SimulationStore * result bytes := run_append "k".

Definition sim (key : string) : simulation (result bytes) :=
  MkSimulation (Stub.append key) "cc" Chain.s1 1 snap map_list (run_append key).1 (run_append key).2.

Definition endorsed (id : string) (number : Z) (key : string) : Transaction :=
  {| tx_ID := id; tx_Number := number; tx_InputArgs := []; tx_Status := StatusUnknown; tx_RawCode := 0;
     tx_Reason := Lit ""; tx_Event := []; tx_EventName := ""; tx_Payload := [];
     tx_NsRWS := [MkNsRWS "cc" (Result map_list (run_append key).1)] |}.

Definition block : Block := Chain.block 2 [endorsed "t4" 0 "k"; endorsed "t5" 1 "k"; endorsed "t6" 2 "j"].

Definition validator : MVCCValidator := NewMVCCValidator (as_getter Chain.db Chain.s1) true.
Definition validated : Block := (Validate validator block).1.1.2.
Definition state : Backend := (UpdateWorldState no_faults Chain.db validated Chain.s1).1.

Lemma state_reachable : rtc update_step init Chain.s1.
Proof. apply rtc_once. exists no_faults, Chain.db, Chain.b1, (Ret tt). split; [apply Chain.b1_wf|reflexivity]. Qed.

Lemma simulated_ok key id number :
  simulated Chain.db true Chain.s1 (sim key) (endorsed id number key).
Proof.
  split; [apply map_list_order|]. split; [apply state_reachable|]. split; [vm_compute; reflexivity|].
  split; [apply surjective_pairing|]. split; [apply rtc_refl|reflexivity].
Qed.

(** No key is deleted at block 1. *)
Lemma nothing_deleted new : deletes_stay (snapshot_view snap Chain.s1 "cc") new.
Proof.
  intros key a. unfold snapshot_view, snapshot_Get, GetAt, Chain.s1. simpl.
  destruct (decide (key = "k")) as [->|Hk]; [intros Ha; injection Ha as <-; discriminate|].
  rewrite filter_cons, decide_False; [done|]. intros ([_ [_ HK]] & _). by apply Hk.
Qed.

End Commit.

Lemma commit_serializable_witness :
  ∃ t, serial_run Chain.db true Commit.validated
      (zip [Commit.sim "k"; Commit.sim "k"; Commit.sim "j"] (blk_Transactions Commit.validated)) Chain.s1 =
      Some ([(Ret (Chain.value "v1"), []); (Ret [], [])], t) ∧ worldstate t = worldstate Commit.state.
Proof.
  refine (commit_serializable [Commit.sim "k"; Commit.sim "k"; Commit.sim "j"] Chain.db Chain.s1 Commit.validator
    Commit.block _ Commit.validated _ no_faults Commit.state (λ _ _, eq_refl) _ eq_refl _ eq_refl _).
  - do 3 (constructor; [apply Commit.simulated_ok|]). constructor.
  - split; [by vm_compute|by repeat constructor].
  - intros i m tx s2 Hi _ _. destruct i as [|[|[|i]]]; [..|done]; injection Hi as <- _; apply Commit.nothing_deleted.
Defined.
