(* ===== verification/Local.v ===== *)
(** * The local submitter

    [LocalSubmitter] (local/submit.go) commits an endorsement straight to a
    shared database: it packages and parses it, checks the reads of its own
    namespace against a record getter, and handles a block of one transaction.
    The shared database is an interface; the theorems are proved against it and
    the versioned world state implements it.  The record getter, which is usually
    the shared database too, is a field of its own. *)

From S2P Require Import Prelude Blocks Mvcc WorldState WorldStateTheory.

(** ** The shared database *)

(** The interface [VersionedDB] of package local, over a database state [W]. *)
Class SharedState (W : Type) := {
  ss_BlockNumber : W → result Z;
  ss_Handle : Block → W → W * result unit }.

(** What the submitter relies on: [chain blocks w] says that the database holds
    the chain [blocks], which fixes its height, and the next block is
    appended. *)
Class SharedStateLaws (W : Type) `{SharedState W} (chain : list Block → W → Prop) := {
  ss_height blocks w : chain blocks w → ss_BlockNumber w = Ret (chain_height blocks);
  ss_height_ok blocks w : chain blocks w → 0 ≤ chain_height blocks < 2 ^ 63;
  ss_append blocks w b : chain blocks w → block_wf b →
    chain_height blocks < blk_Number b < 2 ^ 63 →
    ∃ w', ss_Handle b w = (w', Ret tt) ∧ chain (blocks ++ [b]) w' }.

Section Local.
Context {W : Type} `{SharedState W} {Endorsement Envelope : Type}.

Record LocalSubmitter := MkLocalSubmitter {
  ls_recordGetter : W → RecordGetter;
  ls_packager : Endorsement → result Envelope;
  ls_parser : Envelope → outcome (option Transaction);
  ls_channel : string;
  ls_namespace : string;
  ls_monotonicVersions : bool }.

Definition NewLocalSubmitter (recordGetter : W → RecordGetter) (channel namespace : string)
    (packager : Endorsement → result Envelope) (parser : Envelope → outcome (option Transaction)) (monotonicVersions : bool)
    : LocalSubmitter :=
  MkLocalSubmitter recordGetter packager parser channel namespace monotonicVersions.

(** ** checkMVCC *)

(** The read-write set of the submitter's namespace: the first entry with its
    name, or the empty set. *)
Definition own_rws (namespace : string) (nsrws : list NsReadWriteSet) : ReadWriteSet :=
  match list_find (λ n, ns_Namespace n = namespace) nsrws with
  | Some (_, n) => ns_RWS n
  | None => MkRWS [] []
  end.

(** The block of one transaction that [checkMVCC] validates. *)
Definition check_block (namespace : string) (rws : ReadWriteSet) : Block :=
  {| blk_Number := 0; blk_Hash := []; blk_ParentHash := []; blk_Timestamp := 0;
     blk_Transactions :=
       [{| tx_ID := ""; tx_Number := 0; tx_InputArgs := []; tx_Status := StatusUnknown;
           tx_RawCode := 0; tx_Reason := Lit ""; tx_Event := []; tx_EventName := "";
           tx_Payload := []; tx_NsRWS := [MkNsRWS namespace rws] |}];
     blk_ConfigTransaction := None |}.

(** The content of a text as the last argument of a message. *)
Definition text_error (t : text) : error :=
  match t with
  | Lit s => Errorf s []
  | Sprintf fmt args => Errorf fmt args
  | ErrorText e => e
  end.

Definition rws_invalid (tx : Transaction) (namespace : string) (reason : text) : error :=
  Wrapf "RWS INVALID for tx %q in namespace %q: %s" [AStr (tx_ID tx); AStr namespace] (text_error reason).

Definition checkMVCC (s : LocalSubmitter) (w : W) (tx : Transaction) : outcome unit :=
  let rws := own_rws (ls_namespace s) (tx_NsRWS tx) in
  let validator := NewMVCCValidator (ls_recordGetter s w) (ls_monotonicVersions s) in
  match Validate validator (check_block (ls_namespace s) rws) with
  | (_, _, _, Some err) => Err (Wrapf "failed to get state for read validation: %w" [] err)
  | (_, block, _, None) =>
      tx0 ← deref (head (blk_Transactions block));
      if negb (Transaction_Valid tx0) then Err (rws_invalid tx (ls_namespace s) (tx_Reason tx0)) else Ok tt
  end.

(** ** Submit *)

(** The block handed to the shared database. *)
Definition local_block (number : Z) (tx : Transaction) : Block :=
  {| blk_Number := number; blk_Hash := []; blk_ParentHash := []; blk_Timestamp := 0;
     blk_Transactions := [tx]; blk_ConfigTransaction := None |}.

(** A nil transaction, which the parsers return for an envelope that is not a
    transaction, panics at [tx.SetStatus]. *)
Definition Submit (s : LocalSubmitter) (end_ : Endorsement) (w : W) : W * outcome unit :=
  match ls_packager s end_ with
  | Fail err => (w, Err (Wrapf "package proposal: %w" [] err))
  | Ret env =>
      match ls_parser s env with
      | Err err => (w, Err (Wrapf "unpackage proposal: %w" [] err))
      | Panic | Ok None => (w, Panic)
      | Ok (Some tx) =>
          let tx := SetStatus tx StatusCommitted 0 (Lit "") in
          match ss_BlockNumber w with
          | Fail err => (w, Err err)
          | Ret blockNum =>
              match checkMVCC s w tx with
              | Err err => (w, Err err)
              | Panic => (w, Panic)
              | Ok _ =>
                  let '(w', r) := ss_Handle (local_block (wrap_uint64 (blockNum + 1)) tx) w in
                  (w', lift r)
              end
          end
      end
  end.

(** ** What the check decides *)

(** The reads of the first read-write set of the submitter's namespace. *)
Definition own_reads (namespace : string) (nsrws : list NsReadWriteSet) : list KVRead :=
  match filter (λ n, ns_Namespace n = namespace) nsrws with
  | [] => []
  | n :: _ => rws_Reads (ns_RWS n)
  end.

Definition own_reads_match (view : string → string → option WriteRecord) (s : LocalSubmitter)
    (tx : Transaction) : bool :=
  forallb (λ r, read_matches (ls_monotonicVersions s) (view (ls_namespace s) (rd_Key r)) r)
    (own_reads (ls_namespace s) (tx_NsRWS tx)).

Lemma own_rws_reads namespace nsrws : rws_Reads (own_rws namespace nsrws) = own_reads namespace nsrws.
Proof.
  unfold own_rws, own_reads. induction nsrws as [|n nsrws IH]; [done|]. simpl. rewrite filter_cons. case_decide; [done|].
  rewrite <- IH. by destruct (list_find _ nsrws) as [[]|].
Qed.

Lemma checkMVCC_spec s w view tx :
  (∀ ns key, ls_recordGetter s w ns key = Ret (view ns key)) →
  if own_reads_match view s tx then checkMVCC s w tx = Ok tt
  else ∃ reason, checkMVCC s w tx = Err (rws_invalid tx (ls_namespace s) reason).
Proof.
  intros Hw. unfold checkMVCC, Validate, own_reads_match. rewrite <- own_rws_reads. simpl.
  set (l := with_pending (NewMVCCValidator (ls_recordGetter s w) (ls_monotonicVersions s)) ∅).
  set (reads := rws_Reads _). unfold checkNs.
  rewrite (proj2 (check_pending_None l (ls_namespace s) reads)) by set_solver.
  destruct (check_committed_spec l view (ls_namespace s) reads Hw) as [reason ->].
  change (mv_monotonicVersions l) with (ls_monotonicVersions s).
  destruct (forallb _ reads); simpl; [done|]. by exists reason.
Qed.

(** ** Submitting to a database that keeps its laws *)

Context (chain : list Block → W → Prop) `{!SharedStateLaws W chain}.

(** C35: a submission to a database that keeps the laws of the interface is decided by
    the reads of the first read-write set of the submitter's own namespace; other
    namespaces are not checked.  When each of those reads matches what the record getter
    has, the transaction is appended as the only, committed transaction of a block
    numbered one above the height; otherwise an error names the transaction and the
    database is unchanged. *)
Theorem local_Submit_decides s end_ env tx blocks w view :
  chain blocks w → (∀ ns key, ls_recordGetter s w ns key = Ret (view ns key)) →
  ls_packager s end_ = Ret env → ls_parser s env = Ok (Some tx) →
  0 ≤ tx_Number tx → NoDup (tx_writes tx) → chain_height blocks + 1 < 2 ^ 63 →
  let block := local_block (chain_height blocks + 1) (SetStatus tx StatusCommitted 0 (Lit "")) in
  if own_reads_match view s tx
  then ∃ w', Submit s end_ w = (w', Ok tt) ∧ chain (blocks ++ [block]) w'
  else ∃ reason, Submit s end_ w =
         (w, Err (rws_invalid (SetStatus tx StatusCommitted 0 (Lit "")) (ls_namespace s) reason)).
Proof.
  intros Hc Hview Hpack Hparse Hnum HND Hmax block.
  pose proof (ss_height_ok blocks w Hc) as Hh.
  assert (block_wf block) as Hwf.
  { split; [split; [unfold uint64_ok; simpl; lia|by constructor]|by repeat constructor|by constructor]. }
  pose proof (checkMVCC_spec s w view (SetStatus tx StatusCommitted 0 (Lit "")) Hview) as Hcheck.
  unfold Submit. rewrite Hpack, Hparse, (ss_height blocks w Hc).
  change (own_reads_match view s (SetStatus tx _ _ _)) with (own_reads_match view s tx) in Hcheck.
  destruct (own_reads_match view s tx).
  - rewrite Hcheck. unfold wrap_uint64. rewrite Z.mod_small by lia.
    destruct (ss_append blocks w block Hc Hwf) as (w' & Hw' & Hc'); [simpl; lia|].
    exists w'. fold block. by rewrite Hw'.
  - destruct Hcheck as [reason ->]. by exists reason.
Qed.
End Local.

(** ** The versioned world state implements the interface *)

Section Versioned.
Context (db : VersionedDB).

#[export] Instance versioned_store : SharedState Backend := {
  ss_BlockNumber := BlockNumber None db;
  ss_Handle := Handle no_faults db }.

Lemma last_highest blocks s b :
  history_inv db blocks s → b ∈ blocks → blk_Number b ≤ chain_height blocks.
Proof.
  intros Hinv Hb. pose proof (hi_sorted _ _ _ Hinv) as Hs. unfold chain_height.
  destruct (last blocks) as [b'|] eqn:E; [|by apply last_None in E as ->; apply elem_of_nil in Hb].
  apply last_Some in E as [pre ->]. rewrite fmap_app in Hs. apply StronglySorted_app in Hs as (Hlt & _ & _).
  apply elem_of_app in Hb as [Hb| ->%list_elem_of_singleton]; [|lia].
  apply Z.lt_le_incl, Hlt; [by apply list_elem_of_fmap_2|by left].
Qed.

#[export] Instance versioned_store_laws : SharedStateLaws Backend (history db).
Proof.
  split.
  - intros blocks w Hh. by apply BlockNumber_history, history_invariant.
  - intros blocks w Hh%history_invariant. unfold chain_height.
    destruct (last blocks) as [b|] eqn:E; [|lia].
    apply (wf_progress _ (hi_wf _ _ _ Hh) (channel db)). by rewrite (hi_progress _ _ _ Hh), E.
  - intros blocks w b Hh Hb [Hlt Hmax]. apply UpdateWorldState_next; [done..| |done].
    intros b' Hb'. pose proof (last_highest _ _ _ (history_invariant _ _ _ Hh) Hb'). lia.
Qed.
End Versioned.

(** Submitting to the world state after block 1: a transaction that read [k] at its
    version is committed in block 2. *)
Lemma local_Submit_decides_witness :
  let tx : Transaction :=
    {| tx_ID := "t9"; tx_Number := 0; tx_InputArgs := []; tx_Status := StatusUnknown; tx_RawCode := 0;
       tx_Reason := Lit ""; tx_Event := []; tx_EventName := ""; tx_Payload := [];
       tx_NsRWS := [MkNsRWS "cc" (MkRWS [MkKVRead "k" (Some (MkVersion 1 0))]
                                        [MkKVWrite "k" false (Chain.value "v2")])] |} in
  let s := NewLocalSubmitter (as_getter Chain.db) "mychannel" "cc" (λ e : Transaction, Ret e) (λ env, Ok (Some env)) false in
  ∃ w', @Submit _ (versioned_store Chain.db) _ _ s tx Chain.s1 = (w', Ok tt) ∧
        history Chain.db [Chain.b1; local_block 2 (SetStatus tx StatusCommitted 0 (Lit ""))] w'.
Proof.
  intros tx s.
  refine (@local_Submit_decides Backend (versioned_store Chain.db) _ _ (history Chain.db)
    (versioned_store_laws Chain.db) s tx tx tx [Chain.b1] Chain.s1 (chain_view Chain.db [Chain.b1]) Chain.history1
    (λ ns key, Get_history _ _ _ _ _ (history_invariant _ _ _ Chain.history1)) eq_refl eq_refl _ _ _);
    [done|apply NoDup_singleton|by vm_compute].
Defined.
