(* ===== verification/Proto.v ===== *)
(** * Protocol messages

    The protobuf messages the SDK reads and writes, with the fields it uses,
    and the encoders as a parameter: the generated code and the runtime are not
    part of the repository, apart from api/metadatapb.  Of them the development
    uses one documented fact, that decoding an encoded message gives it back. *)

From S2P Require Import Prelude.

(** [proto.Marshal] and [proto.Unmarshal] of one message type. *)
Class Codec (M : Type) := {
  Marshal : M → result bytes;
  Unmarshal : bytes → result M }.

#[global] Arguments Marshal {M} {_} m : simpl never.
#[global] Arguments Unmarshal {M} {_} b : simpl never.

Class CodecLaws (M : Type) `{Codec M} :=
  Unmarshal_Marshal (m : M) (b : bytes) : Marshal m = Ret b → Unmarshal b = Ret m.

(** [protoutil.MarshalOrPanic]. *)
Definition MarshalOrPanic {M} `{Codec M} (m : M) : outcome bytes :=
  match Marshal m with Ret b => Ok b | Fail _ => Panic end.

(** Messages whose content the SDK only carries: a channel configuration, of
    which it reads the sequence number, and the identity of an endorser. *)
Class OpaqueMessages := {
  Config : Type;
  Config_Sequence : Config → Z;
  Identity : Type }.

(** ** Package common *)

Record Timestamp := MkTimestamp { ts_Seconds : Z; ts_Nanos : Z }.

Record ChannelHeader := MkChannelHeader {
  chdr_Type : Z;
  chdr_Version : Z;
  chdr_Timestamp : option Timestamp;
  chdr_ChannelId : string;
  chdr_TxId : string;
  chdr_Epoch : Z;
  chdr_Extension : bytes;
  chdr_TlsCertHash : bytes }.

Record SignatureHeader := MkSignatureHeader { shdr_Creator : bytes; shdr_Nonce : bytes }.

Record Header := MkHeader { hdr_ChannelHeader : bytes; hdr_SignatureHeader : bytes }.

Record Payload := MkPayload { pl_Header : option Header; pl_Data : bytes }.

Record Envelope := MkEnvelope { env_Payload : bytes; env_Signature : bytes }.

Record ConfigEnvelope `{OpaqueMessages} := MkConfigEnvelope { cenv_Config : option Config }.
Arguments MkConfigEnvelope {_} _.

(** The enumerations [common.HeaderType] and [common.BlockMetadataIndex]. *)
Class HeaderTypes := {
  HeaderType_MESSAGE : Z;
  HeaderType_CONFIG : Z;
  HeaderType_ENDORSER_TRANSACTION : Z;
  BlockMetadataIndex_TRANSACTIONS_FILTER : nat }.

Class HeaderTypesLaws `{HeaderTypes} :=
  HeaderType_NoDup : NoDup [HeaderType_MESSAGE; HeaderType_CONFIG; HeaderType_ENDORSER_TRANSACTION].

(** A block as the orderer delivers it.  The three parts are pointers. *)
Record BlockHeader := MkBlockHeader { bh_Number : Z; bh_PreviousHash : bytes; bh_DataHash : bytes }.

Record RawBlock := MkRawBlock {
  rb_Header : option BlockHeader;
  rb_Data : option (list bytes);
  rb_Metadata : option (list bytes) }.

(** ** Package peer *)

Record Proposal := MkProposal { prop_Header : bytes; prop_Payload : bytes; prop_Extension : bytes }.

Record SignedProposal := MkSignedProposal { sp_ProposalBytes : bytes; sp_Signature : bytes }.

Record Response := MkResponse { resp_Status : Z; resp_Message : string; resp_Payload : bytes }.

Record PeerEndorsement := MkPeerEndorsement { end_Endorser : bytes; end_Signature : bytes }.

Record ProposalResponse := MkProposalResponse {
  pr_Version : Z;
  pr_Response : option Response;
  pr_Payload : bytes;
  pr_Endorsement : option PeerEndorsement }.

Record ChaincodeID := MkChaincodeID { ccid_Name : string; ccid_Version : string }.

Record ChaincodeSpec := MkChaincodeSpec {
  ccs_ChaincodeId : option ChaincodeID;
  ccs_Input : option (list bytes) }.

Record ChaincodeInvocationSpec := MkCIS { cis_ChaincodeSpec : option ChaincodeSpec }.

Record ChaincodeProposalPayload := MkCPP { cpp_Input : bytes }.

Record ChaincodeEvent := MkChaincodeEvent {
  evt_ChaincodeId : string;
  evt_TxId : string;
  evt_EventName : string;
  evt_Payload : bytes }.

Record ChaincodeAction := MkChaincodeAction {
  act_Results : bytes;
  act_Events : bytes;
  act_Response : option Response;
  act_ChaincodeId : option ChaincodeID }.

Record ProposalResponsePayload := MkPRP { prp_ProposalHash : bytes; prp_Extension : bytes }.

Record ChaincodeEndorsedAction := MkCEA {
  cea_ProposalResponsePayload : bytes;
  cea_Endorsements : list PeerEndorsement }.

Record ChaincodeActionPayload := MkCAP {
  cap_ChaincodeProposalPayload : bytes;
  cap_Action : option ChaincodeEndorsedAction }.

Record TransactionAction := MkTransactionAction { ta_Header : bytes; ta_Payload : bytes }.

(** [peer.Transaction]. *)
Record PeerTransaction := MkPeerTransaction { ptx_Actions : list TransactionAction }.

(** ** Packages rwset and kvrwset *)

Record PbVersion := MkPbVersion { pbv_BlockNum : Z; pbv_TxNum : Z }.
Record PbKVRead := MkPbKVRead { pbr_Key : string; pbr_Version : option PbVersion }.
Record PbKVWrite := MkPbKVWrite { pbw_Key : string; pbw_IsDelete : bool; pbw_Value : bytes }.
Record KVRWSet := MkKVRWSet { kvs_Reads : list PbKVRead; kvs_Writes : list PbKVWrite }.
Record PbNsReadWriteSet := MkPbNsRWS { pbn_Namespace : string; pbn_Rwset : bytes }.
Record TxReadWriteSet := MkTxRWS { txrws_NsRwset : list PbNsReadWriteSet }.

(** ** Package applicationpb *)

Record Read := MkRead { read_Key : bytes; read_Version : option Z }.
Record ReadWrite := MkReadWrite { rw_Key : bytes; rw_Version : option Z; rw_Value : bytes }.
Record Write := MkWrite { write_Key : bytes; write_Value : bytes }.

Record TxNamespace := MkTxNamespace {
  txns_NsId : string;
  txns_NsVersion : Z;
  txns_ReadsOnly : list Read;
  txns_ReadWrites : list ReadWrite;
  txns_BlindWrites : list Write }.

Record EndorsementWithIdentity `{OpaqueMessages} := MkEndorsementWithIdentity {
  ewi_Endorsement : bytes;
  ewi_Identity : Identity }.
Arguments MkEndorsementWithIdentity {_} _ _.

Record Endorsements `{OpaqueMessages} := MkEndorsements {
  ends_EndorsementsWithIdentity : list EndorsementWithIdentity }.
Arguments MkEndorsements {_} _.

(** [applicationpb.Tx]. *)
Record AppTx `{OpaqueMessages} := MkAppTx {
  apptx_Namespaces : list TxNamespace;
  apptx_Endorsements : list Endorsements;
  apptx_Metadata : list bytes }.
Arguments MkAppTx {_} _ _ _.

(** ** Package metadatapb *)

Record PbMetadata := MkPbMetadata {
  pm_InputArgs : list bytes;
  pm_Event : bytes;
  pm_EventName : string;
  pm_Payload : bytes }.

(** ** The encoders *)

Class Protos `{OpaqueMessages} := {
  proto_Config :: Codec Config;
  proto_Identity :: Codec Identity;
  proto_ConfigEnvelope :: Codec ConfigEnvelope;
  proto_ChannelHeader :: Codec ChannelHeader;
  proto_SignatureHeader :: Codec SignatureHeader;
  proto_Header :: Codec Header;
  proto_Payload :: Codec Payload;
  proto_Envelope :: Codec Envelope;
  proto_Proposal :: Codec Proposal;
  proto_CIS :: Codec ChaincodeInvocationSpec;
  proto_CPP :: Codec ChaincodeProposalPayload;
  proto_ChaincodeEvent :: Codec ChaincodeEvent;
  proto_ChaincodeAction :: Codec ChaincodeAction;
  proto_PRP :: Codec ProposalResponsePayload;
  proto_CAP :: Codec ChaincodeActionPayload;
  proto_PeerTransaction :: Codec PeerTransaction;
  proto_KVRWSet :: Codec KVRWSet;
  proto_TxReadWriteSet :: Codec TxReadWriteSet;
  proto_AppTx :: Codec AppTx;
  proto_Metadata :: Codec PbMetadata }.

Class ProtosLaws `{Protos} := {
  laws_ChannelHeader :: CodecLaws ChannelHeader;
  laws_SignatureHeader :: CodecLaws SignatureHeader;
  laws_Header :: CodecLaws Header;
  laws_Payload :: CodecLaws Payload;
  laws_Envelope :: CodecLaws Envelope;
  laws_ConfigEnvelope :: CodecLaws ConfigEnvelope;
  laws_Proposal :: CodecLaws Proposal;
  laws_CIS :: CodecLaws ChaincodeInvocationSpec;
  laws_CPP :: CodecLaws ChaincodeProposalPayload;
  laws_ChaincodeEvent :: CodecLaws ChaincodeEvent;
  laws_ChaincodeAction :: CodecLaws ChaincodeAction;
  laws_PRP :: CodecLaws ProposalResponsePayload;
  laws_CAP :: CodecLaws ChaincodeActionPayload;
  laws_PeerTransaction :: CodecLaws PeerTransaction;
  laws_KVRWSet :: CodecLaws KVRWSet;
  laws_TxReadWriteSet :: CodecLaws TxReadWriteSet;
  laws_AppTx :: CodecLaws AppTx;
  laws_Metadata :: CodecLaws PbMetadata }.

(** ** A concrete encoding

    An encoding that satisfies the laws, for the examples: a message is written
    as the bits of its number in an enumeration of its type, one per byte. *)

Module Wire.

Fixpoint bits (p : positive) : bytes :=
  match p with
  | xH => []
  | xO p' => Byte.x00 :: bits p'
  | xI p' => Byte.x01 :: bits p'
  end.

Fixpoint unbits (b : bytes) : positive :=
  match b with
  | [] => xH
  | Byte.x00 :: b' => xO (unbits b')
  | _ :: b' => xI (unbits b')
  end.

Lemma unbits_bits p : unbits (bits p) = p.
Proof. induction p; simpl; congruence. Qed.

(** The bytes of a message. *)
Definition wire {M} `{Countable M} (m : M) : bytes := bits (encode m).

Definition codec (M : Type) `{Countable M} : Codec M := {|
  Marshal m := Ret (wire m);
  Unmarshal b := match decode (unbits b) with
                 | Some m => Ret m
                 | None => Fail (Errorf "proto: cannot parse invalid wire-format data" [])
                 end |}.

Lemma codec_laws (M : Type) `{Countable M} : @CodecLaws M (codec M).
Proof. intros m b [= <-]. unfold Unmarshal, wire. simpl. by rewrite unbits_bits, decode_encode. Qed.

Lemma unwire {M} `{Countable M} (m : M) : @Unmarshal M (codec M) (wire m) = Ret m.
Proof. by apply (codec_laws M). Qed.

(** Messages are encoded symbolically: proofs go through [unwire]. *)
#[global] Opaque wire.

#[export] Instance byte_countable : Countable Byte.byte.
Proof. apply (inj_countable Byte.to_N Byte.of_N), Byte.of_to_N. Defined.

#[export] Instance bytes_countable : Countable bytes.
Proof. unfold bytes. apply _. Defined.

(** A record is countable through the tuple of its fields. *)
Ltac by_fields f g := refine (inj_countable' f g _); by intros [].

#[export] Instance opaque : OpaqueMessages := {|
  Config := Z * bytes;
  Config_Sequence := fst;
  Identity := bytes |}.

#[export] Instance Config_eq_dec : EqDecision Config.
Proof. unfold Config. simpl. apply _. Defined.
#[export] Instance Config_countable : Countable Config.
Proof. unfold Config. simpl. apply _. Defined.
#[export] Instance Identity_eq_dec : EqDecision Identity.
Proof. unfold Identity. simpl. apply _. Defined.
#[export] Instance Identity_countable : Countable Identity.
Proof. unfold Identity. simpl. apply _. Defined.

#[export] Instance Timestamp_eq_dec : EqDecision Timestamp.
Proof. solve_decision. Defined.
#[export] Instance Timestamp_countable : Countable Timestamp.
Proof. by_fields (λ m, (ts_Seconds m, ts_Nanos m)) (λ '(x0, x1), MkTimestamp x0 x1). Defined.

#[export] Instance ChannelHeader_eq_dec : EqDecision ChannelHeader.
Proof. solve_decision. Defined.
#[export] Instance ChannelHeader_countable : Countable ChannelHeader.
Proof. by_fields (λ m, (chdr_Type m, chdr_Version m, chdr_Timestamp m, chdr_ChannelId m, chdr_TxId m, chdr_Epoch m, chdr_Extension m, chdr_TlsCertHash m))
   (λ '(x0, x1, x2, x3, x4, x5, x6, x7), MkChannelHeader x0 x1 x2 x3 x4 x5 x6 x7). Defined.

#[export] Instance SignatureHeader_eq_dec : EqDecision SignatureHeader.
Proof. solve_decision. Defined.
#[export] Instance SignatureHeader_countable : Countable SignatureHeader.
Proof. by_fields (λ m, (shdr_Creator m, shdr_Nonce m)) (λ '(x0, x1), MkSignatureHeader x0 x1). Defined.

#[export] Instance Header_eq_dec : EqDecision Header.
Proof. solve_decision. Defined.
#[export] Instance Header_countable : Countable Header.
Proof. by_fields (λ m, (hdr_ChannelHeader m, hdr_SignatureHeader m)) (λ '(x0, x1), MkHeader x0 x1). Defined.

#[export] Instance Payload_eq_dec : EqDecision Payload.
Proof. solve_decision. Defined.
#[export] Instance Payload_countable : Countable Payload.
Proof. by_fields (λ m, (pl_Header m, pl_Data m)) (λ '(x0, x1), MkPayload x0 x1). Defined.

#[export] Instance Envelope_eq_dec : EqDecision Envelope.
Proof. solve_decision. Defined.
#[export] Instance Envelope_countable : Countable Envelope.
Proof. by_fields (λ m, (env_Payload m, env_Signature m)) (λ '(x0, x1), MkEnvelope x0 x1). Defined.

#[export] Instance ConfigEnvelope_eq_dec : EqDecision ConfigEnvelope.
Proof. solve_decision. Defined.
#[export] Instance ConfigEnvelope_countable : Countable ConfigEnvelope.
Proof. by_fields (λ m, cenv_Config m) (λ x0, MkConfigEnvelope x0). Defined.

#[export] Instance Proposal_eq_dec : EqDecision Proposal.
Proof. solve_decision. Defined.
#[export] Instance Proposal_countable : Countable Proposal.
Proof. by_fields (λ m, (prop_Header m, prop_Payload m, prop_Extension m))
   (λ '(x0, x1, x2), MkProposal x0 x1 x2). Defined.

#[export] Instance Response_eq_dec : EqDecision Response.
Proof. solve_decision. Defined.
#[export] Instance Response_countable : Countable Response.
Proof. by_fields (λ m, (resp_Status m, resp_Message m, resp_Payload m))
   (λ '(x0, x1, x2), MkResponse x0 x1 x2). Defined.

#[export] Instance PeerEndorsement_eq_dec : EqDecision PeerEndorsement.
Proof. solve_decision. Defined.
#[export] Instance PeerEndorsement_countable : Countable PeerEndorsement.
Proof. by_fields (λ m, (end_Endorser m, end_Signature m)) (λ '(x0, x1), MkPeerEndorsement x0 x1). Defined.

#[export] Instance ChaincodeID_eq_dec : EqDecision ChaincodeID.
Proof. solve_decision. Defined.
#[export] Instance ChaincodeID_countable : Countable ChaincodeID.
Proof. by_fields (λ m, (ccid_Name m, ccid_Version m)) (λ '(x0, x1), MkChaincodeID x0 x1). Defined.

#[export] Instance ChaincodeSpec_eq_dec : EqDecision ChaincodeSpec.
Proof. solve_decision. Defined.
#[export] Instance ChaincodeSpec_countable : Countable ChaincodeSpec.
Proof. by_fields (λ m, (ccs_ChaincodeId m, ccs_Input m)) (λ '(x0, x1), MkChaincodeSpec x0 x1). Defined.

#[export] Instance ChaincodeInvocationSpec_eq_dec : EqDecision ChaincodeInvocationSpec.
Proof. solve_decision. Defined.
#[export] Instance ChaincodeInvocationSpec_countable : Countable ChaincodeInvocationSpec.
Proof. by_fields (λ m, cis_ChaincodeSpec m) (λ x0, MkCIS x0). Defined.

#[export] Instance ChaincodeProposalPayload_eq_dec : EqDecision ChaincodeProposalPayload.
Proof. solve_decision. Defined.
#[export] Instance ChaincodeProposalPayload_countable : Countable ChaincodeProposalPayload.
Proof. by_fields (λ m, cpp_Input m) (λ x0, MkCPP x0). Defined.

#[export] Instance ChaincodeEvent_eq_dec : EqDecision ChaincodeEvent.
Proof. solve_decision. Defined.
#[export] Instance ChaincodeEvent_countable : Countable ChaincodeEvent.
Proof. by_fields (λ m, (evt_ChaincodeId m, evt_TxId m, evt_EventName m, evt_Payload m))
   (λ '(x0, x1, x2, x3), MkChaincodeEvent x0 x1 x2 x3). Defined.

#[export] Instance ChaincodeAction_eq_dec : EqDecision ChaincodeAction.
Proof. solve_decision. Defined.
#[export] Instance ChaincodeAction_countable : Countable ChaincodeAction.
Proof. by_fields (λ m, (act_Results m, act_Events m, act_Response m, act_ChaincodeId m))
   (λ '(x0, x1, x2, x3), MkChaincodeAction x0 x1 x2 x3). Defined.

#[export] Instance ProposalResponsePayload_eq_dec : EqDecision ProposalResponsePayload.
Proof. solve_decision. Defined.
#[export] Instance ProposalResponsePayload_countable : Countable ProposalResponsePayload.
Proof. by_fields (λ m, (prp_ProposalHash m, prp_Extension m)) (λ '(x0, x1), MkPRP x0 x1). Defined.

#[export] Instance ChaincodeEndorsedAction_eq_dec : EqDecision ChaincodeEndorsedAction.
Proof. solve_decision. Defined.
#[export] Instance ChaincodeEndorsedAction_countable : Countable ChaincodeEndorsedAction.
Proof. by_fields (λ m, (cea_ProposalResponsePayload m, cea_Endorsements m))
   (λ '(x0, x1), MkCEA x0 x1). Defined.

#[export] Instance ChaincodeActionPayload_eq_dec : EqDecision ChaincodeActionPayload.
Proof. solve_decision. Defined.
#[export] Instance ChaincodeActionPayload_countable : Countable ChaincodeActionPayload.
Proof. by_fields (λ m, (cap_ChaincodeProposalPayload m, cap_Action m)) (λ '(x0, x1), MkCAP x0 x1). Defined.

#[export] Instance TransactionAction_eq_dec : EqDecision TransactionAction.
Proof. solve_decision. Defined.
#[export] Instance TransactionAction_countable : Countable TransactionAction.
Proof. by_fields (λ m, (ta_Header m, ta_Payload m)) (λ '(x0, x1), MkTransactionAction x0 x1). Defined.

#[export] Instance PeerTransaction_eq_dec : EqDecision PeerTransaction.
Proof. solve_decision. Defined.
#[export] Instance PeerTransaction_countable : Countable PeerTransaction.
Proof. by_fields (λ m, ptx_Actions m) (λ x0, MkPeerTransaction x0). Defined.

#[export] Instance PbVersion_eq_dec : EqDecision PbVersion.
Proof. solve_decision. Defined.
#[export] Instance PbVersion_countable : Countable PbVersion.
Proof. by_fields (λ m, (pbv_BlockNum m, pbv_TxNum m)) (λ '(x0, x1), MkPbVersion x0 x1). Defined.

#[export] Instance PbKVRead_eq_dec : EqDecision PbKVRead.
Proof. solve_decision. Defined.
#[export] Instance PbKVRead_countable : Countable PbKVRead.
Proof. by_fields (λ m, (pbr_Key m, pbr_Version m)) (λ '(x0, x1), MkPbKVRead x0 x1). Defined.

#[export] Instance PbKVWrite_eq_dec : EqDecision PbKVWrite.
Proof. solve_decision. Defined.
#[export] Instance PbKVWrite_countable : Countable PbKVWrite.
Proof. by_fields (λ m, (pbw_Key m, pbw_IsDelete m, pbw_Value m))
   (λ '(x0, x1, x2), MkPbKVWrite x0 x1 x2). Defined.

#[export] Instance KVRWSet_eq_dec : EqDecision KVRWSet.
Proof. solve_decision. Defined.
#[export] Instance KVRWSet_countable : Countable KVRWSet.
Proof. by_fields (λ m, (kvs_Reads m, kvs_Writes m)) (λ '(x0, x1), MkKVRWSet x0 x1). Defined.

#[export] Instance PbNsReadWriteSet_eq_dec : EqDecision PbNsReadWriteSet.
Proof. solve_decision. Defined.
#[export] Instance PbNsReadWriteSet_countable : Countable PbNsReadWriteSet.
Proof. by_fields (λ m, (pbn_Namespace m, pbn_Rwset m)) (λ '(x0, x1), MkPbNsRWS x0 x1). Defined.

#[export] Instance TxReadWriteSet_eq_dec : EqDecision TxReadWriteSet.
Proof. solve_decision. Defined.
#[export] Instance TxReadWriteSet_countable : Countable TxReadWriteSet.
Proof. by_fields (λ m, txrws_NsRwset m) (λ x0, MkTxRWS x0). Defined.

#[export] Instance Read_eq_dec : EqDecision Read.
Proof. solve_decision. Defined.
#[export] Instance Read_countable : Countable Read.
Proof. by_fields (λ m, (read_Key m, read_Version m)) (λ '(x0, x1), MkRead x0 x1). Defined.

#[export] Instance ReadWrite_eq_dec : EqDecision ReadWrite.
Proof. solve_decision. Defined.
#[export] Instance ReadWrite_countable : Countable ReadWrite.
Proof. by_fields (λ m, (rw_Key m, rw_Version m, rw_Value m)) (λ '(x0, x1, x2), MkReadWrite x0 x1 x2). Defined.

#[export] Instance Write_eq_dec : EqDecision Write.
Proof. solve_decision. Defined.
#[export] Instance Write_countable : Countable Write.
Proof. by_fields (λ m, (write_Key m, write_Value m)) (λ '(x0, x1), MkWrite x0 x1). Defined.

#[export] Instance TxNamespace_eq_dec : EqDecision TxNamespace.
Proof. solve_decision. Defined.
#[export] Instance TxNamespace_countable : Countable TxNamespace.
Proof. by_fields (λ m, (txns_NsId m, txns_NsVersion m, txns_ReadsOnly m, txns_ReadWrites m, txns_BlindWrites m))
   (λ '(x0, x1, x2, x3, x4), MkTxNamespace x0 x1 x2 x3 x4). Defined.

#[export] Instance EndorsementWithIdentity_eq_dec : EqDecision EndorsementWithIdentity.
Proof. solve_decision. Defined.
#[export] Instance EndorsementWithIdentity_countable : Countable EndorsementWithIdentity.
Proof. by_fields (λ m, (ewi_Endorsement m, ewi_Identity m))
   (λ '(x0, x1), MkEndorsementWithIdentity x0 x1). Defined.

#[export] Instance Endorsements_eq_dec : EqDecision Endorsements.
Proof. solve_decision. Defined.
#[export] Instance Endorsements_countable : Countable Endorsements.
Proof. by_fields (λ m, ends_EndorsementsWithIdentity m) (λ x0, MkEndorsements x0). Defined.

#[export] Instance AppTx_eq_dec : EqDecision AppTx.
Proof. solve_decision. Defined.
#[export] Instance AppTx_countable : Countable AppTx.
Proof. by_fields (λ m, (apptx_Namespaces m, apptx_Endorsements m, apptx_Metadata m))
   (λ '(x0, x1, x2), MkAppTx x0 x1 x2). Defined.

#[export] Instance PbMetadata_eq_dec : EqDecision PbMetadata.
Proof. solve_decision. Defined.
#[export] Instance PbMetadata_countable : Countable PbMetadata.
Proof. by_fields (λ m, (pm_InputArgs m, pm_Event m, pm_EventName m, pm_Payload m))
   (λ '(x0, x1, x2, x3), MkPbMetadata x0 x1 x2 x3). Defined.

#[export] Instance protos : Protos := {|
  proto_Config := codec Config;
  proto_Identity := codec Identity;
  proto_ConfigEnvelope := codec ConfigEnvelope;
  proto_ChannelHeader := codec ChannelHeader;
  proto_SignatureHeader := codec SignatureHeader;
  proto_Header := codec Header;
  proto_Payload := codec Payload;
  proto_Envelope := codec Envelope;
  proto_Proposal := codec Proposal;
  proto_CIS := codec ChaincodeInvocationSpec;
  proto_CPP := codec ChaincodeProposalPayload;
  proto_ChaincodeEvent := codec ChaincodeEvent;
  proto_ChaincodeAction := codec ChaincodeAction;
  proto_PRP := codec ProposalResponsePayload;
  proto_CAP := codec ChaincodeActionPayload;
  proto_PeerTransaction := codec PeerTransaction;
  proto_KVRWSet := codec KVRWSet;
  proto_TxReadWriteSet := codec TxReadWriteSet;
  proto_AppTx := codec AppTx;
  proto_Metadata := codec PbMetadata |}.

#[export] Instance protos_laws : ProtosLaws.
Proof. split; apply codec_laws. Qed.

#[export] Instance headers : HeaderTypes := {|
  HeaderType_MESSAGE := 0;
  HeaderType_CONFIG := 1;
  HeaderType_ENDORSER_TRANSACTION := 3;
  BlockMetadataIndex_TRANSACTIONS_FILTER := 2 |}.

#[export] Instance headers_laws : HeaderTypesLaws.
Proof. unfold HeaderTypesLaws. by apply (bool_decide_unpack _). Qed.

End Wire.
