(* ===== verification/Endorse.v ===== *)
(** * Endorsement

    What an endorser signs: the execution result (endorsement/proposal.go), the
    Fabric-X transaction built from a read-write set with its metadata
    (endorsement/fabricx/builder.go, blocks/fabricx/decode.go), and the Fabric
    read-write set (endorsement/fabric/builder.go). *)

From S2P Require Import Prelude Blocks Simulation Proto.

(** The interface [sdk.Signer]. *)
Record Signer := MkSigner { Sign : bytes → result bytes; Serialize : result bytes }.

Record Invocation := MkInvocation {
  inv_TxID : string;
  inv_Nonce : bytes;
  inv_Creator : bytes;
  inv_Args : list bytes;
  inv_Namespace : string;
  inv_ChaincodeVersion : string;
  inv_NsVersion : Z;
  inv_Channel : string;
  inv_Proposal : option Proposal;
  inv_ProposalHash : bytes }.

Record ExecutionResult := MkExecutionResult {
  res_RWS : ReadWriteSet;
  res_Event : bytes;
  res_EventName : string;
  res_Status : Z;
  res_Message : string;
  res_Payload : bytes }.

Definition ErrMissingEventName : error := Errorf "event name is required when an event is set" [].

Definition res_Validate (res : ExecutionResult) : result unit :=
  if (0 <? length (res_Event res))%nat && (res_EventName res =? "")%string
  then Fail ErrMissingEventName else Ret tt.

Definition res_Response (res : ExecutionResult) : Response :=
  MkResponse (res_Status res) (res_Message res) (res_Payload res).

Definition BadRequest (msg : string) : ExecutionResult :=
  {| res_RWS := MkRWS [] []; res_Event := []; res_EventName := ""; res_Status := 400;
     res_Message := "Bad Request"; res_Payload := bytes_of_string msg |}.

Definition Success (rws : ReadWriteSet) (eventName : string) (event payload : bytes) : ExecutionResult :=
  {| res_RWS := rws; res_Event := event; res_EventName := eventName; res_Status := 200;
     res_Message := "OK"; res_Payload := payload |}.

(** ** Transaction metadata *)

Record Metadata := MkMetadata {
  md_Event : bytes;
  md_EventName : string;
  md_Payload : bytes;
  md_InputArgs : list bytes }.

Definition zero_Metadata : Metadata := MkMetadata [] "" [] [].

Definition EncodeMetadata `{Protos} (m : Metadata) : result (list bytes) :=
  match Marshal (MkPbMetadata (md_InputArgs m) (md_Event m) (md_EventName m) (md_Payload m)) with
  | Fail err => Fail (Wrapf "marshal metadata: %w" [] err)
  | Ret b => Ret [b]
  end.

Definition DecodeMetadata `{Protos} (metadata : list bytes) : Metadata :=
  match metadata with
  | [] => zero_Metadata
  | b :: _ =>
      match Unmarshal (M := PbMetadata) b with
      | Fail _ => zero_Metadata
      | Ret pm => MkMetadata (pm_Event pm) (pm_EventName pm) (pm_Payload pm) (pm_InputArgs pm)
      end
  end.

(** ** buildTx *)

(** The loop that fills [readByKey]: a later read of a key replaces an earlier
    one. *)
Definition reads_by_key (reads : list KVRead) : gmap string KVRead :=
  foldl (λ m r, <[rd_Key r := r]> m) ∅ reads.

Definition pb_version (v : option Version) : option Z := ver_BlockNum <$> v.

(** The loop over the writes: a write of a key that was read takes the read out
    of [readByKey] and becomes a read-write, any other is a blind write. *)
Fixpoint split_writes (readByKey : gmap string KVRead) (writes : list KVWrite)
    : gmap string KVRead * list ReadWrite * list Write :=
  match writes with
  | [] => (readByKey, [], [])
  | w :: writes' =>
      let value := if wr_IsDelete w then [] else wr_Value w in
      match readByKey !! wr_Key w with
      | Some r =>
          let '(m, readWrites, blindWrites) := split_writes (delete (wr_Key w) readByKey) writes' in
          (m, MkReadWrite (bytes_of_string (wr_Key w)) (pb_version (rd_Version r)) value :: readWrites,
           blindWrites)
      | None =>
          let '(m, readWrites, blindWrites) := split_writes readByKey writes' in
          (m, readWrites, MkWrite (bytes_of_string (wr_Key w)) value :: blindWrites)
      end
  end.

Definition only_read (r : KVRead) : Read :=
  MkRead (bytes_of_string (rd_Key r)) (pb_version (rd_Version r)).

(** [order] is the iteration order of Go maps.  Sorting by [bytes.Compare] on
    keys is sorting by the strings they came from. *)
Definition buildTx `{OpaqueMessages} (order : ∀ A : Type, gmap string A → list (string * A))
    (rws : ReadWriteSet) (namespace : string) (nsVersion : Z) (metadata : list bytes) : AppTx :=
  let '(readByKey, readWrites, blindWrites) := split_writes (reads_by_key (rws_Reads rws)) (rws_Writes rws) in
  let readsOnly := only_read <$> (order KVRead readByKey).*2 in
  MkAppTx
    [MkTxNamespace namespace nsVersion
       (sort_by (λ r, string_of_bytes (read_Key r)) readsOnly)
       (sort_by (λ r, string_of_bytes (rw_Key r)) readWrites)
       (sort_by (λ r, string_of_bytes (write_Key r)) blindWrites)]
    [] metadata.

(** ** DecodeNamespaces *)

Definition decode_version (v : option Z) : option Version := (λ n, MkVersion n 0) <$> v.

Definition decode_namespace (ns : TxNamespace) : NsReadWriteSet :=
  MkNsRWS (txns_NsId ns)
    (MkRWS
       (((λ r, MkKVRead (string_of_bytes (read_Key r)) (decode_version (read_Version r))) <$> txns_ReadsOnly ns) ++
        ((λ r, MkKVRead (string_of_bytes (rw_Key r)) (decode_version (rw_Version r))) <$> txns_ReadWrites ns))
       (((λ w, MkKVWrite (string_of_bytes (write_Key w)) false (write_Value w)) <$> txns_BlindWrites ns) ++
        ((λ w, MkKVWrite (string_of_bytes (rw_Key w)) false (rw_Value w)) <$> txns_ReadWrites ns))).

Definition DecodeNamespaces (namespaces : list TxNamespace) : list NsReadWriteSet :=
  decode_namespace <$> namespaces.

(** ** Endorse on Fabric-X *)

Section FabricX.
Context `{Protos}.

(** [TxNamespace.ASN1Marshal], the digest an endorser signs. *)
Context (ASN1Marshal : TxNamespace → string → list bytes → result bytes).
Context (order : ∀ A : Type, gmap string A → list (string * A)).

Definition fabricx_Endorse (signer : Signer) (inv : Invocation) (res : ExecutionResult)
    : outcome ProposalResponse :=
  _ ← lift (res_Validate res);
  metadata ← lift (EncodeMetadata (MkMetadata (res_Event res) (res_EventName res) (res_Payload res) (inv_Args inv)));
  let tx := buildTx order (res_RWS res) (inv_Namespace inv) (inv_NsVersion inv) metadata in
  prpBytes ← lift (wrapf "failed to marshal read/write set: %w" [] (Marshal tx));
  ns ← deref (head (apptx_Namespaces tx));
  digest ← lift (wrapf "cannot serialize tx: %w" [] (ASN1Marshal ns (inv_TxID inv) metadata));
  identityBytes ← lift (Serialize signer);
  sig ← lift (wrapf "could not sign the proposal response payload: %w" [] (Sign signer digest));
  Ok (MkProposalResponse 1
        (Some (MkResponse (res_Status res) (res_Message res) (res_Payload res)))
        prpBytes
        (Some (MkPeerEndorsement identityBytes sig))).
End FabricX.

(** ** Endorse on Fabric *)

Definition pb_read (r : KVRead) : PbKVRead :=
  MkPbKVRead (rd_Key r) ((λ v, MkPbVersion (ver_BlockNum v) (ver_TxNum v)) <$> rd_Version r).

Definition pb_write (w : KVWrite) : PbKVWrite := MkPbKVWrite (wr_Key w) (wr_IsDelete w) (wr_Value w).

Section Fabric.
Context `{Protos}.

(** Both slices are sorted in place, so the caller's read-write set is sorted
    as well; the code does not read it again.  [sort.Slice] may order equal keys
    either way; the theorems that depend on the order are about read-write sets
    without repeated keys. *)
Definition marshalRWSet (res : ReadWriteSet) (namespace : string) : outcome bytes :=
  let rws := MkKVRWSet (pb_read <$> sort_by rd_Key (rws_Reads res))
                       (pb_write <$> sort_by wr_Key (rws_Writes res)) in
  b ← MarshalOrPanic rws;
  MarshalOrPanic (MkTxRWS [MkPbNsRWS namespace b]).

(** [protoutil.GetBytesProposalResponsePayload]. *)
Context (GetBytesProposalResponsePayload :
  bytes → Response → bytes → bytes → ChaincodeID → result bytes).

Definition fabric_Endorse (signer : Signer) (inv : Invocation) (res : ExecutionResult)
    : outcome ProposalResponse :=
  _ ← lift (res_Validate res);
  simResBytes ← marshalRWSet (res_RWS res) (inv_Namespace inv);
  event ← (if (res_EventName res =? "")%string then Ok []
           else lift (wrapf "marshal events: %w" [] (Marshal
             (MkChaincodeEvent (inv_Namespace inv) (inv_TxID inv) (res_EventName res) (res_Event res)))));
  let ccid := MkChaincodeID (inv_Namespace inv) (inv_ChaincodeVersion inv) in
  prpBytes ← lift (wrapf "marshal response: %w" [] (GetBytesProposalResponsePayload (inv_ProposalHash inv)
    (MkResponse 200 "" (res_Payload res)) simResBytes event ccid));
  identityBytes ← lift (Serialize signer);
  sig ← lift (Sign signer (prpBytes ++ identityBytes));
  Ok (MkProposalResponse 1
        (Some (MkResponse (res_Status res) (res_Message res) (res_Payload res)))
        prpBytes
        (Some (MkPeerEndorsement identityBytes sig))).
End Fabric.

(** ** What survives the Fabric-X format *)

(** A read keeps its version counter and loses the transaction number; a write
    loses its delete flag and a delete becomes an empty value. *)
Definition neutral_read (r : KVRead) : KVRead := MkKVRead (rd_Key r) (decode_version (pb_version (rd_Version r))).
Definition neutral_write (w : KVWrite) : KVWrite :=
  MkKVWrite (wr_Key w) false (if wr_IsDelete w then [] else wr_Value w).

(** Every key at most once, as a simulation produces it. *)
Definition rws_unique (rws : ReadWriteSet) : Prop :=
  NoDup (rd_Key <$> rws_Reads rws) ∧ NoDup (wr_Key <$> rws_Writes rws).

Definition same_rws (a b : ReadWriteSet) : Prop :=
  rws_Reads a ≡ₚ rws_Reads b ∧ rws_Writes a ≡ₚ rws_Writes b.

Definition rw_read (r : ReadWrite) : KVRead := MkKVRead (string_of_bytes (rw_Key r)) (decode_version (rw_Version r)).
Definition rw_write (r : ReadWrite) : KVWrite := MkKVWrite (string_of_bytes (rw_Key r)) false (rw_Value r).
Definition blind_write (w : Write) : KVWrite := MkKVWrite (string_of_bytes (write_Key w)) false (write_Value w).

Lemma foldl_insert_reads reads (m : gmap string KVRead) :
  foldl (λ m r, <[rd_Key r := r]> m) m reads = list_to_map ((λ r, (rd_Key r, r)) <$> reverse reads) ∪ m.
Proof.
  revert m. induction reads as [|r reads IH]; intros m; simpl; [by rewrite (left_id_L ∅ (∪))|].
  rewrite IH, reverse_cons, fmap_app, list_to_map_app, <- (assoc_L (∪)). f_equal. simpl.
  by rewrite insert_empty, insert_union_singleton_l.
Qed.

Lemma reads_by_key_list reads :
  NoDup (rd_Key <$> reads) → reads_by_key reads = list_to_map ((λ r, (rd_Key r, r)) <$> reads).
Proof.
  intros HN. unfold reads_by_key. rewrite foldl_insert_reads, (right_id_L ∅ (∪)).
  apply list_to_map_proper; [|by rewrite reverse_Permutation].
  rewrite <- list_fmap_compose. unfold compose. simpl. by rewrite reverse_Permutation.
Qed.

Lemma reads_by_key_values reads :
  NoDup (rd_Key <$> reads) → (map_to_list (reads_by_key reads)).*2 ≡ₚ reads.
Proof.
  intros HN. rewrite reads_by_key_list, map_to_list_to_map by (done || by rewrite <- list_fmap_compose).
  rewrite <- list_fmap_compose. unfold compose. simpl. by rewrite list_fmap_id.
Qed.

Lemma reads_by_key_proper reads reads' :
  NoDup (rd_Key <$> reads) → reads ≡ₚ reads' → reads_by_key reads = reads_by_key reads'.
Proof.
  intros HN Hp. rewrite !reads_by_key_list by (done || by rewrite <- Hp).
  apply list_to_map_proper; [by rewrite <- list_fmap_compose|by rewrite Hp].
Qed.

(** The two loops neither lose nor invent an access. *)
Lemma split_writes_accesses m ws m' rws bws :
  map_Forall (λ k r, rd_Key r = k) m → split_writes m ws = (m', rws, bws) →
  (neutral_read <$> (map_to_list m').*2) ++ (rw_read <$> rws) ≡ₚ neutral_read <$> (map_to_list m).*2.
Proof.
  revert m m' rws bws. induction ws as [|w ws IH]; intros m m' rws bws Hk; simpl.
  { intros [= <- <- <-]. by rewrite app_nil_r. }
  destruct (m !! wr_Key w) as [r|] eqn:E.
  - destruct (split_writes (delete _ m) ws) as [[m1 rws1] bws1] eqn:E1. intros [= <- <- <-].
    rewrite <- (map_to_list_delete m _ _ E), !fmap_cons.
    rewrite <- (IH _ _ _ _ (map_Forall_delete _ _ _ Hk) E1), <- Permutation_middle.
    match goal with |- ?a :: _ ≡ₚ ?b :: _ => assert (a = b) as ->; [|done] end.
    unfold rw_read, neutral_read. simpl. by rewrite string_of_bytes_of_string, (Hk _ _ E).
  - destruct (split_writes m ws) as [[m1 rws1] bws1] eqn:E1. intros [= <- <- <-]. by apply (IH _ _ _ _ Hk E1).
Qed.

Lemma split_writes_writes m ws m' rws bws :
  split_writes m ws = (m', rws, bws) →
  (blind_write <$> bws) ++ (rw_write <$> rws) ≡ₚ neutral_write <$> ws.
Proof.
  revert m m' rws bws. induction ws as [|w ws IH]; intros m m' rws bws; simpl; [by intros [= <- <- <-]|].
  destruct (m !! wr_Key w) as [r|].
  - destruct (split_writes (delete _ m) ws) as [[m1 rws1] bws1] eqn:E1. intros [= <- <- <-]. csimpl.
    rewrite <- Permutation_middle, (IH _ _ _ _ E1). unfold rw_write, neutral_write at 2. simpl.
    by rewrite string_of_bytes_of_string.
  - destruct (split_writes m ws) as [[m1 rws1] bws1] eqn:E1. intros [= <- <- <-]. csimpl.
    rewrite (IH _ _ _ _ E1). unfold blind_write, neutral_write at 2. simpl. by rewrite string_of_bytes_of_string.
Qed.

(** With unique keys the loop over the writes treats each on its own. *)
Definition as_rw (m : gmap string KVRead) (w : KVWrite) : option ReadWrite :=
  (λ r, MkReadWrite (bytes_of_string (wr_Key w)) (pb_version (rd_Version r))
          (if wr_IsDelete w then [] else wr_Value w)) <$> m !! wr_Key w.
Definition as_blind (m : gmap string KVRead) (w : KVWrite) : option Write :=
  match m !! wr_Key w with
  | Some _ => None
  | None => Some (MkWrite (bytes_of_string (wr_Key w)) (if wr_IsDelete w then [] else wr_Value w))
  end.

Lemma split_writes_omap m ws :
  NoDup (wr_Key <$> ws) →
  split_writes m ws = (foldl (λ m w, delete (wr_Key w) m) m ws, omap (as_rw m) ws, omap (as_blind m) ws).
Proof.
  revert m. induction ws as [|w ws IH]; intros m; csimpl; [done|]. intros [Hw HN]%NoDup_cons.
  assert (∀ w', w' ∈ ws → delete (wr_Key w) m !! wr_Key w' = m !! wr_Key w') as Hsame.
  { intros w' Hw'. apply lookup_delete_ne. intros Heq. apply Hw. rewrite Heq. by apply list_elem_of_fmap_2. }
  assert (omap (as_rw (delete (wr_Key w) m)) ws = omap (as_rw m) ws ∧
          omap (as_blind (delete (wr_Key w) m)) ws = omap (as_blind m) ws) as [Hrw Hbl].
  { split; apply list_omap_ext, Forall_Forall2_diag, Forall_forall; intros w' Hw';
      unfold as_rw, as_blind; by rewrite Hsame. }
  unfold as_rw at 1, as_blind at 1. destruct (m !! wr_Key w) as [r|] eqn:E; simpl.
  - by rewrite (IH _ HN), Hrw, Hbl.
  - rewrite (IH _ HN). by rewrite delete_id.
Qed.

Lemma NoDup_omap_keys {A B} (f : A → option B) (ka : A → string) (kb : B → string) (l : list A) :
  (∀ a b, f a = Some b → kb b = ka a) → NoDup (ka <$> l) → NoDup (kb <$> omap f l).
Proof.
  intros Hk. induction l as [|a l IH]; csimpl; [done|]. intros [Ha HN]%NoDup_cons.
  destruct (f a) as [b|] eqn:E; csimpl; [|auto]. apply NoDup_cons. split; [|auto].
  rewrite (Hk _ _ E). intros (b' & Hb' & (a' & Ha' & Hf)%list_elem_of_omap)%list_elem_of_fmap.
  apply Ha. rewrite Hb', (Hk _ _ Hf). by apply list_elem_of_fmap_2.
Qed.

Lemma as_rw_key m w rw : as_rw m w = Some rw → string_of_bytes (rw_Key rw) = wr_Key w.
Proof. unfold as_rw. destruct (m !! wr_Key w); intros [= <-]. simpl. apply string_of_bytes_of_string. Qed.

Lemma as_blind_key m w bw : as_blind m w = Some bw → string_of_bytes (write_Key bw) = wr_Key w.
Proof. unfold as_blind. destruct (m !! wr_Key w); intros [= <-]. simpl. apply string_of_bytes_of_string. Qed.

Lemma delete_all_perm (ws ws' : list KVWrite) (m : gmap string KVRead) :
  ws ≡ₚ ws' → foldl (λ m w, delete (wr_Key w) m) m ws = foldl (λ m w, delete (wr_Key w) m) m ws'.
Proof.
  intros Hp. revert m. induction Hp as [|w ws ws' _ IH|w w' ws|ws1 ws2 ws3 _ IH1 _ IH2]; intros m; simpl.
  - done.
  - apply IH.
  - by rewrite delete_delete.
  - by rewrite IH1.
Qed.

Lemma delete_all_keys (ws : list KVWrite) (m : gmap string KVRead) (P : string → KVRead → Prop) :
  map_Forall P m → map_Forall P (foldl (λ m w, delete (wr_Key w) m) m ws).
Proof. revert m. induction ws as [|w ws IH]; intros m Hm; simpl; [done|]. by apply IH, map_Forall_delete. Qed.

Lemma reads_by_key_keys reads : map_Forall (λ k r, rd_Key r = k) (reads_by_key reads).
Proof.
  unfold reads_by_key. assert (map_Forall (λ k r, rd_Key r = k) (∅ : gmap string KVRead)) as H0
    by apply map_Forall_empty. revert H0. generalize (∅ : gmap string KVRead).
  induction reads as [|r reads IH]; intros m Hm; simpl; [done|]. apply IH. by apply map_Forall_insert_2.
Qed.

Lemma only_read_keys order (m : gmap string KVRead) :
  map_order order → map_Forall (λ k r, rd_Key r = k) m →
  NoDup ((λ r, string_of_bytes (read_Key r)) <$> (only_read <$> (order KVRead m).*2)).
Proof.
  intros Hord Hk. rewrite <- list_fmap_compose. erewrite list_fmap_ext; [by apply (order_NoDup order m rd_Key)|].
  intros i r _. unfold compose. simpl. apply string_of_bytes_of_string.
Qed.

Lemma buildTx_metadata `{OpaqueMessages} order rws namespace nsVersion metadata :
  apptx_Metadata (buildTx order rws namespace nsVersion metadata) = metadata.
Proof. unfold buildTx. by destruct (split_writes _ _) as [[]]. Qed.

Lemma buildTx_perm `{OpaqueMessages} order order' rws rws' namespace nsVersion metadata :
  map_order order → map_order order' → rws_unique rws → same_rws rws rws' →
  buildTx order rws namespace nsVersion metadata = buildTx order' rws' namespace nsVersion metadata.
Proof.
  intros Ho Ho' [HNr HNw] [Hr Hw]. unfold buildTx.
  rewrite <- (reads_by_key_proper _ _ HNr Hr), !split_writes_omap by (done || by rewrite <- Hw).
  rewrite <- (delete_all_perm _ _ _ Hw). set (m := reads_by_key _). do 3 f_equal.
  - apply sort_by_unique.
    + apply only_read_keys; [done|]. apply delete_all_keys, reads_by_key_keys.
    + by rewrite (Ho KVRead), (Ho' KVRead).
  - apply sort_by_unique; [|by rewrite Hw].
    by eapply NoDup_omap_keys; [apply as_rw_key|].
  - apply sort_by_unique; [|by rewrite Hw].
    by eapply NoDup_omap_keys; [apply as_blind_key|].
Qed.

(** C17: endorsers that simulate the same accesses build the same Fabric-X transaction,
    whatever order their read-write sets are in and whatever order their
    runtimes iterate maps in: the bytes they sign do not depend on either. *)
Theorem buildTx_deterministic `{OpaqueMessages} order order' rws rws' namespace nsVersion metadata :
  map_order order → map_order order' → rws_unique rws → same_rws rws rws' →
  buildTx order rws namespace nsVersion metadata = buildTx order' rws' namespace nsVersion metadata.
Proof. apply buildTx_perm. Qed.

Lemma decode_buildTx `{OpaqueMessages} order rws namespace nsVersion metadata :
  map_order order → NoDup (rd_Key <$> rws_Reads rws) →
  ∃ rws', DecodeNamespaces (apptx_Namespaces (buildTx order rws namespace nsVersion metadata)) =
            [MkNsRWS namespace rws'] ∧
    rws_Reads rws' ≡ₚ neutral_read <$> rws_Reads rws ∧
    rws_Writes rws' ≡ₚ neutral_write <$> rws_Writes rws.
Proof.
  intros Hord HN. unfold buildTx.
  destruct (split_writes (reads_by_key (rws_Reads rws)) (rws_Writes rws)) as [[m rw] bw] eqn:E.
  eexists. split; [reflexivity|]. simpl. rewrite !sort_by_perm. split.
  - rewrite <- (reads_by_key_values _ HN).
    rewrite <- (split_writes_accesses _ _ _ _ _ (reads_by_key_keys _) E).
    apply Permutation_app; [|done]. rewrite (Hord KVRead m), <- !list_fmap_compose.
    erewrite list_fmap_ext; [reflexivity|]. intros i [k r] _. unfold compose, neutral_read. simpl.
    by rewrite string_of_bytes_of_string.
  - by apply (split_writes_writes _ _ _ _ _ E).
Qed.

(** Decoding what an endorser built gives back the accesses of the simulation: every
    read with its version counter and every write with its value, each once.
    What the format does not carry is the transaction number of a read version
    and the delete flag of a write: a delete comes back as an empty value. *)
Theorem DecodeNamespaces_buildTx `{OpaqueMessages} order rws namespace nsVersion metadata :
  map_order order → NoDup (rd_Key <$> rws_Reads rws) →
  ∃ rws', DecodeNamespaces (apptx_Namespaces (buildTx order rws namespace nsVersion metadata)) =
            [MkNsRWS namespace rws'] ∧
    rws_Reads rws' ≡ₚ neutral_read <$> rws_Reads rws ∧
    rws_Writes rws' ≡ₚ neutral_write <$> rws_Writes rws.
Proof. apply decode_buildTx. Qed.

(** ** A concrete read-write set *)

Module Accesses.

Definition rws : ReadWriteSet :=
  MkRWS [MkKVRead "b" (Some (MkVersion 4 0)); MkKVRead "a" None]
        [MkKVWrite "c" true []; MkKVWrite "b" false (bytes_of_string "v")].
Definition shuffled : ReadWriteSet :=
  MkRWS [MkKVRead "a" None; MkKVRead "b" (Some (MkVersion 4 0))]
        [MkKVWrite "b" false (bytes_of_string "v"); MkKVWrite "c" true []].

Definition reversed (A : Type) (m : gmap string A) : list (string * A) := reverse (map_to_list m).

Lemma reversed_order : map_order reversed.
Proof. intros A m. apply reverse_Permutation. Qed.

Lemma rws_keys : rws_unique rws.
Proof. split; by apply (bool_decide_unpack _). Qed.

End Accesses.

Lemma buildTx_deterministic_witness :
  buildTx (H := Wire.opaque) map_list Accesses.rws "cc" 0 [] =
  buildTx (H := Wire.opaque) Accesses.reversed Accesses.shuffled "cc" 0 [].
Proof.
  apply buildTx_deterministic;
    [apply map_list_order|apply Accesses.reversed_order|apply Accesses.rws_keys|].
  split; apply Permutation_swap.
Defined.

Lemma DecodeNamespaces_buildTx_witness :
  ∃ rws', DecodeNamespaces (apptx_Namespaces (buildTx (H := Wire.opaque) map_list Accesses.rws "cc" 0 [])) =
            [MkNsRWS "cc" rws'] ∧
    rws_Reads rws' ≡ₚ neutral_read <$> rws_Reads Accesses.rws ∧
    rws_Writes rws' ≡ₚ neutral_write <$> rws_Writes Accesses.rws.
Proof. apply DecodeNamespaces_buildTx; [apply map_list_order|apply Accesses.rws_keys]. Defined.
