(* ===== verification/Parser.v ===== *)
(** * Block parsers

    The parsers of Fabric and Fabric-X blocks (blocks/fabric/parser.go,
    blocks/fabricx/parser.go).  The two [Parse] methods run the same loop and
    differ in the status table and in [ParseTx]; log lines are left out. *)

From S2P Require Import Prelude Blocks Status Proto Endorse.

(** ** Parse *)

(** What one envelope of a block contributes: nothing, a configuration, a
    transaction, or the error or panic that ends the loop. *)
Inductive parsed :=
  | Skipped
  | Configuration (c : ConfigTransaction)
  | Parsed (tx : Transaction).

Section Parse.
Context `{Protos} `{HeaderTypes}.

(** [protoutil.BlockHeaderHash], and the clock. *)
Context (BlockHeaderHash : BlockHeader → bytes) (now : Z).

Context (statusForTx : bytes → nat → Status * Z * text).
Context (ParseTx : Envelope → outcome (option Transaction)).

(** The body of the loop up to [ParseTx]: malformed envelopes are skipped, a
    malformed configuration is an error. *)
Definition parse_envelope (txFilter : bytes) (number : Z) (txNum : nat) (envBytes : bytes) : outcome parsed :=
  match Unmarshal (M := Envelope) envBytes with
  | Fail _ => Ok Skipped
  | Ret env =>
      match Unmarshal (M := Payload) (env_Payload env) with
      | Fail _ => Ok Skipped
      | Ret pl =>
          match pl_Header pl with
          | None => Ok Skipped
          | Some hdr =>
              match Unmarshal (M := ChannelHeader) (hdr_ChannelHeader hdr) with
              | Fail _ => Ok Skipped
              | Ret chdr =>
                  if chdr_Type chdr =? HeaderType_CONFIG then
                    match Unmarshal (M := ConfigEnvelope) (pl_Data pl) with
                    | Fail err => Err (Wrapf "CONFIG [%d:%d]: config envelope: %w" [AInt number; AInt (Z.of_nat txNum)] err)
                    | Ret configEnvelope =>
                        match cenv_Config configEnvelope with
                        | None => Err (Errorf "CONFIG [%d:%d]: missing config" [AInt number; AInt (Z.of_nat txNum)])
                        | Some config =>
                            match Marshal config with
                            | Fail err => Err (Wrapf "CONFIG [%d:%d]: marshal config: %w" [AInt number; AInt (Z.of_nat txNum)] err)
                            | Ret configBytes => Ok (Configuration (MkConfigTransaction (Config_Sequence config) configBytes))
                            end
                        end
                    end
                  else
                    match ParseTx env with
                    | Panic => Panic
                    | Err _ | Ok None => Ok Skipped
                    | Ok (Some tx) =>
                        let '(status, rawCode, reason) := statusForTx txFilter txNum in
                        Ok (Parsed (SetNumber (SetStatus tx status rawCode reason) (Z.of_nat txNum)))
                    end
              end
          end
      end
  end.

(** What an envelope does to the block under construction. *)
Definition add_parsed (block : Block) (p : parsed) : Block :=
  match p with
  | Skipped => block
  | Configuration c =>
      {| blk_Number := blk_Number block; blk_Hash := blk_Hash block; blk_ParentHash := blk_ParentHash block;
         blk_Timestamp := blk_Timestamp block; blk_Transactions := blk_Transactions block;
         blk_ConfigTransaction := Some c |}
  | Parsed tx => SetTransactions block (blk_Transactions block ++ [tx])
  end.

(** The loop over [b.Data.Data] from position [txNum].  The code returns the
    partial block next to an error; its callers drop it. *)
Fixpoint parse_loop (txFilter : bytes) (txNum : nat) (data : list bytes) (block : Block) : outcome Block :=
  match data with
  | [] => Ok block
  | envBytes :: data' =>
      p ← parse_envelope txFilter (blk_Number block) txNum envBytes;
      parse_loop txFilter (S txNum) data' (add_parsed block p)
  end.

Definition Parse (b : RawBlock) : outcome Block :=
  header ← deref (rb_Header b);
  let block := {| blk_Number := bh_Number header; blk_Hash := BlockHeaderHash header;
                  blk_ParentHash := bh_PreviousHash header; blk_Timestamp := now;
                  blk_Transactions := []; blk_ConfigTransaction := None |} in
  metadata ← deref (rb_Metadata b);
  match metadata !! BlockMetadataIndex_TRANSACTIONS_FILTER with
  | None => Err (Errorf "block metadata missing TRANSACTIONS_FILTER" [])
  | Some txFilter =>
      data ← deref (rb_Data b);
      parse_loop txFilter 0 data block
  end.
End Parse.

(** ** Fabric *)

Definition fabric_statusForTx `{ValidationCodes} (txFilter : bytes) (txNum : nat) : Status * Z * text :=
  match txFilter !! txNum with
  | None => (StatusUnknown, 0, Lit "missing tx filter entry")
  | Some b => StatusFromValidationCode (Z.of_N (Byte.to_N b))
  end.

Definition unpb_read (r : PbKVRead) : KVRead :=
  MkKVRead (pbr_Key r) ((λ v, MkVersion (pbv_BlockNum v) (pbv_TxNum v)) <$> pbr_Version r).

Definition unpb_write (w : PbKVWrite) : KVWrite := MkKVWrite (pbw_Key w) (pbw_IsDelete w) (pbw_Value w).

Section FabricParser.
Context `{Protos} `{HeaderTypes}.

(** The loop over the namespaces: one without a name is left out. *)
Fixpoint parse_namespaces (nss : list PbNsReadWriteSet) : result (list NsReadWriteSet) :=
  match nss with
  | [] => Ret []
  | ns :: nss' =>
      if (String.length (pbn_Namespace ns) =? 0)%nat then parse_namespaces nss'
      else
        kvs ← wrapf "kvrwset: %w" [] (Unmarshal (M := KVRWSet) (pbn_Rwset ns));
        rest ← parse_namespaces nss';
        Ret (MkNsRWS (pbn_Namespace ns)
               (MkRWS (unpb_read <$> kvs_Reads kvs) (unpb_write <$> kvs_Writes kvs)) :: rest)
  end.

(** The chaincode event of an action, if it has one. *)
Definition parse_event (events : bytes) : result (bytes * string) :=
  if (0 <? length events)%nat then
    evt ← wrapf "chaincode event: %w" [] (Unmarshal (M := ChaincodeEvent) events);
    Ret (evt_Payload evt, evt_EventName evt)
  else Ret ([], "").

(** The steps of [ParseTx] from the transaction's only action.  A missing
    [Action] is dereferenced without a check. *)
Definition parse_action (txID : string) (actionPayload : bytes) : outcome Transaction :=
  cap ← lift (wrapf "chaincode action payload: %w" [] (Unmarshal (M := ChaincodeActionPayload) actionPayload));
  cpp ← lift (wrapf "chaincode proposal payload: %w" []
                (Unmarshal (M := ChaincodeProposalPayload) (cap_ChaincodeProposalPayload cap)));
  cis ← lift (wrapf "chaincode invocation spec: %w" []
                (Unmarshal (M := ChaincodeInvocationSpec) (cpp_Input cpp)));
  let inputArgs := default [] (cis_ChaincodeSpec cis ≫= ccs_Input) in
  action ← deref (cap_Action cap);
  prp ← lift (wrapf "proposal response payload: %w" []
                (Unmarshal (M := ProposalResponsePayload) (cea_ProposalResponsePayload action)));
  ccAct ← lift (wrapf "chaincode action: %w" [] (Unmarshal (M := ChaincodeAction) (prp_Extension prp)));
  event ← lift (parse_event (act_Events ccAct));
  let payload := default [] (resp_Payload <$> act_Response ccAct) in
  txRWSet ← lift (wrapf "rwset: %w" [] (Unmarshal (M := TxReadWriteSet) (act_Results ccAct)));
  nsrws ← lift (parse_namespaces (txrws_NsRwset txRWSet));
  Ok {| tx_ID := txID; tx_Number := 0; tx_InputArgs := inputArgs; tx_Status := StatusUnknown; tx_RawCode := 0;
        tx_Reason := Lit ""; tx_Event := event.1; tx_EventName := event.2; tx_Payload := payload;
        tx_NsRWS := nsrws |}.

Definition fabric_ParseTx (env : Envelope) : outcome (option Transaction) :=
  pl ← lift (wrapf "payload: %w" [] (Unmarshal (M := Payload) (env_Payload env)));
  match pl_Header pl with
  | None => Err (Errorf "payload has no header" [])
  | Some hdr =>
      chdr ← lift (wrapf "channel header: %w" [] (Unmarshal (M := ChannelHeader) (hdr_ChannelHeader hdr)));
      if negb (chdr_Type chdr =? HeaderType_ENDORSER_TRANSACTION) then Ok None
      else
        ptx ← lift (wrapf "transaction: %w" [] (Unmarshal (M := PeerTransaction) (pl_Data pl)));
        match ptx_Actions ptx with
        | [action] => Some <$> parse_action (chdr_TxId chdr) (ta_Payload action)
        | actions => Err (Errorf "only one action per transaction is supported, tx contains %d"
                            [AInt (Z.of_nat (length actions))])
        end
  end.

Definition fabric_Parse `{ValidationCodes} (BlockHeaderHash : BlockHeader → bytes) (now : Z)
    (b : RawBlock) : outcome Block :=
  Parse BlockHeaderHash now fabric_statusForTx fabric_ParseTx b.

(** ** Fabric-X *)

Definition fabricx_statusForTx `{CommitterCodes} (txFilter : bytes) (txNum : nat) : Status * Z * text :=
  match txFilter !! txNum with
  | None => (StatusUnknown, 0, Lit "missing tx filter entry")
  | Some b => StatusFromCommitterStatus (Z.of_N (Byte.to_N b))
  end.

Definition fabricx_ParseTx (env : Envelope) : outcome (option Transaction) :=
  pl ← lift (wrapf "payload: %w" [] (Unmarshal (M := Payload) (env_Payload env)));
  match pl_Header pl with
  | None => Err (Errorf "payload has no header" [])
  | Some hdr =>
      chdr ← lift (wrapf "channel header: %w" [] (Unmarshal (M := ChannelHeader) (hdr_ChannelHeader hdr)));
      if negb (chdr_Type chdr =? HeaderType_MESSAGE) then Ok None
      else
        ptx ← lift (wrapf "transaction: %w" [] (Unmarshal (M := AppTx) (pl_Data pl)));
        let md := DecodeMetadata (apptx_Metadata ptx) in
        Ok (Some {| tx_ID := chdr_TxId chdr; tx_Number := 0; tx_InputArgs := md_InputArgs md;
                    tx_Status := StatusUnknown; tx_RawCode := 0; tx_Reason := Lit "";
                    tx_Event := md_Event md; tx_EventName := md_EventName md; tx_Payload := md_Payload md;
                    tx_NsRWS := DecodeNamespaces (apptx_Namespaces ptx) |})
  end.

Definition fabricx_Parse `{CommitterCodes} (BlockHeaderHash : BlockHeader → bytes) (now : Z)
    (b : RawBlock) : outcome Block :=
  Parse BlockHeaderHash now fabricx_statusForTx fabricx_ParseTx b.
End FabricParser.

(** ** What a parsed block holds *)

(** A raw block whose three parts are present, with its transaction filter. *)
Definition raw_parts `{HeaderTypes} (b : RawBlock) (header : BlockHeader) (txFilter : bytes) (data : list bytes) : Prop :=
  rb_Header b = Some header ∧ rb_Data b = Some data ∧
  ∃ metadata, rb_Metadata b = Some metadata ∧ metadata !! BlockMetadataIndex_TRANSACTIONS_FILTER = Some txFilter.

(** The envelope at a position decodes and [ParseTx] finds a transaction in it. *)
Definition tx_at `{Protos} `{HeaderTypes} (ParseTx : Envelope → outcome (option Transaction))
    (data : list bytes) (n : nat) (tx : Transaction) : Prop :=
  ∃ envBytes env, data !! n = Some envBytes ∧ Unmarshal envBytes = Ret env ∧ ParseTx env = Ok (Some tx).

Section ParseSpec.
Context `{Protos} `{HeaderTypes}.
Context (BlockHeaderHash : BlockHeader → bytes) (now : Z).
Context (statusForTx : bytes → nat → Status * Z * text).
Context (ParseTx : Envelope → outcome (option Transaction)).

(** An envelope with a transaction in it is not a configuration. *)
Context (ParseTx_header : ∀ env tx, ParseTx env = Ok (Some tx) → ∃ pl hdr chdr,
  Unmarshal (env_Payload env) = Ret pl ∧ pl_Header pl = Some hdr ∧
  Unmarshal (hdr_ChannelHeader hdr) = Ret chdr ∧ chdr_Type chdr ≠ HeaderType_CONFIG).

Definition with_status (txFilter : bytes) (n : nat) (tx : Transaction) : Transaction :=
  let '(status, rawCode, reason) := statusForTx txFilter n in
  SetNumber (SetStatus tx status rawCode reason) (Z.of_nat n).

Lemma parse_envelope_parsed txFilter number n envBytes tx :
  parse_envelope statusForTx ParseTx txFilter number n envBytes = Ok (Parsed tx) ↔
  ∃ env tx0, Unmarshal envBytes = Ret env ∧ ParseTx env = Ok (Some tx0) ∧ tx = with_status txFilter n tx0.
Proof.
  unfold parse_envelope, with_status. destruct (statusForTx txFilter n) as [[status code] reason].
  destruct (Unmarshal envBytes) as [env|e] eqn:Eenv; [|naive_solver]. split.
  - intros Hp. exists env. repeat (case_match; simplify_eq/=; eauto 10).
  - intros (env' & tx0 & [= <-] & Htx & ->). destruct (ParseTx_header _ _ Htx) as (pl & hdr & chdr & -> & -> & -> & Ht).
    apply Z.eqb_neq in Ht. by rewrite Ht, Htx.
Qed.

Lemma parse_loop_spec txFilter n data block block' :
  parse_loop statusForTx ParseTx txFilter n data block = Ok block' →
  blk_Number block' = blk_Number block ∧ blk_Hash block' = blk_Hash block ∧
  blk_ParentHash block' = blk_ParentHash block ∧
  ∃ txs, blk_Transactions block' = blk_Transactions block ++ txs ∧
    StronglySorted Z.lt (tx_Number <$> txs) ∧ Forall (λ tx, Z.of_nat n ≤ tx_Number tx) txs ∧
    ∀ tx, tx ∈ txs ↔ ∃ i tx0, tx_at ParseTx data i tx0 ∧ tx = with_status txFilter (n + i) tx0.
Proof.
  revert n block. induction data as [|envBytes data IH]; intros n block; simpl.
  { intros [= <-]. split_and!; [done..|]. exists []. rewrite app_nil_r. split_and!; [done|constructor|constructor|].
    intros tx. split; [by intros ?%elem_of_nil|]. by intros (i & tx0 & (? & ? & ? & _) & _). }
  rewrite outcome_bind_ok. intros (p & Hp & (Hnum & Hhash & Hpar & txs & Htxs & Hs & Hge & Hin)%IH).
  assert (blk_Number (add_parsed block p) = blk_Number block ∧ blk_Hash (add_parsed block p) = blk_Hash block ∧
          blk_ParentHash (add_parsed block p) = blk_ParentHash block) as (Hn & Hh & Hpa) by (by destruct p).
  split_and!; [congruence..|].
  assert (∀ tx, (∃ i tx0, tx_at ParseTx (envBytes :: data) i tx0 ∧ tx = with_status txFilter (n + i) tx0) ↔
    p = Parsed tx ∨ tx ∈ txs) as Hiff.
  { intros tx. rewrite Hin. split.
    - intros ([|i] & tx0 & (eb & env & Hd & Hu & Ht) & ->); simplify_eq/=.
      + left. rewrite Nat.add_0_r.
        assert (parse_envelope statusForTx ParseTx txFilter (blk_Number block) n eb =
                Ok (Parsed (with_status txFilter n tx0))) as Hp' by (apply parse_envelope_parsed; eauto).
        congruence.
      + right. exists i, tx0. split; [by exists eb, env|]. f_equal. lia.
    - intros [->|(i & tx0 & (eb & env & Hd & Hu & Ht) & ->)].
      + apply parse_envelope_parsed in Hp as (env & tx0 & Hu & Ht & ->).
        exists 0%nat, tx0. rewrite Nat.add_0_r. split; [by exists envBytes, env|done].
      + exists (S i), tx0. split; [by exists eb, env|]. f_equal. lia. }
  setoid_rewrite Hiff. clear Hiff Hin.
  assert (Forall (λ tx, Z.of_nat n ≤ tx_Number tx) txs) as Hge' by (eapply Forall_impl; [done|]; simpl; lia).
  destruct p as [|c|tx]; simpl in Htxs.
  - exists txs. split_and!; [done..|]. naive_solver.
  - exists txs. split_and!; [done..|]. naive_solver.
  - exists (tx :: txs). rewrite <- app_assoc in Htxs.
    apply parse_envelope_parsed in Hp as (env & tx0 & _ & _ & ->).
    assert (tx_Number (with_status txFilter n tx0) = Z.of_nat n) as Hnn
      by (unfold with_status; by destruct (statusForTx txFilter n) as [[]]).
    split_and!; [done| | |].
    + rewrite fmap_cons, Hnn. constructor; [done|]. apply Forall_fmap. eapply Forall_impl; [exact Hge|].
      unfold compose. simpl. lia.
    + constructor; [lia|done].
    + intros tx. rewrite elem_of_cons. naive_solver.
Qed.

Lemma Parse_spec b block :
  Parse BlockHeaderHash now statusForTx ParseTx b = Ok block →
  ∃ header txFilter data, raw_parts b header txFilter data ∧
    blk_Number block = bh_Number header ∧ blk_Hash block = BlockHeaderHash header ∧
    blk_ParentHash block = bh_PreviousHash header ∧
    StronglySorted Z.lt (tx_Number <$> blk_Transactions block) ∧
    ∀ tx, tx ∈ blk_Transactions block ↔
      ∃ i tx0, tx_at ParseTx data i tx0 ∧ tx = with_status txFilter i tx0.
Proof.
  unfold Parse. rewrite outcome_bind_ok. intros (header & Hh & Hp). apply outcome_bind_ok in Hp as (md & Hm & Hp).
  destruct (md !! _) as [txFilter|] eqn:Hf; [|done]. apply outcome_bind_ok in Hp as (data & Hd & Hp).
  apply parse_loop_spec in Hp as (Hnum & Hhash & Hpar & txs & Htxs & Hs & _ & Hin). simpl in *.
  exists header, txFilter, data.
  destruct (rb_Header b) eqn:Eh, (rb_Metadata b) eqn:Em, (rb_Data b) eqn:Ed; simplify_eq/=.
  split_and!; [|done..]. split_and!; [done..|]. by eexists.
Qed.

Lemma parse_loop_no_panic txFilter n data block :
  (∀ env, ParseTx env ≠ Panic) → parse_loop statusForTx ParseTx txFilter n data block ≠ Panic.
Proof.
  intros Hno. revert n block. induction data as [|envBytes data IH]; intros n block; simpl; [done|].
  destruct (parse_envelope _ _ _ _ _ _) as [p|e|] eqn:E; simpl; [apply IH|done|].
  unfold parse_envelope in E. repeat (case_match; simplify_eq/=); by edestruct Hno.
Qed.
End ParseSpec.

Section Ledgers.
Context `{Protos} `{HL : HeaderTypesLaws}.

Lemma header_types_distinct :
  HeaderType_MESSAGE ≠ HeaderType_CONFIG ∧ HeaderType_ENDORSER_TRANSACTION ≠ HeaderType_CONFIG.
Proof.
  pose proof HeaderType_NoDup as HN. rewrite !NoDup_cons, !not_elem_of_cons in HN. destruct_and!. by split.
Qed.

Lemma fabric_ParseTx_header env tx : fabric_ParseTx env = Ok (Some tx) → ∃ pl hdr chdr,
  Unmarshal (env_Payload env) = Ret pl ∧ pl_Header pl = Some hdr ∧
  Unmarshal (hdr_ChannelHeader hdr) = Ret chdr ∧ chdr_Type chdr ≠ HeaderType_CONFIG.
Proof.
  unfold fabric_ParseTx. intros (pl & ->%wrapf_ret & Hp)%lift_bind_ok.
  destruct (pl_Header pl) as [hdr|] eqn:Eh; [|done]. apply lift_bind_ok in Hp as (chdr & Hc%wrapf_ret & Hp).
  exists pl, hdr, chdr. split_and!; [done..|]. destruct (chdr_Type chdr =? _) eqn:E; [|done].
  apply Z.eqb_eq in E as ->. apply header_types_distinct.
Qed.

Lemma fabricx_ParseTx_header env tx : fabricx_ParseTx env = Ok (Some tx) → ∃ pl hdr chdr,
  Unmarshal (env_Payload env) = Ret pl ∧ pl_Header pl = Some hdr ∧
  Unmarshal (hdr_ChannelHeader hdr) = Ret chdr ∧ chdr_Type chdr ≠ HeaderType_CONFIG.
Proof.
  unfold fabricx_ParseTx. intros (pl & ->%wrapf_ret & Hp)%lift_bind_ok.
  destruct (pl_Header pl) as [hdr|] eqn:Eh; [|done]. apply lift_bind_ok in Hp as (chdr & Hc%wrapf_ret & Hp).
  exists pl, hdr, chdr. split_and!; [done..|]. destruct (chdr_Type chdr =? _) eqn:E; [|done].
  apply Z.eqb_eq in E as ->. apply header_types_distinct.
Qed.

Lemma fabricx_ParseTx_no_panic env : fabricx_ParseTx env ≠ Panic.
Proof.
  unfold fabricx_ParseTx. intros (pl & _ & Hp)%lift_bind_panic. destruct (pl_Header pl); [|done].
  apply lift_bind_panic in Hp as (chdr & _ & Hp). destruct (negb _); [done|].
  by apply lift_bind_panic in Hp as (ptx & _ & ?).
Qed.

(** C32: a parsed Fabric block holds exactly the transactions of the raw block: one for
    each envelope that [ParseTx] decodes, with the index of its envelope as
    number (so numbers increase), with the status of its filter byte, and
    committed exactly when that byte exists and is [VALID]. *)
Theorem fabric_Parse_exact `{ValidationCodesLaws} hash now b block :
  fabric_Parse hash now b = Ok block →
  ∃ header txFilter data, raw_parts b header txFilter data ∧ blk_Number block = bh_Number header ∧
    StronglySorted Z.lt (tx_Number <$> blk_Transactions block) ∧
    (∀ tx, tx ∈ blk_Transactions block ↔ ∃ i tx0, tx_at fabric_ParseTx data i tx0 ∧
       tx = with_status fabric_statusForTx txFilter i tx0) ∧
    ∀ tx, tx ∈ blk_Transactions block → Transaction_Valid tx = true ↔
      ∃ byte, txFilter !! Z.to_nat (tx_Number tx) = Some byte ∧ Z.of_N (Byte.to_N byte) = VALID.
Proof.
  intros (header & txFilter & data & Hraw & Hn & _ & _ & Hs & Hin)%(Parse_spec _ _ _ _ fabric_ParseTx_header).
  exists header, txFilter, data. split_and!; [done..|].
  intros tx (i & tx0 & _ & ->)%Hin. unfold with_status, fabric_statusForTx.
  destruct (txFilter !! i) as [byte|] eqn:E.
  - destruct (StatusFromValidationCode _) as [[status code] reason] eqn:Es. simpl.
    rewrite Nat2Z.id, E. change (Transaction_Valid _) with (Status_Valid status).
    rewrite Status_Valid_committed. pose proof (validation_committed (Z.of_N (Byte.to_N byte))) as Hc.
    rewrite Es in Hc. unfold status_of in Hc. simpl in Hc. rewrite Hc. naive_solver.
  - simpl. rewrite Nat2Z.id, E. naive_solver.
Qed.

(** The same for Fabric-X, where the parser in addition never panics on a block
    whose header, data and metadata are present. *)
Theorem fabricx_Parse_exact `{CommitterCodesLaws} hash now b header txFilter data :
  raw_parts b header txFilter data →
  fabricx_Parse hash now b ≠ Panic ∧
  ∀ block, fabricx_Parse hash now b = Ok block →
    blk_Number block = bh_Number header ∧
    StronglySorted Z.lt (tx_Number <$> blk_Transactions block) ∧
    (∀ tx, tx ∈ blk_Transactions block ↔ ∃ i tx0, tx_at fabricx_ParseTx data i tx0 ∧
       tx = with_status fabricx_statusForTx txFilter i tx0) ∧
    ∀ tx, tx ∈ blk_Transactions block → Transaction_Valid tx = true ↔
      ∃ byte, txFilter !! Z.to_nat (tx_Number tx) = Some byte ∧ Z.of_N (Byte.to_N byte) = COMMITTED.
Proof.
  intros (Hh & Hd & md & Hm & Hf). split.
  { unfold fabricx_Parse, Parse. rewrite Hh, Hm, Hd. simpl. rewrite Hf. simpl.
    apply parse_loop_no_panic, fabricx_ParseTx_no_panic. }
  intros block (header' & txFilter' & data' & (Hh' & Hd' & md' & Hm' & Hf') & Hn & _ & _ & Hs & Hin)%(
    Parse_spec _ _ _ _ fabricx_ParseTx_header).
  rewrite Hh in Hh'. rewrite Hd in Hd'. rewrite Hm in Hm'. simplify_eq.
  split_and!; [done..|].
  intros tx (i & tx0 & _ & ->)%Hin. unfold with_status, fabricx_statusForTx.
  destruct (txFilter !! i) as [byte|] eqn:E.
  - destruct (StatusFromCommitterStatus _) as [[status code] reason] eqn:Es. simpl.
    rewrite Nat2Z.id, E. change (Transaction_Valid _) with (Status_Valid status).
    rewrite Status_Valid_committed. pose proof (committer_committed (Z.of_N (Byte.to_N byte))) as Hc.
    rewrite Es in Hc. unfold status_of in Hc. simpl in Hc. rewrite Hc. naive_solver.
  - simpl. rewrite Nat2Z.id, E. naive_solver.
Qed.
End Ledgers.
