(* ===== verification/Packager.v ===== *)
(** * Packaging and submitting transactions

    Invocations and proposals (endorsement/fabric/invocation.go,
    endorsement/fabricx/invocation.go, network/fabric/peer.go), and the Fabric-X
    envelope assembled from the endorsements (network/fabricx/packager.go),
    with the round trip from an execution to the transaction a parser reads. *)

From S2P Require Import Prelude Blocks Status Simulation Proto Endorse Parser.

(** [sdk.Endorsement]. *)
Record Endorsement := MkEndorsement {
  e_Proposal : option Proposal;
  e_Responses : list ProposalResponse }.

Definition nonceSize : Z := 24.

(** ** CreateTx *)

Section CreateTx.
Context `{Protos} `{HeaderTypes}.

(** The first loop: every response is a success, and all carry the payload of
    the first. *)
Fixpoint check_responses (a1 : option bytes) (resps : list ProposalResponse) : outcome bytes :=
  match resps with
  | [] => Ok (default [] a1)
  | r :: resps' =>
      response ← deref (pr_Response r);
      if (resp_Status response <? 200) || (400 <=? resp_Status response) then
        Err (Errorf "proposal response was not successful, error code %d, msg %s"
               [AInt (resp_Status response); AStr (resp_Message response)])
      else
        match a1 with
        | None => check_responses (Some (pr_Payload r)) resps'
        | Some a =>
            if bool_decide (a = pr_Payload r) then check_responses a1 resps'
            else Err (Errorf "ProposalResponsePayloads do not match (base64): '%s' vs '%s'"
                        [ABytes (pr_Payload r); ABytes a])
        end
  end.

(** The second loop: the endorsements by distinct endorsers, the first of each
    kept. *)
Fixpoint unique_endorsements (used : gset string) (resps : list ProposalResponse) : list PeerEndorsement :=
  match resps with
  | [] => []
  | r :: resps' =>
      match pr_Endorsement r with
      | None => unique_endorsements used resps'
      | Some e =>
          let key := string_of_bytes (end_Endorser e) in
          if bool_decide (key ∈ used) then unique_endorsements used resps'
          else e :: unique_endorsements ({[key]} ∪ used) resps'
      end
  end.

(** The third loop: each signature with the identity of its endorser. *)
Fixpoint with_identities (ends : list PeerEndorsement) : result (list EndorsementWithIdentity) :=
  match ends with
  | [] => Ret []
  | e :: ends' =>
      identity ← wrapf "failed to unmarshal endorser identity: %w" [] (Unmarshal (M := Identity) (end_Endorser e));
      rest ← with_identities ends';
      Ret (MkEndorsementWithIdentity (end_Signature e) identity :: rest)
  end.

(** The signature header: empty without a signer. *)
Definition signature_header (signer : option Signer) (rand : result bytes) : result SignatureHeader :=
  match signer with
  | None => Ret (MkSignatureHeader [] [])
  | Some s =>
      creator ← wrapf "serialize signer: %w" [] (Serialize s);
      nonce ← wrapf "read nonce: %w" [] rand;
      Ret (MkSignatureHeader creator nonce)
  end.

(** The channel header, turned into a [MESSAGE] header if it is not one. *)
Definition message_header (hdr : Header) : result bytes :=
  chdr ← Unmarshal (M := ChannelHeader) (hdr_ChannelHeader hdr);
  if negb (chdr_Type chdr =? HeaderType_MESSAGE) then
    wrapf "marshal channel header: %w" []
      (Marshal (MkChannelHeader HeaderType_MESSAGE (chdr_Version chdr) (chdr_Timestamp chdr)
         (chdr_ChannelId chdr) (chdr_TxId chdr) (chdr_Epoch chdr) [] (chdr_TlsCertHash chdr)))
  else Ret (hdr_ChannelHeader hdr).

(** [rand] is the result of reading the nonce.  The unmarshal wrappers of
    protoutil add a message to the error, which is left out. *)
Definition CreateTx (rand : result bytes) (proposal : option Proposal) (signer : option Signer)
    (resps : list ProposalResponse) : outcome Envelope :=
  if (length resps =? 0)%nat then Err (Errorf "at least one proposal response is required" [])
  else
    a1 ← check_responses None resps;
    let endorsements := unique_endorsements ∅ resps in
    if (length endorsements =? 0)%nat then Err (Errorf "no endorsements" [])
    else
      tx ← lift (wrapf "expected applicationpb.Tx endorsement payload, %s" [] (Unmarshal (M := AppTx) a1));
      nsEndorsements ← lift (with_identities endorsements);
      let tx' := MkAppTx (apptx_Namespaces tx)
                   (replicate (length (apptx_Namespaces tx)) (MkEndorsements nsEndorsements))
                   (apptx_Metadata tx) in
      txBytes ← (match Marshal tx' with
                 | Ret b => Ok b
                 | Fail _ => Err (Errorf "can't marshal transaction payload" [])
                 end);
      shdr ← lift (signature_header signer rand);
      shdrBytes ← lift (wrapf "marshal signature header: %w" [] (Marshal shdr));
      prop ← deref proposal;
      hdr ← lift (Unmarshal (M := Header) (prop_Header prop));
      chdrBytes ← lift (message_header hdr);
      paylBytes ← lift (Marshal (MkPayload (Some (MkHeader chdrBytes shdrBytes)) txBytes));
      match signer with
      | None => Ok (MkEnvelope paylBytes [])
      | Some s =>
          sig ← lift (wrapf "sign envelope payload: %w" [] (Sign s paylBytes));
          Ok (MkEnvelope paylBytes sig)
      end.

Definition PackageTx (rand : result bytes) (signer : option Signer) (end_ : Endorsement) : outcome Envelope :=
  CreateTx rand (e_Proposal end_) signer (e_Responses end_).
End CreateTx.

(** ** Invocations and proposals *)

(** The functions of protoutil that compute identifiers and hashes and that
    assemble and sign a chaincode proposal. *)
Class Protoutil := {
  ComputeTxID : bytes → bytes → string;
  GetProposalHash1 : Header → bytes → result bytes;
  CreateChaincodeProposalWithTxIDNonceAndTransient :
    string → Z → string → ChaincodeInvocationSpec → bytes → bytes → result Proposal;
  GetSignedProposal : Proposal → Signer → result SignedProposal }.

(** A chaincode proposal carries its arguments in a channel header with the
    current time, a signature header and a payload; the signed proposal
    carries the proposal. *)
Class ProtoutilLaws `{Protos} `{Protoutil} := {
  proposal_carries txID typ channel cis nonce creator p :
    CreateChaincodeProposalWithTxIDNonceAndTransient txID typ channel cis nonce creator = Ret p →
    ∃ hdr chdr ts cpp, Unmarshal (prop_Header p) = Ret hdr ∧
      Unmarshal (hdr_ChannelHeader hdr) = Ret chdr ∧ chdr_Type chdr = typ ∧ chdr_ChannelId chdr = channel ∧
      chdr_TxId chdr = txID ∧ chdr_Epoch chdr = 0 ∧ chdr_Timestamp chdr = Some ts ∧
      Unmarshal (hdr_SignatureHeader hdr) = Ret (MkSignatureHeader creator nonce) ∧
      Unmarshal (prop_Payload p) = Ret cpp ∧ Unmarshal (cpp_Input cpp) = Ret cis;
  signed_carries p s sp : GetSignedProposal p s = Ret sp → Unmarshal (sp_ProposalBytes sp) = Ret p }.

Section Invocation.
Context `{Protos} `{HeaderTypes} `{Protoutil}.

Definition invocation_spec (ccid : ChaincodeID) (args : list bytes) : ChaincodeInvocationSpec :=
  MkCIS (Some (MkChaincodeSpec (Some ccid) (Some args))).

(** endorsement/fabric: a full chaincode proposal. *)
Definition fabric_NewInvocation (rand : result bytes) (signer : option Signer)
    (channel namespace chaincodeVersion : string) (args : list bytes) : result Invocation :=
  match signer with
  | None => Fail (Errorf "nil signer" [])
  | Some s =>
      creator ← Serialize s;
      nonce ← wrapf "read nonce: %w" [] rand;
      let txID := ComputeTxID nonce creator in
      let ccid := MkChaincodeID namespace chaincodeVersion in
      proposal ← CreateChaincodeProposalWithTxIDNonceAndTransient txID HeaderType_ENDORSER_TRANSACTION channel
                   (invocation_spec ccid args) nonce creator;
      hdr ← Unmarshal (M := Header) (prop_Header proposal);
      propHash ← GetProposalHash1 hdr (prop_Payload proposal);
      Ret (MkInvocation txID nonce creator args (ccid_Name ccid) (ccid_Version ccid) 0 channel
             (Some proposal) propHash)
  end.

(** endorsement/fabricx: only the header. *)
Definition fabricx_NewInvocation (now : Timestamp) (rand : result bytes) (signer : option Signer)
    (channel namespace chaincodeVersion : string) (nsVersion : Z) (args : list bytes) : result Invocation :=
  match signer with
  | None => Fail (Errorf "nil signer" [])
  | Some s =>
      creator ← Serialize s;
      nonce ← wrapf "read nonce: %w" [] rand;
      let txID := ComputeTxID nonce creator in
      chdr ← wrapf "marshal channel header: %w" []
               (Marshal (MkChannelHeader HeaderType_MESSAGE 0 (Some now) channel txID 0 [] []));
      shdr ← wrapf "marshal signature header: %w" [] (Marshal (MkSignatureHeader creator nonce));
      hdr ← wrapf "marshal header: %w" [] (Marshal (MkHeader chdr shdr));
      Ret (MkInvocation txID nonce creator args namespace chaincodeVersion nsVersion channel
             (Some (MkProposal hdr [] [])) [])
  end.

(** network/fabric: [NewSignedProposal].  [mustNonce] panics when the random
    source fails. *)
Definition NewSignedProposal (rand : result bytes) (signer : Signer) (channel namespace : string)
    (args : list bytes) : outcome SignedProposal :=
  creator ← lift (Serialize signer);
  nonce ← (match rand with Ret n => Ok n | Fail _ => Panic end);
  proposal ← lift (CreateChaincodeProposalWithTxIDNonceAndTransient (ComputeTxID nonce creator)
    HeaderType_ENDORSER_TRANSACTION channel (invocation_spec (MkChaincodeID namespace "") args) nonce creator);
  lift (GetSignedProposal proposal signer).

(** Times are nanoseconds since the Unix epoch; five minutes. *)
Definition five_minutes : Z := 5 * 60 * 10 ^ 9.
Definition unix_nanos (t : Timestamp) : Z := ts_Seconds t * 10 ^ 9 + ts_Nanos t.

Definition outside_window (t : Timestamp) (expectedTime : option Z) : bool :=
  match expectedTime with
  | None => false
  | Some e => (unix_nanos t <? e - five_minutes) || (e + five_minutes <? unix_nanos t)
  end.

(** endorsement/fabric: [Parse] of a signed proposal.  A zero [expectedTime] is
    [None]; a decoded proposal and header are never nil. *)
Definition ParseProposal (signedProp : SignedProposal) (expectedTime : option Z) : result Invocation :=
  prop ← Unmarshal (M := Proposal) (sp_ProposalBytes signedProp);
  hdr ← Unmarshal (M := Header) (prop_Header prop);
  chdr ← Unmarshal (M := ChannelHeader) (hdr_ChannelHeader hdr);
  if negb (chdr_Type chdr =? HeaderType_ENDORSER_TRANSACTION) then
    Fail (Errorf "invalid header type %s" [AInt (chdr_Type chdr)])
  else if negb (chdr_Epoch chdr =? 0) then Fail (Errorf "epoch is non-zero" [])
  else match chdr_Timestamp chdr with
  | None => Fail (Errorf "proposal timestamp is required" [])
  | Some ts =>
      if outside_window ts expectedTime then
        Fail (Errorf "proposal timestamp %v outside valid window (expected: %v)"
                [AInt (unix_nanos ts); AInt (default 0 expectedTime)])
      else
        shdr ← Unmarshal (M := SignatureHeader) (hdr_SignatureHeader hdr);
        if (length (shdr_Nonce shdr) =? 0)%nat then Fail (Errorf "nonce is empty" [])
        else if (length (shdr_Creator shdr) =? 0)%nat then Fail (Errorf "creator is empty" [])
        else
          let expected := ComputeTxID (shdr_Nonce shdr) (shdr_Creator shdr) in
          if bool_decide (chdr_TxId chdr ≠ expected) then
            Fail (Errorf "txid mismatch [%s != expected %s]" [AStr (chdr_TxId chdr); AStr expected])
          else
            cpp ← Unmarshal (M := ChaincodeProposalPayload) (prop_Payload prop);
            cis ← Unmarshal (M := ChaincodeInvocationSpec) (cpp_Input cpp);
            let invalid := Fail (Errorf "invalid spec %v for tx %s" [AStr (chdr_TxId chdr)]) in
            match cis_ChaincodeSpec cis with
            | None => invalid
            | Some spec =>
                match ccs_Input spec with
                | None | Some [] => invalid
                | Some args =>
                    propHash ← GetProposalHash1 hdr (prop_Payload prop);
                    let ccid := ccs_ChaincodeId spec in
                    Ret (MkInvocation (chdr_TxId chdr) (shdr_Nonce shdr) (shdr_Creator shdr) args
                           (default "" (ccid_Name <$> ccid)) (default "" (ccid_Version <$> ccid)) 0
                           (chdr_ChannelId chdr) (Some prop) propHash)
                end
            end
  end.
End Invocation.

(** ** Proposals round trip *)

Section Proposals.
Context `{Protos} `{HeaderTypes} `{PU : Protoutil} {PL : ProtoutilLaws}.

(** C33: an endorser that parses a signed proposal built from an invocation gets that
    invocation back, field by field, whoever signs it. *)
Theorem ParseProposal_roundtrip rand s channel namespace version args inv prop signer sp :
  fabric_NewInvocation rand (Some s) channel namespace version args = Ret inv →
  inv_Nonce inv ≠ [] → inv_Creator inv ≠ [] → args ≠ [] →
  inv_Proposal inv = Some prop → GetSignedProposal prop signer = Ret sp →
  ParseProposal sp None = Ret inv.
Proof.
  unfold fabric_NewInvocation. intros (creator & Hs & Hi)%result_bind_ret.
  apply result_bind_ret in Hi as (nonce & Hn%wrapf_ret & Hi).
  apply result_bind_ret in Hi as (p & Hp & Hi). apply result_bind_ret in Hi as (hdr & Hh & Hi).
  apply result_bind_ret in Hi as (hash & Hhash & [= <-]). simpl.
  intros Hne Hce Hae [= ->] Hsp%signed_carries.
  destruct (proposal_carries _ _ _ _ _ _ _ Hp) as (hdr' & chdr & ts & cpp & Hh' & Hc & Ht & Hch & Htx & He & Hts & Hsh & Hcpp & Hcis).
  assert (hdr' = hdr) as -> by congruence.
  unfold ParseProposal. rewrite Hsp. simpl. rewrite Hh. simpl. rewrite Hc. simpl.
  rewrite Ht, Z.eqb_refl, He, Hts, Hsh. simpl.
  destruct nonce as [|n0 nonce]; [done|]. destruct creator as [|c0 creator]; [done|]. simpl.
  rewrite bool_decide_false by (intros Hx; by apply Hx). rewrite Hcpp. simpl. rewrite Hcis. simpl.
  destruct args as [|a0 args]; [done|]. rewrite Hhash. simpl. by rewrite Htx, Hch.
Qed.

(** C34: a proposal an endorser accepts is an endorser transaction with epoch zero whose
    transaction id is computed from its nonce and creator, both present, that
    has at least one argument, and whose time is within five minutes of the
    expected time when one is given. *)
Theorem ParseProposal_sound sp expectedTime inv :
  ParseProposal sp expectedTime = Ret inv →
  inv_TxID inv = ComputeTxID (inv_Nonce inv) (inv_Creator inv) ∧
  inv_Nonce inv ≠ [] ∧ inv_Creator inv ≠ [] ∧ inv_Args inv ≠ [] ∧
  ∃ prop hdr chdr ts, inv_Proposal inv = Some prop ∧ Unmarshal (sp_ProposalBytes sp) = Ret prop ∧
    Unmarshal (prop_Header prop) = Ret hdr ∧ Unmarshal (hdr_ChannelHeader hdr) = Ret chdr ∧
    chdr_Type chdr = HeaderType_ENDORSER_TRANSACTION ∧ chdr_Epoch chdr = 0 ∧
    chdr_TxId chdr = inv_TxID inv ∧ chdr_Timestamp chdr = Some ts ∧
    ∀ e, expectedTime = Some e → e - five_minutes ≤ unix_nanos ts ≤ e + five_minutes.
Proof.
  unfold ParseProposal. intros (prop & Hp & Hi)%result_bind_ret.
  apply result_bind_ret in Hi as (hdr & Hh & Hi). apply result_bind_ret in Hi as (chdr & Hc & Hi).
  destruct (chdr_Type chdr =? _) eqn:Et; [|done]. destruct (chdr_Epoch chdr =? 0) eqn:Ee; [|done]. simpl in Hi.
  destruct (chdr_Timestamp chdr) as [ts|] eqn:Ets; [|done].
  destruct (outside_window ts expectedTime) eqn:Ew; [done|].
  apply result_bind_ret in Hi as (shdr & Hs & Hi).
  destruct (shdr_Nonce shdr) as [|n0 nonce] eqn:En; [done|].
  destruct (shdr_Creator shdr) as [|c0 creator] eqn:Ec; [done|]. simpl in Hi.
  case_bool_decide as Htx; [done|].
  apply result_bind_ret in Hi as (cpp & _ & Hi). apply result_bind_ret in Hi as (cis & _ & Hi).
  destruct (cis_ChaincodeSpec cis) as [spec|]; [|done]. destruct (ccs_Input spec) as [[|a0 args]|]; [done| |done].
  apply result_bind_ret in Hi as (hash & _ & [= <-]). simpl. bool_to_prop.
  split_and!; [done..|]. exists prop, hdr, chdr, ts. split_and!; [done..|].
  intros e ->. unfold outside_window in Ew. bool_to_prop. lia.
Qed.
End Proposals.

(** ** From an execution to a parsed transaction *)

Definition encodable {M} `{Codec M} (m : M) : Prop := ∃ b, Marshal m = Ret b.

Section RoundTrip.
Context `{PR : Protos} {PRL : ProtosLaws} `{HT : HeaderTypes} {HTL : HeaderTypesLaws} `{PU : Protoutil}.
Context (ASN1Marshal : TxNamespace → string → list bytes → result bytes).

(** The invocation and the result that all endorsers answer to; each has its own
    signer, its own order of map iteration, and its own order of accesses. *)
Definition same_result (res res' : ExecutionResult) : Prop :=
  same_rws (res_RWS res) (res_RWS res') ∧ res_Event res' = res_Event res ∧
  res_EventName res' = res_EventName res ∧ res_Payload res' = res_Payload res ∧
  200 ≤ res_Status res' < 400.

Definition endorsed_by (inv : Invocation) (res : ExecutionResult) (resp : ProposalResponse) : Prop :=
  ∃ order signer res', map_order order ∧ same_result res res' ∧
    fabricx_Endorse ASN1Marshal order signer inv res' = Ok resp.

Lemma fabricx_Endorse_ok order signer inv res resp :
  fabricx_Endorse ASN1Marshal order signer inv res = Ok resp →
  ∃ metadata e, EncodeMetadata (MkMetadata (res_Event res) (res_EventName res) (res_Payload res) (inv_Args inv)) = Ret metadata ∧
    Marshal (buildTx order (res_RWS res) (inv_Namespace inv) (inv_NsVersion inv) metadata) = Ret (pr_Payload resp) ∧
    pr_Response resp = Some (res_Response res) ∧ pr_Endorsement resp = Some e.
Proof.
  unfold fabricx_Endorse. intros (u & _ & Hr)%lift_bind_ok. apply lift_bind_ok in Hr as (md & Hmd & Hr).
  apply lift_bind_ok in Hr as (b & Hb%wrapf_ret & Hr). apply outcome_bind_ok in Hr as (ns & _ & Hr).
  apply lift_bind_ok in Hr as (d & _ & Hr). apply lift_bind_ok in Hr as (idb & _ & Hr).
  apply lift_bind_ok in Hr as (sig & _ & [= <-]). exists md. eexists. by split_and!.
Qed.

(** All endorsers of one execution return the same payload. *)
Lemma endorsed_payload inv res resp order metadata b :
  rws_unique (res_RWS res) → map_order order →
  EncodeMetadata (MkMetadata (res_Event res) (res_EventName res) (res_Payload res) (inv_Args inv)) = Ret metadata →
  Marshal (buildTx order (res_RWS res) (inv_Namespace inv) (inv_NsVersion inv) metadata) = Ret b →
  endorsed_by inv res resp →
  pr_Payload resp = b ∧ (∃ e, pr_Endorsement resp = Some e) ∧
  ∃ r, pr_Response resp = Some r ∧ 200 ≤ resp_Status r < 400.
Proof.
  intros Hu Ho Hmd Hb (order' & signer & res' & Ho' & (Hrws & He & Hn & Hp & Hst) & Hend).
  apply fabricx_Endorse_ok in Hend as (md' & e & Hmd' & Hb' & Hr & Hend).
  rewrite He, Hn, Hp, Hmd in Hmd'. injection Hmd' as <-.
  rewrite <- (buildTx_perm order order' _ _ _ _ _ Ho Ho' Hu Hrws), Hb in Hb'. injection Hb' as <-.
  split_and!; [done|by exists e|]. exists (res_Response res'). by split.
Qed.

Lemma check_responses_same b resps a :
  a = None ∨ a = Some b → (resps = [] → a = Some b) →
  (∀ r, r ∈ resps → pr_Payload r = b ∧ ∃ x, pr_Response r = Some x ∧ 200 ≤ resp_Status x < 400) →
  check_responses a resps = Ok b.
Proof.
  revert a. induction resps as [|r resps IH]; intros a Ha Hnil Hall; simpl; [by rewrite Hnil|].
  destruct (Hall r) as (Hp & x & Hx & Hst); [by left|]. rewrite Hx. simpl.
  rewrite (proj2 (Z.ltb_ge _ _)), (proj2 (Z.leb_gt _ _)) by lia. simpl.
  destruct Ha as [-> | ->]; [rewrite Hp|rewrite bool_decide_true by done];
    (apply IH; [by right|done|]; intros r' Hr'; apply Hall; by right).
Qed.

Lemma unique_endorsements_nonempty used r resps e :
  pr_Endorsement r = Some e → string_of_bytes (end_Endorser e) ∉ used →
  unique_endorsements used (r :: resps) ≠ [].
Proof. intros He Hu. simpl. by rewrite He, bool_decide_false. Qed.

Lemma unique_endorsements_sub used resps e :
  e ∈ unique_endorsements used resps → ∃ r, r ∈ resps ∧ pr_Endorsement r = Some e.
Proof.
  revert used. induction resps as [|r resps IH]; intros used; simpl; [by intros ?%elem_of_nil|].
  destruct (pr_Endorsement r) as [e'|] eqn:E; [case_bool_decide|]; rewrite ?elem_of_cons;
    [intros (x & ? & ?)%IH|intros [->|(x & ? & ?)%IH]|intros (x & ? & ?)%IH]; eauto using list_elem_of_here, list_elem_of_further.
Qed.

Lemma with_identities_total ends :
  (∀ e, e ∈ ends → ∃ i : Identity, Unmarshal (end_Endorser e) = Ret i) → ∃ l, with_identities ends = Ret l.
Proof.
  induction ends as [|e ends IH]; intros Hall; simpl; [eauto|].
  destruct (Hall e) as [i ->]; [by left|]. destruct IH as [l ->]; [intros e' He'; apply Hall; by right|]. simpl. eauto.
Qed.

Lemma EncodeMetadata_roundtrip m metadata : EncodeMetadata m = Ret metadata → DecodeMetadata metadata = m.
Proof.
  unfold EncodeMetadata, DecodeMetadata. destruct (Marshal _) as [b|] eqn:E; [|done]. intros [= <-].
  rewrite (Unmarshal_Marshal _ _ E). by destruct m.
Qed.

(** The header of a Fabric-X invocation. *)
Lemma fabricx_NewInvocation_header now rand s channel namespace version nsVersion args inv :
  fabricx_NewInvocation now rand (Some s) channel namespace version nsVersion args = Ret inv →
  inv_Namespace inv = namespace ∧ inv_Args inv = args ∧
  ∃ prop hdr chdr, inv_Proposal inv = Some prop ∧ Unmarshal (prop_Header prop) = Ret hdr ∧
    Unmarshal (hdr_ChannelHeader hdr) = Ret chdr ∧ chdr_Type chdr = HeaderType_MESSAGE ∧
    chdr_TxId chdr = inv_TxID inv.
Proof.
  unfold fabricx_NewInvocation. intros (creator & _ & Hi)%result_bind_ret.
  apply result_bind_ret in Hi as (nonce & _ & Hi). apply result_bind_ret in Hi as (cb & Hc%wrapf_ret & Hi).
  apply result_bind_ret in Hi as (sb & _ & Hi). apply result_bind_ret in Hi as (hb & Hh%wrapf_ret & [= <-]).
  split_and!; [done..|]. eexists _, _, _. split; [done|]. simpl.
  rewrite (Unmarshal_Marshal _ _ Hh). split; [done|]. simpl. by rewrite (Unmarshal_Marshal _ _ Hc).
Qed.

(** What [ParseTx] reads in a packaged envelope. *)
Lemma fabricx_ParseTx_packaged env pl hdr chdr tx metadata m :
  Unmarshal (env_Payload env) = Ret pl → pl_Header pl = Some hdr →
  Unmarshal (hdr_ChannelHeader hdr) = Ret chdr → chdr_Type chdr = HeaderType_MESSAGE →
  Unmarshal (pl_Data pl) = Ret tx → apptx_Metadata tx = metadata → DecodeMetadata metadata = m →
  fabricx_ParseTx env = Ok (Some {|
    tx_ID := chdr_TxId chdr; tx_Number := 0; tx_InputArgs := md_InputArgs m; tx_Status := StatusUnknown;
    tx_RawCode := 0; tx_Reason := Lit ""; tx_Event := md_Event m; tx_EventName := md_EventName m;
    tx_Payload := md_Payload m; tx_NsRWS := DecodeNamespaces (apptx_Namespaces tx) |}).
Proof.
  intros Hp Hh Hc Ht Hx <- <-. unfold fabricx_ParseTx. rewrite Hp. simpl. rewrite Hh, Hc. simpl.
  rewrite Ht, Z.eqb_refl, Hx. done.
Qed.

(** A signer that can sign, or none. *)
Definition can_sign (signer : option Signer) (rand : result bytes) : Prop :=
  signer = None ∨ ∃ s creator nonce, signer = Some s ∧ Serialize s = Ret creator ∧ rand = Ret nonce ∧
                    ∀ msg, ∃ sig, Sign s msg = Ret sig.

(** Every endorser identity decodes. *)
Definition identities_decode (resps : list ProposalResponse) : Prop :=
  ∀ r e, r ∈ resps → pr_Endorsement r = Some e → ∃ i : Identity, Unmarshal (end_Endorser e) = Ret i.

(** What the protobuf encoder documents of the messages that [CreateTx] writes.
    Encoding a message refuses only strings that are not UTF-8, and decoding
    refuses them too: so a transaction that encodes does so with endorsements
    added whose identities were decoded, and messages of byte fields alone,
    such as the signature header and the payload, always encode. *)
Record encoder_total : Prop := {
  et_endorse tx ends : encodable tx →
    Forall (λ es, Forall (λ e, ∃ b, Unmarshal b = Ret (ewi_Identity e)) (ends_EndorsementsWithIdentity es)) ends →
    encodable (MkAppTx (apptx_Namespaces tx) ends (apptx_Metadata tx));
  et_header (h : SignatureHeader) : encodable h;
  et_payload (p : Payload) : encodable p }.

Lemma with_identities_decoded ends ids : with_identities ends = Ret ids →
  Forall (λ e, ∃ b, Unmarshal b = Ret (ewi_Identity e)) ids.
Proof.
  revert ids. induction ends as [|e ends IH]; intros ids; simpl; [by intros [= <-]|].
  intros (i & Hi%wrapf_ret & Hr)%result_bind_ret. apply result_bind_ret in Hr as (rest & Hr & [= <-]).
  constructor; [by exists (end_Endorser e)|by apply IH].
Qed.

(** Responses that agree on the payload [b] of [tx], under a [MESSAGE] header,
    are packaged with the namespaces and the metadata of [tx]. *)
Lemma CreateTx_packages rand prop hdr chdr signer resps tx b :
  resps ≠ [] →
  (∀ r, r ∈ resps → pr_Payload r = b ∧ (∃ e, pr_Endorsement r = Some e) ∧
     ∃ x, pr_Response r = Some x ∧ 200 ≤ resp_Status x < 400) →
  identities_decode resps → Marshal tx = Ret b →
  Unmarshal (prop_Header prop) = Ret hdr → Unmarshal (hdr_ChannelHeader hdr) = Ret chdr →
  chdr_Type chdr = HeaderType_MESSAGE → can_sign signer rand → encoder_total →
  ∃ env pl shb ends, CreateTx rand (Some prop) signer resps = Ok env ∧ Unmarshal (env_Payload env) = Ret pl ∧
    pl_Header pl = Some (MkHeader (hdr_ChannelHeader hdr) shb) ∧
    Unmarshal (pl_Data pl) = Ret (MkAppTx (apptx_Namespaces tx) ends (apptx_Metadata tx)).
Proof.
  intros Hne Hresp Hids Htxe Hhdr Hchdr Htype Hsign [Hencx Hencs Hencp]. pose proof (Unmarshal_Marshal _ _ Htxe) as Hb.
  destruct (with_identities_total (unique_endorsements ∅ resps)) as [ids Hwith].
  { intros e (r & Hr & He)%unique_endorsements_sub. by apply (Hids r e). }
  assert (check_responses None resps = Ok b) as Hcheck.
  { apply check_responses_same; [by left|done|]. intros r (? & _ & ?)%Hresp. done. }
  assert ((length (unique_endorsements ∅ resps) =? 0)%nat = false) as Hlen.
  { apply Nat.eqb_neq. destruct resps as [|r resps]; [done|]. destruct (Hresp r) as (_ & [e He] & _); [by left|].
    intros Hz%length_zero_iff_nil. by apply (unique_endorsements_nonempty ∅ r resps e He) in Hz. }
  assert ((length resps =? 0)%nat = false) as Hlen' by (by apply Nat.eqb_neq; destruct resps).
  set (ends := replicate (length (apptx_Namespaces tx)) (MkEndorsements ids)).
  destruct (Hencx tx ends) as [txb Htxb].
  { by exists b. }
  { apply Forall_replicate, (with_identities_decoded _ _ Hwith). }
  assert (∃ shdr, signature_header signer rand = Ret shdr) as [shdr Hshdr].
  { destruct Hsign as [->|(s' & creator & nonce & -> & Hs' & -> & _)]; simpl; [eauto|]. rewrite Hs'. simpl. eauto. }
  destruct (Hencs shdr) as [shb Hshb]. set (pl := MkPayload (Some (MkHeader (hdr_ChannelHeader hdr) shb)) txb).
  destruct (Hencp pl) as [plb Hplb].
  assert (∃ sig, CreateTx rand (Some prop) signer resps = Ok (MkEnvelope plb sig)) as [sig Hcreate].
  { unfold CreateTx, message_header. rewrite Hlen', Hcheck. simpl. rewrite Hlen, Hb. simpl. rewrite Hwith. simpl.
    fold ends. rewrite Htxb. simpl. rewrite Hshdr. simpl. rewrite Hshb. simpl. rewrite Hhdr. simpl.
    rewrite Hchdr. simpl. rewrite Htype, Z.eqb_refl. simpl. fold pl. rewrite Hplb. simpl.
    destruct Hsign as [->|(s' & creator & nonce & -> & _ & _ & Hsig)]; [eauto|].
    destruct (Hsig plb) as [sig ->]. simpl. eauto. }
  exists (MkEnvelope plb sig), pl, shb, ends. split_and!; [done|by apply Unmarshal_Marshal|done|].
  by apply Unmarshal_Marshal.
Qed.

(** From execution to ledger on Fabric-X: when one or more endorsers answer the same
    invocation with the same result (each with its own signer, and its accesses
    in any order), the packager accepts the responses, and the transaction that
    a parser reads in the envelope has the id, the arguments, the event and the
    payload of the execution, and the accesses of the execution in its
    namespace. *)
Theorem fabricx_execution_roundtrip now rand rand' s signer channel namespace version nsVersion args inv
    order res metadata b resps :
  fabricx_NewInvocation now rand (Some s) channel namespace version nsVersion args = Ret inv →
  map_order order → rws_unique (res_RWS res) →
  EncodeMetadata (MkMetadata (res_Event res) (res_EventName res) (res_Payload res) args) = Ret metadata →
  Marshal (buildTx order (res_RWS res) namespace (inv_NsVersion inv) metadata) = Ret b →
  resps ≠ [] → Forall (endorsed_by inv res) resps →
  identities_decode resps → can_sign signer rand' → encoder_total →
  ∃ env tx rws', CreateTx rand' (inv_Proposal inv) signer resps = Ok env ∧
    fabricx_ParseTx env = Ok (Some tx) ∧
    tx_ID tx = inv_TxID inv ∧ tx_InputArgs tx = args ∧ tx_Event tx = res_Event res ∧
    tx_EventName tx = res_EventName res ∧ tx_Payload tx = res_Payload res ∧
    tx_NsRWS tx = [MkNsRWS namespace rws'] ∧
    rws_Reads rws' ≡ₚ neutral_read <$> rws_Reads (res_RWS res) ∧
    rws_Writes rws' ≡ₚ neutral_write <$> rws_Writes (res_RWS res).
Proof.
  intros Hinv Ho Hu Hmd Hb Hne Hall Hids Hsign Henc.
  apply fabricx_NewInvocation_header in Hinv as (Hns & Hargs & prop & hdr & chdr & Hprop & Hhdr & Hchdr & Htype & Htxid).
  rewrite Forall_forall in Hall. rewrite Hprop, <- Htxid.
  edestruct (CreateTx_packages rand' prop hdr chdr signer resps) as (env & pl & shb & ends & Hcreate & Hpl & Hph & Hdata);
    [exact Hne| |exact Hids|exact Hb|done..|].
  { intros r Hr. eapply endorsed_payload; [done|exact Ho|by rewrite Hargs|by rewrite Hns|by apply Hall]. }
  destruct (decode_buildTx order (res_RWS res) namespace (inv_NsVersion inv) metadata Ho (proj1 Hu))
    as (rws' & Hdec & Hr & Hw).
  eexists env, _, rws'. split; [done|]. split.
  { eapply fabricx_ParseTx_packaged; [done|done|exact Hchdr|done|exact Hdata|apply buildTx_metadata|by apply EncodeMetadata_roundtrip]. }
  by split_and!.
Qed.
End RoundTrip.

(** ** The same on Fabric *)

Section FabricRoundTrip.
Context `{PR : Protos} {PRL : ProtosLaws} `{HT : HeaderTypes}.

(** The envelope [protoutil.CreateSignedTx] assembles: an endorser transaction
    with one action, which holds the chaincode input and the payload that the
    endorsers signed. *)
Inductive carries (env : Envelope) (txID : string) (cap : ChaincodeActionPayload) : Prop :=
  | Carries pl hdr chdr action :
      Unmarshal (env_Payload env) = Ret pl → pl_Header pl = Some hdr →
      Unmarshal (hdr_ChannelHeader hdr) = Ret chdr → chdr_Type chdr = HeaderType_ENDORSER_TRANSACTION →
      chdr_TxId chdr = txID → Unmarshal (pl_Data pl) = Ret (MkPeerTransaction [action]) →
      Unmarshal (ta_Payload action) = Ret cap → carries env txID cap.

Definition carries_args (cap : ChaincodeActionPayload) (args : list bytes) : Prop :=
  ∃ cpp ccid, Unmarshal (cap_ChaincodeProposalPayload cap) = Ret cpp ∧
    Unmarshal (cpp_Input cpp) = Ret (MkCIS (Some (MkChaincodeSpec ccid (Some args)))).

(** [protoutil.GetBytesProposalResponsePayload] encodes its arguments as the
    chaincode action of a proposal response payload. *)
Definition encodes_response (f : bytes → Response → bytes → bytes → ChaincodeID → result bytes) : Prop :=
  ∀ hash r results event ccid b, f hash r results event ccid = Ret b →
    ∃ ext, Unmarshal b = Ret (MkPRP hash ext) ∧
           Unmarshal ext = Ret (MkChaincodeAction results event (Some r) (Some ccid)).

(** The encoding of a message with content is not empty. *)
Definition events_nonempty : Prop :=
  ∀ evt b, Marshal evt = Ret b → evt_EventName evt ≠ "" → b ≠ [].

Lemma unpb_pb_reads (reads : list KVRead) : unpb_read <$> (pb_read <$> reads) = reads.
Proof.
  etrans; [|apply list_fmap_id]. rewrite <- list_fmap_compose. apply list_fmap_ext. intros i [k [[b t]|]] _; done.
Qed.

Lemma unpb_pb_writes (writes : list KVWrite) : unpb_write <$> (pb_write <$> writes) = writes.
Proof.
  etrans; [|apply list_fmap_id]. rewrite <- list_fmap_compose. apply list_fmap_ext. intros i [k d v] _; done.
Qed.

Lemma MarshalOrPanic_ok {M} `{Codec M} (m : M) b : MarshalOrPanic m = Ok b ↔ Marshal m = Ret b.
Proof. unfold MarshalOrPanic. destruct (Marshal m); naive_solver. Qed.

Lemma marshalRWSet_roundtrip rws namespace b :
  marshalRWSet rws namespace = Ok b → namespace ≠ "" →
  ∃ txrws, Unmarshal b = Ret txrws ∧ parse_namespaces (txrws_NsRwset txrws) =
    Ret [MkNsRWS namespace (MkRWS (sort_by rd_Key (rws_Reads rws)) (sort_by wr_Key (rws_Writes rws)))].
Proof.
  unfold marshalRWSet. intros (b' & Hb'%MarshalOrPanic_ok & Hb%MarshalOrPanic_ok)%outcome_bind_ok Hns.
  eexists. split; [by apply Unmarshal_Marshal|]. simpl.
  destruct namespace as [|c namespace]; [done|]. simpl.
  rewrite (Unmarshal_Marshal _ _ Hb'). simpl. by rewrite unpb_pb_reads, unpb_pb_writes.
Qed.

Lemma fabric_parse_endorsed f signer inv res resp env cap ends args :
  encodes_response f → events_nonempty → inv_Namespace inv ≠ "" →
  fabric_Endorse f signer inv res = Ok resp →
  carries env (inv_TxID inv) cap → carries_args cap args → cap_Action cap = Some (MkCEA (pr_Payload resp) ends) →
  fabric_ParseTx env = Ok (Some {|
    tx_ID := inv_TxID inv; tx_Number := 0; tx_InputArgs := args; tx_Status := StatusUnknown; tx_RawCode := 0;
    tx_Reason := Lit ""; tx_Event := res_Event res; tx_EventName := res_EventName res;
    tx_Payload := res_Payload res;
    tx_NsRWS := [MkNsRWS (inv_Namespace inv)
      (MkRWS (sort_by rd_Key (rws_Reads (res_RWS res))) (sort_by wr_Key (rws_Writes (res_RWS res))))] |}).
Proof.
  intros Hf Hev Hns Hend [pl hdr chdr act Hpl Hph Hch Htype Htxid Hdata Hcap] (cpp & ccid & Hcpp & Hcis) Hact.
  unfold fabric_Endorse in Hend. apply lift_bind_ok in Hend as (u & Hval & Hend).
  apply outcome_bind_ok in Hend as (results & Hres & Hend). apply outcome_bind_ok in Hend as (event & Hevent & Hend).
  apply lift_bind_ok in Hend as (prp & Hprp%wrapf_ret & Hend). apply lift_bind_ok in Hend as (idb & _ & Hend).
  apply lift_bind_ok in Hend as (sig & _ & [= <-]). simpl in Hact.
  destruct (Hf _ _ _ _ _ _ Hprp) as (ext & Hprp' & Hext).
  destruct (marshalRWSet_roundtrip _ _ _ Hres Hns) as (txrws & Htxrws & Hnss).
  assert (parse_event event = Ret (res_Event res, res_EventName res)) as Hpe.
  { destruct (String.eqb_spec (res_EventName res) "") as [He|He].
    - injection Hevent as <-. unfold res_Validate in Hval. rewrite He in Hval |- *.
      by destruct (res_Event res).
    - destruct (Marshal _) as [eb|] eqn:Eb; simpl in Hevent; [injection Hevent as ->|done].
      unfold parse_event. pose proof (Hev _ _ Eb He) as Hne. destruct event as [|e0 event]; [done|]. simpl.
      by rewrite (Unmarshal_Marshal _ _ Eb). }
  unfold fabric_ParseTx. rewrite Hpl. simpl. rewrite Hph, Hch. simpl. rewrite Htype, Z.eqb_refl, Hdata. simpl.
  unfold parse_action. rewrite Hcap. simpl. rewrite Hcpp. simpl. rewrite Hcis. simpl. rewrite Hact. simpl.
  rewrite Hprp'. simpl. rewrite Hext. simpl. rewrite Hpe. simpl. rewrite Htxrws. simpl. rewrite Hnss. simpl.
  by rewrite Htxid.
Qed.

(** C9: from execution to ledger on Fabric: the transaction a parser reads in an
    envelope that carries an endorsement has the id, the arguments, the event
    and the payload of the execution, and its read-write set unchanged, sorted
    by key, versions and delete flags included. *)
Theorem fabric_execution_roundtrip f signer inv res resp env cap ends args :
  encodes_response f → events_nonempty → inv_Namespace inv ≠ "" →
  fabric_Endorse f signer inv res = Ok resp →
  carries env (inv_TxID inv) cap → carries_args cap args → cap_Action cap = Some (MkCEA (pr_Payload resp) ends) →
  fabric_ParseTx env = Ok (Some {|
    tx_ID := inv_TxID inv; tx_Number := 0; tx_InputArgs := args; tx_Status := StatusUnknown; tx_RawCode := 0;
    tx_Reason := Lit ""; tx_Event := res_Event res; tx_EventName := res_EventName res;
    tx_Payload := res_Payload res;
    tx_NsRWS := [MkNsRWS (inv_Namespace inv)
      (MkRWS (sort_by rd_Key (rws_Reads (res_RWS res))) (sort_by wr_Key (rws_Writes (res_RWS res))))] |}).
Proof. apply fabric_parse_endorsed. Qed.

(** A Fabric transaction whose only action has no endorsed action in it is valid
    protobuf but makes the parser panic, and with it the parsing of the whole
    block; the other malformed transactions are skipped. *)
Theorem fabric_ParseTx_nil_action env txID cap args :
  carries env txID cap → carries_args cap args → cap_Action cap = None → fabric_ParseTx env = Panic.
Proof.
  intros [pl hdr chdr act Hpl Hph Hch Htype Htxid Hdata Hcap] (cpp & ccid & Hcpp & Hcis) Hact.
  unfold fabric_ParseTx. rewrite Hpl. simpl. rewrite Hph, Hch. simpl. rewrite Htype, Z.eqb_refl, Hdata. simpl.
  unfold parse_action. rewrite Hcap. simpl. rewrite Hcpp. simpl. rewrite Hcis. simpl. by rewrite Hact.
Qed.
End FabricRoundTrip.

(** ** Concrete messages *)

Module Wired.
Import Wire.

Definition now : Timestamp := MkTimestamp 1700000000 0.

(** Identifiers and proposals over the concrete encoding. *)
#[export] Instance util : Protoutil := {|
  ComputeTxID nonce creator := string_of_bytes (nonce ++ creator);
  GetProposalHash1 hdr payload := Ret payload;
  CreateChaincodeProposalWithTxIDNonceAndTransient txID typ channel cis nonce creator :=
    Ret (MkProposal (wire (MkHeader (wire (MkChannelHeader typ 0 (Some now) channel txID 0 [] []))
                                    (wire (MkSignatureHeader creator nonce))))
                    (wire (MkCPP (wire cis))) []);
  GetSignedProposal p s := sig ← Sign s (wire p); Ret (MkSignedProposal (wire p) sig) |}.

#[export] Instance util_laws : ProtoutilLaws.
Proof.
  split.
  - intros txID typ channel cis nonce creator p [= <-]. simpl.
    eexists _, _, now, _. split; [apply unwire|]. simpl. split; [apply unwire|]. simpl.
    split_and!; [done..|apply unwire|apply unwire|]. simpl. apply unwire.
  - intros p s sp. simpl. destruct (Sign s (wire p)); simpl; [|done]. intros [= <-]. apply unwire.
Qed.

(** A signer whose identity decodes. *)
Definition signer : Signer := MkSigner (λ m, Ret (m ++ m)) (Ret (wire (M := Identity) (bytes_of_string "org1"))).
Definition client : Signer := MkSigner (λ m, Ret m) (Ret (bytes_of_string "org1")).
Definition nonce : result bytes := Ret (bytes_of_string "nonce").
Definition args : list bytes := [bytes_of_string "transfer"].

Definition digest (ns : TxNamespace) (txID : string) (metadata : list bytes) : result bytes :=
  Ret (bytes_of_string txID).

Definition execution : ExecutionResult := Success Accesses.rws "moved" (bytes_of_string "e") (bytes_of_string "p").

Lemma encodes {M} `{Countable M} (m : M) : @encodable M (codec M) m.
Proof. by eexists. Qed.

(** A Fabric-X invocation and the response of its endorser. *)
Definition metadata : list bytes := [wire (MkPbMetadata args (bytes_of_string "e") "moved" (bytes_of_string "p"))].
Definition invocation : Invocation :=
  let creator := wire (M := Identity) (bytes_of_string "org1") in
  let txID := ComputeTxID (bytes_of_string "nonce") creator in
  MkInvocation txID (bytes_of_string "nonce") creator args "cc" "" 0 "ch"
    (Some (MkProposal (wire (MkHeader (wire (MkChannelHeader 0 0 (Some now) "ch" txID 0 [] []))
                                      (wire (MkSignatureHeader creator (bytes_of_string "nonce"))))) [] [])) [].
Definition response : ProposalResponse :=
  MkProposalResponse 1 (Some (MkResponse 200 "OK" (bytes_of_string "p")))
    (wire (buildTx map_list Accesses.rws "cc" 0 metadata))
    (Some (MkPeerEndorsement (wire (M := Identity) (bytes_of_string "org1"))
             (bytes_of_string (inv_TxID invocation) ++ bytes_of_string (inv_TxID invocation)))).

Lemma response_endorsed : endorsed_by digest invocation execution response.
Proof.
  exists map_list, signer, execution. split_and!; [apply map_list_order|by split_and!|].
  unfold fabricx_Endorse. reflexivity.
Qed.

(** A Fabric endorser transaction around a chaincode action payload. *)
Definition cpp : ChaincodeProposalPayload := MkCPP (wire (invocation_spec (MkChaincodeID "cc" "") args)).
Definition fabric_payload (cap : ChaincodeActionPayload) : Payload :=
  MkPayload (Some (MkHeader (wire (MkChannelHeader 3 0 (Some now) "ch" "t1" 0 [] [])) []))
            (wire (MkPeerTransaction [MkTransactionAction [] (wire cap)])).
Definition fabric_envelope (cap : ChaincodeActionPayload) : Envelope := MkEnvelope (wire (fabric_payload cap)) [].

Lemma fabric_envelope_carries cap : carries (fabric_envelope cap) "t1" cap.
Proof.
  by eapply (Carries _ _ _ (fabric_payload cap)); [apply unwire|reflexivity|apply unwire|..|apply unwire|apply unwire].
Qed.

Definition response_bytes (hash : bytes) (r : Response) (results event : bytes) (ccid : ChaincodeID) : result bytes :=
  Ret (wire (MkPRP hash (wire (MkChaincodeAction results event (Some r) (Some ccid))))).

Lemma response_bytes_encodes : encodes_response response_bytes.
Proof. intros hash r results event ccid b [= <-]. eexists. split; apply unwire. Qed.

(** No event with a name has an empty encoding. *)
Lemma events_encode : events_nonempty.
Proof.
  intros evt b [= <-] Hn Hb. pose proof (unwire evt) as Hu. rewrite Hb in Hu. vm_compute in Hu.
  by simplify_eq.
Qed.

Definition fabric_invocation : Invocation :=
  MkInvocation "t1" (bytes_of_string "nonce") (bytes_of_string "org1") args "cc" "" 0 "ch" None [].
Definition fabric_results : bytes :=
  wire (MkTxRWS [MkPbNsRWS "cc" (wire (MkKVRWSet (pb_read <$> sort_by rd_Key (rws_Reads Accesses.rws))
                                                (pb_write <$> sort_by wr_Key (rws_Writes Accesses.rws))))]).
Definition fabric_response : ProposalResponse :=
  let prp := wire (MkPRP [] (wire (MkChaincodeAction fabric_results
               (wire (MkChaincodeEvent "cc" "t1" "moved" (bytes_of_string "e")))
               (Some (MkResponse 200 "" (bytes_of_string "p"))) (Some (MkChaincodeID "cc" ""))))) in
  MkProposalResponse 1 (Some (MkResponse 200 "OK" (bytes_of_string "p"))) prp
    (Some (MkPeerEndorsement (bytes_of_string "org1") (prp ++ bytes_of_string "org1"))).

End Wired.

Import Wire Wired.

Lemma ParseProposal_roundtrip_witness :
  ∃ inv sp, fabric_NewInvocation nonce (Some client) "ch" "cc" "1.0" args = Ret inv ∧
    ParseProposal sp None = Ret inv.
Proof.
  eexists _, _. split; [unfold fabric_NewInvocation; simpl; rewrite unwire; reflexivity|].
  eapply (ParseProposal_roundtrip nonce client "ch" "cc" "1.0" args _ _ client);
    [unfold fabric_NewInvocation; simpl; rewrite unwire; reflexivity|done|done|done|reflexivity|reflexivity].
Defined.

(** The proposal of a client, and the invocation an endorser reads in it. *)
Lemma ParseProposal_sound_witness :
  let hdr := MkHeader (wire (MkChannelHeader 3 0 (Some now) "ch" "nonceorg1" 0 [] []))
                      (wire (MkSignatureHeader (bytes_of_string "org1") (bytes_of_string "nonce"))) in
  let prop := MkProposal (wire hdr) (wire (MkCPP (wire (invocation_spec (MkChaincodeID "cc" "") args)))) [] in
  let sp := MkSignedProposal (wire prop) [] in
  let inv := MkInvocation "nonceorg1" (bytes_of_string "nonce") (bytes_of_string "org1") args "cc" "" 0 "ch"
               (Some prop) (prop_Payload prop) in
  ParseProposal sp (Some (unix_nanos now + 60)) = Ret inv ∧
  inv_TxID inv = ComputeTxID (inv_Nonce inv) (inv_Creator inv).
Proof.
  intros hdr prop sp inv.
  assert (ParseProposal sp (Some (unix_nanos now + 60)) = Ret inv) as Hparse.
  { unfold ParseProposal, sp. simpl. rewrite unwire. simpl. rewrite unwire. simpl. rewrite unwire. simpl.
    rewrite unwire. simpl. rewrite unwire. simpl. by rewrite unwire. }
  split; [exact Hparse|]. apply (ParseProposal_sound sp (Some (unix_nanos now + 60)) inv Hparse).
Defined.

Lemma encoder : encoder_total.
Proof. split; intros; apply encodes. Qed.

Lemma fabricx_execution_roundtrip_witness :
  ∃ env tx rws', CreateTx (Fail (Errorf "unused" [])) (inv_Proposal invocation) None [response; response] = Ok env ∧
    fabricx_ParseTx env = Ok (Some tx) ∧
    tx_ID tx = inv_TxID invocation ∧ tx_InputArgs tx = args ∧ tx_Event tx = bytes_of_string "e" ∧
    tx_EventName tx = "moved" ∧ tx_Payload tx = bytes_of_string "p" ∧
    tx_NsRWS tx = [MkNsRWS "cc" rws'] ∧
    rws_Reads rws' ≡ₚ neutral_read <$> rws_Reads Accesses.rws ∧
    rws_Writes rws' ≡ₚ neutral_write <$> rws_Writes Accesses.rws.
Proof.
  eapply (fabricx_execution_roundtrip digest now nonce _ signer None "ch" "cc" "" 0 args invocation
    map_list execution metadata); try reflexivity.
  - apply map_list_order.
  - apply Accesses.rws_keys.
  - done.
  - repeat constructor; apply response_endorsed.
  - intros r e [->|[->|[]%elem_of_nil]%elem_of_cons]%elem_of_cons [= <-]; eexists; apply unwire.
  - by left.
  - apply encoder.
Defined.

Lemma fabric_execution_roundtrip_witness :
  fabric_Endorse response_bytes client fabric_invocation execution = Ok fabric_response ∧
  ∃ tx, fabric_ParseTx (fabric_envelope (MkCAP (wire cpp) (Some (MkCEA (pr_Payload fabric_response) [])))) =
          Ok (Some tx) ∧ tx_EventName tx = "moved" ∧ tx_InputArgs tx = args.
Proof.
  assert (fabric_Endorse response_bytes client fabric_invocation execution = Ok fabric_response) as Hend
    by reflexivity.
  split; [exact Hend|]. eexists. split.
  - eapply (fabric_execution_roundtrip response_bytes client fabric_invocation execution fabric_response _ _ []);
      [apply response_bytes_encodes|apply events_encode|done|exact Hend|apply fabric_envelope_carries| |reflexivity].
    eexists _, _. split; apply unwire.
  - split; reflexivity.
Defined.

Lemma fabric_ParseTx_nil_action_witness :
  fabric_ParseTx (fabric_envelope (MkCAP (wire cpp) None)) = Panic.
Proof.
  eapply (fabric_ParseTx_nil_action _ "t1" _ args); [apply fabric_envelope_carries| |reflexivity].
  eexists _, _. split; apply unwire.
Defined.

Lemma fabric_envelope_parses :
  let cap := MkCAP (wire cpp) (Some (MkCEA (pr_Payload fabric_response) [])) in
  ∃ tx, fabric_ParseTx (fabric_envelope cap) = Ok (Some tx).
Proof.
  intros cap. eexists.
  eapply (fabric_parse_endorsed response_bytes client fabric_invocation execution fabric_response _ _ []);
    [apply response_bytes_encodes|apply events_encode|done|reflexivity|apply fabric_envelope_carries| |reflexivity].
  eexists _, _. split; apply unwire.
Qed.

(** A Fabric block of one valid transaction. *)
Definition fabric_block : RawBlock :=
  MkRawBlock (Some (MkBlockHeader 7 [] []))
    (Some [wire (fabric_envelope (MkCAP (wire cpp) (Some (MkCEA (pr_Payload fabric_response) []))))])
    (Some [[]; []; [Byte.x00]]).

Lemma parse_single `{ValidationCodes} hash now header envBytes env tx txFilter :
  Unmarshal envBytes = Ret env → fabric_ParseTx env = Ok (Some tx) →
  ∃ block, fabric_Parse hash now (MkRawBlock (Some header) (Some [envBytes]) (Some [[]; []; txFilter])) = Ok block.
Proof.
  intros Henv Htx. unfold fabric_Parse, Parse. simpl.
  change (_ !! BlockMetadataIndex_TRANSACTIONS_FILTER) with (Some txFilter). simpl.
  rewrite (proj2 (parse_envelope_parsed _ _ fabric_ParseTx_header txFilter (bh_Number header) 0 envBytes
    (with_status fabric_statusForTx txFilter 0 tx))).
  - simpl. by eexists.
  - exists env, tx. by split_and!.
Qed.

Lemma fabric_block_parses : ∃ block, fabric_Parse (H2 := fabric_codes) (λ _, []) 0 fabric_block = Ok block.
Proof.
  destruct fabric_envelope_parses as [tx Htx]. unfold fabric_block.
  eapply parse_single; [apply unwire|exact Htx].
Qed.

Lemma fabric_Parse_exact_witness :
  ∃ block, fabric_Parse (H2 := fabric_codes) (λ _, []) 0 fabric_block = Ok block ∧ blk_Number block = 7 ∧
    StronglySorted Z.lt (tx_Number <$> blk_Transactions block).
Proof.
  destruct fabric_block_parses as [block Hparse].
  destruct (fabric_Parse_exact (λ _, []) 0 fabric_block block Hparse)
    as (header & txFilter & data & (Hh & _) & Hn & Hs & _).
  exists block. injection Hh as <-. by split_and!.
Defined.
