(* ===== verification/Synchronizer.v ===== *)
(** * The synchronizer

    [Synchronizer] (network/synchronizer.go): the goroutine of [Start], the
    monitor goroutines it starts, and the probes.  A state is the fields behind
    the mutex, the context, the position of [Start] and of each monitor, and
    whether the peer is closed.  A step is one region that runs without
    releasing the mutex or waiting; the database and the peer answer anything. *)

From S2P Require Import Prelude Blocks.

Inductive syncState :=
  | stateNotStarted
  | stateStarting
  | stateSyncing
  | stateReady
  | stateRetrying
  | stateStopped.

#[export] Instance syncState_eq_dec : EqDecision syncState.
Proof. solve_decision. Defined.

Definition syncState_String (s : syncState) : string :=
  match s with
  | stateNotStarted => "not-started"
  | stateStarting => "starting"
  | stateSyncing => "syncing"
  | stateReady => "ready"
  | stateRetrying => "retrying"
  | stateStopped => "stopped"
  end.

(** Where [Start] is: not called, at the top of the loop, reading the height of
    the database, receiving blocks from a number on, backing off after an
    error, waiting for the monitors, or returned. *)
Inductive main_pc :=
  | Idle
  | AtLoop
  | ReadingHeight
  | Receiving (start : Z)
  | BackingOff
  | Joining
  | Returned.

(** Where a monitor is: waiting for the ticker, querying the heights, about to
    report that it caught up, or gone. *)
Inductive mon_pc := Ticking | Querying | CaughtUp | Exited.

#[export] Instance mon_pc_eq_dec : EqDecision mon_pc.
Proof. solve_decision. Defined.

Record monitor := MkMonitor { mon_at : mon_pc; mon_cancelled : bool }.

Record Synchronizer := MkSynchronizer {
  sy_state : syncState;
  sy_lastSyncErr : option error;
  sy_monitorCancel : option nat;
  sy_cancelled : bool;
  sy_monitors : list monitor;
  sy_main : main_pc;
  sy_backoff : Z;
  sy_peerClosed : bool }.

Definition second : Z := 10 ^ 9.
Definition maxBackoff : Z := 30 * second.

(** The zero fields of a new synchronizer. *)
Definition not_started : Synchronizer :=
  {| sy_state := stateNotStarted; sy_lastSyncErr := None; sy_monitorCancel := None; sy_cancelled := false;
     sy_monitors := []; sy_main := Idle; sy_backoff := second; sy_peerClosed := false |}.

(** [NewSynchronizer]; the database and the peer may be nil. *)
Definition NewSynchronizer {DB Peer : Type} (db : option DB) (peer : option Peer) : result (DB * Peer * Synchronizer) :=
  match db, peer with
  | None, _ => Fail (Errorf "db required" [])
  | Some _, None => Fail (Errorf "peer required" [])
  | Some db, Some peer => Ret (db, peer, not_started)
  end.

(** Updates of single fields. *)
Definition with_state (s : Synchronizer) (st : syncState) (err : option error) : Synchronizer :=
  {| sy_state := st; sy_lastSyncErr := err; sy_monitorCancel := sy_monitorCancel s;
     sy_cancelled := sy_cancelled s; sy_monitors := sy_monitors s; sy_main := sy_main s;
     sy_backoff := sy_backoff s; sy_peerClosed := sy_peerClosed s |}.

Definition with_monitors (s : Synchronizer) (ms : list monitor) (cancel : option nat) : Synchronizer :=
  {| sy_state := sy_state s; sy_lastSyncErr := sy_lastSyncErr s; sy_monitorCancel := cancel;
     sy_cancelled := sy_cancelled s; sy_monitors := ms; sy_main := sy_main s;
     sy_backoff := sy_backoff s; sy_peerClosed := sy_peerClosed s |}.

Definition with_main (s : Synchronizer) (pc : main_pc) (backoff : Z) : Synchronizer :=
  {| sy_state := sy_state s; sy_lastSyncErr := sy_lastSyncErr s; sy_monitorCancel := sy_monitorCancel s;
     sy_cancelled := sy_cancelled s; sy_monitors := sy_monitors s; sy_main := pc;
     sy_backoff := backoff; sy_peerClosed := sy_peerClosed s |}.

Definition goto (s : Synchronizer) (pc : main_pc) : Synchronizer := with_main s pc (sy_backoff s).

Definition with_cancelled (s : Synchronizer) : Synchronizer :=
  {| sy_state := sy_state s; sy_lastSyncErr := sy_lastSyncErr s; sy_monitorCancel := sy_monitorCancel s;
     sy_cancelled := true; sy_monitors := sy_monitors s; sy_main := sy_main s;
     sy_backoff := sy_backoff s; sy_peerClosed := sy_peerClosed s |}.

Definition close_peer (s : Synchronizer) : Synchronizer :=
  {| sy_state := sy_state s; sy_lastSyncErr := sy_lastSyncErr s; sy_monitorCancel := sy_monitorCancel s;
     sy_cancelled := sy_cancelled s; sy_monitors := sy_monitors s; sy_main := sy_main s;
     sy_backoff := sy_backoff s; sy_peerClosed := true |}.

(** ** transition *)

Definition cancel_monitor (ms : list monitor) (i : nat) : list monitor :=
  alter (λ m, MkMonitor (mon_at m) true) i ms.

(** [if s.monitorCancel != nil { s.monitorCancel(); s.monitorCancel = nil }]. *)
Definition stop_monitor (s : Synchronizer) : Synchronizer :=
  match sy_monitorCancel s with
  | Some i => with_monitors s (cancel_monitor (sy_monitors s) i) None
  | None => s
  end.

(** A new monitor whose context derives from the run context. *)
Definition start_monitor (s : Synchronizer) : Synchronizer :=
  with_monitors s (sy_monitors s ++ [MkMonitor Ticking false]) (Some (length (sy_monitors s))).

Definition transition (to : syncState) (err : option error) (s : Synchronizer) : Synchronizer :=
  if decide (sy_state s = stateStopped) then s
  else
    let from := sy_state s in
    let s := with_state s to (sy_lastSyncErr s) in
    let s := if decide (from = stateSyncing) then stop_monitor s else s in
    match to with
    | stateSyncing =>
        let s := with_state s to None in
        if sy_cancelled s then s else start_monitor s
    | stateRetrying => with_state s to err
    | stateStopped => stop_monitor s
    | _ => s
    end.

(** ** Heights and probes *)

(** The block to resume from after [lastBlock]. *)
Definition resume (lastBlock : Z) : Z := if 0 <? lastBlock then wrap_uint64 (lastBlock + 1) else 0.

(** [BlockHeight] on the answer of the database. *)
Definition sync_BlockHeight (db : result Z) : result Z :=
  lpb ← db; Ret (wrap_uint64 (lpb + 1)).

Definition errNotStarted : error := Errorf "not started" [].
Definition errNotReady : error := Errorf "not ready: still syncing" [].
Definition errRetrying : error := Errorf "retrying after error" [].
Definition errStopped : error := Errorf "stopped" [].
Definition errAlreadyStarted : error := Errorf "already started" [].

Definition retrying_error (s : Synchronizer) : error :=
  match sy_lastSyncErr s with
  | Some e => Wrapf "retrying after error: %v" [] e
  | None => errRetrying
  end.

Definition Live (s : Synchronizer) : option error :=
  match sy_state s with
  | stateNotStarted => Some errNotStarted
  | stateStopped => Some errStopped
  | stateRetrying => Some (retrying_error s)
  | _ => None
  end.

Definition Ready (s : Synchronizer) : option error :=
  match sy_state s with
  | stateNotStarted => Some errNotStarted
  | stateStopped => Some errStopped
  | stateStarting | stateSyncing => Some errNotReady
  | stateRetrying => Some (retrying_error s)
  | stateReady => None
  end.

(** ** Start *)

(** The guarded entry of [Start]. *)
Definition begin (s : Synchronizer) : result Synchronizer :=
  if decide (sy_state s = stateNotStarted)
  then Ret (with_main (with_state s stateStarting (sy_lastSyncErr s)) AtLoop second)
  else Fail errAlreadyStarted.

(** The deferred function up to the wait. *)
Definition stop (s : Synchronizer) : Synchronizer := goto (transition stateStopped None s) Joining.

(** An error of the database or of the peer. *)
Definition retry (e : error) (s : Synchronizer) : Synchronizer :=
  if sy_cancelled s then stop s else goto (transition stateRetrying (Some e) s) BackingOff.

Definition mon_done (s : Synchronizer) (m : monitor) : bool := mon_cancelled m || sy_cancelled s.

Definition mon_goto (s : Synchronizer) (i : nat) (pc : mon_pc) : Synchronizer :=
  with_monitors s (alter (λ m, MkMonitor pc (mon_cancelled m)) i (sy_monitors s)) (sy_monitorCancel s).

(** The check of a monitor that read both heights. *)
Definition mon_check (peerHeight localLast : Z) : mon_pc := if peerHeight <=? localLast then CaughtUp else Ticking.

Inductive step (s : Synchronizer) : Synchronizer → Prop :=
  | step_start s' : begin s = Ret s' → step s s'
  | step_cancel : step s (with_cancelled s)
  | step_loop : sy_main s = AtLoop → step s (if sy_cancelled s then stop s else goto s ReadingHeight)
  | step_height_error e : sy_main s = ReadingHeight → step s (retry e s)
  | step_height n : sy_main s = ReadingHeight → step s (goto (transition stateSyncing None s) (Receiving (resume n)))
  | step_deliver_error e n : sy_main s = Receiving n → step s (retry e s)
  | step_deliver_end n : sy_main s = Receiving n → step s (with_main s AtLoop second)
  | step_backoff : sy_main s = BackingOff → step s (with_main s AtLoop ((sy_backoff s * 2) `min` maxBackoff))
  | step_backoff_cancelled : sy_main s = BackingOff → sy_cancelled s = true → step s (stop s)
  | step_join : sy_main s = Joining → Forall (λ m, mon_at m = Exited) (sy_monitors s) →
      step s (goto (close_peer s) Returned)
  | step_mon_done i m : sy_monitors s !! i = Some m → mon_at m = Ticking → mon_done s m = true →
      step s (mon_goto s i Exited)
  | step_mon_tick i m : sy_monitors s !! i = Some m → mon_at m = Ticking → step s (mon_goto s i Querying)
  | step_mon_error i m : sy_monitors s !! i = Some m → mon_at m = Querying → step s (mon_goto s i Ticking)
  | step_mon_check i m peerHeight db localLast : sy_monitors s !! i = Some m → mon_at m = Querying →
      sync_BlockHeight db = Ret localLast → step s (mon_goto s i (mon_check peerHeight localLast))
  | step_mon_ready i m : sy_monitors s !! i = Some m → mon_at m = CaughtUp →
      step s (mon_goto (transition stateReady None s) i Exited).

Definition reachable (s : Synchronizer) : Prop := rtc step not_started s.

(** ** The invariant *)

(** The stored cancel function belongs to a monitor of the current syncing
    period, and any monitor that is neither gone nor cancelled is that one. *)
Record mon_inv (s : Synchronizer) : Prop := {
  mi_current : ∀ i, sy_monitorCancel s = Some i → sy_state s = stateSyncing ∧ is_Some (sy_monitors s !! i);
  mi_live : ∀ i m, sy_monitors s !! i = Some m → mon_at m ≠ Exited → mon_cancelled m = false →
    sy_monitorCancel s = Some i }.

Definition main_inv (s : Synchronizer) : Prop :=
  match sy_main s with
  | Idle => sy_state s = stateNotStarted
  | Joining | Returned => sy_state s = stateStopped
  | _ => sy_state s ≠ stateNotStarted ∧ sy_state s ≠ stateStopped
  end.

Record sync_inv (s : Synchronizer) : Prop := {
  sy_mon : mon_inv s;
  sy_at : main_inv s;
  sy_back : second ≤ sy_backoff s ≤ maxBackoff;
  sy_closed : sy_peerClosed s = true ↔ sy_main s = Returned;
  sy_joined : sy_main s = Returned → Forall (λ m, mon_at m = Exited) (sy_monitors s);
  sy_idle : sy_main s = Idle → sy_monitors s = [] }.

Lemma lookup_cancel_monitor ms i j m :
  cancel_monitor ms i !! j = Some m →
  ∃ m0, ms !! j = Some m0 ∧ mon_at m = mon_at m0 ∧
    (i = j ∧ mon_cancelled m = true ∨ i ≠ j ∧ m = m0).
Proof.
  unfold cancel_monitor. destruct (decide (i = j)) as [->|Hij].
  - rewrite list_lookup_alter_eq. intros (m0 & Hm & ->)%fmap_Some. naive_solver.
  - rewrite list_lookup_alter_ne by done. naive_solver.
Qed.

Lemma stop_monitor_inv s :
  mon_inv s → mon_inv (stop_monitor s) ∧ sy_monitorCancel (stop_monitor s) = None.
Proof.
  intros Hinv. unfold stop_monitor. destruct (sy_monitorCancel s) as [i|] eqn:E; [|done].
  destruct Hinv as [Hc Hl]. split; [split|]; simpl; [done| |done].
  intros j m (m0 & Hm0 & Hat & [[-> Hm]|[Hij ->]])%lookup_cancel_monitor Hx Hlive; [congruence|].
  pose proof (Hl j m0 Hm0 Hx Hlive). congruence.
Qed.

Lemma start_monitor_inv s :
  mon_inv s → sy_monitorCancel s = None → sy_state s = stateSyncing → mon_inv (start_monitor s).
Proof.
  intros [Hc Hl] Hn Hs. split; simpl.
  - intros i [= <-]. split; [done|]. rewrite lookup_app_r, Nat.sub_diag by lia. by eexists.
  - intros i m Hm Hx Hlive. apply lookup_app_Some in Hm as [Hm|[Hlen Hm]].
    + pose proof (Hl i m Hm Hx Hlive). congruence.
    + apply list_lookup_singleton_Some in Hm as [Hi _]. f_equal. lia.
Qed.

(** Any state but syncing forgets the monitor, so only its absence matters. *)
Lemma with_state_inv s st err : mon_inv s → sy_monitorCancel s = None → mon_inv (with_state s st err).
Proof. intros [Hc Hl] Hn. split; simpl; [intros i Hi; congruence|done]. Qed.

(** Leaving the current state: whatever it was, no monitor is current. *)
Lemma leave_inv s to :
  mon_inv s →
  let s1 := with_state s to (sy_lastSyncErr s) in
  let s2 := if decide (sy_state s = stateSyncing) then stop_monitor s1 else s1 in
  mon_inv s2 ∧ sy_monitorCancel s2 = None ∧ sy_cancelled s2 = sy_cancelled s ∧ sy_state s2 = to.
Proof.
  intros Hinv s1 s2. unfold s2. case_decide as Hs.
  - unfold stop_monitor, s1. simpl. destruct (sy_monitorCancel s) as [i|] eqn:E; simpl.
    + split_and!; [|done..]. destruct Hinv as [Hc Hl]. split; simpl; [done|].
      intros j m (m0 & Hm0 & Hat & [[-> Hm]|[Hij ->]])%lookup_cancel_monitor Hx Hlive; [congruence|].
      pose proof (Hl j m0 Hm0 Hx Hlive). congruence.
    + split_and!; [by apply with_state_inv|done..].
  - assert (sy_monitorCancel s = None) as Hn.
    { destruct (sy_monitorCancel s) as [i|] eqn:E; [|done]. by destruct (mi_current _ Hinv i E). }
    split_and!; [by apply with_state_inv|done..].
Qed.

Lemma transition_mon_inv to err s :
  mon_inv s → mon_inv (transition to err s).
Proof.
  intros Hinv. unfold transition. case_decide; [done|].
  destruct (leave_inv s to Hinv) as (Hi & Hn & Hc & Hs).
  set (s2 := if decide (sy_state s = stateSyncing) then _ else _) in *.
  destruct to; try done.
  - destruct (sy_cancelled _); [by apply with_state_inv|]. apply start_monitor_inv; [by apply with_state_inv|done..].
  - by apply with_state_inv.
  - by apply stop_monitor_inv.
Qed.

(** What a transition does besides: the state it enters, and nothing else of
    the fields that [Start] owns. *)
Lemma stop_monitor_frame s :
  sy_state (stop_monitor s) = sy_state s ∧ sy_main (stop_monitor s) = sy_main s ∧
  sy_backoff (stop_monitor s) = sy_backoff s ∧ sy_peerClosed (stop_monitor s) = sy_peerClosed s ∧
  sy_cancelled (stop_monitor s) = sy_cancelled s.
Proof. unfold stop_monitor. by destruct (sy_monitorCancel s). Qed.

Lemma transition_frame to err s :
  sy_state (transition to err s) = (if decide (sy_state s = stateStopped) then stateStopped else to) ∧
  sy_main (transition to err s) = sy_main s ∧ sy_backoff (transition to err s) = sy_backoff s ∧
  sy_peerClosed (transition to err s) = sy_peerClosed s ∧ sy_cancelled (transition to err s) = sy_cancelled s.
Proof.
  unfold transition. case_decide as Hst; [done|].
  set (s1 := with_state s to (sy_lastSyncErr s)).
  set (s2 := if decide (sy_state s = stateSyncing) then stop_monitor s1 else s1).
  assert (sy_state s2 = to ∧ sy_main s2 = sy_main s ∧ sy_backoff s2 = sy_backoff s ∧
          sy_peerClosed s2 = sy_peerClosed s ∧ sy_cancelled s2 = sy_cancelled s) as (? & ? & ? & ? & ?).
  { unfold s2. case_decide; [|done]. destruct (stop_monitor_frame s1) as (-> & -> & -> & -> & ->). done. }
  destruct to; simpl; try done.
  - destruct (sy_cancelled s2) eqn:E; simpl; by rewrite ?E.
  - destruct (stop_monitor_frame s2) as (-> & -> & -> & -> & ->). done.
Qed.

Lemma length_cancel ms i : length (cancel_monitor ms i) = length ms.
Proof. apply length_alter. Qed.

Lemma mon_goto_inv s i pc :
  mon_inv s → pc = Exited ∨ (∃ m, sy_monitors s !! i = Some m ∧ mon_at m ≠ Exited) →
  mon_inv (mon_goto s i pc).
Proof.
  intros [Hc Hl] Hpc. split; simpl.
  - intros j (? & ?)%Hc. split; [done|]. destruct (decide (i = j)) as [->|].
    + rewrite list_lookup_alter_eq. by apply fmap_is_Some.
    + by rewrite list_lookup_alter_ne.
  - intros j m. destruct (decide (i = j)) as [->|].
    + rewrite list_lookup_alter_eq. intros (m0 & Hm0 & ->)%fmap_Some. simpl. intros Hx Hlive.
      destruct Hpc as [->|(m1 & Hm1 & Hat)]; [done|]. simplify_eq. eauto.
    + rewrite list_lookup_alter_ne by done. apply Hl.
Qed.

Lemma goto_mon_inv s pc b : mon_inv s → mon_inv (with_main s pc b).
Proof. intros [Hc Hl]. by split. Qed.

Lemma exited_no_step s i m :
  Forall (λ m, mon_at m = Exited) (sy_monitors s) → sy_monitors s !! i = Some m → mon_at m = Exited.
Proof. intros Hall Hm. exact (proj1 (Forall_lookup _ _) Hall i m Hm). Qed.

(** The steps of a monitor leave everything but its own entry. *)
Lemma mon_step_inv s i m pc :
  sync_inv s → sy_monitors s !! i = Some m → mon_at m ≠ Exited → sync_inv (mon_goto s i pc).
Proof.
  intros [Hmon Hat Hb Hc Hj Hi] Hm Hx. split; try done.
  - apply mon_goto_inv; [done|]. right. eauto.
  - intros Hr. by apply (exited_no_step s i m (Hj Hr)) in Hm.
  - intros Hr. rewrite (Hi Hr) in Hm. done.
Qed.

(** A transition that [Start] makes while it runs, together with its next
    position. *)
Lemma main_step_inv s to err pc b :
  sync_inv s → sy_state s ≠ stateNotStarted ∧ sy_state s ≠ stateStopped →
  second ≤ b ≤ maxBackoff → pc ≠ Idle → pc ≠ Returned → sy_main s ≠ Returned →
  main_inv (with_main (transition to err s) pc b) →
  sync_inv (with_main (transition to err s) pc b).
Proof.
  intros [Hmon Hat Hb Hc Hj Hi] [_ Hst] Hb' Hpi Hpr Hmr Hmain.
  destruct (transition_frame to err s) as (Hs & Hma & Hbk & Hcl & _). split; simpl; try done.
  - by apply goto_mon_inv, transition_mon_inv.
  - rewrite Hcl. naive_solver.
Qed.

Lemma stop_inv s : sync_inv s → sy_state s ≠ stateNotStarted ∧ sy_state s ≠ stateStopped →
  sy_main s ≠ Returned → sync_inv (stop s).
Proof.
  intros Hinv Hst Hm. unfold stop, goto. destruct (transition_frame stateStopped None s) as (Hs & _ & Hb & _).
  apply main_step_inv; try done.
  - rewrite Hb. apply Hinv.
  - unfold main_inv. simpl. rewrite Hs. by case_decide.
Qed.

Lemma retry_inv s e : sync_inv s → sy_state s ≠ stateNotStarted ∧ sy_state s ≠ stateStopped →
  sy_main s ≠ Returned → sync_inv (retry e s).
Proof.
  intros Hinv Hst Hm. unfold retry. destruct (sy_cancelled s); [by apply stop_inv|]. unfold goto.
  destruct (transition_frame stateRetrying (Some e) s) as (Hs & _ & Hb & _). apply main_step_inv; try done.
  - rewrite Hb. apply Hinv.
  - unfold main_inv. simpl. rewrite Hs. destruct Hst. by rewrite decide_False.
Qed.

Lemma running_states s :
  main_inv s → sy_main s ≠ Idle → sy_main s ≠ Joining → sy_main s ≠ Returned →
  sy_state s ≠ stateNotStarted ∧ sy_state s ≠ stateStopped.
Proof. unfold main_inv. destruct (sy_main s); congruence || done. Qed.

(** The position of [Start] changes and nothing else does. *)
Lemma move_inv s pc b :
  sync_inv s → sy_main s ≠ Idle → sy_main s ≠ Joining → sy_main s ≠ Returned →
  pc ≠ Idle → pc ≠ Joining → pc ≠ Returned → second ≤ b ≤ maxBackoff → sync_inv (with_main s pc b).
Proof.
  intros [Hmon Hat Hb Hc Hj Hi] H1 H2 H3 H4 H5 H6 Hb'. split; simpl; try done.
  - by apply goto_mon_inv.
  - destruct (running_states s Hat H1 H2 H3). unfold main_inv. simpl. destruct pc; by try congruence.
  - rewrite Hc. naive_solver.
Qed.

Lemma step_inv s t : sync_inv s → step s t → sync_inv t.
Proof.
  intros Hinv Hstep. pose proof Hinv as [Hmon Hat Hb Hc Hj Hi].
  assert (second ≤ second ≤ maxBackoff) as Hsec by by vm_compute.
  destruct Hstep as [t Hbeg| |Hm|e Hm|n Hm|e n Hm|n Hm|Hm|Hm Hcn|Hm Hall|i m Hm Hp _|i m Hm Hp|i m Hm Hp
                    |i m ph db ll Hm Hp _|i m Hm Hp].
  - unfold begin in Hbeg. case_decide as Hst; [|done]. injection Hbeg as <-.
    assert (sy_main s = Idle) as Hidle by (unfold main_inv in Hat; destruct (sy_main s); try done; first [congruence|by destruct Hat]).
    assert (sy_monitorCancel s = None) as Hn.
    { destruct (sy_monitorCancel s) eqn:E; [|done]. destruct (mi_current _ Hmon _ E). congruence. }
    split; simpl; try done; [by apply goto_mon_inv, with_state_inv|by rewrite Hc, Hidle].
  - split; try done. by destruct Hmon; split.
  - pose proof (running_states s Hat) as Hr. rewrite Hm in Hr.
    destruct (sy_cancelled s); [apply stop_inv; [done|by apply Hr|congruence]|apply move_inv; (congruence || done)].
  - apply retry_inv; [done|apply running_states; congruence|congruence].
  - destruct (transition_frame stateSyncing None s) as (Hs & _ & Hbk & _).
    pose proof (running_states s Hat) as Hr. rewrite Hm in Hr. destruct Hr as [? ?]; [done..|].
    apply main_step_inv; try (done || congruence).
    unfold main_inv. simpl. rewrite Hs. by rewrite decide_False.
  - apply retry_inv; [done|apply running_states; congruence|congruence].
  - apply move_inv; (congruence || done).
  - apply move_inv; try (congruence || done). unfold maxBackoff, second in *. lia.
  - apply stop_inv; [done|apply running_states; congruence|congruence].
  - split; simpl; try done; [|unfold main_inv in *; simpl; by rewrite Hm in Hat]. by destruct Hmon.
  - eapply mon_step_inv; [done..|congruence].
  - eapply mon_step_inv; [done..|congruence].
  - eapply mon_step_inv; [done..|congruence].
  - eapply mon_step_inv; [done..|congruence].
  - destruct (transition_frame stateReady None s) as (Hs & Hma & Hbk & Hcl & _).
    split; simpl; rewrite ?Hma, ?Hbk, ?Hcl; try done.
    + apply mon_goto_inv; [by apply transition_mon_inv|by left].
    + unfold main_inv in *. simpl. rewrite Hma, Hs.
      destruct (sy_main s) eqn:E; [rewrite (Hi eq_refl) in Hm; done|..]; try (by rewrite Hat, decide_True);
        destruct Hat; by rewrite decide_False.
    + intros Hr. by pose proof (exited_no_step s i m (Hj Hr) Hm); congruence.
    + intros Hr. rewrite (Hi Hr) in Hm. done.
Qed.

Lemma new_inv : sync_inv not_started.
Proof. by split; try done; split. Qed.

Lemma reachable_inv s : reachable s → sync_inv s.
Proof.
  intros Hr. unfold reachable in Hr. pose proof new_inv as H0. revert H0.
  induction Hr as [|s1 s2 s3 Hstep _ IH]; [done|]. intros H1. apply IH. by eapply step_inv.
Qed.

(** ** Shutdown *)

Lemma transition_stopped to err s : sy_state s = stateStopped → transition to err s = s.
Proof. intros Hs. unfold transition. by rewrite decide_True. Qed.

Lemma step_stopped s t :
  sy_state s = stateStopped → step s t →
  sy_state t = stateStopped ∧ length (sy_monitors t) = length (sy_monitors s).
Proof.
  intros Hs Hstep. destruct Hstep as [t Hbeg| |Hm|e Hm|n Hm|e n Hm|n Hm|Hm|Hm Hcn|Hm Hall|i m Hm Hp _|i m Hm Hp
    |i m Hm Hp|i m ph db ll Hm Hp _|i m Hm Hp]; unfold retry, stop;
    rewrite ?transition_stopped by done; try (by destruct (sy_cancelled s));
    simpl; rewrite ?length_alter; try done.
  unfold begin in Hbeg. rewrite decide_False in Hbeg by congruence. done.
Qed.

Lemma step_returned s t : sync_inv s → sy_main s = Returned → step s t → sy_main t = Returned.
Proof.
  intros Hinv Hr Hstep. pose proof (sy_joined _ Hinv Hr) as Hall.
  pose proof (sy_at _ Hinv) as Hat. unfold main_inv in Hat. rewrite Hr in Hat.
  destruct Hstep as [t Hbeg| | | | | | | | | |i m Hm Hp _|i m Hm Hp|i m Hm Hp|i m ph db ll Hm Hp _|i m Hm Hp];
    try done; try congruence; try (pose proof (exited_no_step _ _ _ Hall Hm); congruence).
  unfold begin in Hbeg. by rewrite decide_False in Hbeg by congruence.
Qed.

(** One monitor is driven to its end: a canceled context makes the ticker loop
    return, a query fails, and a report to a stopped synchronizer is ignored. *)
Lemma mon_goto_goto s i pc pc' : mon_goto (mon_goto s i pc) i pc' = mon_goto s i pc'.
Proof. unfold mon_goto, with_monitors. simpl. f_equal. by rewrite list_alter_alter_eq. Qed.

Lemma drive_monitor s i m :
  sy_state s = stateStopped → sy_cancelled s = true → sy_monitors s !! i = Some m → mon_at m ≠ Exited →
  rtc step s (mon_goto s i Exited).
Proof.
  intros Hs Hc Hm Hx. destruct (mon_at m) eqn:E; [| | |done].
  - apply rtc_once. eapply step_mon_done; [done..|]. unfold mon_done. by rewrite Hc, orb_true_r.
  - eapply rtc_l; [by eapply step_mon_error|]. apply rtc_once. rewrite <- (mon_goto_goto s i Ticking Exited).
    eapply step_mon_done; simpl; [by rewrite list_lookup_alter_eq, Hm|done|].
    unfold mon_done. simpl. by rewrite Hc, orb_true_r.
  - apply rtc_once. rewrite <- (transition_stopped stateReady None s Hs) at 2. by eapply step_mon_ready.
Qed.

Lemma drive_monitors s k :
  sy_state s = stateStopped → sy_cancelled s = true → sy_main s = Joining →
  ∃ t, rtc step s t ∧ sy_state t = stateStopped ∧ sy_cancelled t = true ∧ sy_main t = Joining ∧
    length (sy_monitors t) = length (sy_monitors s) ∧
    ∀ i m, (i < k)%nat → sy_monitors t !! i = Some m → mon_at m = Exited.
Proof.
  intros Hs Hc Hm. induction k as [|k (t & Hst & Hts & Htc & Htm & Hlen & Hex)].
  { exists s. split_and!; [done..|]. intros; lia. }
  destruct (sy_monitors t !! k) as [m|] eqn:E; [destruct (decide (mon_at m = Exited))|].
  - exists t. split_and!; [done..|]. intros i m' Hi Hm'. destruct (decide (i = k)) as [->|]; [congruence|].
    apply (Hex i); [lia|done].
  - exists (mon_goto t k Exited). split_and!; simpl; try done.
    + etrans; [done|]. by eapply drive_monitor.
    + by rewrite length_alter.
    + intros i m' Hi. destruct (decide (k = i)) as [->|].
      * rewrite list_lookup_alter_eq. by intros (? & ? & ->)%fmap_Some.
      * rewrite list_lookup_alter_ne by done. apply Hex. lia.
  - exists t. split_and!; [done..|]. intros i m' Hi Hm'. destruct (decide (i = k)) as [->|]; [congruence|].
    apply (Hex i); [lia|done].
Qed.

Lemma reach_joining s :
  sync_inv s → sy_cancelled s = true → sy_main s ≠ Idle → sy_main s ≠ Returned →
  ∃ t, rtc step s t ∧ sy_main t = Joining ∧ sy_state t = stateStopped ∧ sy_cancelled t = true.
Proof.
  intros Hinv Hc Hi Hr. pose proof (sy_at _ Hinv) as Hat.
  assert (step s (stop s) ∨ sy_main s = Joining) as [Hstep|Hj].
  { assert (∀ e, retry e s = stop s) as Hretry by (intros e; unfold retry; by rewrite Hc).
    destruct (sy_main s) eqn:E; try done; [..|by right]; left.
    - pose proof (step_loop s E) as Hl. by rewrite Hc in Hl.
    - rewrite <- (Hretry errStopped). by apply step_height_error.
    - rewrite <- (Hretry errStopped). by eapply step_deliver_error.
    - by apply step_backoff_cancelled. }
  - exists (stop s). split; [by apply rtc_once|]. destruct (transition_frame stateStopped None s) as (Hs & _ & _ & _ & Hc').
    unfold stop, goto. simpl. rewrite Hs, Hc'. split_and!; [done| |done]. by case_decide.
  - exists s. split; [done|]. unfold main_inv in Hat. by rewrite Hj in Hat.
Qed.

(** ** The theorems *)

(** The peer is closed last: once it is, [Start] has returned, every monitor
    goroutine is gone, the state is stopped, and no later step (a late
    cancellation, another call of [Start]) brings one back.  So no goroutine of
    the synchronizer uses the peer after it was closed. *)
Theorem peer_closed_last s t :
  reachable s → sy_peerClosed s = true → rtc step s t →
  sy_main t = Returned ∧ sy_state t = stateStopped ∧ Forall (λ m, mon_at m = Exited) (sy_monitors t).
Proof.
  intros Hinv%reachable_inv Hc%(proj1 (sy_closed _ Hinv)) Hst.
  induction Hst as [s|s s1 t Hstep _ IH].
  - pose proof (sy_at _ Hinv) as Hat. unfold main_inv in Hat. rewrite Hc in Hat.
    split_and!; [done..|]. by apply Hinv.
  - apply IH; [by eapply step_inv|by eapply step_returned].
Qed.

(** C31: cancelling the context always lets [Start] return: from every reachable state
    whose context is canceled, however the monitors stand, there is a way for
    [Start] to stop, join them, close the peer and return; nothing deadlocks. *)
Theorem shutdown_completes s :
  reachable s → sy_cancelled s = true → sy_main s ≠ Idle →
  ∃ t, rtc step s t ∧ sy_main t = Returned ∧ sy_peerClosed t = true.
Proof.
  intros Hinv%reachable_inv Hc Hi. destruct (decide (sy_peerClosed s = true)) as [Hp|Hp].
  { exists s. split_and!; [done| |done]. by apply Hinv. }
  destruct (reach_joining s Hinv Hc Hi) as (t & Hst & Htm & Hts & Htc).
  { intros Hr. apply Hp. by apply Hinv. }
  destruct (drive_monitors t (length (sy_monitors t)) Hts Htc Htm) as (u & Htu & _ & _ & Hum & Hlen & Hex).
  exists (goto (close_peer u) Returned). split_and!; [|done..].
  etrans; [exact Hst|]. etrans; [exact Htu|]. apply rtc_once, step_join; [done|].
  apply Forall_lookup. intros i m Hm. apply (Hex i m); [|done].
  rewrite <- Hlen. by eapply lookup_lt_Some.
Qed.

(** Stopped is final: after it no step changes the state or starts a monitor. *)
Theorem stopped_is_final s t :
  sy_state s = stateStopped → rtc step s t →
  sy_state t = stateStopped ∧ length (sy_monitors t) = length (sy_monitors s).
Proof.
  intros Hs Hst. induction Hst as [|s s1 t Hstep _ IH]; [done|].
  destruct (step_stopped s s1 Hs Hstep) as [Hs1 Hl1]. destruct (IH Hs1) as [? ?]. split; [done|congruence].
Qed.

(** C30: there is at most one monitor whose context is not canceled: in every reachable
    state all others are gone or canceled (a canceled one may still be on its way out of a
    query), and that one exists only while syncing; the back-off is always between one
    second and thirty. *)
Theorem one_live_monitor s :
  reachable s →
  second ≤ sy_backoff s ≤ maxBackoff ∧
  ∀ i m, sy_monitors s !! i = Some m → mon_at m ≠ Exited → mon_cancelled m = false →
    sy_state s = stateSyncing ∧
    ∀ j m', sy_monitors s !! j = Some m' → mon_at m' ≠ Exited → mon_cancelled m' = false → j = i.
Proof.
  intros Hinv%reachable_inv. split; [apply Hinv|]. intros i m Hm Hx Hl. pose proof (sy_mon _ Hinv) as [Hc Hlive].
  pose proof (Hlive i m Hm Hx Hl) as Hi. split; [by apply Hc in Hi as [? _]|].
  intros j m' Hm' Hx' Hl'. pose proof (Hlive j m' Hm' Hx' Hl'). congruence.
Qed.

Lemma transition_ready_only to err s :
  to ≠ stateReady → sy_state s ≠ stateReady → sy_state (transition to err s) ≠ stateReady.
Proof. intros Ht Hs. destruct (transition_frame to err s) as (-> & _). by case_decide. Qed.

(** The readiness probe turns positive only through a monitor that compared the two
    heights and found the local one at least the height of the peer. *)
Theorem ready_only_after_check s t :
  step s t → Ready s ≠ None → Ready t = None →
  ∃ i m, sy_monitors s !! i = Some m ∧ mon_at m = CaughtUp.
Proof.
  assert (∀ u, Ready u = None ↔ sy_state u = stateReady) as Hr by (intros u; unfold Ready; by destruct (sy_state u)).
  rewrite !Hr. intros Hstep Hs Ht. revert Ht.
  assert (∀ e, sy_state (retry e s) ≠ stateReady) as Hretry.
  { intros e. unfold retry, stop, goto. destruct (sy_cancelled s); by apply transition_ready_only. }
  destruct Hstep as [t Hbeg| |Hm|e Hm|n Hm|e n Hm|n Hm|Hm|Hm Hcn|Hm Hall|i m Hm Hp _|i m Hm Hp|i m Hm Hp
    |i m ph db ll Hm Hp _|i m Hm Hp]; try (intros; exfalso; done); try (intros H; exfalso; by eapply Hretry).
  - unfold begin in Hbeg. case_decide; [|done]. by injection Hbeg as <-.
  - destruct (sy_cancelled s); [|done]. intros H. exfalso. by eapply (transition_ready_only stateStopped None s).
  - intros H. exfalso. by eapply (transition_ready_only stateSyncing None s).
  - intros H. exfalso. by eapply (transition_ready_only stateStopped None s).
  - eauto.
Qed.

(** ** Runs *)

Module Runs.

Definition started : Synchronizer := with_main (with_state not_started stateStarting None) AtLoop second.
Definition reading : Synchronizer := goto started ReadingHeight.
Definition syncing : Synchronizer := goto (transition stateSyncing None reading) (Receiving (resume 0)).
Definition querying : Synchronizer := mon_goto syncing 0 Querying.
Definition caught_up : Synchronizer := mon_goto querying 0 (mon_check 1 1).
Definition broken : Synchronizer := retry (Errorf "stream broken" []) caught_up.
Definition reported : Synchronizer := mon_goto (transition stateReady None broken) 0 Exited.

Lemma caught_up_reachable : reachable caught_up.
Proof.
  eapply rtc_l; [by apply (step_start _ started)|].
  eapply rtc_l; [by apply step_loop|]. eapply rtc_l; [by apply (step_height _ 0)|].
  eapply rtc_l; [by apply (step_mon_tick _ 0 (MkMonitor Ticking false))|].
  apply rtc_once. by apply (step_mon_check querying 0 (MkMonitor Querying false) 1 (Ret 0) 1).
Qed.

Lemma broken_reachable : reachable broken.
Proof. eapply rtc_r; [apply caught_up_reachable|]. by eapply step_deliver_error. Qed.

End Runs.

(** Readiness can be reported while the stream is down: a monitor that found the
    heights equal and is scheduled again only after the block stream failed
    still reports, and the probe then answers ready although [Start] is backing
    off after the error. *)
Theorem ready_while_backing_off :
  ∃ s, reachable s ∧ sy_main s = BackingOff ∧ Ready s = None ∧ sy_lastSyncErr s ≠ None.
Proof.
  exists Runs.reported. split_and!; [|done..].
  eapply rtc_r; [apply Runs.broken_reachable|]. by apply (step_mon_ready Runs.broken 0 (MkMonitor CaughtUp true)).
Qed.

Lemma one_live_monitor_witness : sy_state Runs.caught_up = stateSyncing.
Proof.
  destruct (one_live_monitor Runs.caught_up Runs.caught_up_reachable) as [_ H].
  by destruct (H 0%nat (MkMonitor CaughtUp false) eq_refl) as [? _].
Defined.

Lemma shutdown_completes_witness :
  ∃ t, rtc step (with_cancelled Runs.caught_up) t ∧ sy_main t = Returned ∧ sy_peerClosed t = true.
Proof.
  apply shutdown_completes; [|done|done].
  eapply rtc_r; [apply Runs.caught_up_reachable|apply step_cancel].
Defined.

Lemma stopped_is_final_witness :
  sy_state (with_cancelled (stop Runs.caught_up)) = stateStopped.
Proof.
  refine (proj1 (stopped_is_final (stop Runs.caught_up) _ eq_refl _)). apply rtc_once, step_cancel.
Defined.

Lemma ready_only_after_check_witness :
  ∃ i m, sy_monitors Runs.caught_up !! i = Some m ∧ mon_at m = CaughtUp.
Proof.
  eapply (ready_only_after_check Runs.caught_up (mon_goto (transition stateReady None Runs.caught_up) 0 Exited));
    [|done|done].
  by apply (step_mon_ready Runs.caught_up 0 (MkMonitor CaughtUp false)).
Defined.

(** A run that is canceled before it connects. *)
Lemma peer_closed_last_witness :
  let closed := goto (close_peer (stop (with_cancelled Runs.started))) Returned in
  sy_main (with_cancelled closed) = Returned ∧ sy_state (with_cancelled closed) = stateStopped ∧
  Forall (λ m, mon_at m = Exited) (sy_monitors (with_cancelled closed)).
Proof.
  intros closed. apply (peer_closed_last closed); [|done|apply rtc_once, step_cancel].
  eapply rtc_l; [by apply (step_start _ Runs.started)|]. eapply rtc_l; [apply step_cancel|].
  eapply rtc_l; [by apply step_loop|]. by apply rtc_once, step_join.
Defined.
