(* ===== verification/Finality.v ===== *)
(** * Waiting for finality

    The processor of transaction status events (notification/notifier.go), the
    reconnecting [FinalityListener] (notification/finality.go) and the
    translation of sidecar responses into events (network/fabricx/peer.go).

    A response channel of capacity one is a cell of [fl_chans]; its index is
    the channel.  Sending on a full channel blocks the sender, which in
    [Handle] holds the mutex: [Handle] returns [None] then.  The callers of
    [WaitForFinality], the reconnecting session and the stream are the steps of
    [listener_step]; a step is one critical section or one channel operation.

    The theorems: [Handle] never blocks, whatever the interleaving; a caller
    only ever gets an event of its own transaction; as long as no transaction
    id is registered twice, a caller that still waits either has its event or
    is resubscribed by the next connect; and a second registration of the same
    id can be removed by the [Unregister] of the first. *)

From S2P Require Import Prelude Blocks Status.

(** ** Status events and their handlers *)

Record TxStatusEvent := MkTxStatusEvent {
  ev_TxID : string;
  ev_BlockNum : Z;
  ev_TxNum : Z;
  ev_Status : Status;
  ev_RawCode : Z;
  ev_Reason : text }.

Definition event_Valid (e : TxStatusEvent) : bool := Status_Valid (ev_Status e).

(** The message of [ErrTxRejected]. *)
Definition rejected_reason (e : TxStatusEvent) : text :=
  if bool_decide (ev_Reason e = Lit "") then Lit (Status_String (ev_Status e)) else ev_Reason e.

Section processor.
Context {W : Type}.

(** A handler acts on the state of the world and may fail. *)
Definition TxStatusHandler : Type := list TxStatusEvent → W → W * result unit.

Fixpoint handle_all (handlers : list TxStatusHandler) (events : list TxStatusEvent) (w : W) : W * result unit :=
  match handlers with
  | [] => (w, Ret tt)
  | h :: hs =>
      match h events w with
      | (w', Fail err) => (w', Fail (Wrapf "handle batch: %w" [] err))
      | (w', Ret _) => handle_all hs events w'
      end
  end.

Definition ProcessStatuses (handlers : list TxStatusHandler) (events : list TxStatusEvent) (w : W) : W * result unit :=
  if bool_decide (events = []) then (w, Ret tt) else handle_all handlers events w.

End processor.
Arguments TxStatusHandler : clear implicits.

(** ** Sidecar responses

    The records of the generated package committerpb that the SDK reads; a nil
    [Ref] reads as the zero value through its getters. *)

Record TxRef := MkTxRef { ref_TxId : string; ref_BlockNum : Z; ref_TxNum : Z }.

Definition get_ref (r : option TxRef) : TxRef := default (MkTxRef "" 0 0) r.

Record TxStatus := MkTxStatus { ts_Ref : option TxRef; ts_Status : Z }.

Record NotificationResponse := MkNotificationResponse {
  nr_TxStatusEvents : list TxStatus;
  nr_TimeoutTxIds : list string }.

Section responses.
Context `{CommitterCodes}.

Definition convert_status (s : TxStatus) : TxStatusEvent :=
  let '(status, rawCode, reason) := StatusFromCommitterStatus (ts_Status s) in
  let ref := get_ref (ts_Ref s) in
  MkTxStatusEvent (ref_TxId ref) (ref_BlockNum ref) (ref_TxNum ref) status rawCode reason.

Definition convertTxStatuses (statuses : list TxStatus) : list TxStatusEvent := convert_status <$> statuses.

Definition timeout_event (txID : string) : TxStatusEvent :=
  MkTxStatusEvent txID 0 0 StatusUnknown 0 (Lit "").

Definition convertNotificationResponse (res : NotificationResponse) : list TxStatusEvent :=
  convertTxStatuses (nr_TxStatusEvents res) ++ (timeout_event <$> nr_TimeoutTxIds res).

End responses.

(** ** The listener *)

Record FinalityListener := MkFinalityListener {
  fl_pending : gmap string nat;
  fl_chans : list (option TxStatusEvent);
  fl_subCh : list (list string) }.

Definition NewFinalityListener : FinalityListener := MkFinalityListener ∅ [] [].

Definition subCh_cap : nat := 256.

Definition ErrAlreadyRegistered : error := Errorf "txID already registered" [].

Definition with_pending (f : FinalityListener) (p : gmap string nat) : FinalityListener :=
  MkFinalityListener p (fl_chans f) (fl_subCh f).

Definition with_subCh (f : FinalityListener) (q : list (list string)) : FinalityListener :=
  MkFinalityListener (fl_pending f) (fl_chans f) q.

(** The critical section of [Register]: the new channel is the next cell. *)
Definition Register (txID : string) (f : FinalityListener) : result (nat * FinalityListener) :=
  match fl_pending f !! txID with
  | Some _ => Fail (Wrapf "%w: %s" [AStr txID] ErrAlreadyRegistered)
  | None =>
      let responseCh := length (fl_chans f) in
      Ret (responseCh, MkFinalityListener (<[txID := responseCh]> (fl_pending f)) (fl_chans f ++ [None]) (fl_subCh f))
  end.

(** A send on [subCh]: it blocks on a full buffer. *)
Definition subscribe_batch (batch : list string) (f : FinalityListener) : option FinalityListener :=
  if decide (length (fl_subCh f) < subCh_cap)%nat then Some (with_subCh f (fl_subCh f ++ [batch])) else None.

Definition Unregister (txID : string) (f : FinalityListener) : FinalityListener :=
  with_pending f (delete txID (fl_pending f)).

(** One event of [Handle]: send, then delete.  The send blocks on a channel
    that already holds an event. *)
Definition deliver (e : TxStatusEvent) (f : FinalityListener) : option FinalityListener :=
  match fl_pending f !! ev_TxID e with
  | None => Some f
  | Some ch =>
      match fl_chans f !! ch with
      | Some None =>
          Some (MkFinalityListener (delete (ev_TxID e) (fl_pending f)) (<[ch := Some e]> (fl_chans f)) (fl_subCh f))
      | _ => None
      end
  end.

Fixpoint Handle (events : list TxStatusEvent) (f : FinalityListener) : option FinalityListener :=
  match events with
  | [] => Some f
  | e :: es => deliver e f ≫= Handle es
  end.

(** [Handle] as a handler of the processor; a blocked handler has no state to
    continue with. *)
Definition listener_handler : TxStatusHandler (option FinalityListener) :=
  λ events w, (w ≫= Handle events, Ret tt).

(** A receive from a response channel. *)
Definition receive (ch : nat) (f : FinalityListener) : option (TxStatusEvent * FinalityListener) :=
  match fl_chans f !! ch with
  | Some (Some e) => Some (e, MkFinalityListener (fl_pending f) (<[ch := None]> (fl_chans f)) (fl_subCh f))
  | _ => None
  end.

(** [reconcile]: the peer's answer, where the peer is a [StatusQuerier]. *)
Definition reconcile (reply : option (result (list TxStatusEvent))) (f : FinalityListener) : option FinalityListener :=
  match reply with
  | None | Some (Fail _) => Some f
  | Some (Ret events) =>
      let final := filter (λ e, Status_IsFinal (ev_Status e) = true) events in
      if decide (0 < length final)%nat then Handle final f else Some f
  end.

(** The snapshot that [onConnect] takes under the lock, in map order. *)
Definition snapshot_pending (order : ∀ A : Type, gmap string A → list (string * A)) (f : FinalityListener) : list string :=
  (order nat (fl_pending f)).*1.

(** ** Backoff of [Start] *)

Definition initBackoff : Z := 500 * 10 ^ 6.
Definition fin_maxBackoff : Z := 30 * 10 ^ 9.

(** One session of the loop of [Start]: the pause it takes before the next
    one, if any, and the backoff it leaves. *)
Definition after_session (err : bool) (backoff : Z) : option Z * Z :=
  if err then (Some backoff, if backoff <? fin_maxBackoff then backoff * 2 else backoff)
  else (None, initBackoff).

(** The pauses after a run of sessions, [true] for one that failed. *)
Fixpoint pauses (sessions : list bool) (backoff : Z) : list (option Z) :=
  match sessions with
  | [] => []
  | err :: ss => let '(pause, backoff') := after_session err backoff in pause :: pauses ss backoff'
  end.

(** ** Callers, sessions and the stream *)

(** A caller of [WaitForFinality] past the critical section of [Register]. *)
Inductive waiter_pc :=
  | Queueing
  | Waiting
  | Finished (r : option TxStatusEvent).

Record waiter := MkWaiter { wt_TxID : string; wt_at : waiter_pc }.

(** A run of [onConnect] that has its snapshot. *)
Inductive connection :=
  | Resubscribing (txIDs : list string)
  | Reconciling
  | Connected.

(** The caller that made channel [i] is the waiter number [i]. *)
Record listener_world := MkListenerWorld {
  lw_listener : FinalityListener;
  lw_waiters : list waiter;
  lw_connections : list connection;
  lw_sent : list (list string) }.

Definition initial_world : listener_world := MkListenerWorld NewFinalityListener [] [] [].

Definition waiter_goto (ws : list waiter) (i : nat) (pc : waiter_pc) : list waiter :=
  alter (λ w, MkWaiter (wt_TxID w) pc) i ws.

Section steps.
Context `{CommitterCodes} (order : ∀ A : Type, gmap string A → list (string * A)).

Inductive listener_step : listener_world → listener_world → Prop :=
  | ls_register f ws cs sent txID ch f' :
      Register txID f = Ret (ch, f') →
      listener_step (MkListenerWorld f ws cs sent) (MkListenerWorld f' (ws ++ [MkWaiter txID Queueing]) cs sent)
  | ls_queue f ws cs sent i w f' :
      ws !! i = Some w → wt_at w = Queueing → subscribe_batch [wt_TxID w] f = Some f' →
      listener_step (MkListenerWorld f ws cs sent) (MkListenerWorld f' (waiter_goto ws i Waiting) cs sent)
  | ls_event f ws cs sent i w e f' :
      ws !! i = Some w → wt_at w = Waiting → receive i f = Some (e, f') →
      listener_step (MkListenerWorld f ws cs sent) (MkListenerWorld f' (waiter_goto ws i (Finished (Some e))) cs sent)
  | ls_give_up f ws cs sent i w :
      ws !! i = Some w → wt_at w = Queueing ∨ wt_at w = Waiting →
      listener_step (MkListenerWorld f ws cs sent)
        (MkListenerWorld (Unregister (wt_TxID w) f) (waiter_goto ws i (Finished None)) cs sent)
  | ls_connect f ws cs sent :
      listener_step (MkListenerWorld f ws cs sent)
        (MkListenerWorld f ws
           (cs ++ [if decide (length (snapshot_pending order f) = 0%nat) then Connected
                   else Resubscribing (snapshot_pending order f)]) sent)
  | ls_resubscribe f ws cs sent i txIDs f' :
      cs !! i = Some (Resubscribing txIDs) → subscribe_batch txIDs f = Some f' →
      listener_step (MkListenerWorld f ws cs sent) (MkListenerWorld f' ws (<[i := Reconciling]> cs) sent)
  | ls_disconnect f ws cs sent i txIDs :
      cs !! i = Some (Resubscribing txIDs) →
      listener_step (MkListenerWorld f ws cs sent) (MkListenerWorld f ws (<[i := Connected]> cs) sent)
  | ls_reconcile f ws cs sent i reply f' :
      cs !! i = Some Reconciling → reconcile reply f = Some f' →
      listener_step (MkListenerWorld f ws cs sent) (MkListenerWorld f' ws (<[i := Connected]> cs) sent)
  | ls_send f ws cs sent batch q :
      fl_subCh f = batch :: q →
      listener_step (MkListenerWorld f ws cs sent) (MkListenerWorld (with_subCh f q) ws cs (sent ++ [batch]))
  | ls_response f ws cs sent res f' r :
      ProcessStatuses [listener_handler] (convertNotificationResponse res) (Some f) = (Some f', r) →
      listener_step (MkListenerWorld f ws cs sent) (MkListenerWorld f' ws cs sent).

Definition listener_reachable (w : listener_world) : Prop := rtc listener_step initial_world w.

End steps.

(** ** The invariant *)

(** Every pending entry is the empty channel of a caller of that id, and a
    buffered event belongs to the caller that made the channel. *)
Record listener_inv (f : FinalityListener) (ws : list waiter) : Prop := {
  li_length : length ws = length (fl_chans f);
  li_pending : ∀ t c, fl_pending f !! t = Some c →
    fl_chans f !! c = Some None ∧ ∃ w, ws !! c = Some w ∧ wt_TxID w = t;
  li_buffer : ∀ c e w, fl_chans f !! c = Some (Some e) → ws !! c = Some w → ev_TxID e = wt_TxID w;
  li_finished : ∀ c e w, ws !! c = Some w → wt_at w = Finished (Some e) → ev_TxID e = wt_TxID w }.

(** Every caller that is not done is pending or has its event. *)
Definition covered (f : FinalityListener) (ws : list waiter) : Prop :=
  ∀ c w, ws !! c = Some w → (∀ r, wt_at w ≠ Finished r) →
    fl_pending f !! wt_TxID w = Some c ∨ ∃ e, fl_chans f !! c = Some (Some e).

Lemma deliver_inv e f ws :
  listener_inv f ws →
  ∃ f', deliver e f = Some f' ∧ listener_inv f' ws ∧ (covered f ws → covered f' ws).
Proof.
  intros [Hlen Hp Hb Hf]. unfold deliver.
  destruct (fl_pending f !! ev_TxID e) as [ch|] eqn:E; [|by eexists].
  destruct (Hp _ _ E) as (Hch & w & Hw & Ht). rewrite Hch. eexists. split; [done|].
  split; [split; simpl|].
  - by rewrite length_insert.
  - intros t c [Hne Hc]%lookup_delete_Some. destruct (Hp _ _ Hc) as (Hn & w' & Hw' & Ht').
    split; [|by eexists]. rewrite list_lookup_insert_ne; [done|]. intros <-. congruence.
  - intros c e' w' [(<- & He & _)|(Hne & Hc)]%list_lookup_insert_Some Hw'; [congruence|by eapply Hb].
  - done.
  - intros Hcov c w' Hw' Hat. simpl.
    destruct (decide (c = ch)) as [->|Hc].
    + right. exists e. by apply list_lookup_insert_eq, lookup_lt_Some with None.
    + rewrite list_lookup_insert_ne by done.
      destruct (Hcov c w' Hw' Hat) as [Hpc|?]; [left|by right].
      rewrite lookup_delete_ne; [done|]. intros Heq. congruence.
Qed.

Lemma Handle_inv events f ws :
  listener_inv f ws →
  ∃ f', Handle events f = Some f' ∧ listener_inv f' ws ∧ (covered f ws → covered f' ws).
Proof.
  revert f. induction events as [|e es IH]; intros f Hinv; simpl; [by eexists|].
  destruct (deliver_inv e f ws Hinv) as (f1 & -> & Hi1 & Hc1). simpl.
  destruct (IH f1 Hi1) as (f2 & -> & Hi2 & Hc2). naive_solver.
Qed.

Lemma Handle_some_inv events f f' ws :
  Handle events f = Some f' → listener_inv f ws → listener_inv f' ws ∧ (covered f ws → covered f' ws).
Proof. intros Hh Hi. destruct (Handle_inv events f ws Hi) as (f1 & Hf1 & ?). by simplify_eq. Qed.

Lemma subscribe_inv batch f f' ws :
  subscribe_batch batch f = Some f' →
  (listener_inv f ws → listener_inv f' ws) ∧ (covered f ws → covered f' ws).
Proof.
  unfold subscribe_batch. case_decide; intros [= <-]. split; [|done]. by intros [????]; split.
Qed.

Lemma lookup_waiter_goto ws i pc c w :
  waiter_goto ws i pc !! c = Some w →
  ∃ w0, ws !! c = Some w0 ∧ wt_TxID w = wt_TxID w0 ∧ (c = i ∧ wt_at w = pc ∨ c ≠ i ∧ w = w0).
Proof.
  unfold waiter_goto. destruct (decide (i = c)) as [->|Hne].
  - rewrite list_lookup_alter_eq. intros (w0 & Hw & ->)%fmap_Some. naive_solver.
  - rewrite list_lookup_alter_ne by done. naive_solver.
Qed.

Lemma waiter_goto_lookup ws i pc c w0 :
  ws !! c = Some w0 → ∃ w, waiter_goto ws i pc !! c = Some w ∧ wt_TxID w = wt_TxID w0.
Proof.
  intros Hc. unfold waiter_goto. destruct (decide (i = c)) as [->|Hne].
  - rewrite list_lookup_alter_eq, Hc. by eexists.
  - rewrite list_lookup_alter_ne, Hc by done. by eexists.
Qed.

Lemma waiter_goto_ids ws i pc : wt_TxID <$> waiter_goto ws i pc = wt_TxID <$> ws.
Proof.
  apply list_eq. intros c. rewrite !list_lookup_fmap. unfold waiter_goto.
  destruct (decide (i = c)) as [->|Hne].
  - rewrite list_lookup_alter_eq. by destruct (ws !! c).
  - by rewrite list_lookup_alter_ne.
Qed.

(** Moving a caller keeps the invariant, whatever it moves to, if a received
    event is its own. *)
Lemma goto_inv f ws i w pc :
  ws !! i = Some w → (∀ e, pc = Finished (Some e) → ev_TxID e = wt_TxID w) →
  listener_inv f ws → listener_inv f (waiter_goto ws i pc).
Proof.
  intros Hi Hpc [Hlen Hp Hb Hf]. split.
  - unfold waiter_goto. by rewrite length_alter.
  - intros t c Hc. destruct (Hp t c Hc) as (Hn & w0 & Hw0 & Ht). split; [done|].
    destruct (waiter_goto_lookup ws i pc c w0 Hw0) as (w' & Hw' & Ht'). exists w'. by rewrite Ht'.
  - intros c e w' Hc (w0 & Hw0 & -> & _)%lookup_waiter_goto. by eapply Hb.
  - intros c e w' (w0 & Hw0 & -> & [[-> Hat]|[_ ->]])%lookup_waiter_goto Hfin; [|by eapply Hf].
    simplify_eq. apply Hpc. congruence.
Qed.

Lemma goto_covered f ws i w pc :
  ws !! i = Some w → ((∃ r, pc = Finished r) ∨ ∀ r, wt_at w ≠ Finished r) →
  covered f ws → covered f (waiter_goto ws i pc).
Proof.
  intros Hi Hpc Hcov c w' (w0 & Hw0 & Ht & [[-> Hat]|[Hne ->]])%lookup_waiter_goto Hlive; [|by eapply Hcov].
  simplify_eq. destruct Hpc as [[r Hr]|Hpc]; [exfalso; apply (Hlive r); congruence|].
  rewrite Ht. by apply Hcov.
Qed.

Lemma Register_inv txID f ws ch f' :
  Register txID f = Ret (ch, f') → listener_inv f ws →
  let ws' := ws ++ [MkWaiter txID Queueing] in
  listener_inv f' ws' ∧ (covered f ws → covered f' ws').
Proof.
  unfold Register. destruct (fl_pending f !! txID) eqn:E; [done|]. intros [= <- <-] [Hlen Hp Hb Hf].
  split; [split; simpl|].
  - rewrite !length_app. simpl. lia.
  - intros t c [[<- <-]|[Hne Hc]]%lookup_insert_Some.
    + rewrite lookup_app_r, Nat.sub_diag by lia. split; [done|].
      rewrite lookup_app_r, Hlen, Nat.sub_diag by lia. by eexists.
    + destruct (Hp _ _ Hc) as (Hn & w & Hw & Ht).
      split; [by apply lookup_app_l_Some|]. exists w. split; [by apply lookup_app_l_Some|done].
  - intros c e w Hc Hw. apply lookup_app_Some in Hc as [Hc|[_ Hc]].
    + rewrite lookup_app_l in Hw by (rewrite Hlen; by eapply lookup_lt_Some). by eapply Hb.
    + apply list_lookup_singleton_Some in Hc as [_ Hc]. done.
  - intros c e w Hw Hat. apply lookup_app_Some in Hw as [Hw|[_ Hw]]; [by eapply Hf|].
    apply list_lookup_singleton_Some in Hw as [_ <-]. done.
  - intros Hcov c w Hw Hlive. simpl. apply lookup_app_Some in Hw as [Hw|[Hlt Hw]].
    + destruct (Hcov c w Hw Hlive) as [Hc|[e He]].
      * left. rewrite lookup_insert_ne; [done|]. intros ->. congruence.
      * right. exists e. by apply lookup_app_l_Some.
    + apply list_lookup_singleton_Some in Hw as [Hc <-]. left. simpl.
      rewrite lookup_insert_eq. f_equal. lia.
Qed.

Lemma receive_inv i e f f' ws w :
  receive i f = Some (e, f') → ws !! i = Some w → listener_inv f ws →
  ev_TxID e = wt_TxID w ∧ listener_inv f' ws ∧
  (covered f ws → covered f' (waiter_goto ws i (Finished (Some e)))).
Proof.
  unfold receive. destruct (fl_chans f !! i) as [[e'|]|] eqn:E; intros [= <- <-] Hw [Hlen Hp Hb Hf].
  split; [by eapply Hb|]. split; [split; simpl|].
  - by rewrite length_insert.
  - intros t c Hc. destruct (Hp _ _ Hc) as (Hn & Hx). split; [|done].
    rewrite list_lookup_insert_ne; [done|]. intros <-. congruence.
  - intros c e w' [(<- & He & _)|(Hne & Hc)]%list_lookup_insert_Some Hw'; [done|by eapply Hb].
  - done.
  - intros Hcov c w' (w0 & Hw0 & Ht & [[-> Hat]|[Hne ->]])%lookup_waiter_goto Hlive.
    { by destruct (Hlive _ Hat). }
    simpl. rewrite list_lookup_insert_ne by done. by apply Hcov.
Qed.

Lemma Unregister_inv t f ws : listener_inv f ws → listener_inv (Unregister t f) ws.
Proof.
  intros [Hlen Hp Hb Hf]. split; simpl; try done. intros t' c [_ Hc]%lookup_delete_Some. by apply Hp.
Qed.

(** The [Unregister] of a caller takes only its own entry away, if it is the
    only caller with its id. *)
Lemma Unregister_covered f ws i w :
  NoDup (wt_TxID <$> ws) → ws !! i = Some w → covered f ws →
  covered (Unregister (wt_TxID w) f) (waiter_goto ws i (Finished None)).
Proof.
  intros HN Hi Hcov c w' (w0 & Hw0 & Ht & [[-> Hat]|[Hne ->]])%lookup_waiter_goto Hlive.
  { by destruct (Hlive _ Hat). }
  destruct (Hcov c w0 Hw0 Hlive) as [Hc|?]; [left|by right]. simpl.
  rewrite lookup_delete_ne; [done|]. intros Heq. apply Hne.
  eapply NoDup_lookup; [exact HN|..]; rewrite list_lookup_fmap; [by rewrite Hw0|by rewrite Hi; f_equal/=].
Qed.

Lemma response_handle events f f' r :
  ProcessStatuses [listener_handler] events (Some f) = (Some f', r) → Handle events f = Some f'.
Proof. unfold ProcessStatuses. case_bool_decide as He; simpl; [by intros [= <- _]; subst|by intros [= -> _]]. Qed.

Definition world_inv (w : listener_world) : Prop :=
  listener_inv (lw_listener w) (lw_waiters w) ∧
  (NoDup (wt_TxID <$> lw_waiters w) → covered (lw_listener w) (lw_waiters w)).

Lemma listener_step_inv `{CommitterCodes} order w w' :
  listener_step order w w' → world_inv w → world_inv w'.
Proof.
  intros Hstep [Hi Hc]. unfold world_inv.
  destruct Hstep as [f ws cs sent t ch f' Hr|f ws cs sent i w f' Hw Hat Hq|f ws cs sent i w e f' Hw Hat Hr
    |f ws cs sent i w Hw Hat|f ws cs sent|f ws cs sent i ts f' Hcs Hq|f ws cs sent i ts Hcs
    |f ws cs sent i reply f' Hcs Hr|f ws cs sent b q Hq|f ws cs sent res f' r Hr]; simpl in *.
  - destruct (Register_inv _ _ ws _ _ Hr Hi) as [? Hcov]. split; [done|].
    rewrite fmap_app. intros [HN _]%NoDup_app. auto.
  - destruct (subscribe_inv _ _ _ ws Hq) as [Hi' Hc']. rewrite waiter_goto_ids.
    split; [apply (goto_inv _ _ _ w); auto; naive_solver|].
    intros HN. apply (goto_covered _ _ _ w); [done|right; congruence|auto].
  - destruct (receive_inv _ _ _ _ ws w Hr Hw Hi) as (He & Hi' & Hc'). rewrite waiter_goto_ids.
    split; [apply (goto_inv _ _ _ w); auto; naive_solver|auto].
  - rewrite waiter_goto_ids. split; [|intros HN; by apply Unregister_covered; auto].
    apply (goto_inv _ _ _ w); [done|naive_solver|by apply Unregister_inv].
  - done.
  - destruct (subscribe_inv _ _ _ ws Hq). auto.
  - done.
  - unfold reconcile in Hr. destruct reply as [[events|]|]; simplify_eq/=; try done.
    case_decide; simplify_eq; [|done]. destruct (Handle_some_inv _ _ _ ws Hr Hi). auto.
  - split; [by destruct Hi; split|done].
  - apply response_handle in Hr. destruct (Handle_some_inv _ _ _ ws Hr Hi). auto.
Qed.

Lemma listener_reachable_inv `{CommitterCodes} order w : listener_reachable order w → world_inv w.
Proof.
  intros Hr. refine (rtc_ind_r world_inv initial_world _ _ w Hr).
  - split; [|intros _]; [split|]; simpl; try done.
  - intros w1 w2 _ Hs Hw. by eapply listener_step_inv.
Qed.

(** A buffered event stays where it is: nothing pending uses its channel. *)
Lemma Handle_keeps events f f' ws c e :
  listener_inv f ws → fl_chans f !! c = Some (Some e) → Handle events f = Some f' →
  fl_chans f' !! c = Some (Some e).
Proof.
  revert f. induction events as [|e' es IH]; intros f Hi Hc Hh; simpl in *; [congruence|].
  destruct (deliver_inv e' f ws Hi) as (f1 & Hf1 & Hi1 & _). rewrite Hf1 in Hh. simpl in Hh.
  apply (IH f1); [done| |done]. unfold deliver in Hf1.
  destruct (fl_pending f !! ev_TxID e') as [c'|] eqn:E; [|by simplify_eq].
  destruct (li_pending _ _ Hi _ _ E) as [Hn _]. rewrite Hn in Hf1. simplify_eq. simpl.
  rewrite list_lookup_insert_ne; [done|congruence].
Qed.

(** What [Handle] gives a pending caller: the first event of its id. *)
Lemma Handle_first events f f' ws t c :
  listener_inv f ws → fl_pending f !! t = Some c → Handle events f = Some f' →
  match list_find (λ e, ev_TxID e = t) events with
  | Some (_, e) => fl_chans f' !! c = Some (Some e)
  | None => fl_pending f' !! t = Some c
  end.
Proof.
  revert f. induction events as [|e es IH]; intros f Hi Hp Hh; simpl in *; [by simplify_eq|].
  destruct (deliver_inv e f ws Hi) as (f1 & Hf1 & Hi1 & _). rewrite Hf1 in Hh. simpl in Hh.
  destruct (li_pending _ _ Hi _ _ Hp) as [Hn (w & Hw & Ht)].
  unfold deliver in Hf1. case_decide as He.
  - rewrite He, Hp, Hn in Hf1. simplify_eq. simpl in *.
    eapply Handle_keeps; [exact Hi1|simpl|exact Hh]. by apply list_lookup_insert_eq, lookup_lt_Some with None.
  - assert (fl_pending f1 !! t = Some c) as Hp1.
    { destruct (fl_pending f !! ev_TxID e) as [c'|] eqn:E; [|by simplify_eq].
      destruct (li_pending _ _ Hi _ _ E) as [Hn' _]. rewrite Hn' in Hf1. simplify_eq. simpl.
      by rewrite lookup_delete_ne. }
    specialize (IH f1 Hi1 Hp1 Hh). destruct (list_find _ es) as [[i e']|]; done.
Qed.

(** ** Theorems *)

(** The comment "buffered(1): never blocks" of [Handle] is right: in every
    reachable state, whatever the callers, reconnects and earlier responses
    did, processing a response of the stream and reconciling a reply of the
    peer both run to completion. *)
Theorem Handle_never_blocks `{CommitterCodes} order w res reply :
  listener_reachable order w →
  (∃ f', ProcessStatuses [listener_handler] (convertNotificationResponse res) (Some (lw_listener w)) = (Some f', Ret tt)) ∧
  is_Some (reconcile reply (lw_listener w)).
Proof.
  intros Hr%listener_reachable_inv. destruct Hr as [Hi _]. split.
  - unfold ProcessStatuses. case_bool_decide; [by eexists|]. simpl.
    destruct (Handle_inv (convertNotificationResponse res) _ _ Hi) as (f' & -> & _). by eexists.
  - unfold reconcile. destruct reply as [[events|]|]; try by eexists. case_decide; [|by eexists].
    destruct (Handle_inv (filter (λ e, Status_IsFinal (ev_Status e) = true) events) _ _ Hi) as (f' & -> & _).
    by eexists.
Qed.

(** A caller of [WaitForFinality] only ever returns an event of the
    transaction it asked for. *)
Theorem WaitForFinality_own_event `{CommitterCodes} order w i c e :
  listener_reachable order w → lw_waiters w !! i = Some c → wt_at c = Finished (Some e) →
  ev_TxID e = wt_TxID c.
Proof. intros [Hi _]%listener_reachable_inv Hc Hat. by eapply li_finished. Qed.

(** Nothing is lost while the ids are distinct: a caller that has not
    returned has its event in its channel, or is in the set that the next
    connect resubscribes and gets the first event of its id from the next
    batch that has one. *)
Theorem no_waiter_lost `{CommitterCodes} order w i c :
  map_order order → listener_reachable order w → NoDup (wt_TxID <$> lw_waiters w) →
  lw_waiters w !! i = Some c → (∀ r, wt_at c ≠ Finished r) →
  (∃ e, fl_chans (lw_listener w) !! i = Some (Some e) ∧ ev_TxID e = wt_TxID c) ∨
  (wt_TxID c ∈ snapshot_pending order (lw_listener w) ∧
   ∀ events, ∃ f', Handle events (lw_listener w) = Some f' ∧
     match list_find (λ e, ev_TxID e = wt_TxID c) events with
     | Some (_, e) => fl_chans f' !! i = Some (Some e)
     | None => fl_pending f' !! wt_TxID c = Some i
     end).
Proof.
  intros Hord Hr%listener_reachable_inv HN Hc Hlive. destruct Hr as [Hi Hcov].
  destruct (Hcov HN i c Hc Hlive) as [Hp|[e He]]; [right|left].
  - split.
    + unfold snapshot_pending. rewrite (Hord nat _).
      apply list_elem_of_fmap. exists (wt_TxID c, i). by rewrite elem_of_map_to_list.
    + intros events. destruct (Handle_inv events _ _ Hi) as (f' & Hf' & _). exists f'.
      split; [done|]. by eapply Handle_first.
  - exists e. split; [done|]. by eapply li_buffer.
Qed.

Lemma pauses_pow n k :
  (k ≤ 6)%nat →
  pauses (replicate n true) (initBackoff * 2 ^ Z.of_nat k) =
  (λ i, Some ((initBackoff * 2 ^ Z.of_nat i) `min` (32 * 10 ^ 9))) <$> seq k n.
Proof.
  revert k. induction n as [|n IH]; intros k Hk; csimpl; [done|].
  destruct (decide (k = 6)%nat) as [->|Hne].
  - f_equal. change (initBackoff * 2 ^ Z.of_nat 6 <? fin_maxBackoff) with false. cbv iota.
    rewrite (IH 6%nat) by lia. apply list_eq. intros i. rewrite !list_lookup_fmap.
    destruct (decide (i < n)%nat) as [Hi|Hi].
    + rewrite !lookup_seq_lt by lia. simpl. do 2 f_equal.
      assert (∀ j, (6 ≤ j)%nat → (initBackoff * 2 ^ Z.of_nat j) `min` (32 * 10 ^ 9) = 32 * 10 ^ 9) as Hmin;
        [|by rewrite !Hmin by lia].
      intros j Hj. apply Z.min_r. transitivity (initBackoff * 2 ^ 6); [done|].
      apply Z.mul_le_mono_nonneg_l; [done|]. apply Z.pow_le_mono_r; lia.
    + by rewrite !lookup_seq_ge by lia.
  - assert (initBackoff * 2 ^ Z.of_nat k < fin_maxBackoff ∧
            (initBackoff * 2 ^ Z.of_nat k) `min` (32 * 10 ^ 9) = initBackoff * 2 ^ Z.of_nat k) as [Hlt ->].
    { do 6 (destruct k as [|k]; [done|]). lia. }
    rewrite (proj2 (Z.ltb_lt _ _) Hlt). f_equal. rewrite <- (IH (S k)) by lia. f_equal.
    rewrite Nat2Z.inj_succ, Z.pow_succ_r by lia. lia.
Qed.

(** The pauses of [Start] over consecutive failures double from half a
    second and stay at 32 seconds from the seventh failure on. *)
Theorem finality_backoff n :
  pauses (replicate n true) initBackoff =
  (λ i, Some ((initBackoff * 2 ^ Z.of_nat i) `min` (32 * 10 ^ 9))) <$> seq 0 n.
Proof. apply (pauses_pow n 0). lia. Qed.

(** ** Concrete runs *)

Module Waiters.

#[local] Existing Instance committer_codes.

Definition committed (txID : string) : NotificationResponse :=
  MkNotificationResponse [MkTxStatus (Some (MkTxRef txID 7 0)) 1] [].

Definition event (txID : string) : TxStatusEvent := convert_status (MkTxStatus (Some (MkTxRef txID 7 0)) 1).

(** One caller waits for "a". *)
Definition one : listener_world :=
  MkListenerWorld (MkFinalityListener {["a" := 0%nat]} [None] [["a"]]) [MkWaiter "a" Waiting] [] [].

Lemma one_reachable : listener_reachable map_list one.
Proof.
  unfold listener_reachable, one.
  eapply rtc_l; [eapply (ls_register _ _ [] [] [] "a"); reflexivity|].
  eapply rtc_l; [eapply (ls_queue _ _ _ _ _ 0); reflexivity|]. apply rtc_refl.
Qed.

(** It has been told. *)
Definition told : listener_world :=
  MkListenerWorld (MkFinalityListener ∅ [Some (event "a")] [["a"]]) [MkWaiter "a" Waiting] [] [].

Lemma told_reachable : listener_reachable map_list told.
Proof.
  eapply rtc_r; [exact one_reachable|]. eapply (ls_response _ _ _ _ _ (committed "a")). reflexivity.
Qed.

Definition returned : listener_world :=
  MkListenerWorld (MkFinalityListener ∅ [None] [["a"]]) [MkWaiter "a" (Finished (Some (event "a")))] [] [].

Lemma returned_reachable : listener_reachable map_list returned.
Proof.
  eapply rtc_r; [exact told_reachable|]. eapply (ls_event _ _ [MkWaiter "a" Waiting] _ _ 0); reflexivity.
Qed.

(** A second caller registers "a" after the first was told; the first, whose
    context ends at that moment, unregisters. *)
Definition lost : listener_world :=
  MkListenerWorld (MkFinalityListener ∅ [Some (event "a"); None] [["a"]; ["a"]])
    [MkWaiter "a" (Finished None); MkWaiter "a" Waiting] [] [].

Definition rivals : listener_world :=
  MkListenerWorld (MkFinalityListener {["a" := 1%nat]} [Some (event "a"); None] [["a"]; ["a"]])
    [MkWaiter "a" Waiting; MkWaiter "a" Waiting] [] [].

Lemma rivals_reachable : listener_reachable map_list rivals.
Proof.
  eapply rtc_r; [eapply rtc_r; [exact told_reachable|]|].
  - eapply (ls_register _ _ _ _ _ "a"); reflexivity.
  - eapply (ls_queue _ _ [MkWaiter "a" Waiting; MkWaiter "a" Queueing] _ _ 1); reflexivity.
Qed.

Lemma lost_reachable : listener_reachable map_list lost.
Proof.
  eapply rtc_r; [exact rivals_reachable|].
  exact (ls_give_up _ (lw_listener rivals) (lw_waiters rivals) [] [] 0 _ eq_refl (or_intror eq_refl)).
Qed.

End Waiters.

(** [Unregister] works by id, so a caller whose context ends after it was
    told can remove the entry of a later caller of the same id: that caller
    waits, is not resubscribed, and no batch of events reaches it. *)
Theorem unregister_removes_successor :
  ∃ order w i c, @listener_reachable committer_codes order w ∧
    lw_waiters w !! i = Some c ∧ wt_at c = Waiting ∧
    wt_TxID c ∉ snapshot_pending order (lw_listener w) ∧
    ∀ events, Handle events (lw_listener w) = Some (lw_listener w) ∧ receive i (lw_listener w) = None.
Proof.
  exists map_list, Waiters.lost, 1%nat, (MkWaiter "a" Waiting).
  split; [exact Waiters.lost_reachable|]. split_and!; [done..|vm_compute; by intros ?%elem_of_nil|].
  intros events. split; [|reflexivity].
  induction events as [|e es IH]; [done|]. simpl. unfold deliver. simpl.
  by rewrite lookup_empty.
Qed.

Lemma Handle_never_blocks_witness :
  ∃ f', ProcessStatuses [listener_handler] (convertNotificationResponse (H := committer_codes) (Waiters.committed "a"))
    (Some (lw_listener Waiters.one)) = (Some f', Ret tt).
Proof.
  exact (proj1 (Handle_never_blocks (H := committer_codes) map_list Waiters.one (Waiters.committed "a") None
    Waiters.one_reachable)).
Defined.

Lemma WaitForFinality_own_event_witness : ev_TxID (Waiters.event "a") = "a".
Proof.
  exact (WaitForFinality_own_event (H := committer_codes) map_list Waiters.returned 0 _ _
    Waiters.returned_reachable eq_refl eq_refl).
Defined.

Lemma no_waiter_lost_witness :
  (∃ e, fl_chans (lw_listener Waiters.one) !! 0%nat = Some (Some e) ∧ ev_TxID e = "a") ∨
  "a" ∈ snapshot_pending map_list (lw_listener Waiters.one).
Proof.
  destruct (no_waiter_lost (H := committer_codes) map_list Waiters.one 0 (MkWaiter "a" Waiting)
    map_list_order Waiters.one_reachable (NoDup_singleton _) eq_refl ltac:(intros r; discriminate))
    as [?|[? _]]; [by left|by right].
Defined.
