(* ===== verification/Delivery.v ===== *)
(** * The two ways a block reaches a client

    A client gets committed transactions either from delivered blocks, which
    the block parser decodes (Parser.v), or from the sidecar's block feed.
    This file models the feed: the request ([toProtoStreamAllRequest]) and the
    translation of its events ([convertBlockEvent]) in network/fabricx/peer.go,
    the data types of notification/all_tx.go, and the server side of the test
    network, [buildBlockEvent] of fabrictest/peer.go.

    The theorem [feed_agrees_with_blocks] is the promise in the comment of
    [convertBlockEvent]: both paths deliver the same hashes and, up to the
    filters of the request, the same transactions. *)

From S2P Require Import Prelude Blocks Status Proto Endorse Parser Finality.

(** ** Requests *)

Record StreamAllRequest := MkStreamAllRequest {
  sa_FilterNamespaces : list string;
  sa_FilterStatus : list Status;
  sa_IncludeReadWriteSets : bool;
  sa_IncludeEndorsements : bool;
  sa_IncludeMetadata : bool }.

(** The generated [committerpb.StreamBlocksRequest]. *)
Record StreamBlocksRequest := MkStreamBlocksRequest {
  sb_FilterNamespaces : list string;
  sb_FilterStatus : list Z;
  sb_IncludeReadWriteSets : bool;
  sb_IncludeEndorsements : bool;
  sb_IncludeMetadata : bool }.

Definition toProtoStreamAllRequest `{CommitterCodes} (req : option StreamAllRequest) : StreamBlocksRequest :=
  match req with
  | None => MkStreamBlocksRequest [] [] false false false
  | Some req =>
      {| sb_FilterNamespaces := sa_FilterNamespaces req;
         sb_FilterStatus := toProtoFilterStatus (sa_FilterStatus req);
         sb_IncludeReadWriteSets := sa_IncludeReadWriteSets req;
         sb_IncludeEndorsements := sa_IncludeEndorsements req;
         sb_IncludeMetadata := sa_IncludeMetadata req |}
  end.

Section Feed.
Context `{Protos} `{HeaderTypes} `{CommitterCodes}.
Context (BlockHeaderHash : BlockHeader → bytes).

(** ** Events of the feed *)

(** The generated [committerpb.TxEvent] and [committerpb.BlockEvent]. *)
Record TxEvent := MkTxEvent {
  te_Ref : option TxRef;
  te_Status : Z;
  te_Namespaces : list TxNamespace;
  te_Endorsements : list Endorsements;
  te_Metadata : list bytes }.

Record BlockEvent := MkBlockEvent { be_Header : option BlockHeader; be_Events : list TxEvent }.

(** ** The server of the test network *)

Definition filterNamespaces (all : list TxNamespace) (filt : list string) : list TxNamespace * bool :=
  match filt with
  | [] => (all, true)
  | _ =>
      let matching := filter (λ ns, txns_NsId ns ∈ filt) all in
      (matching, (0 <? length matching)%nat)
  end.

(** One envelope.  [txFilter[txNum]] panics behind the end of the filter and
    [block.Header.Number] without a header. *)
Definition build_event (header : option BlockHeader) (txFilter : bytes) (req : StreamBlocksRequest)
    (txNum : nat) (envBytes : bytes) : outcome (option TxEvent) :=
  match Unmarshal (M := Envelope) envBytes with
  | Fail _ => Ok None
  | Ret env =>
      match Unmarshal (M := Payload) (env_Payload env) with
      | Fail _ => Ok None
      | Ret pl =>
          match pl_Header pl with
          | None => Ok None
          | Some hdr =>
              match Unmarshal (M := ChannelHeader) (hdr_ChannelHeader hdr) with
              | Fail _ => Ok None
              | Ret chdr =>
                  if negb (chdr_Type chdr =? HeaderType_MESSAGE) then Ok None
                  else
                    match Unmarshal (M := AppTx) (pl_Data pl) with
                    | Fail _ => Ok None
                    | Ret ptx =>
                        b ← deref (txFilter !! txNum);
                        let status := Z.of_N (Byte.to_N b) in
                        if negb (statusMatches status (sb_FilterStatus req)) then Ok None
                        else
                          let '(namespaces, touched) := filterNamespaces (apptx_Namespaces ptx) (sb_FilterNamespaces req) in
                          if negb touched then Ok None
                          else
                            h ← deref header;
                            Ok (Some {|
                              te_Ref := Some (MkTxRef (chdr_TxId chdr) (bh_Number h) (Z.of_nat txNum mod 2 ^ 32));
                              te_Status := status;
                              te_Namespaces := if sb_IncludeReadWriteSets req then namespaces else [];
                              te_Endorsements := if sb_IncludeEndorsements req then apptx_Endorsements ptx else [];
                              te_Metadata := if sb_IncludeMetadata req then apptx_Metadata ptx else [] |})
                    end
              end
          end
      end
  end.

Fixpoint build_events (header : option BlockHeader) (txFilter : bytes) (req : StreamBlocksRequest)
    (txNum : nat) (data : list bytes) : outcome (list TxEvent) :=
  match data with
  | [] => Ok []
  | envBytes :: data' =>
      e ← build_event header txFilter req txNum envBytes;
      es ← build_events header txFilter req (S txNum) data';
      Ok (option_list e ++ es)
  end.

(** No event: no message is sent. *)
Definition buildBlockEvent (block : RawBlock) (req : StreamBlocksRequest) : outcome (option BlockEvent) :=
  metadata ← deref (rb_Metadata block);
  txFilter ← deref (metadata !! BlockMetadataIndex_TRANSACTIONS_FILTER);
  data ← deref (rb_Data block);
  events ← build_events (rb_Header block) txFilter req 0 data;
  Ok (if (length events =? 0)%nat then None else Some (MkBlockEvent (rb_Header block) events)).

(** [StreamBlocks] over the blocks that arrive on the subscriber channel until
    it is closed: [send_error n] is the error of the send number [n], if it
    fails.  The result is the messages sent and the error returned. *)
Fixpoint StreamBlocks (send_error : nat → option error) (req : StreamBlocksRequest) (sub : list RawBlock)
    (sent : list BlockEvent) : outcome (list BlockEvent * option error) :=
  match sub with
  | [] => Ok (sent, None)
  | block :: sub' =>
      batch ← buildBlockEvent block req;
      match batch with
      | None => StreamBlocks send_error req sub' sent
      | Some e =>
          match send_error (length sent) with
          | Some err => Ok (sent, Some err)
          | None => StreamBlocks send_error req sub' (sent ++ [e])
          end
      end
  end.

(** As long as the sends succeed, the stream carries the event of every block
    that has one, in order. *)
Lemma StreamBlocks_sends req sub sent events :
  mapM (M := outcome) (λ block, buildBlockEvent block req) sub = Ok events →
  StreamBlocks (λ _, None) req sub sent = Ok (sent ++ omap (M := list) id events, None).
Proof.
  revert sent events. induction sub as [|block sub IH]; intros sent events; simpl.
  { intros [= <-]. by rewrite app_nil_r. }
  rewrite outcome_bind_ok. intros (e & -> & Hm). apply outcome_bind_ok in Hm as (es & Hes & [= <-]).
  simpl. destruct e as [e|]; simpl; rewrite (IH _ es Hes); [|done]. by rewrite <- app_assoc.
Qed.

(** ** The client *)

Record CommittedTxEvent := MkCommittedTxEvent {
  ct_Transaction : Transaction;
  ct_BlockNum : Z;
  ct_Endorsements : list Endorsements }.

Record AllTxBatch := MkAllTxBatch {
  ab_BlockNumber : Z;
  ab_Hash : bytes;
  ab_ParentHash : bytes;
  ab_Events : list CommittedTxEvent }.

Definition convert_event (e : TxEvent) : CommittedTxEvent :=
  let md := DecodeMetadata (te_Metadata e) in
  let ref := get_ref (te_Ref e) in
  let tx := {| tx_ID := ref_TxId ref; tx_Number := ref_TxNum ref; tx_InputArgs := md_InputArgs md;
               tx_Status := StatusUnknown; tx_RawCode := 0; tx_Reason := Lit "";
               tx_Event := md_Event md; tx_EventName := md_EventName md; tx_Payload := md_Payload md;
               tx_NsRWS := DecodeNamespaces (te_Namespaces e) |} in
  let '(status, rawCode, reason) := StatusFromCommitterStatus (te_Status e) in
  MkCommittedTxEvent (SetStatus tx status rawCode reason) (ref_BlockNum ref) (te_Endorsements e).

(** Without a header the number is zero and the hashes are empty. *)
Definition convertBlockEvent (batch : BlockEvent) : AllTxBatch :=
  let events := convert_event <$> be_Events batch in
  match be_Header batch with
  | None => MkAllTxBatch 0 [] [] events
  | Some h => MkAllTxBatch (bh_Number h) (BlockHeaderHash h) (bh_PreviousHash h) events
  end.

(** ** What the feed delivers *)

(** The filters of a request on the transactions of a parsed block. *)
Definition restrict (req : StreamBlocksRequest) (tx : Transaction) : option Transaction :=
  if negb (statusMatches (tx_RawCode tx) (sb_FilterStatus req)) then None
  else
    match sb_FilterNamespaces req with
    | [] => Some tx
    | _ =>
        let nsrws := filter (λ n, ns_Namespace n ∈ sb_FilterNamespaces req) (tx_NsRWS tx) in
        if (0 <? length nsrws)%nat then Some {|
          tx_ID := tx_ID tx; tx_Number := tx_Number tx; tx_InputArgs := tx_InputArgs tx;
          tx_Status := tx_Status tx; tx_RawCode := tx_RawCode tx; tx_Reason := tx_Reason tx;
          tx_Event := tx_Event tx; tx_EventName := tx_EventName tx; tx_Payload := tx_Payload tx;
          tx_NsRWS := nsrws |}
        else None
    end.

Context `{!HeaderTypesLaws}.

#[local] Arguments Z.of_N : simpl never.
#[local] Arguments Z.modulo : simpl never.

(** The part of an event that a client sees as a transaction. *)
Definition event_tx (e : TxEvent) : Transaction := ct_Transaction (convert_event e).

Lemma filterNamespaces_decode all filt namespaces touched :
  filterNamespaces all filt = (namespaces, touched) →
  DecodeNamespaces namespaces = match filt with [] => DecodeNamespaces all | _ =>
    filter (λ n, ns_Namespace n ∈ filt) (DecodeNamespaces all) end ∧
  touched = match filt with [] => true | _ =>
    (0 <? length (filter (λ n, ns_Namespace n ∈ filt) (DecodeNamespaces all)))%nat end.
Proof.
  assert (∀ filt : list string, DecodeNamespaces (filter (λ ns, txns_NsId ns ∈ filt) all) =
    filter (λ n, ns_Namespace n ∈ filt) (DecodeNamespaces all)) as Hf.
  { intros filt'. unfold DecodeNamespaces. induction all as [|ns all IH]; csimpl; [done|].
    rewrite !filter_cons. simpl. case_decide; csimpl; by rewrite ?IH. }
  unfold filterNamespaces. destruct filt as [|f filt]; intros [= <- <-]; [done|].
  rewrite <- Hf. split; [done|]. unfold DecodeNamespaces. by rewrite length_fmap.
Qed.

(** One envelope: the feed has an event exactly when the parser has a
    transaction that passes the filters, and it is that transaction. *)
Lemma build_event_parsed h txFilter b req number n envBytes :
  txFilter !! n = Some b → Z.of_nat n < 2 ^ 32 →
  sb_IncludeReadWriteSets req = true → sb_IncludeMetadata req = true →
  ∃ e, build_event (Some h) txFilter req n envBytes = Ok e ∧
    event_tx <$> e = match parse_envelope fabricx_statusForTx fabricx_ParseTx txFilter number n envBytes with
                     | Ok (Parsed tx) => restrict req tx
                     | _ => None
                     end ∧
    (∀ e', e = Some e' → ct_BlockNum (convert_event e') = bh_Number h).
Proof.
  intros Hb Hn Hrws Hmd. destruct header_types_distinct as [Hne _].
  unfold build_event, parse_envelope.
  destruct (Unmarshal envBytes) as [env|]; [|by eexists].
  destruct (Unmarshal (env_Payload env)) as [pl|] eqn:Epl; [|by eexists].
  destruct (pl_Header pl) as [hdr|] eqn:Eh; [|by eexists].
  destruct (Unmarshal (hdr_ChannelHeader hdr)) as [chdr|] eqn:Ec; [|by eexists].
  destruct (chdr_Type chdr =? HeaderType_MESSAGE) eqn:Em; simpl.
  - apply Z.eqb_eq in Em. rewrite Em, (proj2 (Z.eqb_neq _ _) Hne).
    unfold fabricx_ParseTx. rewrite Epl. simpl. rewrite Eh, Ec. simpl. rewrite Em, Z.eqb_refl. simpl.
    destruct (Unmarshal (pl_Data pl)) as [ptx|]; simpl; [|by eexists].
    unfold fabricx_statusForTx. rewrite Hb. simpl.
    unfold StatusFromCommitterStatus.
    unfold restrict. simpl. destruct (statusMatches _ _); simpl; [|by eexists].
    destruct (filterNamespaces _ _) as [namespaces touched] eqn:Ens.
    apply filterNamespaces_decode in Ens as [Hdec ->].
    destruct (sb_FilterNamespaces req) as [|f filt] eqn:Ef; simpl.
    + eexists. split; [done|]. rewrite Hrws, Hmd. unfold event_tx, convert_event, StatusFromCommitterStatus. simpl.
      split; [|by intros e' [= <-]]. rewrite Z.mod_small by lia. unfold SetNumber, SetStatus. simpl. by rewrite Hdec.
    + destruct (_ <? _)%nat; simpl; [|by eexists].
      eexists. split; [done|]. rewrite Hrws, Hmd. unfold event_tx, convert_event, StatusFromCommitterStatus. simpl.
      split; [|by intros e' [= <-]]. rewrite Z.mod_small by lia. unfold SetNumber, SetStatus. simpl. by rewrite Hdec.
  - eexists. split; [done|]. split; [|done]. simpl.
    unfold fabricx_ParseTx. rewrite Epl. simpl. rewrite Eh, Ec. simpl. rewrite Em. simpl.
    repeat case_match; simplify_eq; done.
Qed.

Lemma build_events_parsed h txFilter req n data block block' :
  (n + length data ≤ length txFilter)%nat → Z.of_nat (n + length data) ≤ 2 ^ 32 →
  sb_IncludeReadWriteSets req = true → sb_IncludeMetadata req = true →
  parse_loop fabricx_statusForTx fabricx_ParseTx txFilter n data block = Ok block' →
  ∃ es txs, build_events (Some h) txFilter req n data = Ok es ∧
    blk_Transactions block' = blk_Transactions block ++ txs ∧ event_tx <$> es = omap (restrict req) txs ∧
    Forall (λ e, ct_BlockNum (convert_event e) = bh_Number h) es.
Proof.
  intros Hlen Hsz Hrws Hmd. revert n block Hlen Hsz.
  induction data as [|envBytes data IH]; intros n block Hlen Hsz; simpl in *.
  { intros [= <-]. exists [], []. by rewrite app_nil_r. }
  rewrite outcome_bind_ok. intros (p & Hp & Hloop).
  destruct (lookup_lt_is_Some_2 txFilter n) as [b Hb]; [lia|].
  destruct (build_event_parsed h txFilter b req (blk_Number block) n envBytes Hb) as (e & -> & He & Hnum); [lia|done..|].
  rewrite Hp in He. destruct (IH (S n) _ ltac:(lia) ltac:(lia) Hloop) as (es & txs & -> & Htxs & Hes & Hall).
  simpl. assert (Forall (λ e, ct_BlockNum (convert_event e) = bh_Number h) (option_list e ++ es)) as Hall'.
  { apply Forall_app. split; [|done]. destruct e; [|constructor]. constructor; [by apply Hnum|constructor]. }
  destruct p as [|c|tx]; simpl in *.
  1,2: destruct e; [done|]; exists es, txs; done.
  exists (option_list e ++ es), (tx :: txs). rewrite <- app_assoc in Htxs. split_and!; [done..| |done].
  rewrite fmap_app, Hes. simpl. rewrite <- He. by destruct e.
Qed.

(** C10: a client sees the same blocks on both paths: for a block that the parser accepts,
    a feed that includes read-write sets and metadata sends an event whose number
    and hashes are those of the parsed block and whose transactions are the parsed
    ones that pass the filters, in block order; it sends nothing exactly when none
    passes. *)
Theorem feed_agrees_with_blocks now b header txFilter data block req :
  raw_parts b header txFilter data → (length data ≤ length txFilter)%nat → Z.of_nat (length data) ≤ 2 ^ 32 →
  sb_IncludeReadWriteSets req = true → sb_IncludeMetadata req = true →
  fabricx_Parse BlockHeaderHash now b = Ok block →
  ∃ event, buildBlockEvent b req = Ok event ∧
    match event with
    | None => omap (restrict req) (blk_Transactions block) = []
    | Some be =>
        let batch := convertBlockEvent be in
        ab_BlockNumber batch = blk_Number block ∧ ab_Hash batch = blk_Hash block ∧
        ab_ParentHash batch = blk_ParentHash block ∧
        ct_Transaction <$> ab_Events batch = omap (restrict req) (blk_Transactions block) ∧
        ab_Events batch ≠ [] ∧ Forall (λ e, ct_BlockNum e = blk_Number block) (ab_Events batch)
    end.
Proof.
  intros (Hh & Hd & md & Hm & Hf) Hlen Hsz Hrws Hmd. unfold fabricx_Parse, Parse, buildBlockEvent.
  rewrite Hh, Hd, Hm. simpl. rewrite Hf. simpl. intros Hloop.
  destruct (build_events_parsed header txFilter req 0 data _ _ Hlen Hsz Hrws Hmd Hloop)
    as (es & txs & -> & Htxs & Hes & Hall). simpl in *.
  apply parse_loop_spec in Hloop as (-> & -> & -> & _); [|apply fabricx_ParseTx_header]. simpl.
  rewrite Htxs. eexists. split; [done|]. destruct es as [|e es]; simpl; [done|].
  split_and!; [done..| | |].
  - by rewrite <- Hes, <- list_fmap_compose.
  - done.
  - by apply (Forall_fmap convert_event (λ e, ct_BlockNum e = bh_Number header) (e :: es)).
Qed.

End Feed.

(** ** A concrete block *)

Module Feeds.
Import Wire.

Definition ns (name : string) : TxNamespace :=
  MkTxNamespace name 0 [] [] [MkWrite (bytes_of_string "k") (bytes_of_string "v")].

Definition app_tx (name : string) : AppTx := MkAppTx [ns name] [] [].

(** The envelope of a Fabric-X transaction. *)
Definition envelope (txID : string) (tx : AppTx) : Envelope :=
  MkEnvelope (wire (MkPayload (Some (MkHeader (wire (MkChannelHeader 0 0 None "ch" txID 0 [] [])) [])) (wire tx))) [].

(** The transaction a parser finds in it. *)
Definition parsed_tx (txID name : string) : Transaction :=
  {| tx_ID := txID; tx_Number := 0; tx_InputArgs := []; tx_Status := StatusUnknown; tx_RawCode := 0;
     tx_Reason := Lit ""; tx_Event := []; tx_EventName := ""; tx_Payload := [];
     tx_NsRWS := DecodeNamespaces [ns name] |}.

Lemma envelope_ParseTx txID name : fabricx_ParseTx (envelope txID (app_tx name)) = Ok (Some (parsed_tx txID name)).
Proof.
  unfold fabricx_ParseTx, envelope. simpl. rewrite unwire. simpl. rewrite unwire. simpl. by rewrite unwire.
Qed.

(** Block 7: a committed transaction in "a" and a conflicting one in "b". *)
Definition header : BlockHeader := MkBlockHeader 7 [] [].
Definition data : list bytes := [wire (envelope "t1" (app_tx "a")); wire (envelope "t2" (app_tx "b"))].
Definition raw : RawBlock := MkRawBlock (Some header) (Some data) (Some [[]; []; [Byte.x01; Byte.x03]]).

Definition everything : StreamBlocksRequest := MkStreamBlocksRequest [] [] true false true.

(** The block as a parser sees it. *)
Definition block : Block :=
  let tx i txID name := with_status (fabricx_statusForTx (H2 := committer_codes)) [Byte.x01; Byte.x03] i (parsed_tx txID name) in
  {| blk_Number := 7; blk_Hash := []; blk_ParentHash := []; blk_Timestamp := 0;
     blk_Transactions := [tx 0%nat "t1" "a"; tx 1%nat "t2" "b"]; blk_ConfigTransaction := None |}.

Lemma envelope_parsed txFilter number n txID name :
  parse_envelope (fabricx_statusForTx (H2 := committer_codes)) fabricx_ParseTx txFilter number n (wire (envelope txID (app_tx name))) =
  Ok (Parsed (with_status (fabricx_statusForTx (H2 := committer_codes)) txFilter n (parsed_tx txID name))).
Proof.
  apply parse_envelope_parsed; [apply fabricx_ParseTx_header|]. eexists _, _.
  split; [apply unwire|]. split; [apply envelope_ParseTx|done].
Qed.

Lemma raw_parses : fabricx_Parse (H2 := committer_codes) (λ _, []) 0 raw = Ok block.
Proof.
  unfold fabricx_Parse, Parse, raw, data. simpl.
  change ([[]; []; [Byte.x01; Byte.x03]] !! BlockMetadataIndex_TRANSACTIONS_FILTER) with (Some [Byte.x01; Byte.x03]).
  simpl. rewrite envelope_parsed. simpl. by rewrite envelope_parsed.
Qed.

Lemma raw_has_parts : raw_parts raw header [Byte.x01; Byte.x03] data.
Proof. split_and!; [done..|]. by eexists. Qed.

End Feeds.

Import Wire.

Lemma fabricx_Parse_exact_witness :
  fabricx_Parse (H2 := committer_codes) (λ _, []) 0 Feeds.raw ≠ Panic ∧
  StronglySorted Z.lt (tx_Number <$> blk_Transactions Feeds.block).
Proof.
  destruct (fabricx_Parse_exact (V := committer_codes) (λ _, []) 0 Feeds.raw _ _ _ Feeds.raw_has_parts) as [Hp Hb].
  split; [exact Hp|]. exact (proj1 (proj2 (Hb _ Feeds.raw_parses))).
Defined.

Lemma feed_agrees_with_blocks_witness :
  ∃ event, buildBlockEvent Feeds.raw Feeds.everything = Ok (Some event) ∧
    ct_Transaction <$> ab_Events (convertBlockEvent (H2 := committer_codes) (λ _, []) event) = blk_Transactions Feeds.block.
Proof.
  destruct (feed_agrees_with_blocks (H2 := committer_codes) (λ _, []) 0 Feeds.raw _ _ _ Feeds.block Feeds.everything
    Feeds.raw_has_parts ltac:(simpl; lia) ltac:(simpl; lia) eq_refl eq_refl Feeds.raw_parses) as ([event|] & Hb & He).
  - exists event. split; [exact Hb|]. exact (proj1 (proj2 (proj2 (proj2 He)))).
  - discriminate He.
Defined.
