(* ===== verification/Streamer.v ===== *)
(** * The feed of all transactions

    [AllTxStreamer] of notification/all_tx.go with the receive loop of
    [StreamAllTransactions] (network/fabricx/peer.go): a receive loop that
    enqueues batches, a bounded queue, and a goroutine that runs the handler
    chain, torn down through a shared context.  The three parts run as the
    steps of [stream_step]; a step is one channel operation, one check of a
    context or one run of the handler chain.

    [sm_wire], [sm_handled] and [sm_failed] record what the stream delivered,
    what the handlers finished and the batch a handler refused; the code does
    not read them.  The theorems: handlers see a prefix of the stream, in
    order and without gaps, whatever the interleaving; a [Stream] that ends
    without a handler error or a cancellation has handled everything that was
    delivered; and a cancelled [Stream] can always finish. *)

From S2P Require Import Prelude Blocks Status Proto Endorse Finality Delivery.

Definition DefaultQueueDepth : nat := 64.

Definition canceled : error := Errorf "context canceled" [].

(** [queueDepth] of [NewAllTxStreamer]. *)
Definition queue_depth (queueDepth : Z) : nat :=
  if queueDepth <=? 0 then DefaultQueueDepth else Z.to_nat queueDepth.

Section Streamer.
Context `{OpaqueMessages} {W : Type}.

Definition AllTxHandler : Type := AllTxBatch → W → W * result unit.

Context (handlers : list AllTxHandler) (queueDepth : Z).

(** The handler chain on one batch. *)
Fixpoint handle_batch (hs : list AllTxHandler) (batch : AllTxBatch) (w : W) : W * result unit :=
  match hs with
  | [] => (w, Ret tt)
  | h :: hs' =>
      match h batch w with
      | (w', Fail err) => (w', Fail (Wrapf "handle batch %d: %w" [AInt (ab_BlockNumber batch)] err))
      | (w', Ret _) => handle_batch hs' batch w'
      end
  end.

(** The goroutine of [runHandlers]. *)
Inductive handler_pc :=
  | Checking
  | Selecting
  | Stopping (handlerErr : option error)
  | HandlerDone (handlerErr : option error).

(** The receive loop: in [Recv], in the first select of [ProcessBatch], in its
    second select, or returned. *)
Inductive receiver_pc :=
  | Receiving
  | Offering (batch : AllTxBatch)
  | Blocked (batch : AllTxBatch)
  | Ended (streamErr : option error).

Record stream := MkStream {
  sm_queue : list AllTxBatch;
  sm_closed : bool;
  sm_ctx : bool;
  sm_streamCtx : bool;
  sm_world : W;
  sm_handler : handler_pc;
  sm_receiver : receiver_pc;
  sm_result : option (option error);
  sm_wire : list AllTxBatch;
  sm_handled : list AllTxBatch;
  sm_failed : option AllTxBatch }.

Definition new_stream (w : W) : stream := {|
  sm_queue := []; sm_closed := false; sm_ctx := false; sm_streamCtx := false; sm_world := w;
  sm_handler := Checking; sm_receiver := Receiving; sm_result := None;
  sm_wire := []; sm_handled := []; sm_failed := None |}.

Definition cancel_ctx (s : stream) : stream :=
  MkStream (sm_queue s) (sm_closed s) true true (sm_world s) (sm_handler s) (sm_receiver s) (sm_result s)
    (sm_wire s) (sm_handled s) (sm_failed s).

Definition receiver_at (s : stream) (pc : receiver_pc) : stream :=
  MkStream (sm_queue s) (sm_closed s) (sm_ctx s) (sm_streamCtx s) (sm_world s) (sm_handler s) pc (sm_result s)
    (sm_wire s) (sm_handled s) (sm_failed s).

Definition handler_at (s : stream) (pc : handler_pc) : stream :=
  MkStream (sm_queue s) (sm_closed s) (sm_ctx s) (sm_streamCtx s) (sm_world s) pc (sm_receiver s) (sm_result s)
    (sm_wire s) (sm_handled s) (sm_failed s).

(** [Recv] returned a batch. *)
Definition received (s : stream) (batch : AllTxBatch) : stream :=
  MkStream (sm_queue s) (sm_closed s) (sm_ctx s) (sm_streamCtx s) (sm_world s) (sm_handler s) (Offering batch)
    (sm_result s) (sm_wire s ++ [batch]) (sm_handled s) (sm_failed s).

Definition enqueue (s : stream) (batch : AllTxBatch) : stream :=
  MkStream (sm_queue s ++ [batch]) (sm_closed s) (sm_ctx s) (sm_streamCtx s) (sm_world s) (sm_handler s) Receiving
    (sm_result s) (sm_wire s) (sm_handled s) (sm_failed s).

Definition has_room (s : stream) : Prop := (length (sm_queue s) < queue_depth queueDepth)%nat.

(** [close(queue)] after the receive loop returned. *)
Definition close_queue (s : stream) : stream :=
  MkStream (sm_queue s) true (sm_ctx s) (sm_streamCtx s) (sm_world s) (sm_handler s) (sm_receiver s) (sm_result s)
    (sm_wire s) (sm_handled s) (sm_failed s).

(** The handler takes a batch from the queue and runs the chain on it. *)
Definition run_batch (s : stream) (batch : AllTxBatch) (queue : list AllTxBatch) : stream :=
  match handle_batch handlers batch (sm_world s) with
  | (w', Ret _) =>
      MkStream queue (sm_closed s) (sm_ctx s) (sm_streamCtx s) w' Checking (sm_receiver s) (sm_result s)
        (sm_wire s) (sm_handled s ++ [batch]) (sm_failed s)
  | (w', Fail err) =>
      MkStream queue (sm_closed s) (sm_ctx s) (sm_streamCtx s) w' (Stopping (Some err)) (sm_receiver s) (sm_result s)
        (sm_wire s) (sm_handled s) (Some batch)
  end.

(** [cancel()] and the end of the handler goroutine. *)
Definition handler_exit (s : stream) (r : option error) : stream :=
  MkStream (sm_queue s) (sm_closed s) (sm_ctx s) true (sm_world s) (HandlerDone r) (sm_receiver s) (sm_result s)
    (sm_wire s) (sm_handled s) (sm_failed s).

(** The switch at the end of [Stream]. *)
Definition stream_result (handlerErr streamErr : option error) (ctxErr : bool) : option error :=
  match handlerErr with
  | Some err => Some err
  | None => if ctxErr then None else streamErr
  end.

Definition stream_return (s : stream) (r : option error) : stream :=
  MkStream (sm_queue s) (sm_closed s) (sm_ctx s) true (sm_world s) (sm_handler s) (sm_receiver s) (Some r)
    (sm_wire s) (sm_handled s) (sm_failed s).

Inductive stream_step (s : stream) : stream → Prop :=
  | ss_cancel : sm_result s = None → stream_step s (cancel_ctx s)
  | ss_open_error err : sm_receiver s = Receiving → sm_wire s = [] →
      stream_step s (receiver_at s (Ended (Some (Wrapf "open stream-blocks: %w" [] err))))
  | ss_recv batch : sm_receiver s = Receiving → stream_step s (received s batch)
  | ss_recv_end : sm_receiver s = Receiving → stream_step s (receiver_at s (Ended None))
  | ss_recv_error err : sm_receiver s = Receiving → sm_streamCtx s = false →
      stream_step s (receiver_at s (Ended (Some (Wrapf "recv: %w" [] err))))
  | ss_offer batch : sm_receiver s = Offering batch → has_room s → stream_step s (enqueue s batch)
  | ss_full batch : sm_receiver s = Offering batch → ¬ has_room s → stream_step s (receiver_at s (Blocked batch))
  | ss_unblock batch : sm_receiver s = Blocked batch → has_room s → stream_step s (enqueue s batch)
  | ss_drop batch : sm_receiver s = Blocked batch → sm_streamCtx s = true →
      stream_step s (receiver_at s (Ended (Some (Wrapf "process batch: %w" [] canceled))))
  | ss_close streamErr : sm_receiver s = Ended streamErr → sm_closed s = false → stream_step s (close_queue s)
  | ss_check : sm_handler s = Checking →
      stream_step s (handler_at s (if sm_streamCtx s then Stopping None else Selecting))
  | ss_done : sm_handler s = Selecting → sm_streamCtx s = true → stream_step s (handler_at s (Stopping None))
  | ss_batch batch queue : sm_handler s = Selecting → sm_queue s = batch :: queue →
      stream_step s (run_batch s batch queue)
  | ss_drained : sm_handler s = Selecting → sm_queue s = [] → sm_closed s = true →
      stream_step s (handler_at s (Stopping None))
  | ss_exit r : sm_handler s = Stopping r → stream_step s (handler_exit s r)
  | ss_return handlerErr streamErr : sm_result s = None → sm_closed s = true →
      sm_handler s = HandlerDone handlerErr → sm_receiver s = Ended streamErr →
      stream_step s (stream_return s (stream_result handlerErr streamErr (sm_ctx s))).

Definition stream_reachable (w : W) (s : stream) : Prop := rtc stream_step (new_stream w) s.

(** The effect of the chain on a list of batches, none of which fails. *)
Fixpoint handle_batches (batches : list AllTxBatch) (w : W) : option W :=
  match batches with
  | [] => Some w
  | b :: bs =>
      match handle_batch handlers b w with
      | (w', Ret _) => handle_batches bs w'
      | (_, Fail _) => None
      end
  end.

(** ** The invariant *)

Definition in_flight (pc : receiver_pc) : list AllTxBatch :=
  match pc with
  | Offering b | Blocked b => [b]
  | _ => []
  end.

Definition handler_error (pc : handler_pc) : option error :=
  match pc with
  | Stopping r | HandlerDone r => r
  | _ => None
  end.

(** Everything that came over the wire is handled, refused, queued or in the
    hands of the receive loop, in this order; a batch is only dropped behind
    all of these, and only once the stream is torn down. *)
Record stream_inv (w : W) (s : stream) : Prop := {
  si_wire : ∃ dropped, sm_wire s =
      sm_handled s ++ option_list (sm_failed s) ++ sm_queue s ++ in_flight (sm_receiver s) ++ dropped ∧
    (dropped ≠ [] → (∃ e, sm_receiver s = Ended e) ∧
       (sm_ctx s = true ∨ ∃ e, sm_handler s = HandlerDone (Some e)));
  si_queue : (length (sm_queue s) ≤ queue_depth queueDepth)%nat;
  si_ctx : sm_streamCtx s = true → sm_ctx s = true ∨ ∃ r, sm_handler s = HandlerDone r;
  si_closed : sm_closed s = true → ∃ e, sm_receiver s = Ended e;
  si_quiet : sm_handler s = Stopping None ∨ sm_handler s = HandlerDone None →
    sm_ctx s = true ∨ sm_queue s = [] ∧ sm_closed s = true;
  si_world : match sm_failed s with
    | None => handler_error (sm_handler s) = None ∧ handle_batches (sm_handled s) w = Some (sm_world s)
    | Some b => ∃ w1 err, handle_batches (sm_handled s) w = Some w1 ∧
        handle_batch handlers b w1 = (sm_world s, Fail err) ∧ handler_error (sm_handler s) = Some err
    end;
  si_result : ∀ r, sm_result s = Some r → sm_closed s = true ∧
    ∃ h e, sm_handler s = HandlerDone h ∧ sm_receiver s = Ended e ∧ r = stream_result h e (sm_ctx s) }.

Lemma handle_batches_snoc bs b w w1 w2 u :
  handle_batches bs w = Some w1 → handle_batch handlers b w1 = (w2, Ret u) →
  handle_batches (bs ++ [b]) w = Some w2.
Proof.
  revert w. induction bs as [|b' bs IH]; intros w; simpl; [by intros [= ->] ->|].
  destruct (handle_batch handlers b' w) as [w' [?|?]]; [apply IH|done].
Qed.

Lemma new_stream_inv w : stream_inv w (new_stream w).
Proof. split; simpl; try done; [by exists []|lia|naive_solver]. Qed.

(** Steps of the receive loop that move it without touching the rest. *)
Lemma receiver_inv w s pc :
  stream_inv w s → (∀ e, sm_receiver s ≠ Ended e) →
  in_flight (sm_receiver s) = in_flight pc ∨
    (∃ e, pc = Ended e) ∧ (sm_ctx s = true ∨ ∃ r, sm_handler s = HandlerDone r) →
  stream_inv w (receiver_at s pc).
Proof.
  intros [(dropped & Hw & Hd) Hq Hc Hcl Hqu Hwo Hr] Hne Hpc.
  assert (sm_closed s = false) as Hopen.
  { destruct (sm_closed s); [|done]. destruct (Hcl eq_refl) as [e He]. by destruct (Hne e). }
  assert (dropped = []) as ->.
  { destruct dropped; [done|]. destruct (Hd ltac:(done)) as [[e He] _]. by destruct (Hne e). }
  split; simpl; try done; [|congruence|intros r [? _]%Hr; congruence].
  destruct Hpc as [Hpc|[[e ->] Hdead]]; [exists []; by rewrite <- Hpc|].
  exists (in_flight (sm_receiver s)). simpl. split; [by rewrite app_nil_r in Hw|]. intros _. split; [by eexists|].
  destruct Hdead as [?|[[err|] Hh]]; [by left|right; by eexists|].
  destruct (Hqu (or_intror Hh)) as [?|[_ ?]]; [by left|congruence].
Qed.

Lemma enqueue_inv w s batch :
  stream_inv w s → sm_receiver s = Offering batch ∨ sm_receiver s = Blocked batch → has_room s →
  stream_inv w (enqueue s batch).
Proof.
  intros [(dropped & Hw & Hd) Hq Hc Hcl Hqu Hwo Hr] Hpc Hroom. unfold has_room in Hroom.
  assert (sm_closed s = false) as Hopen.
  { destruct (sm_closed s); [|done]. destruct (Hcl eq_refl) as [e He]. naive_solver congruence. }
  assert (in_flight (sm_receiver s) = [batch] ∧ dropped = []) as [Hin ->].
  { split; [by destruct Hpc as [-> | ->]|]. destruct dropped; [done|].
    destruct (Hd ltac:(done)) as [[e He] _]. naive_solver congruence. }
  split; simpl; try done; [|rewrite length_app; simpl; lia|congruence|naive_solver congruence|
    intros r [? _]%Hr; congruence].
  exists []. rewrite Hw, Hin. simpl. by rewrite ?app_nil_r, <- ?app_assoc.
Qed.

Lemma run_batch_inv w s batch queue :
  stream_inv w s → sm_handler s = Selecting → sm_queue s = batch :: queue →
  stream_inv w (run_batch s batch queue).
Proof.
  intros [(dropped & Hw & Hd) Hq Hc Hcl Hqu Hwo Hr] Hh Hqe. rewrite Hh, Hqe in *.
  destruct (sm_failed s) as [b|] eqn:Ef; [destruct Hwo as (? & ? & _ & _ & ?); done|].
  destruct Hwo as [_ Hwo]. simpl in *.
  assert (∀ r, sm_result s ≠ Some r) as Hnr.
  { intros r Hr'. destruct (Hr r Hr') as (_ & h & e & ? & _). done. }
  assert (∀ l, dropped ≠ [] → (∃ e, sm_receiver s = Ended e) ∧ (sm_ctx s = true ∨ l)) as Hd' by naive_solver.
  unfold run_batch. destruct (handle_batch handlers batch (sm_world s)) as [w' [u|err]] eqn:Eb.
  - split; simpl; rewrite ?Ef; try done; [| |naive_solver|naive_solver| |naive_solver].
    + exists dropped. rewrite Hw, <- !app_assoc. split; [done|]. intros Hx. by apply (Hd' (∃ e, Checking = HandlerDone (Some e))).
    + lia.
    + split; [done|]. by eapply handle_batches_snoc.
  - split; simpl; try done; [| |naive_solver|naive_solver| |naive_solver].
    + exists dropped. rewrite Hw. split; [done|]. intros Hx. apply (Hd' _ Hx).
    + lia.
    + by exists (sm_world s), err.
Qed.

Lemma stream_step_inv w s s' : stream_step s s' → stream_inv w s → stream_inv w s'.
Proof.
  intros Hstep Hinv. destruct Hstep as [Hres|err Hr Hw|batch Hr|Hr|err Hr Hc|batch Hr Hroom|batch Hr Hroom
    |batch Hr Hroom|batch Hr Hc|e Hr Hcl|Hh|Hh Hc|batch q Hh Hq|Hh Hq Hc|r Hh|h e Hres Hcl Hh Hr].
  all: try (by eapply enqueue_inv; eauto).
  all: try (by eapply run_batch_inv; eauto).
  all: try (apply receiver_inv; rewrite ?Hr; simpl; try done; eauto; fail).
  - destruct Hinv as [(d & ? & ?) ????? Hx]. split; simpl; eauto; [naive_solver|]. naive_solver congruence.
  - destruct Hinv as [(d & Hw & Hd) ?? Hcl ?? Hx]. rewrite Hr in *. simpl in *.
    assert (d = []) as -> by (destruct d; [done|]; destruct (Hd ltac:(done)) as [[? ?] _]; done).
    split; simpl; eauto; [|intros Hc; destruct (Hcl Hc); done|intros r' (_ & ? & ? & _ & ? & _)%Hx; done].
    exists []. rewrite Hw. by rewrite <- !app_assoc.
  - destruct (si_ctx _ _ Hinv Hc) as [Hx|Hx]; apply receiver_inv; rewrite ?Hr; simpl; eauto 6.
  - destruct Hinv as [????? Hwo Hx]. split; simpl; eauto; [naive_solver|]. intros r (? & ?)%Hx. congruence.
  - destruct Hinv as [(d & Hw & Hd) Hq Hc Hcl Hqu Hwo Hx]. rewrite Hh in *.
    split; simpl; eauto; [naive_solver|destruct (sm_streamCtx s) eqn:E; naive_solver
      |destruct (sm_streamCtx s) eqn:E; naive_solver|destruct (sm_streamCtx s), (sm_failed s); naive_solver|naive_solver].
  - destruct Hinv as [(d & Hw & Hd) Hq Hc' Hcl Hqu Hwo Hx]. rewrite Hh in *.
    split; simpl; eauto; [naive_solver..|destruct (sm_failed s); naive_solver|naive_solver].
  - destruct Hinv as [(d & Hw & Hd) Hq' Hc' Hcl Hqu Hwo Hx]. rewrite Hh in *.
    split; simpl; eauto; [naive_solver..|destruct (sm_failed s); naive_solver|naive_solver].
  - destruct Hinv as [(d & Hw & Hd) Hq' Hc' Hcl Hqu Hwo Hx]. rewrite Hh in *.
    split; simpl; eauto; [naive_solver|naive_solver|naive_solver].
  - destruct Hinv as [(d & Hw & Hd) Hq' Hc' Hcl' Hqu Hwo Hx]. rewrite Hh, Hr in *.
    split; simpl; rewrite ?Hh, ?Hr; eauto. intros r [= <-]. eauto 10.
Qed.

Lemma stream_reachable_inv w s : stream_reachable w s → stream_inv w s.
Proof.
  intros Hr. refine (rtc_ind_r (stream_inv w) (new_stream w) (new_stream_inv w) _ s Hr).
  intros s1 s2 _ Hs Hi. by eapply stream_step_inv.
Qed.

(** The handlers see the stream in order and without gaps: in every reachable state
    the batches they finished, followed by the one they refused if there is one, are
    a prefix of what came over the wire, their effect is the chain applied to these
    batches one after the other, and the queue never exceeds its depth. *)
Theorem stream_in_order w s :
  stream_reachable w s →
  sm_handled s ++ option_list (sm_failed s) `prefix_of` sm_wire s ∧
  (length (sm_queue s) ≤ queue_depth queueDepth)%nat ∧
  match sm_failed s with
  | None => handle_batches (sm_handled s) w = Some (sm_world s)
  | Some b => ∃ w1 err, handle_batches (sm_handled s) w = Some w1 ∧
      handle_batch handlers b w1 = (sm_world s, Fail err)
  end.
Proof.
  intros [(d & Hw & _) Hq _ _ _ Hwo _]%stream_reachable_inv. split_and!; [|done|destruct (sm_failed s); naive_solver].
  rewrite Hw, (assoc_L (++)). by eexists.
Qed.

(** C23: nothing is dropped silently: a [Stream] whose context was not cancelled returns
    either the error of a handler, or, when no handler failed, what ended the
    stream, and then every batch that came over the wire has been handled. *)
Theorem stream_complete w s r :
  stream_reachable w s → sm_result s = Some r → sm_ctx s = false →
  (∃ batch w1 err, sm_failed s = Some batch ∧ handle_batches (sm_handled s) w = Some w1 ∧
     handle_batch handlers batch w1 = (sm_world s, Fail err) ∧ r = Some err) ∨
  (sm_failed s = None ∧ sm_handled s = sm_wire s ∧ handle_batches (sm_wire s) w = Some (sm_world s) ∧
   sm_receiver s = Ended r).
Proof.
  intros [(d & Hw & Hd) _ _ _ Hqu Hwo Hres]%stream_reachable_inv Hr Hctx.
  destruct (Hres r Hr) as (Hcl & h & e & Hh & He & ->). rewrite Hh, He, Hctx in *. simpl in *.
  destruct (sm_failed s) as [b|].
  - left. destruct Hwo as (w1 & err & ? & ? & ->). by exists b, w1, err.
  - right. destruct Hwo as [-> Hwo]. destruct (Hqu (or_intror eq_refl)) as [?|[Hq _]]; [done|].
    assert (d = []) as -> by (destruct d; [done|]; destruct (Hd ltac:(done)) as [_ [?|[? ?]]]; done).
    rewrite Hq in Hw. simpl in Hw. rewrite app_nil_r in Hw. by rewrite Hw.
Qed.

(** The parts of the state that the two goroutines do not share. *)
Definition same_control (s s' : stream) : Prop :=
  sm_ctx s' = sm_ctx s ∧ sm_streamCtx s' = sm_streamCtx s ∧ sm_result s' = sm_result s ∧ sm_closed s' = sm_closed s.

Lemma receiver_can_end s :
  sm_streamCtx s = true → ∃ s' e, rtc stream_step s s' ∧ sm_receiver s' = Ended e ∧ same_control s s'.
Proof.
  intros Hc. destruct (sm_receiver s) as [|b|b|e] eqn:E.
  - eexists _, None. split; [by eapply rtc_once, ss_recv_end|done].
  - destruct (decide (length (sm_queue s) < queue_depth queueDepth)%nat) as [Hroom|Hroom].
    + eexists _, None. split; [eapply rtc_l; [by eapply ss_offer|]; by eapply rtc_once, ss_recv_end|done].
    + eexists _, _. split; [eapply rtc_l; [by eapply ss_full|]; by eapply rtc_once, ss_drop|done].
  - eexists _, _. split; [by eapply rtc_once, ss_drop|done].
  - exists s, e. by split; [apply rtc_refl|].
Qed.

Lemma handler_can_stop s :
  sm_streamCtx s = true → ∃ s' r, rtc stream_step s s' ∧ sm_handler s' = HandlerDone r ∧
    sm_receiver s' = sm_receiver s ∧ same_control s s'.
Proof.
  intros Hc.
  assert (∀ s r, sm_handler s = Stopping r → sm_streamCtx s = true → ∃ s', rtc stream_step s s' ∧
    sm_handler s' = HandlerDone r ∧ sm_receiver s' = sm_receiver s ∧ same_control s s') as Hexit.
  { intros s1 r Hr Hc1. eexists. split; [by eapply rtc_once, ss_exit|]. by split_and!. }
  destruct (sm_handler s) as [| |r|r] eqn:E.
  - destruct (Hexit (handler_at s (Stopping None)) None) as (s' & Hs & Hrest); [done..|].
    exists s', None. split; [|exact Hrest]. eapply rtc_l; [|exact Hs].
    pose proof (ss_check s E) as Hstep. by rewrite Hc in Hstep.
  - destruct (Hexit (handler_at s (Stopping None)) None) as (s' & Hs & Hrest); [done..|].
    exists s', None. split; [|exact Hrest]. eapply rtc_l; [by apply ss_done|exact Hs].
  - destruct (Hexit s r E Hc) as (s' & ?). by exists s', r.
  - exists s, r. split; [apply rtc_refl|done].
Qed.

Lemma ctx_cancels w s : stream_reachable w s → sm_ctx s = true → sm_streamCtx s = true.
Proof.
  intros Hr. refine (rtc_ind_r (λ s, sm_ctx s = true → sm_streamCtx s = true) (new_stream w) _ _ s Hr); [done|].
  intros s1 s2 _ Hs IH. destruct Hs; simpl; auto. unfold run_batch.
  destruct (handle_batch _ _ _) as [? [?|?]]; simpl; auto.
Qed.

(** C24: a cancelled [Stream] can always finish, wherever it was: the receive loop ends even
    if it is blocked on a full queue, the handler goroutine exits, and [Stream]
    returns the error of a handler or nil. *)
Theorem stream_shutdown w s :
  stream_reachable w s → sm_ctx s = true → sm_result s = None →
  ∃ s' h e, rtc stream_step s s' ∧ sm_handler s' = HandlerDone h ∧ sm_receiver s' = Ended e ∧
    sm_result s' = Some h.
Proof.
  intros Hreach Hctx Hr. pose proof (ctx_cancels w s Hreach Hctx) as Hc.
  destruct (receiver_can_end s Hc) as (s1 & e & Hs1 & He & (Hctx1 & Hc1 & Hr1 & _)).
  assert (∃ s2, rtc stream_step s1 s2 ∧ sm_closed s2 = true ∧ sm_receiver s2 = Ended e ∧
    sm_ctx s2 = true ∧ sm_streamCtx s2 = true ∧ sm_result s2 = None) as (s2 & Hs2 & Hcl2 & He2 & Hctx2 & Hc2 & Hr2).
  { destruct (sm_closed s1) eqn:E; [exists s1; split_and!; [apply rtc_refl|congruence..]|].
    exists (close_queue s1). split; [by eapply rtc_once, ss_close|]. simpl. split_and!; congruence. }
  destruct (handler_can_stop s2 Hc2) as (s3 & h & Hs3 & Hh3 & He3 & (Hctx3 & Hc3 & Hr3 & Hcl3)).
  exists (stream_return s3 (stream_result h e (sm_ctx s3))), h, e.
  split; [|simpl; rewrite Hctx3, Hctx2, He3, He2; split_and!; [done..|]; by destruct h].
  trans s1; [done|]. trans s2; [done|]. eapply rtc_r; [done|]. apply ss_return; congruence.
Qed.

End Streamer.

(** ** A concrete run *)

Module Streams.
#[local] Existing Instance Wire.opaque.

Definition batch : AllTxBatch := MkAllTxBatch 1 [] [] [].

(** A chain of one handler that collects the block numbers. *)
Definition collect : list (AllTxHandler (W := list Z)) := [λ b w, (w ++ [ab_BlockNumber b], Ret tt)].

(** One batch is received and the handler is about to take it. *)
Definition queued : stream (W := list Z) := {|
  sm_queue := [batch]; sm_closed := false; sm_ctx := false; sm_streamCtx := false; sm_world := [];
  sm_handler := Checking; sm_receiver := Receiving; sm_result := None;
  sm_wire := [batch]; sm_handled := []; sm_failed := None |}.

Lemma queued_reachable : stream_reachable collect 1 [] queued.
Proof.
  eapply rtc_l; [apply (ss_recv _ _ _ batch); reflexivity|].
  eapply rtc_l; [apply (ss_offer _ _ _ batch); [reflexivity|]; unfold has_room; simpl; compute; lia|].
  apply rtc_refl.
Qed.

(** The stream ended after it and [Stream] returned nil. *)
Definition finished : stream (W := list Z) := {|
  sm_queue := []; sm_closed := true; sm_ctx := false; sm_streamCtx := true; sm_world := [1];
  sm_handler := HandlerDone None; sm_receiver := Ended None; sm_result := Some None;
  sm_wire := [batch]; sm_handled := [batch]; sm_failed := None |}.

Lemma finished_reachable : stream_reachable collect 1 [] finished.
Proof.
  unfold stream_reachable. trans queued; [exact queued_reachable|].
  eapply rtc_l; [apply ss_check; reflexivity|].
  eapply rtc_l; [apply (ss_batch _ _ _ batch []); reflexivity|].
  eapply rtc_l; [apply ss_recv_end; reflexivity|].
  eapply rtc_l; [apply (ss_close _ _ _ None); reflexivity|].
  eapply rtc_l; [apply ss_check; reflexivity|].
  eapply rtc_l; [apply ss_drained; reflexivity|].
  eapply rtc_l; [apply (ss_exit _ _ _ None); reflexivity|].
  eapply rtc_l; [apply (ss_return _ _ _ None None); reflexivity|].
  apply rtc_refl.
Qed.

End Streams.

Lemma stream_in_order_witness :
  sm_handled Streams.finished ++ option_list (sm_failed Streams.finished) `prefix_of` sm_wire Streams.finished.
Proof. exact (proj1 (stream_in_order Streams.collect 1 [] _ Streams.finished_reachable)). Defined.

Lemma stream_complete_witness :
  sm_handled Streams.finished = sm_wire Streams.finished.
Proof.
  destruct (stream_complete Streams.collect 1 [] _ None Streams.finished_reachable eq_refl eq_refl)
    as [(b & w1 & err & Hf & _)|(_ & Hw & _)]; [discriminate Hf|exact Hw].
Defined.

Lemma stream_shutdown_witness :
  ∃ s' h e, rtc (stream_step Streams.collect 1) (cancel_ctx Streams.queued) s' ∧ sm_handler s' = HandlerDone h ∧
    sm_receiver s' = Ended e ∧ sm_result s' = Some h.
Proof.
  refine (stream_shutdown Streams.collect 1 [] (cancel_ctx Streams.queued) _ eq_refl eq_refl).
  eapply rtc_r; [exact Streams.queued_reachable|]. apply ss_cancel. reflexivity.
Defined.
