(* ===== verification/Ledger.v ===== *)
(** * The ledger of the test network

    The in-memory ledger of fabrictest/ledger.go: a chain of raw blocks, its
    subscribers, and a world state of its own, which [close] closes, or an
    external one.

    A subscriber channel is the list of the blocks buffered in it, oldest
    first; its capacity is ten and [commit] skips a subscriber whose channel is
    full.  Marshalling, [protoutil.BlockHeaderHash] and
    [protoutil.ComputeBlockDataHash] are parameters.

    The theorems: every reachable chain starts at genesis, numbers its blocks
    by their position and links each to the hash of the one before it; and the
    statuses that a client parses from a committed block are the ones that the
    validator gave its transactions, so that what the ledger applied to its
    world state is what the block says. *)

From S2P Require Import Prelude Blocks Status Mvcc WorldState Proto Endorse Parser Finality Delivery.

(** ** Blocks *)

Section Ledger.
Context `{Protos} `{HeaderTypes}.
Context (BlockHeaderHash : BlockHeader → bytes) (ComputeBlockDataHash : list bytes → bytes).

(** A marshalling error leaves the nil slice. *)
Definition marshal_envelope (env : Envelope) : bytes :=
  match Marshal env with
  | Ret b => b
  | Fail _ => []
  end.

Definition makeBlock (blockNum : Z) (prevHash : bytes) (envs : list Envelope) : RawBlock :=
  let data := marshal_envelope <$> envs in
  {| rb_Header := Some (MkBlockHeader blockNum prevHash (ComputeBlockDataHash data));
     rb_Data := Some data;
     rb_Metadata := Some [[]; []; replicate (length envs) Byte.x00] |}.

(** [genesis_config] is the message with an empty channel group. *)
Definition makeGenesisBlock (genesis_config : Config) : outcome RawBlock :=
  chdr ← MarshalOrPanic (MkChannelHeader HeaderType_CONFIG 0 None "" "" 0 [] []);
  data ← MarshalOrPanic (MkConfigEnvelope (Some genesis_config));
  payload ← MarshalOrPanic (MkPayload (Some (MkHeader chdr [])) data);
  Ok (makeBlock 0 [] [MkEnvelope payload []]).

(** ** State *)

Record ledger := MkLedger {
  ld_blocks : list RawBlock;
  ld_subs : list (list RawBlock);
  ld_db : option Backend;
  ld_closed : bool }.

Definition newLedger (genesis : RawBlock) (db : option Backend) : ledger := MkLedger [genesis] [] db false.

Definition sub_cap : nat := 10.

Definition height (l : ledger) : Z := Z.of_nat (length (ld_blocks l)).

(** The header of the chain tip; the code indexes the last block. *)
Definition tip_header (l : ledger) : outcome BlockHeader :=
  tip ← deref (last (ld_blocks l));
  deref (rb_Header tip).

Definition next (l : ledger) : outcome (Z * bytes) :=
  h ← tip_header l;
  Ok (height l, BlockHeaderHash h).

Definition chainInfo (l : ledger) : outcome (Z * bytes * bytes) :=
  h ← tip_header l;
  Ok (height l, BlockHeaderHash h, bh_PreviousHash h).

(** A send that does not wait. *)
Definition notify (fbl : RawBlock) (ch : list RawBlock) : list RawBlock :=
  if decide (length ch < sub_cap)%nat then ch ++ [fbl] else ch.

Definition append_block (l : ledger) (fbl : RawBlock) : ledger :=
  MkLedger (ld_blocks l ++ [fbl]) (notify fbl <$> ld_subs l) (ld_db l) (ld_closed l).

Definition truncate (num : Z) (l : ledger) : ledger * result unit :=
  match ld_db l with
  | Some _ => (l, Fail (Errorf "revert requires an external world state (db1)" []))
  | None =>
      if height l <=? num then
        (l, Fail (Errorf "cannot revert to block %d: height is %d" [AInt num; AInt (height l)]))
      else (MkLedger (take (Z.to_nat (num + 1)) (ld_blocks l)) (ld_subs l) (ld_db l) (ld_closed l), Ret tt)
  end.

Definition subscribe (l : ledger) : list RawBlock * ledger :=
  (ld_blocks l, MkLedger (ld_blocks l) (ld_subs l ++ [[]]) (ld_db l) (ld_closed l)).

(** Closes the subscriber channels, which leaves what they still hold to their
    receivers, and, if the world state is its own, the
    database handle. *)
Definition close (l : ledger) : ledger := MkLedger (ld_blocks l) [] (ld_db l) true.

(** ** Processing a batch *)

Section Process.
Context (faults : nat → bool) (vdb : VersionedDB).
Context (parser : RawBlock → outcome Block) (validator : MVCCValidator).

Definition commit (bl : Block) (fbl : RawBlock) (l : ledger) : ledger * result unit :=
  match ld_db l with
  | None => (append_block l fbl, Ret tt)
  | Some db =>
      match (if ld_closed l then (db, Fail (Wrapf "begin batch insert: %w" [] ErrDBClosed))
             else UpdateWorldState faults vdb bl db) with
      | (db', Fail err) => (MkLedger (ld_blocks l) (ld_subs l) (Some db') (ld_closed l), Fail err)
      | (db', Ret _) => (append_block (MkLedger (ld_blocks l) (ld_subs l) (Some db') (ld_closed l)) fbl, Ret tt)
      end
  end.

(** The loop that puts the statuses at their block positions; an index behind
    the filter panics. *)
Fixpoint scatter (blockFilter : bytes) (statuses : list (Transaction * Z)) : outcome bytes :=
  match statuses with
  | [] => Ok blockFilter
  | (tx, status) :: rest =>
      if decide (0 ≤ tx_Number tx < Z.of_nat (length blockFilter)) then
        scatter (<[Z.to_nat (tx_Number tx) := byte_of_Z status]> blockFilter) rest
      else Panic
  end.

(** The metadata of a block with its filter written back. *)
Definition with_filter (fbl : RawBlock) (statuses : list (Transaction * Z)) : outcome RawBlock :=
  metadata ← deref (rb_Metadata fbl);
  blockFilter ← deref (metadata !! BlockMetadataIndex_TRANSACTIONS_FILTER);
  blockFilter' ← scatter blockFilter statuses;
  Ok (MkRawBlock (rb_Header fbl) (rb_Data fbl)
        (Some (<[BlockMetadataIndex_TRANSACTIONS_FILTER := blockFilter']> metadata))).

(** Up to the commit: the block to store and the block to apply. *)
Definition prepare (envs : list Envelope) (l : ledger) : outcome (Block * RawBlock) :=
  '(blockNum, prevHash) ← next l;
  let fbl := makeBlock blockNum prevHash envs in
  bl ← parser fbl;
  match Validate validator bl with
  | (_, _, _, Some err) => Err err
  | (_, bl', txFilter, None) =>
      fbl' ← with_filter fbl (zip (blk_Transactions bl') txFilter);
      Ok (bl', fbl')
  end.

Definition process (envs : list Envelope) (l : ledger) : ledger * outcome unit :=
  match prepare envs l with
  | Ok (bl, fbl) => let '(l', r) := commit bl fbl l in (l', lift r)
  | Err err => (l, Err err)
  | Panic => (l, Panic)
  end.

End Process.

(** ** The ledger in use

    One step is one call, or one receive of a subscriber. *)

Inductive ledger_step : ledger → ledger → Prop :=
  | lg_process faults vdb parser validator envs l :
      ledger_step l (process faults vdb parser validator envs l).1
  | lg_truncate num l : 0 ≤ num → ledger_step l (truncate num l).1
  | lg_subscribe l : ledger_step l (subscribe l).2
  | lg_receive l i b ch : ld_subs l !! i = Some (b :: ch) →
      ledger_step l (MkLedger (ld_blocks l) (<[i := ch]> (ld_subs l)) (ld_db l) (ld_closed l))
  | lg_close l : ledger_step l (close l).

Definition ledger_reachable (l : ledger) : Prop :=
  ∃ config genesis db, makeGenesisBlock config = Ok genesis ∧ rtc ledger_step (newLedger genesis db) l.

(** A block that belongs at position [i] behind [prev]. *)
Definition linked (prev : option RawBlock) (i : nat) (b : RawBlock) : Prop :=
  ∃ header data txFilter, raw_parts b header txFilter data ∧
    bh_Number header = Z.of_nat i ∧ bh_DataHash header = ComputeBlockDataHash data ∧
    length txFilter = length data ∧
    match prev with
    | None => bh_PreviousHash header = []
    | Some p => ∃ ph, rb_Header p = Some ph ∧ bh_PreviousHash header = BlockHeaderHash ph
    end.

Definition chained (blocks : list RawBlock) : Prop :=
  blocks ≠ [] ∧ ∀ i b, blocks !! i = Some b → linked (match i with O => None | S j => blocks !! j end) i b.

End Ledger.

(** ** Committing *)

(** A commit appends the block, notifies the subscribers and has updated the
    world state, if it is the ledger's own; or it changes nothing. *)
Lemma commit_cases faults vdb bl fbl l l' r :
  commit faults vdb bl fbl l = (l', r) →
  (∃ err, r = Fail err ∧ l' = l ∧ is_Some (ld_db l)) ∨
  (r = Ret tt ∧ ld_blocks l' = ld_blocks l ++ [fbl] ∧ ld_subs l' = notify fbl <$> ld_subs l ∧
   ld_closed l' = ld_closed l ∧
   match ld_db l with
   | None => ld_db l' = None
   | Some db => ld_closed l = false ∧
       ∃ db', ld_db l' = Some db' ∧ UpdateWorldState faults vdb bl db = (db', Ret tt)
   end).
Proof.
  unfold commit. destruct l as [blocks subs [db|] closed]; simpl; [|intros [= <- <-]; by right].
  destruct closed; [intros [= <- <-]; left; eauto|].
  destruct (UpdateWorldState faults vdb bl db) as [db' [[]|err]] eqn:Eu; intros [= <- <-].
  - right. split_and!; [done..|]. eauto.
  - apply UpdateWorldState_fail in Eu as ->. left. eauto.
Qed.

(** The same for a batch. *)
Lemma process_cases `{Protos} `{HeaderTypes} BlockHeaderHash ComputeBlockDataHash faults vdb parser validator envs l l' r :
  process BlockHeaderHash ComputeBlockDataHash faults vdb parser validator envs l = (l', r) →
  (r ≠ Ok tt ∧ l' = l) ∨
  (r = Ok tt ∧ ∃ bl fbl, prepare BlockHeaderHash ComputeBlockDataHash parser validator envs l = Ok (bl, fbl) ∧
   commit faults vdb bl fbl l = (l', Ret tt)).
Proof.
  unfold process. destruct (prepare _ _ parser validator envs l) as [[bl fbl]| |]; [|intros [= <- <-]; by left..].
  destruct (commit faults vdb bl fbl l) as [l1 r1] eqn:Ec. intros [= <- <-].
  destruct (commit_cases _ _ _ _ _ _ _ Ec) as [(err & -> & -> & _)|(-> & _)]; [by left|]. right. eauto.
Qed.

(** ** The chain *)

Section Chain.
Context `{Protos} `{HeaderTypes}.
Context (BlockHeaderHash : BlockHeader → bytes) (ComputeBlockDataHash : list bytes → bytes).

(** The filter is the third metadata entry, where [makeBlock] puts it. *)
Context (filter_index : BlockMetadataIndex_TRANSACTIONS_FILTER = 2%nat).

Lemma scatter_length filt statuses filt' :
  scatter filt statuses = Ok filt' → length filt' = length filt.
Proof.
  revert filt. induction statuses as [|[tx s] rest IH]; intros filt; simpl; [congruence|].
  case_decide; [|done]. intros ->%IH. apply length_insert.
Qed.

Lemma makeBlock_parts n prev envs :
  raw_parts (makeBlock ComputeBlockDataHash n prev envs)
    (MkBlockHeader n prev (ComputeBlockDataHash (marshal_envelope <$> envs)))
    (replicate (length envs) Byte.x00) (marshal_envelope <$> envs).
Proof. split_and!; [done..|]. eexists. split; [done|]. by rewrite filter_index. Qed.

Lemma with_filter_parts fbl header filt data statuses fbl' :
  raw_parts fbl header filt data → with_filter fbl statuses = Ok fbl' →
  ∃ filt', scatter filt statuses = Ok filt' ∧ raw_parts fbl' header filt' data.
Proof.
  intros (Hh & Hd & md & Hm & Hf). unfold with_filter. rewrite Hm. simpl. rewrite Hf. simpl.
  destruct (scatter filt statuses) as [filt'| |]; simpl; [|done..]. intros [= <-].
  exists filt'. split; [done|]. split_and!; [done..|]. eexists. split; [done|]. simpl.
  by apply list_lookup_insert_eq, lookup_lt_Some with filt.
Qed.

(** The block that [prepare] stores is linked to the tip. *)
Lemma prepare_linked parser validator envs l bl fbl :
  prepare BlockHeaderHash ComputeBlockDataHash parser validator envs l = Ok (bl, fbl) →
  linked BlockHeaderHash ComputeBlockDataHash (last (ld_blocks l)) (length (ld_blocks l)) fbl.
Proof.
  unfold prepare, next, tip_header. destruct (last (ld_blocks l)) as [tip|]; simpl; [|done].
  destruct (rb_Header tip) as [h|] eqn:Eh; simpl; [|done].
  rewrite outcome_bind_ok. intros (bl0 & _ & Hv).
  destruct (Validate validator bl0) as [[[? bl1] filt] [e|]]; [done|].
  apply outcome_bind_ok in Hv as (fbl1 & Hw & [= <- <-]).
  destruct (with_filter_parts _ _ _ _ _ _ (makeBlock_parts _ _ _) Hw) as (filt' & Hs & Hp).
  exists (MkBlockHeader (height l) (BlockHeaderHash h) (ComputeBlockDataHash (marshal_envelope <$> envs))), (marshal_envelope <$> envs), filt'.
  split_and!; [done..| |by exists h].
  apply scatter_length in Hs. by rewrite Hs, length_replicate, length_fmap.
Qed.

Lemma chained_snoc blocks b :
  chained BlockHeaderHash ComputeBlockDataHash blocks →
  linked BlockHeaderHash ComputeBlockDataHash (last blocks) (length blocks) b →
  chained BlockHeaderHash ComputeBlockDataHash (blocks ++ [b]).
Proof.
  intros [Hne Hall] Hb. split; [by destruct blocks|]. intros i b' [Hi|[Hlen Hi]]%lookup_app_Some.
  - specialize (Hall i b' Hi). destruct i as [|j]; [done|].
    rewrite lookup_app_l; [done|]. apply lookup_lt_Some in Hi. lia.
  - apply list_lookup_singleton_Some in Hi as [Hi <-]. assert (i = length blocks) as -> by lia.
    rewrite last_lookup in Hb. destruct (length blocks) as [|j] eqn:E; [by destruct blocks|].
    rewrite lookup_app_l by lia. done.
Qed.

Lemma chained_take blocks n :
  chained BlockHeaderHash ComputeBlockDataHash blocks → (0 < n)%nat →
  chained BlockHeaderHash ComputeBlockDataHash (take n blocks).
Proof.
  intros [Hne Hall] Hn. split; [destruct blocks, n; [done..|lia|done]|].
  intros i b [Hi Hlt]%lookup_take_Some. specialize (Hall i b Hi). destruct i as [|j]; [done|].
  by rewrite lookup_take_lt by lia.
Qed.

Lemma ledger_step_chained l l' :
  ledger_step BlockHeaderHash ComputeBlockDataHash l l' →
  chained BlockHeaderHash ComputeBlockDataHash (ld_blocks l) →
  chained BlockHeaderHash ComputeBlockDataHash (ld_blocks l').
Proof.
  intros Hstep Hc. destruct Hstep as [faults vdb parser validator envs l|num l Hnum|l|l i b ch Hi|l]; try done.
  - destruct (process _ _ _ _ _ _ _ l) as [l' r] eqn:E. simpl.
    apply process_cases in E as [[_ ->]|(_ & bl & fbl & Hp%prepare_linked & Hcm)]; [done|].
    apply commit_cases in Hcm as [(? & [=] & _)|(_ & -> & _)]. by apply chained_snoc.
  - unfold truncate. destruct (ld_db l); [done|]. destruct (height l <=? num); [done|].
    simpl. apply chained_take; [done|lia].
Qed.

Lemma genesis_chained config genesis :
  makeGenesisBlock ComputeBlockDataHash config = Ok genesis →
  chained BlockHeaderHash ComputeBlockDataHash [genesis].
Proof.
  unfold makeGenesisBlock. rewrite outcome_bind_ok. intros (chdr & _ & Hg).
  apply outcome_bind_ok in Hg as (data & _ & Hg). apply outcome_bind_ok in Hg as (payload & _ & [= <-]).
  split; [done|]. intros i b Hi. apply list_lookup_singleton_Some in Hi as [-> <-].
  eexists _, _, _. split; [apply makeBlock_parts|]. by rewrite length_replicate.
Qed.

Lemma reachable_chained l :
  ledger_reachable BlockHeaderHash ComputeBlockDataHash l → chained BlockHeaderHash ComputeBlockDataHash (ld_blocks l).
Proof.
  intros (config & genesis & db & Hg & Hr).
  refine (rtc_ind_r (λ l, chained BlockHeaderHash ComputeBlockDataHash (ld_blocks l)) _ _ _ l Hr).
  - by eapply genesis_chained.
  - intros l1 l2 _ Hs Hl. by eapply ledger_step_chained.
Qed.

(** C12: every chain that the ledger can reach, also after reverts, starts with a block
    that has no parent, numbers its blocks by position, links each one to the
    header hash of the block before it, hashes its data, and has one filter entry
    per transaction; what it reports as chain info is the tip of that chain. *)
Theorem ledger_chain l :
  ledger_reachable BlockHeaderHash ComputeBlockDataHash l →
  chained BlockHeaderHash ComputeBlockDataHash (ld_blocks l) ∧
  ∃ tip h, last (ld_blocks l) = Some tip ∧ rb_Header tip = Some h ∧ bh_Number h = height l - 1 ∧
    chainInfo BlockHeaderHash l = Ok (height l, BlockHeaderHash h, bh_PreviousHash h).
Proof.
  intros Hr. pose proof (reachable_chained l Hr) as Hc. split; [done|]. destruct Hc as [Hne Hall]. destruct (last (ld_blocks l)) as [tip|] eqn:El.
  - rewrite last_lookup in El. destruct (Hall _ _ El) as (h & data & filt & (Hh & _) & Hn & _).
    exists tip, h. split_and!; [done|done| |].
    + rewrite Hn. unfold height. apply lookup_lt_Some in El. lia.
    + unfold chainInfo, tip_header. by rewrite last_lookup, El; simpl; rewrite Hh.
  - by apply last_None in El.
Qed.

End Chain.

(** ** Statuses *)

Section Statuses.
Context `{Protos} `{HeaderTypes}.
Context (BlockHeaderHash : BlockHeader → bytes) (ComputeBlockDataHash : list bytes → bytes).
Context (filter_index : BlockMetadataIndex_TRANSACTIONS_FILTER = 2%nat).
Context (from_code : Z → Status * Z * text).
Context (statusForTx : bytes → nat → Status * Z * text) (ParseTx : Envelope → outcome (option Transaction)).
Context (statusForTx_code : ∀ filt k b, filt !! k = Some b → statusForTx filt k = from_code (Z_of_byte b)).
Context (ParseTx_header : ∀ env tx, ParseTx env = Ok (Some tx) → ∃ pl hdr chdr,
  Unmarshal (env_Payload env) = Ret pl ∧ pl_Header pl = Some hdr ∧
  Unmarshal (hdr_ChannelHeader hdr) = Ret chdr ∧ chdr_Type chdr ≠ HeaderType_CONFIG).

(** Two parsed transactions that differ in the filter they were read with. *)
Definition refiltered (filt filt' : bytes) (lo hi : nat) (t t' : Transaction) : Prop :=
  ∃ i tx0, t = with_status statusForTx filt i tx0 ∧ t' = with_status statusForTx filt' i tx0 ∧ (lo ≤ i < hi)%nat.

Lemma parse_envelope_refilter filt filt' number n envBytes p :
  parse_envelope statusForTx ParseTx filt number n envBytes = Ok p →
  ∃ p', parse_envelope statusForTx ParseTx filt' number n envBytes = Ok p' ∧
    (∀ block, blk_Transactions (add_parsed block p) = blk_Transactions block ∧
              blk_Transactions (add_parsed block p') = blk_Transactions block ∨
              ∃ t t', p = Parsed t ∧ p' = Parsed t' ∧ refiltered filt filt' n (S n) t t').
Proof.
  intros Hp. destruct p as [|c|t].
  3: { apply parse_envelope_parsed in Hp as (env & tx0 & Hu & Ht & ->); [|done].
       exists (Parsed (with_status statusForTx filt' n tx0)). split.
       - apply parse_envelope_parsed; [done|]. by exists env, tx0.
       - intros block. right. eexists _, _. split_and!; [done..|]. exists n, tx0. split_and!; [done..|lia|lia]. }
  1: exists Skipped. 2: exists (Configuration c).
  all: split; [|intros block; by left]; revert Hp; unfold parse_envelope;
    repeat (match goal with
      | |- match ?x with _ => _ end = _ → _ =>
          lazymatch x with
          | statusForTx _ _ => destruct x as [[? ?] ?]; discriminate
          | _ => destruct x; try discriminate
          end
      | |- (if ?x then _ else _) = _ → _ => destruct x
      end); done.
Qed.

Lemma parse_loop_refilter filt filt' n data block block' block1 :
  blk_Number block1 = blk_Number block →
  parse_loop statusForTx ParseTx filt n data block = Ok block' →
  ∃ block1' txs txs', parse_loop statusForTx ParseTx filt' n data block1 = Ok block1' ∧
    blk_Number block1' = blk_Number block1 ∧
    blk_Transactions block' = blk_Transactions block ++ txs ∧
    blk_Transactions block1' = blk_Transactions block1 ++ txs' ∧
    Forall2 (refiltered filt filt' n (n + length data)) txs txs'.
Proof.
  revert n block block1. induction data as [|envBytes data IH]; intros n block block1 Hnum; simpl.
  { intros [= <-]. exists block1, [], []. rewrite !app_nil_r. by split_and!. }
  rewrite outcome_bind_ok. intros (p & Hp & Hloop).
  destruct (parse_envelope_refilter filt filt' _ _ _ _ Hp) as (p' & Hp' & Hcases).
  rewrite Hnum, Hp'. simpl.
  assert (∀ b q, blk_Number (add_parsed b q) = blk_Number b) as Hadd by (by intros b [|c|t]).
  assert (blk_Number (add_parsed block1 p') = blk_Number (add_parsed block p)) as Hnum' by (by rewrite !Hadd).
  destruct (IH (S n) _ _ Hnum' Hloop) as (block1' & txs & txs' & -> & Hn & Ht & Ht' & Hall).
  assert (Forall2 (refiltered filt filt' n (n + S (length data))) txs txs') as Hall'.
  { eapply Forall2_impl; [exact Hall|]. intros t t' (i & tx0 & ? & ? & ?). exists i, tx0. split_and!; [done..|lia|lia]. }
  rewrite Hadd, Hnum in Hn. destruct (Hcases block) as [[Hsame _]|(t & t' & -> & -> & Hr)].
  - destruct (Hcases block1) as [[_ Hsame']|(t & t' & -> & -> & Hr)].
    + exists block1', txs, txs'. rewrite Ht, Ht', Hsame, Hsame'. by split_and!.
    + simpl in Hsame. apply (f_equal length) in Hsame. rewrite length_app in Hsame. simpl in Hsame. lia.
  - simpl in Ht, Ht'. exists block1', (t :: txs), (t' :: txs').
    rewrite Ht, Ht', <- !app_assoc. split_and!; [done..|]. constructor; [|done].
    destruct Hr as (i & tx0 & ? & ? & ?). exists i, tx0. split_and!; [done..|lia|lia].
Qed.

Lemma scatter_other filt statuses filt' k :
  scatter filt statuses = Ok filt' → (∀ tx s, (tx, s) ∈ statuses → Z.to_nat (tx_Number tx) ≠ k) →
  filt' !! k = filt !! k.
Proof.
  revert filt. induction statuses as [|[tx s] rest IH]; intros filt; simpl; [by intros [= ->]|].
  case_decide; [|done]. intros Hs Hne. rewrite (IH _ Hs) by set_solver.
  apply list_lookup_insert_ne. apply (Hne tx s). set_solver.
Qed.

Lemma scatter_nonneg filt statuses filt' tx s :
  scatter filt statuses = Ok filt' → (tx, s) ∈ statuses → 0 ≤ tx_Number tx.
Proof.
  revert filt. induction statuses as [|[tx1 s1] rest IH]; intros filt Hs Hin; [by apply elem_of_nil in Hin|].
  simpl in Hs. case_decide; [|done]. apply elem_of_cons in Hin as [[= -> ->]|Hin]; [lia|by eapply IH].
Qed.

Lemma scatter_lookup filt statuses filt' tx s :
  scatter filt statuses = Ok filt' → NoDup (tx_Number <$> statuses.*1) → (tx, s) ∈ statuses →
  filt' !! Z.to_nat (tx_Number tx) = Some (byte_of_Z s).
Proof.
  revert filt. induction statuses as [|[tx1 s1] rest IH]; intros filt; [by intros _ _ ?%elem_of_nil|].
  simpl. case_decide as Hr; [|done]. csimpl. intros Hs [Hn HN]%NoDup_cons [[= -> ->]|Hin]%elem_of_cons; [|by eapply IH].
  rewrite (scatter_other _ _ _ _ Hs).
  - apply list_lookup_insert_eq. lia.
  - intros tx2 s2 Hin Heq. apply Hn. pose proof (scatter_nonneg _ _ _ _ _ Hs Hin).
    assert (tx_Number tx1 = tx_Number tx2) as -> by lia.
    apply list_elem_of_fmap. exists tx2. split; [done|]. apply list_elem_of_fmap. by exists (tx2, s2).
Qed.

Lemma scatter_ok filt statuses :
  (∀ tx s, (tx, s) ∈ statuses → 0 ≤ tx_Number tx < Z.of_nat (length filt)) →
  ∃ filt', scatter filt statuses = Ok filt'.
Proof.
  revert filt. induction statuses as [|[tx s] rest IH]; intros filt Hr; simpl; [by eexists|].
  rewrite decide_True by (apply (Hr tx s); set_solver). apply IH. intros tx' s' Hin.
  pose proof (length_insert filt (Z.to_nat (tx_Number tx)) (byte_of_Z s)) as Hlen.
  pose proof (Hr tx' s' ltac:(set_solver)). unfold bytes in *. rewrite Hlen. done.
Qed.

(** What two blocks agree on whose transactions have the same outcome. *)
Definition same_outcome (t t' : Transaction) : Prop :=
  same_body t t' ∧ tx_Status t' = tx_Status t ∧ tx_RawCode t' = tx_RawCode t.

(** The validator's codes read back as its statuses. *)
Context (validator : MVCCValidator).
Context (codes_read_back : ∀ s, decided s → ∃ reason, from_code (codeFor validator s) = (s, codeFor validator s, reason)).

Let parser now := Parse BlockHeaderHash now statusForTx ParseTx.

Lemma refiltered_number filt filt' lo hi t t' :
  refiltered filt filt' lo hi t t' → ∃ i, tx_Number t = Z.of_nat i ∧ (lo ≤ i < hi)%nat ∧
    ∃ tx0, t = with_status statusForTx filt i tx0 ∧ t' = with_status statusForTx filt' i tx0.
Proof.
  intros (i & tx0 & -> & -> & Hi). exists i. split_and!; [|lia|lia|by exists tx0].
  unfold with_status. by destruct (statusForTx filt i) as [[? ?] ?].
Qed.

(** One transaction: parsed with the empty filter as [t], validated as [v] and
    parsed again from the stored filter as [t']. *)
Lemma refiltered_outcome filt filt' lo hi t t' v :
  refiltered filt filt' lo hi t t' → same_body t v → decided (tx_Status v) →
  tx_RawCode v = codeFor validator (tx_Status v) → byte_code (codeFor validator (tx_Status v)) →
  filt' !! Z.to_nat (tx_Number v) = Some (byte_of_Z (codeFor validator (tx_Status v))) →
  same_outcome v t'.
Proof.
  intros (i & Hn & _ & tx0 & Ht & ->)%refiltered_number Hb Hd Hc Hbyte Hf.
  assert (tx_Number v = Z.of_nat i) as Hnv by (rewrite Hb; exact Hn).
  rewrite Hnv, Nat2Z.id in Hf. unfold with_status in *. rewrite (statusForTx_code _ _ _ Hf), Z_of_byte_of_Z by done.
  destruct (codes_read_back _ Hd) as [reason ->]. split_and!; [|done|done].
  unfold same_body in *. rewrite Hb, Ht. by destruct (statusForTx filt i) as [[? ?] ?].
Qed.

Lemma same_body_numbers txs vs : Forall2 same_body txs vs → tx_Number <$> vs = tx_Number <$> txs.
Proof. induction 1 as [|t v txs vs Hb _ IH]; csimpl; [done|]. by rewrite IH, Hb. Qed.

(** The parse of a fresh block against the parse of the same block with another
    filter. *)
Lemma Parse_refilter now now' fbl fbl' header filt filt' data bl :
  raw_parts fbl header filt data → raw_parts fbl' header filt' data → parser now fbl = Ok bl →
  ∃ bl', parser now' fbl' = Ok bl' ∧ blk_Number bl' = blk_Number bl ∧ blk_Hash bl' = blk_Hash bl ∧
    Forall2 (refiltered filt filt' 0 (length data)) (blk_Transactions bl) (blk_Transactions bl') ∧
    NoDup (tx_Number <$> blk_Transactions bl).
Proof.
  intros (Hh & Hd & md & Hm & Hf) (Hh' & Hd' & md' & Hm' & Hf').
  unfold parser, Parse. rewrite Hh, Hd, Hm, Hh', Hd', Hm'. simpl. rewrite Hf, Hf'. simpl. intros Hloop.
  destruct (parse_loop_spec _ _ ParseTx_header _ _ _ _ _ Hloop) as (Hn & Hha & _ & txs0 & Htxs0 & Hs & _).
  set (start t := MkBlock (bh_Number header) (BlockHeaderHash header) (bh_PreviousHash header) t [] None).
  destruct (parse_loop_refilter filt filt' 0 data (start now) bl (start now') eq_refl Hloop)
    as (bl' & txs & txs' & Hl' & Hn' & Ht & Ht' & Hall). exists bl'.
  destruct (parse_loop_spec _ _ ParseTx_header _ _ _ _ _ Hl') as (_ & Hha' & _). simpl in *.
  rewrite Ht, Ht'. split_and!; [exact Hl'|congruence|congruence|done|].
  rewrite Htxs0 in Ht. subst. by apply StronglySorted_lt_NoDup.
Qed.

Lemma prepare_reparse now now' envs l bl fbl :
  prepare BlockHeaderHash ComputeBlockDataHash (parser now) validator envs l = Ok (bl, fbl) →
  ∃ bl', parser now' fbl = Ok bl' ∧ blk_Number bl' = blk_Number bl ∧ blk_Hash bl' = blk_Hash bl ∧
    Forall2 same_outcome (blk_Transactions bl) (blk_Transactions bl').
Proof.
  unfold prepare. rewrite outcome_bind_ok. intros ([n prev] & _ & Hp).
  apply outcome_bind_ok in Hp as (bl0 & Hparse & Hp).
  destruct (Validate validator bl0) as [[[? bl1] codes] [e|]] eqn:Ev; [done|].
  apply outcome_bind_ok in Hp as (fbl1 & Hw & [= <- <-]).
  destruct (Validate_codes _ _ _ _ _ Ev) as (Hbl1 & Hbody & -> & Hbytes & Hdec).
  pose proof (makeBlock_parts ComputeBlockDataHash filter_index n prev envs) as Hparts.
  destruct (with_filter_parts _ _ _ _ _ _ Hparts Hw) as (filt' & Hsc & Hparts').
  destruct (Parse_refilter now now' _ _ _ _ _ _ _ Hparts Hparts' Hparse) as (bl' & -> & Hn & Hh & Hall & HN).
  exists bl'. split_and!; [done|by rewrite Hbl1|by rewrite Hbl1|].
  apply Forall2_same_length_lookup. split.
  { by rewrite <- (Forall2_length _ _ _ Hbody), (Forall2_length _ _ _ Hall). }
  intros i v t' Hv Ht'. destruct (Forall2_lookup_r _ _ _ _ _ Hbody Hv) as (t & Ht & Hb).
  pose proof (Forall2_lookup_lr _ _ _ _ _ _ Hall Ht Ht') as Hr.
  pose proof (proj1 (Forall_lookup _ _) Hdec _ _ Hv) as [Hd Hc].
  assert (byte_code (codeFor validator (tx_Status v))) as Hbyte.
  { apply (proj1 (Forall_lookup _ _) Hbytes i). by rewrite list_lookup_fmap, Hv. }
  eapply refiltered_outcome; [done..|]. eapply scatter_lookup; [exact Hsc| |].
  - rewrite fst_zip by (by rewrite length_fmap). by rewrite (same_body_numbers _ _ Hbody).
  - apply list_elem_of_lookup. exists i. apply lookup_zip_with_Some.
    eexists _, _. split; [reflexivity|]. split; [done|]. by rewrite list_lookup_fmap, Hv.
Qed.

End Statuses.

(** ** The two ledgers *)

Section Processed.
Context `{Protos} `{HeaderTypes} `{!HeaderTypesLaws}.
Context (BlockHeaderHash : BlockHeader → bytes) (ComputeBlockDataHash : list bytes → bytes).

Lemma process_ok faults vdb parser validator envs l l' :
  process BlockHeaderHash ComputeBlockDataHash faults vdb parser validator envs l = (l', Ok tt) →
  ∃ bl fbl, prepare BlockHeaderHash ComputeBlockDataHash parser validator envs l = Ok (bl, fbl) ∧
    ld_blocks l' = ld_blocks l ++ [fbl] ∧
    ∀ db, ld_db l = Some db → ∃ db', ld_db l' = Some db' ∧ UpdateWorldState faults vdb bl db = (db', Ret tt).
Proof.
  intros [[? _]|(_ & bl & fbl & Hp & Hc)]%process_cases; [done|]. exists bl, fbl. split; [done|].
  apply commit_cases in Hc as [(? & [=] & _)|(_ & Hb & _ & _ & Hdb)]. split; [done|].
  intros db Hl. rewrite Hl in Hdb. by destruct Hdb.
Qed.

(** What a Fabric-X ledger stores reads back as what it validated. *)
Lemma fabricx_prepare_reparse `{CL : CommitterCodesLaws} getter now now' envs l bl fbl :
  BlockMetadataIndex_TRANSACTIONS_FILTER = 2%nat →
  prepare BlockHeaderHash ComputeBlockDataHash (fabricx_Parse BlockHeaderHash now)
    (fabricx_NewMVCCValidator getter) envs l = Ok (bl, fbl) →
  ∃ bl', fabricx_Parse BlockHeaderHash now' fbl = Ok bl' ∧ blk_Number bl' = blk_Number bl ∧
    blk_Hash bl' = blk_Hash bl ∧ Forall2 same_outcome (blk_Transactions bl) (blk_Transactions bl').
Proof.
  intros Hidx Hp. eapply (prepare_reparse BlockHeaderHash ComputeBlockDataHash Hidx StatusFromCommitterStatus
    fabricx_statusForTx fabricx_ParseTx); [|apply fabricx_ParseTx_header| |exact Hp].
  - intros filt k b Hk. unfold fabricx_statusForTx. by rewrite Hk.
  - destruct (fabricx_codes_read_back CL) as (Hback & Hc & _ & Hm). unfold decided, codeFor. simpl.
    intros s [-> | ->]; [rewrite Hc; pose proof (Hback _ _ Hc) as Hs|rewrite Hm; pose proof (Hback _ _ Hm) as Hs];
      eexists; unfold status_of, StatusFromCommitterStatus in *; simpl in Hs; by rewrite Hs.
Qed.

(** A block says what the ledger did: when [process] succeeds on a Fabric-X ledger,
    parsing the stored block gives the transactions that were validated, with the
    statuses and codes the validator gave them, and it is this validated block that
    was applied to the ledger's own world state. *)
Theorem process_statuses_stored `{CL : CommitterCodesLaws} faults vdb getter now envs l l' :
  BlockMetadataIndex_TRANSACTIONS_FILTER = 2%nat →
  process BlockHeaderHash ComputeBlockDataHash faults vdb (fabricx_Parse BlockHeaderHash now)
    (fabricx_NewMVCCValidator getter) envs l = (l', Ok tt) →
  ∃ bl fbl, ld_blocks l' = ld_blocks l ++ [fbl] ∧
    (∀ db, ld_db l = Some db → ∃ db', ld_db l' = Some db' ∧ UpdateWorldState faults vdb bl db = (db', Ret tt)) ∧
    ∀ now', ∃ bl', fabricx_Parse BlockHeaderHash now' fbl = Ok bl' ∧ blk_Number bl' = blk_Number bl ∧
      blk_Hash bl' = blk_Hash bl ∧ Forall2 same_outcome (blk_Transactions bl) (blk_Transactions bl').
Proof.
  intros Hidx (bl & fbl & Hp & Hb & Hdb)%process_ok. exists bl, fbl. split_and!; [done..|]. intros now'.
  by eapply fabricx_prepare_reparse.
Qed.

(** The same for a Fabric ledger. *)
Theorem fabric_process_statuses_stored `{VL : ValidationCodesLaws} faults vdb getter now envs l l' :
  BlockMetadataIndex_TRANSACTIONS_FILTER = 2%nat →
  process BlockHeaderHash ComputeBlockDataHash faults vdb (fabric_Parse BlockHeaderHash now)
    (fabric_NewMVCCValidator getter) envs l = (l', Ok tt) →
  ∃ bl fbl, ld_blocks l' = ld_blocks l ++ [fbl] ∧
    (∀ db, ld_db l = Some db → ∃ db', ld_db l' = Some db' ∧ UpdateWorldState faults vdb bl db = (db', Ret tt)) ∧
    ∀ now', ∃ bl', fabric_Parse BlockHeaderHash now' fbl = Ok bl' ∧ blk_Number bl' = blk_Number bl ∧
      blk_Hash bl' = blk_Hash bl ∧ Forall2 same_outcome (blk_Transactions bl) (blk_Transactions bl').
Proof.
  intros Hidx (bl & fbl & Hp & Hb & Hdb)%process_ok. exists bl, fbl. split_and!; [done..|]. intros now'.
  eapply (prepare_reparse BlockHeaderHash ComputeBlockDataHash Hidx StatusFromValidationCode fabric_statusForTx
    fabric_ParseTx); [|apply fabric_ParseTx_header| |exact Hp].
  - intros filt k b Hk. unfold fabric_statusForTx. by rewrite Hk.
  - destruct (fabric_codes_read_back VL) as (Hback & Hc & _ & Hm). unfold decided, codeFor. simpl.
    intros s [-> | ->]; [rewrite Hc; pose proof (Hback _ _ Hc) as Hs|rewrite Hm; pose proof (Hback _ _ Hm) as Hs];
      eexists; unfold status_of, StatusFromValidationCode in *; simpl in Hs; by rewrite Hs.
Qed.

End Processed.

(** ** A concrete ledger *)

Module Ledgers.
Import Wire.

Definition hash (h : BlockHeader) : bytes := wire (bh_Number h).
Definition data_hash (data : list bytes) : bytes := concat data.

(** A ledger with an external world state that is only genesis, with one
    subscriber. *)
Definition genesis : RawBlock := makeBlock data_hash 0 [] [].
Definition start : ledger := MkLedger [genesis] [[]] None false.

Definition env : Envelope := Feeds.envelope "t1" (Feeds.app_tx "a").

(** No record is committed. *)
Definition getter : RecordGetter := λ _ _, Ret None.

Definition fresh_block : RawBlock := makeBlock data_hash 1 (hash (MkBlockHeader 0 [] [])) [env].

Definition no_faults : nat → bool := λ _, false.
Definition vdb : VersionedDB := MkVersionedDB "ch".

Lemma fresh_block_parses : fabricx_Parse (H2 := committer_codes) hash 0 fresh_block =
  Ok (MkBlock 1 (hash (MkBlockHeader 1 [] [])) (hash (MkBlockHeader 0 [] [])) 0
        [with_status (fabricx_statusForTx (H2 := committer_codes)) [Byte.x00] 0 (Feeds.parsed_tx "t1" "a")] None).
Proof.
  unfold fabricx_Parse, Parse, fresh_block, makeBlock. simpl.
  change ([[]; []; [Byte.x00]] !! BlockMetadataIndex_TRANSACTIONS_FILTER) with (Some [Byte.x00]). simpl.
  change (marshal_envelope env) with (wire env). unfold env. by rewrite Feeds.envelope_parsed.
Qed.

Lemma start_processes : ∃ l', process hash data_hash no_faults vdb (fabricx_Parse (H2 := committer_codes) hash 0)
  (fabricx_NewMVCCValidator (H := committer_codes) getter) [env] start = (l', Ok tt).
Proof.
  unfold process, prepare. simpl. change (makeBlock data_hash _ _ [env]) with fresh_block.
  rewrite fresh_block_parses. simpl. by eexists.
Qed.

(** A ledger from its genesis block on, after one batch. *)
Lemma real_genesis : ∃ g, makeGenesisBlock data_hash (0, []) = Ok g.
Proof. by eexists. Qed.

Lemma grown_reachable : ∃ g, ledger_reachable hash data_hash
  (process hash data_hash no_faults vdb (fabricx_Parse (H2 := committer_codes) hash 0)
    (fabricx_NewMVCCValidator (H := committer_codes) getter) [env] (newLedger g None)).1.
Proof.
  destruct real_genesis as [g Hg]. exists g, (0, []), g, None.
  split; [exact Hg|]. apply rtc_once. constructor.
Qed.

End Ledgers.

Import Wire.

Lemma process_statuses_stored_witness :
  ∃ l' bl fbl, ld_blocks l' = ld_blocks Ledgers.start ++ [fbl] ∧
    ∀ now', ∃ bl', fabricx_Parse (H2 := committer_codes) Ledgers.hash now' fbl = Ok bl' ∧
      Forall2 same_outcome (blk_Transactions bl) (blk_Transactions bl').
Proof.
  destruct Ledgers.start_processes as [l' Hl'].
  destruct (process_statuses_stored (H1 := headers) (V := committer_codes) Ledgers.hash Ledgers.data_hash
    _ _ _ _ _ _ _ eq_refl Hl')
    as (bl & fbl & Hb & _ & Hre).
  exists l', bl, fbl. split; [exact Hb|]. intros now'. destruct (Hre now') as (bl' & Hp & _ & _ & Hall).
  exists bl'. exact (conj Hp Hall).
Defined.

Lemma ledger_chain_witness :
  ∃ l, ledger_reachable Ledgers.hash Ledgers.data_hash l ∧ chained Ledgers.hash Ledgers.data_hash (ld_blocks l).
Proof.
  destruct Ledgers.grown_reachable as [g Hg].
  eexists. split; [exact Hg|]. exact (proj1 (ledger_chain Ledgers.hash Ledgers.data_hash eq_refl _ Hg)).
Defined.
