(* ===== verification/Lifecycle.v ===== *)
(** * The life of a transaction

    From an envelope in a batch of the test orderer to the world state: the
    ledger (fabrictest/ledger.go) puts it in a block, the parser
    (blocks/fabricx/parser.go) finds its transaction, the validator
    (blocks/mvcc.go) decides it, the world state (state/db.go) applies it, and
    a client parses the stored block.

    The theorem states what a submitter may rely on: the stored block has
    exactly one transaction at the position of the envelope, with the content
    of the envelope, and it is either committed, with current reads and all its
    writes in the world state, or a conflict that left no row. *)

From S2P Require Import Prelude Blocks Status Mvcc WorldState WorldStateTheory Proto Endorse Parser Finality Delivery Ledger.

(** A row of the table after an insert was there or is one of those inserted. *)
Lemma insert_all_origin rows rs rows' e :
  insert_all rows rs = Some rows' → e ∈ rows' →
  e ∈ rows ∨ ∃ r, r ∈ rs ∧ primary_key e = primary_key r.
Proof.
  revert rows. induction rs as [|r rs IH]; intros rows; simpl; [intros [= ->]; by left|].
  rewrite bind_Some. intros (rows1 & H1 & H2) He.
  destruct (IH _ H2 He) as [Hin|(r' & Hr' & Hk)]; [|right; exists r'; split; [by right|done]].
  revert H1. unfold insert_spec. destruct (find_row rows r); [case_match|]; intros [= <-]; [by left|].
  apply elem_of_app in Hin as [Hin| ->%list_elem_of_singleton]; [by left|].
  right. exists r. split; [by left|done].
Qed.

(** What a transaction says, apart from its position and its outcome. *)
Definition content (tx : Transaction) :=
  (tx_ID tx, tx_InputArgs tx, tx_Event tx, tx_EventName tx, tx_Payload tx, tx_NsRWS tx).

Lemma same_body_content t t' : same_body t t' → content t' = content t ∧ tx_Number t' = tx_Number t.
Proof. by intros ->. Qed.

Lemma content_rows ch n t t' :
  content t' = content t → tx_Number t' = tx_Number t → tx_rows ch n t' = tx_rows ch n t.
Proof.
  unfold content, tx_rows. intros Hc Hn. destruct t, t'; simpl in *. by simplify_eq.
Qed.

Lemma content_reads t t' : content t' = content t → tx_reads t' = tx_reads t.
Proof. unfold content, tx_reads. by intros [= _ _ _ _ _ ->]. Qed.

(** The transaction at position [i] of a batch. *)
Section Fate.
Context `{PL : ProtosLaws} `{HL : HeaderTypesLaws} `{CL : CommitterCodesLaws}.
Context (BlockHeaderHash : BlockHeader → bytes) (ComputeBlockDataHash : list bytes → bytes).
Context (filter_index : BlockMetadataIndex_TRANSACTIONS_FILTER = 2%nat).
Context (getter : RecordGetter).

#[local] Abbreviation parser now := (fabricx_Parse BlockHeaderHash now).
#[local] Abbreviation validator := (fabricx_NewMVCCValidator getter).

(** The parsed transactions that [prepare] hands to the validator. *)
Lemma batch_parsed now n prev envs bl :
  parser now (makeBlock ComputeBlockDataHash n prev envs) = Ok bl →
  blk_Number bl = n ∧ StronglySorted Z.lt (tx_Number <$> blk_Transactions bl) ∧
  ∀ i env b tx0, envs !! i = Some env → Marshal env = Ret b → fabricx_ParseTx env = Ok (Some tx0) →
    ∃ tx, tx ∈ blk_Transactions bl ∧ tx_Number tx = Z.of_nat i ∧ content tx = content tx0.
Proof.
  intros (header & filt & data & (Hh & Hd & _) & Hn & _ & _ & Hs & Hin)%Parse_spec;
    [|apply fabricx_ParseTx_header]. simpl in Hh, Hd. simplify_eq.
  split_and!; [done..|]. intros i env b tx0 Hi Hm Hp.
  exists (with_status fabricx_statusForTx filt i tx0). split.
  - apply Hin. exists i, tx0. split; [|done]. exists b, env.
    rewrite list_lookup_fmap, Hi. simpl. unfold marshal_envelope. rewrite Hm. split_and!; [done| |done].
    by apply Unmarshal_Marshal.
  - unfold with_status. by destruct (fabricx_statusForTx filt i) as [[? ?] ?].
Qed.

(** The block that [prepare] validates has the transactions of the batch. *)
Lemma prepare_validated now envs l bl fbl :
  prepare BlockHeaderHash ComputeBlockDataHash (parser now) validator envs l = Ok (bl, fbl) →
  ∃ bl0 l' codes, Validate validator bl0 = (l', bl, codes, None) ∧ blk_Number bl = height l ∧
    StronglySorted Z.lt (tx_Number <$> blk_Transactions bl) ∧
    ∀ i env b tx0, envs !! i = Some env → Marshal env = Ret b → fabricx_ParseTx env = Ok (Some tx0) →
      ∃ k tx, blk_Transactions bl !! k = Some tx ∧ tx_Number tx = Z.of_nat i ∧ content tx = content tx0.
Proof.
  unfold prepare. rewrite outcome_bind_ok. intros ([n prev] & Hnext & Hp).
  unfold next in Hnext. apply outcome_bind_ok in Hnext as (h & _ & [= <- <-]).
  apply outcome_bind_ok in Hp as (bl0 & Hparse & Hp).
  destruct (Validate validator bl0) as [[[l' bl1] codes] [e|]] eqn:Ev; [done|].
  apply outcome_bind_ok in Hp as (fbl1 & _ & [= <- <-]). exists bl0, l', codes.
  apply batch_parsed in Hparse as (Hn & Hs & Hin).
  destruct (Validate_codes _ _ _ _ _ Ev) as (Hbl1 & Hbody & _).
  split_and!; [done|by rewrite Hbl1|by rewrite (same_body_numbers _ _ Hbody)|].
  intros i env b tx0 Hi Hm Hp. destruct (Hin i env b tx0 Hi Hm Hp) as (t & [k Hk]%list_elem_of_lookup & Ht & Hc).
  destruct (Forall2_lookup_l _ _ _ _ _ Hbody Hk) as (v & Hv & [Hcv Hnv]%same_body_content).
  exists k, v. split_and!; [done|congruence..].
Qed.

(** A transaction that the validator accepted has its writes in the world
    state; one that it refused has no row there. *)
Lemma applied_writes faults vdb bl s s' tx ns w n :
  UpdateWorldState faults vdb bl s = (s', Ret tt) →
  tx ∈ blk_Transactions bl → Transaction_Valid tx = true →
  n ∈ tx_NsRWS tx → ns = ns_Namespace n → w ∈ rws_Writes (ns_RWS n) →
  ∃ e, find_row (worldstate s') (row_of (channel vdb) (blk_Number bl) tx ns w) = Some e ∧
    row_value e = wr_Value w ∧ row_is_delete e = wr_IsDelete w ∧ row_tx_id e = tx_ID tx.
Proof.
  intros (_ & rows' & Hins & ->)%UpdateWorldState_ret Htx Hv Hn -> Hw.
  destruct (insert_all_found _ _ _ (row_of (channel vdb) (blk_Number bl) tx (ns_Namespace n) w) Hins) as (e & He & Hs).
  { apply elem_of_block_rows. exists tx. split_and!; [done..|]. unfold tx_rows. apply list_elem_of_bind.
    exists n. split; [by apply list_elem_of_fmap_2|done]. }
  exists e. split; [done|]. revert Hs. unfold same_content. rewrite !andb_true_iff, !bool_decide_eq_true, Bool.eqb_true_iff.
  by intros [[? ?] ?].
Qed.

Lemma refused_no_row faults vdb bl s s' tx e :
  UpdateWorldState faults vdb bl s = (s', Ret tt) →
  StronglySorted Z.lt (tx_Number <$> blk_Transactions bl) →
  (∀ r, r ∈ worldstate s → row_block r ≠ blk_Number bl) →
  tx ∈ blk_Transactions bl → Transaction_Valid tx = false →
  e ∈ worldstate s' → row_block e = blk_Number bl → row_tx e ≠ tx_Number tx.
Proof.
  intros (_ & rows' & Hins & ->)%UpdateWorldState_ret Hs Hfresh Htx Hv He Hb Ht.
  destruct (insert_all_origin _ _ _ _ Hins He) as [Hin|(r & Hr & Hk)]; [by apply (Hfresh e)|].
  apply elem_of_block_rows in Hr as (t & Hin & Hvt & Hr). unfold tx_rows in Hr.
  apply list_elem_of_bind in Hr as (m & Hr & _). apply list_elem_of_fmap in Hr as (w & -> & _).
  injection Hk as _ _ _ _ Hnum. assert (t = tx) as ->; [|congruence].
  eapply (NoDup_fmap_inj tx_Number); [by apply StronglySorted_lt_NoDup|done|done|congruence].
Qed.

(** What a validated transaction came to, read off the stored block. *)
Lemma fate_of_validated faults vdb db db' bl0 lv bl bl' codes k v t :
  Validate validator bl0 = (lv, bl, codes, None) → UpdateWorldState faults vdb bl db = (db', Ret tt) →
  StronglySorted Z.lt (tx_Number <$> blk_Transactions bl) →
  (∀ r, r ∈ worldstate db → row_block r ≠ blk_Number bl) →
  Forall2 same_outcome (blk_Transactions bl) (blk_Transactions bl') →
  blk_Transactions bl !! k = Some v → blk_Transactions bl' !! k = Some t →
  (tx_Status t = StatusCommitted ∧
    (∀ ns r, (ns, r) ∈ tx_reads v →
      (∃ rec, getter ns (rd_Key r) = Ret rec ∧ read_matches true rec r = true) ∧
      ∀ j txj, (j < k)%nat → blk_Transactions bl' !! j = Some txj → Transaction_Valid txj = true →
        (ns, rd_Key r) ∉ tx_writes txj) ∧
    (∀ n w, n ∈ tx_NsRWS v → w ∈ rws_Writes (ns_RWS n) →
      ∃ e, find_row (worldstate db') (row_of (channel vdb) (blk_Number bl) t (ns_Namespace n) w) = Some e ∧
        row_value e = wr_Value w ∧ row_is_delete e = wr_IsDelete w ∧ row_tx_id e = tx_ID v)) ∨
  (tx_Status t = StatusMVCCConflict ∧
    ∀ e, e ∈ worldstate db' → row_block e = blk_Number bl → row_tx e ≠ tx_Number v).
Proof.
  intros Hval Hu Hs Hfresh Hsame Hk Ht.
  destruct (Validate_codes _ _ _ _ _ Hval) as (_ & _ & _ & _ & Hdec).
  pose proof (proj1 (Forall_lookup _ _) Hdec _ _ Hk) as [Hd _].
  pose proof (Forall2_lookup_lr _ _ _ _ _ _ Hsame Hk Ht) as (Hb & Hst & _).
  pose proof (list_elem_of_lookup_2 _ _ _ Hk) as Hvin. rewrite Hst. destruct Hd as [Hd|Hd].
  - left. assert (Transaction_Valid v = true) as Hv by (unfold Transaction_Valid; by rewrite Hd).
    split_and!; [done| |].
    + intros ns r Hr. destruct (Validate_sound _ _ _ _ _ _ _ _ _ Hval Hk Hv Hr) as [Hrec Hearlier].
      split; [exact Hrec|]. intros j txj Hj Htj Hvj.
      destruct (Forall2_lookup_r _ _ _ _ _ Hsame Htj) as (vj & Hvj' & Hbj & Hsj & _).
      rewrite (same_body_writes _ _ Hbj). apply (Hearlier j); [done..|]. revert Hvj. unfold Transaction_Valid. by rewrite Hsj.
    + intros n w Hn Hw. destruct (applied_writes _ _ _ _ _ _ _ w n Hu Hvin Hv Hn eq_refl Hw) as (e & He & Hrest).
      exists e. split; [|done]. by rewrite Hb.
  - right. split; [done|]. intros e He Hbe. eapply refused_no_row; [done..| |done|done].
    unfold Transaction_Valid. by rewrite Hd.
Qed.

End Fate.

(** ** The life of the ledger *)

Section Life.
Context `{PL : ProtosLaws} `{HL : HeaderTypesLaws} `{CL : CommitterCodesLaws}.
Context (BlockHeaderHash : BlockHeader → bytes) (ComputeBlockDataHash : list bytes → bytes).
Context (filter_index : BlockMetadataIndex_TRANSACTIONS_FILTER = 2%nat).

#[local] Abbreviation parser now := (fabricx_Parse BlockHeaderHash now).

(** What the validator of a network reads that was started without a world
    state: the ledger's own database, as it is when a batch is processed. *)
Definition own_getter (vdb : VersionedDB) (l : ledger) : RecordGetter :=
  match ld_db l with
  | None => λ _ _, Ret None
  | Some s =>
      if ld_closed l then λ _ _, Fail (Wrapf "get current: %w" [] ErrDBClosed)
      else as_getter vdb s
  end.

(** [process] of the ledger of such a Fabric-X network. *)
Definition own_process (faults : nat → bool) (vdb : VersionedDB) (now : Z) (envs : list Envelope) (l : ledger)
    : ledger * outcome unit :=
  process BlockHeaderHash ComputeBlockDataHash faults vdb (parser now)
    (fabricx_NewMVCCValidator (own_getter vdb l)) envs l.

(** The operations on the ledger of a Fabric-X network; the driver of the
    database may fail at any call. *)
Inductive life_step (vdb : VersionedDB) : ledger → ledger → Prop :=
  | life_process faults now envs l :
      life_step vdb l (own_process faults vdb now envs l).1
  | life_truncate num l : 0 ≤ num → life_step vdb l (truncate num l).1
  | life_subscribe l : life_step vdb l (subscribe l).2
  | life_receive l i b ch : ld_subs l !! i = Some (b :: ch) →
      life_step vdb l (MkLedger (ld_blocks l) (<[i := ch]> (ld_subs l)) (ld_db l) (ld_closed l))
  | life_close l : life_step vdb l (close l).

(** The rows of the ledger's own world state are of blocks of its chain. *)
Definition rows_below (l : ledger) : Prop :=
  ∀ db r, ld_db l = Some db → r ∈ worldstate db → row_block r < height l.

Lemma life_rows_below vdb l l' : rtc (life_step vdb) l l' → rows_below l → rows_below l'.
Proof.
  induction 1 as [|l l1 l' Hs _ IH]; [done|]. intros Hb. apply IH. clear IH l'.
  destruct Hs as [faults now envs l|num l _|l|l i b ch _|l]; try exact Hb.
  - destruct (own_process faults vdb now envs l) as [l1 res] eqn:Ep.
    apply process_cases in Ep as [[_ ->]|(_ & bl & fbl & Hp & Hc)]; [done|].
    apply commit_cases in Hc as [(? & [=] & _)|(_ & Hblocks & _ & _ & Hdb)]. intros db r. simpl. unfold height.
    destruct (ld_db l) as [db0|] eqn:Edb; [|congruence]. destruct Hdb as (_ & db' & -> & Hu). intros [= <-] Hr.
    rewrite Hblocks, length_app. simpl. apply UpdateWorldState_ret in Hu as (_ & rows' & Hins & ->).
    destruct (insert_all_origin _ _ _ _ Hins Hr) as [Hin|(r' & Hr' & Hk)].
    { specialize (Hb db0 r Edb Hin). unfold height in Hb. lia. }
    apply elem_of_block_rows in Hr' as (t & _ & _ & Hr'). unfold tx_rows in Hr'.
    apply list_elem_of_bind in Hr' as (m & Hr' & _). apply list_elem_of_fmap in Hr' as (w & -> & _).
    apply (prepare_validated _ _) in Hp as (? & ? & ? & _ & Hn & _).
    injection Hk as _ _ _ Hblk _. rewrite Hblk, Hn. unfold height. lia.
  - intros db r. unfold truncate. destruct (ld_db l) as [db0|] eqn:Edb; [|by case_match; simpl; congruence].
    simpl. rewrite Edb. intros [= <-]. by apply Hb.
Qed.

Lemma life_keeps_db vdb l l' : rtc (life_step vdb) l l' → is_Some (ld_db l) → is_Some (ld_db l').
Proof.
  induction 1 as [|l l1 l' Hs _ IH]; [done|]. intros [db Hdb]. apply IH. clear IH l'.
  destruct Hs as [faults now envs l|num l _|l|l i b ch _|l]; simpl; rewrite ?Hdb; try by eexists.
  - destruct (own_process faults vdb now envs l) as [l1 res] eqn:Ep.
    apply process_cases in Ep as [[_ ->]|(_ & bl & fbl & Hp & Hc)]; [by eexists|].
    apply commit_cases in Hc as [(? & [=] & _)|(_ & _ & _ & _ & Hdb')]. rewrite Hdb in Hdb'.
    destruct Hdb' as (_ & db' & Hl1 & _). exists db'. exact Hl1.
  - unfold truncate. rewrite Hdb. by eexists.
Qed.

Lemma own_process_open faults vdb now envs l l' db :
  ld_db l = Some db → own_process faults vdb now envs l = (l', Ok tt) → ld_closed l = false.
Proof.
  intros Hdb [[? _]|(_ & bl & fbl & _ & Hc)]%process_cases; [done|].
  apply commit_cases in Hc as [(? & [=] & _)|(_ & _ & _ & _ & Hc)]. rewrite Hdb in Hc. by destruct Hc.
Qed.

(** C4: the fate of a submitted envelope.  When, at any time of its life, after
    any number of blocks, the Fabric-X ledger with a world state of its own
    processes a batch, every envelope of it that holds a transaction has exactly
    one transaction in the block that the ledger stores, at its position and with
    its content.  Whoever parses that block finds it either committed, and then
    all its reads match the records that the world state held just before the
    block, no transaction committed before it in the block wrote a
    key that it read, and all its writes are in the world state under its id; or
    refused as an MVCC conflict, and then the world state has no row of it. *)
Theorem envelope_fate faults vdb now now' genesis envs l l' i env b tx0 :
  rtc (life_step vdb) (newLedger genesis (Some init)) l →
  envs !! i = Some env → Marshal env = Ret b → fabricx_ParseTx env = Ok (Some tx0) →
  own_process faults vdb now envs l = (l', Ok tt) →
  ∃ db fbl bl db' k tx, ld_db l = Some db ∧ ld_blocks l' = ld_blocks l ++ [fbl] ∧ ld_db l' = Some db' ∧
    parser now' fbl = Ok bl ∧ blk_Number bl = height l ∧
    blk_Transactions bl !! k = Some tx ∧ tx_Number tx = Z.of_nat i ∧ content tx = content tx0 ∧
    (∀ tx', tx' ∈ blk_Transactions bl → tx_Number tx' = Z.of_nat i → tx' = tx) ∧
    ((tx_Status tx = StatusCommitted ∧
      (∀ ns r, (ns, r) ∈ tx_reads tx0 →
        (∃ rec, Get None vdb ns (rd_Key r) db = Ret rec ∧ read_matches true rec r = true) ∧
        ∀ j txj, (j < k)%nat → blk_Transactions bl !! j = Some txj → Transaction_Valid txj = true →
          (ns, rd_Key r) ∉ tx_writes txj) ∧
      (∀ n w, n ∈ tx_NsRWS tx0 → w ∈ rws_Writes (ns_RWS n) →
        ∃ e, find_row (worldstate db') (row_of (channel vdb) (height l) tx (ns_Namespace n) w) = Some e ∧
          row_value e = wr_Value w ∧ row_is_delete e = wr_IsDelete w ∧ row_tx_id e = tx_ID tx0)) ∨
     (tx_Status tx = StatusMVCCConflict ∧
      ∀ e, e ∈ worldstate db' → row_block e = height l → row_tx e ≠ Z.of_nat i)).
Proof.
  intros Hlife Hi Hm Hp Hproc. destruct (life_keeps_db _ _ _ Hlife ltac:(by eexists)) as [db Hdb].
  pose proof (own_process_open _ _ _ _ _ _ _ Hdb Hproc) as Hopen.
  apply process_ok in Hproc as (bl & fbl & Hprep & Hblocks & Hup).
  destruct (Hup db Hdb) as (db' & Hdb' & Hu). clear Hup.
  assert (∀ r, r ∈ worldstate db → row_block r ≠ height l) as Hfresh.
  { intros r Hr. enough (row_block r < height l) by lia. eapply (life_rows_below _ _ _ Hlife); [|done..].
    intros ? r' [= <-] Hr'. inversion Hr'. }
  destruct (fabricx_prepare_reparse _ _ _ now now' _ _ _ _ filter_index Hprep) as (bl' & Hparse & Hn' & _ & Hsame).
  destruct (prepare_validated _ _ _ _ _ _ _ _ Hprep) as (bl0 & lv & codes & Hval & Hn & Hs & Hin).
  destruct (Hin i env b tx0 Hi Hm Hp) as (k & v & Hk & Hnum & Hc).
  destruct (Forall2_lookup_l _ _ _ _ _ Hsame Hk) as (t & Ht & Hb & Hst & _).
  destruct (same_body_content _ _ Hb) as [Htc Htn].
  exists db, fbl, bl', db', k, t. split_and!; [done..|congruence|done|congruence|congruence| |].
  - intros t' Ht' Hnt. eapply (NoDup_fmap_inj tx_Number); [|done|by eapply list_elem_of_lookup_2|congruence].
    apply StronglySorted_lt_NoDup. erewrite same_body_numbers; [exact Hs|].
    eapply Forall2_impl; [exact Hsame|]. by intros ? ? [? _].
  - pose proof (fate_of_validated _ _ _ _ _ _ _ _ _ _ _ _ _ Hval Hu Hs ltac:(by rewrite Hn) Hsame Hk Ht) as Hfate.
    unfold own_getter in Hfate. rewrite Hdb, Hopen in Hfate.
    rewrite Hnum, Hn, (content_reads _ _ Hc) in Hfate. by injection Hc as Hid _ _ _ _ Hns; rewrite Hid, Hns in Hfate.
Qed.

End Life.

(** ** An example: a batch of one envelope on a ledger with an empty world state *)

Import Wire.

Definition own_start : ledger := newLedger Ledgers.genesis (Some init).

Lemma own_start_processes : ∃ l', own_process (V := committer_codes) Ledgers.hash Ledgers.data_hash Ledgers.no_faults
  Ledgers.vdb 0 [Ledgers.env] own_start = (l', Ok tt).
Proof.
  unfold own_process, process, prepare. simpl. change (makeBlock Ledgers.data_hash _ _ [Ledgers.env]) with Ledgers.fresh_block.
  rewrite Ledgers.fresh_block_parses. cbn [mbind outcome_bind].
  destruct (Validate _ _) as [[[lv bl] codes] err] eqn:Ev. vm_compute in Ev. injection Ev as _ <- <- <-. simpl.
  by eexists.
Qed.

Lemma envelope_fate_witness :
  ∃ l' fbl bl tx, ld_blocks l' = ld_blocks own_start ++ [fbl] ∧
    fabricx_Parse (H2 := committer_codes) Ledgers.hash 7 fbl = Ok bl ∧
    tx ∈ blk_Transactions bl ∧ tx_ID tx = "t1".
Proof.
  destruct own_start_processes as [l' Hl'].
  assert ([Ledgers.env] !! 0%nat = Some Ledgers.env) as Hi by done.
  assert (Marshal Ledgers.env = Ret (wire Ledgers.env)) as Hm by done.
  destruct (envelope_fate (HL := headers_laws) (CL := committer_codes_laws) Ledgers.hash Ledgers.data_hash eq_refl
    _ Ledgers.vdb 0 7 Ledgers.genesis [Ledgers.env] own_start l' 0%nat Ledgers.env (wire Ledgers.env)
    (Feeds.parsed_tx "t1" "a") (rtc_refl _ _) Hi Hm (Feeds.envelope_ParseTx _ _) Hl')
    as (db & fbl & bl & db' & k & tx & _ & Hb & _ & Hp & _ & Hk & _ & Hc & _).
  exists l', fbl, bl, tx. split_and!; [exact Hb|exact Hp|by eapply list_elem_of_lookup_2|].
  by injection Hc as ->.
Defined.
