(* ===== verification/TestOrderer.v ===== *)
(** * The orderer of the test network

    [testOrderer] of fabrictest/orderer.go: broadcasts put envelopes on a
    channel of capacity 64, and one goroutine collects them into batches, cuts
    blocks on a full batch, on a timer or on request, and reverts the chain.

    The batch, the timer and the ledger are the locals of [batchingLoop]; one
    step of [orderer_step] is one case of its select, or one broadcast.  A
    batch that the ledger refuses panics the process.  Closing the stop channel
    makes one more case of the select ready, and does not disable the others.

    The theorems: envelopes reach the chain in the order they were accepted,
    none is lost, duplicated or reordered until a revert; no block has more
    transactions than configured; and the timer runs exactly while a batch
    waits, so that no batch is left behind. *)

From S2P Require Import Prelude Blocks Status Mvcc WorldState Proto Endorse Parser Finality Delivery Ledger.

(** [Config]; the duration in nanoseconds. *)
Record Config := MkOrdererConfig {
  oc_BlockCutTime : Z;
  oc_MaxTxPerBlock : Z;
  oc_OrdererPort : Z;
  oc_PeerPort : Z }.

Record testOrderer := MkTestOrderer {
  to_inCh : list Envelope;
  to_batch : list Envelope;
  to_timer : bool;
  to_ledger : ledger;
  (** [stopCh] is closed. *)
  to_stopped : bool;
  (** [batchingLoop] has returned. *)
  to_returned : bool;
  to_panicked : bool }.

Definition inCh_cap : nat := 64.

Definition newTestOrderer (l : ledger) : testOrderer := MkTestOrderer [] [] false l false false false.

Section Orderer.
Context `{Protos} `{HeaderTypes}.
Context (BlockHeaderHash : BlockHeader → bytes) (ComputeBlockDataHash : list bytes → bytes).
Context (faults : nat → bool) (vdb : VersionedDB) (parser : RawBlock → outcome Block).
(** The validator reads the world state of the moment. *)
Context (validator : ledger → MVCCValidator) (cfg : Config).

Definition process_batch (envs : list Envelope) (l : ledger) : ledger * outcome unit :=
  process BlockHeaderHash ComputeBlockDataHash faults vdb parser (validator l) envs l.

Definition flush (o : testOrderer) : testOrderer :=
  match to_batch o with
  | [] => o
  | _ =>
      match process_batch (to_batch o) (to_ledger o) with
      | (l', Ok _) => MkTestOrderer (to_inCh o) [] false l' (to_stopped o) (to_returned o) (to_panicked o)
      | (l', _) => MkTestOrderer (to_inCh o) (to_batch o) (to_timer o) l' (to_stopped o) (to_returned o) true
      end
  end.

(** The case of the select that receives an envelope. *)
Definition receive_env (env : Envelope) (rest : list Envelope) (o : testOrderer) : testOrderer :=
  let batch := to_batch o ++ [env] in
  let timer := if (length batch =? 1)%nat && (0 <? oc_BlockCutTime cfg) then true else to_timer o in
  let o' := MkTestOrderer rest batch timer (to_ledger o) (to_stopped o) (to_returned o) (to_panicked o) in
  if (oc_BlockCutTime cfg =? 0) || ((0 <? oc_MaxTxPerBlock cfg) && (oc_MaxTxPerBlock cfg <=? Z.of_nat (length batch)))
  then flush o' else o'.

(** The case that answers [cutBlock]. *)
Definition cut (o : testOrderer) : testOrderer * outcome unit :=
  let '(l', r) := process_batch [] (to_ledger o) in
  (MkTestOrderer (to_inCh o) (to_batch o) (to_timer o) l' (to_stopped o) (to_returned o)
     (match r with Panic => true | _ => to_panicked o end), r).

(** The case that answers [revert]. *)
Definition revert (num : Z) (o : testOrderer) : testOrderer * result unit :=
  let '(l', r) := truncate num (to_ledger o) in
  (MkTestOrderer (to_inCh o) [] false l' (to_stopped o) (to_returned o) (to_panicked o), r).

(** Closing a channel that is closed panics. *)
Definition stop (o : testOrderer) : outcome testOrderer :=
  if to_stopped o then Panic
  else Ok (MkTestOrderer (to_inCh o) (to_batch o) (to_timer o) (to_ledger o) true (to_returned o) (to_panicked o)).

(** The case of the select on the stop channel. *)
Definition return_loop (o : testOrderer) : testOrderer :=
  MkTestOrderer (to_inCh o) (to_batch o) (to_timer o) (to_ledger o) (to_stopped o) true (to_panicked o).

(** [Broadcast] has an envelope to send. *)
Definition broadcast (env : Envelope) (o : testOrderer) : option testOrderer :=
  if decide (length (to_inCh o) < inCh_cap)%nat then
    Some (MkTestOrderer (to_inCh o ++ [env]) (to_batch o) (to_timer o) (to_ledger o) (to_stopped o) (to_returned o) (to_panicked o))
  else None.

Definition running (o : testOrderer) : Prop := to_returned o = false ∧ to_panicked o = false.

(** The steps that keep the chain, with the envelopes they accept. *)
Inductive forward_step : testOrderer → list Envelope → testOrderer → Prop :=
  | fs_broadcast env o o' : broadcast env o = Some o' → forward_step o [env] o'
  | fs_receive env rest o : running o → to_inCh o = env :: rest → forward_step o [] (receive_env env rest o)
  | fs_timer o : running o → to_timer o = true → forward_step o [] (flush o)
  | fs_cut o : running o → forward_step o [] (cut o).1
  | fs_stop o o' : stop o = Ok o' → forward_step o [] o'
  | fs_return o : running o → to_stopped o = true → forward_step o [] (return_loop o).

Inductive orderer_step : testOrderer → testOrderer → Prop :=
  | os_forward o envs o' : forward_step o envs o' → orderer_step o o'
  | os_revert num o : running o → 0 ≤ num → orderer_step o (revert num o).1.

(** A run without reverts, with what it accepted. *)
Inductive forward : testOrderer → list Envelope → testOrderer → Prop :=
  | forward_refl o : forward o [] o
  | forward_snoc o envs o1 envs' o2 : forward o envs o1 → forward_step o1 envs' o2 → forward o (envs ++ envs') o2.

(** The envelopes in a list of blocks. *)
Definition chain_data (blocks : list RawBlock) : list bytes := blocks ≫= λ b, default [] (rb_Data b).

(** ** What processing a batch does to the chain *)

Lemma prepare_data v envs l bl fbl :
  prepare BlockHeaderHash ComputeBlockDataHash parser v envs l = Ok (bl, fbl) →
  rb_Data fbl = Some (marshal_envelope <$> envs).
Proof.
  unfold prepare. rewrite outcome_bind_ok. intros ([n prev] & _ & Hp).
  apply outcome_bind_ok in Hp as (bl0 & _ & Hp). destruct (Validate v bl0) as [[[? bl1] codes] [e|]]; [done|].
  apply outcome_bind_ok in Hp as (fbl1 & Hw & [= <- <-]). revert Hw. unfold with_filter. simpl.
  rewrite outcome_bind_ok. intros (filt & _ & Hw). by apply outcome_bind_ok in Hw as (filt' & _ & [= <-]).
Qed.

Lemma process_batch_chain envs l l' r :
  process_batch envs l = (l', r) →
  match r with
  | Ok _ => ∃ fbl, ld_blocks l' = ld_blocks l ++ [fbl] ∧ rb_Data fbl = Some (marshal_envelope <$> envs)
  | _ => ld_blocks l' = ld_blocks l
  end.
Proof.
  unfold process_batch. intros [[Hr ->]|(-> & bl & fbl & Hd%prepare_data & Hc)]%process_cases; [by destruct r as [[]| |]|].
  apply commit_cases in Hc as [(? & [=] & _)|(_ & Hb & _)]. by exists fbl.
Qed.

Lemma chain_data_snoc blocks fbl data :
  rb_Data fbl = Some data → chain_data (blocks ++ [fbl]) = chain_data blocks ++ data.
Proof. intros Hd. unfold chain_data. rewrite bind_app. simpl. by rewrite Hd, app_nil_r. Qed.

(** Everything accepted so far, in order. *)
Definition accepted (o : testOrderer) : list bytes :=
  chain_data (ld_blocks (to_ledger o)) ++ (marshal_envelope <$> to_batch o ++ to_inCh o).

Lemma flush_spec o :
  to_panicked (flush o) = false →
  accepted (flush o) = accepted o ∧ to_inCh (flush o) = to_inCh o ∧ to_batch (flush o) = [] ∧
  (to_batch o = [] ∧ flush o = o ∨ to_timer (flush o) = false ∧
   ∃ fbl, ld_blocks (to_ledger (flush o)) = ld_blocks (to_ledger o) ++ [fbl] ∧
     rb_Data fbl = Some (marshal_envelope <$> to_batch o)).
Proof.
  unfold flush. destruct (to_batch o) as [|e batch] eqn:Eb; [intros _; split_and!; auto|]. rewrite <- Eb.
  destruct (process_batch (to_batch o) (to_ledger o)) as [l' r] eqn:Ep.
  pose proof (process_batch_chain _ _ _ _ Ep) as Hc. destruct r as [u| |]; [|done..]. intros _. simpl.
  destruct Hc as (fbl & Hb & Hd). split_and!; [|done|done|right; split; [done|by exists fbl]].
  unfold accepted. simpl. rewrite Hb, (chain_data_snoc _ _ _ Hd). by rewrite fmap_app, (assoc_L (++)).
Qed.

Lemma flush_panicked o : to_panicked (flush o) = false → to_panicked o = false.
Proof.
  unfold flush. destruct (to_batch o); [done|].
  by destruct (process_batch _ _) as [l' [u| |]].
Qed.

Lemma receive_env_spec env rest o :
  to_inCh o = env :: rest → to_panicked (receive_env env rest o) = false →
  to_panicked o = false ∧ accepted (receive_env env rest o) = accepted o.
Proof.
  intros Hin. unfold receive_env. set (o' := MkTestOrderer rest _ _ _ _ _ _).
  assert (accepted o' = accepted o) as Hacc.
  { unfold accepted, o'. simpl. by rewrite Hin, <- (assoc_L (++)). }
  destruct (_ || _); [|done]. intros Hp. pose proof (flush_panicked _ Hp) as Hp'.
  destruct (flush_spec o' Hp) as [Hf _]. split; [exact Hp'|congruence].
Qed.

Lemma forward_step_accepted o envs o' :
  forward_step o envs o' → to_panicked o' = false →
  to_panicked o = false ∧ accepted o' = accepted o ++ (marshal_envelope <$> envs).
Proof.
  intros Hs Hp. destruct Hs as [env o o' Hb|env rest o Hr Hin|o Hr Ht|o Hr|o o' Hst|o Hr Hst].
  - unfold broadcast in Hb. case_decide; simplify_eq/=. split; [done|].
    unfold accepted. simpl. by rewrite (assoc_L (++)), fmap_app, (assoc_L (++)).
  - rewrite app_nil_r. by apply receive_env_spec.
  - rewrite app_nil_r. split; [by apply flush_panicked|]. by apply flush_spec.
  - rewrite app_nil_r. revert Hp. unfold cut.
    destruct (process_batch [] (to_ledger o)) as [l' r] eqn:Ep. simpl. intros Hp. split; [by destruct r|].
    apply process_batch_chain in Ep. unfold accepted. simpl. f_equal.
    destruct r as [u| |]; [|by rewrite Ep..]. destruct Ep as (fbl & -> & Hd).
    by rewrite (chain_data_snoc _ _ _ Hd), app_nil_r.
  - rewrite app_nil_r. unfold stop in Hst. destruct (to_stopped o); simplify_eq/=. done.
  - by rewrite app_nil_r.
Qed.

Lemma forward_accepted o envs o' :
  forward o envs o' → to_panicked o' = false →
  to_panicked o = false ∧ accepted o' = accepted o ++ (marshal_envelope <$> envs).
Proof.
  induction 1 as [o|o envs o1 envs' o2 _ IH Hs]; intros Hp; [by rewrite app_nil_r|].
  destruct (forward_step_accepted _ _ _ Hs Hp) as [Hp1 ->]. destruct (IH Hp1) as [? ->].
  split; [done|]. by rewrite fmap_app, (assoc_L (++)).
Qed.

(** Every step but a revert extends the chain. *)
Lemma flush_blocks o : ∃ blocks, ld_blocks (to_ledger (flush o)) = ld_blocks (to_ledger o) ++ blocks.
Proof.
  unfold flush. destruct (to_batch o); [exists []; by rewrite app_nil_r|].
  destruct (process_batch _ _) as [l' r] eqn:Ep. apply process_batch_chain in Ep.
  destruct r as [u| |]; simpl; [|exists []; by rewrite app_nil_r..].
  destruct Ep as (fbl & -> & _). by exists [fbl].
Qed.

Lemma forward_step_blocks o envs o' :
  forward_step o envs o' → ∃ blocks, ld_blocks (to_ledger o') = ld_blocks (to_ledger o) ++ blocks.
Proof.
  destruct 1 as [env o o' Hb|env rest o Hr Hin|o Hr Ht|o Hr|o o' Hst|o Hr Hst].
  - unfold broadcast in Hb. case_decide; simplify_eq/=. exists []. by rewrite app_nil_r.
  - unfold receive_env. destruct (_ || _); [apply (flush_blocks (MkTestOrderer _ _ _ _ _ _ _))|exists []; by rewrite app_nil_r].
  - apply flush_blocks.
  - unfold cut. destruct (process_batch _ _) as [l' r] eqn:Ep. apply process_batch_chain in Ep. simpl.
    destruct r as [u| |]; [destruct Ep as (fbl & -> & _); by exists [fbl]|exists []; by rewrite app_nil_r..].
  - unfold stop in Hst. destruct (to_stopped o); simplify_eq/=. exists []. by rewrite app_nil_r.
  - exists []. by rewrite app_nil_r.
Qed.

(** C36: until a revert the chain grows by exactly the envelopes that [Broadcast] accepted,
    in the order it accepted them: what is in the new blocks, then in the open
    batch, then in the channel is the accepted sequence, whatever cut the blocks. *)
Theorem orderer_in_order l envs o :
  forward (newTestOrderer l) envs o → to_panicked o = false →
  ∃ blocks, ld_blocks (to_ledger o) = ld_blocks l ++ blocks ∧
    chain_data blocks ++ (marshal_envelope <$> to_batch o ++ to_inCh o) = marshal_envelope <$> envs.
Proof.
  intros Hf Hp. destruct (forward_accepted _ _ _ Hf Hp) as [_ Hacc].
  assert (∃ blocks, ld_blocks (to_ledger o) = ld_blocks l ++ blocks) as [blocks Hb].
  { clear Hp Hacc. remember (newTestOrderer l) as o0 eqn:E. revert E.
    induction Hf as [o|o envs o1 envs' o2 _ IH Hs]; intros ->; [exists []; by rewrite app_nil_r|].
    destruct (IH eq_refl) as [blocks Hb]. destruct (forward_step_blocks _ _ _ Hs) as [blocks' Hb'].
    exists (blocks ++ blocks'). by rewrite Hb', Hb, (assoc_L (++)). }
  exists blocks. split; [done|]. unfold accepted in Hacc. rewrite Hb in Hacc. simpl in Hacc.
  unfold chain_data in Hacc. rewrite bind_app, <- !(assoc_L (++)) in Hacc. by apply (inj _) in Hacc.
Qed.

(** ** Batches and the timer *)

Definition small (b : RawBlock) : Prop :=
  0 < oc_MaxTxPerBlock cfg → Z.of_nat (length (default [] (rb_Data b))) ≤ oc_MaxTxPerBlock cfg.

(** [initial] are the blocks that were there before the orderer. *)
Record batch_inv (initial : list RawBlock) (o : testOrderer) : Prop := {
  bi_timer : to_timer o = true ↔ to_batch o ≠ [];
  bi_size : 0 < oc_MaxTxPerBlock cfg → Z.of_nat (length (to_batch o)) < oc_MaxTxPerBlock cfg;
  bi_zero : oc_BlockCutTime cfg = 0 → to_batch o = [];
  bi_blocks : Forall (λ b, b ∈ initial ∨ small b) (ld_blocks (to_ledger o)) }.

Lemma snoc_small (initial : list RawBlock) blocks fbl envs :
  Forall (λ b, b ∈ initial ∨ small b) blocks → rb_Data fbl = Some (marshal_envelope <$> envs) →
  (0 < oc_MaxTxPerBlock cfg → Z.of_nat (length envs) ≤ oc_MaxTxPerBlock cfg) →
  Forall (λ b, b ∈ initial ∨ small b) (blocks ++ [fbl]).
Proof.
  intros Hb Hd Hlen. apply Forall_app. split; [done|]. constructor; [|constructor]. right.
  unfold small. rewrite Hd. simpl. by rewrite length_fmap.
Qed.

(** A flush needs the batch only to be no larger than a block. *)
Lemma flush_inv (initial : list RawBlock) o :
  to_panicked (flush o) = false → Forall (λ b, b ∈ initial ∨ small b) (ld_blocks (to_ledger o)) →
  (0 < oc_MaxTxPerBlock cfg → Z.of_nat (length (to_batch o)) ≤ oc_MaxTxPerBlock cfg) →
  (to_batch o = [] → to_timer o = false) → batch_inv initial (flush o).
Proof.
  intros Hp Hb Hlen Ht. destruct (flush_spec o Hp) as (_ & _ & He & [[Hbe Hf]|(Htf & fbl & Hbl & Hd)]).
  - split; rewrite ?He.
    + rewrite Hf, (Ht Hbe). naive_solver.
    + simpl. lia.
    + done.
    + by rewrite Hf.
  - split; rewrite ?He, ?Htf, ?Hbl; [naive_solver|simpl; lia|done|by eapply snoc_small].
Qed.

Lemma orderer_step_inv (initial : list RawBlock) o o' :
  0 ≤ oc_BlockCutTime cfg → orderer_step o o' → to_panicked o' = false →
  to_panicked o = false ∧ (batch_inv initial o → batch_inv initial o').
Proof.
  intros Hcut Hs Hp. destruct Hs as [o envs o' Hs|num o [_ Hr] Hnum].
  - split; [by eapply forward_step_accepted|]. intros [Ht Hsz Hz Hb].
    destruct Hs as [env o o' Hbr|env rest o Hr Hin|o Hr Hti|o Hr|o o' Hst|o Hr Hst].
    + unfold broadcast in Hbr. case_decide; simplify_eq/=. by split.
    + unfold receive_env in *. set (o' := MkTestOrderer rest _ _ _ _ _ _) in *.
      assert (0 < oc_MaxTxPerBlock cfg → Z.of_nat (length (to_batch o')) ≤ oc_MaxTxPerBlock cfg) as Hle.
      { intros Hm. specialize (Hsz Hm). unfold o'. simpl. rewrite length_app. simpl. lia. }
      destruct (_ || _) eqn:Ec.
      * apply flush_inv; [done..|]. unfold o'. simpl. by destruct (to_batch o).
      * bool_to_prop. split; [| |lia|done].
        -- unfold o'. simpl. split; [by destruct (to_batch o)|]. intros _.
           destruct (to_batch o) as [|e batch] eqn:Eb; simpl.
           ++ by rewrite (proj2 (Z.ltb_lt _ _)) by lia.
           ++ rewrite length_app, Nat.add_comm. simpl. by apply Ht.
        -- intros Hm. unfold o' in *. simpl in *. destruct (_ <=? _) eqn:El; [|lia].
           by rewrite (proj2 (Z.ltb_lt _ _) Hm) in *.
    + apply flush_inv; [done..| |naive_solver congruence]. intros Hm. specialize (Hsz Hm). lia.
    + unfold cut in *. destruct (process_batch [] (to_ledger o)) as [l' r] eqn:Ep. simpl in *.
      apply process_batch_chain in Ep. split; [done..|]. simpl.
      destruct r as [u| |]; [|by rewrite Ep..]. destruct Ep as (fbl & -> & Hd).
      eapply snoc_small; [done..|]. simpl. lia.
    + unfold stop in Hst. destruct (to_stopped o); simplify_eq/=. by split.
    + by split.
  - split; [done|]. intros [_ _ _ Hb]. unfold revert. destruct (truncate num (to_ledger o)) as [l' r] eqn:Et.
    assert (Forall (λ b, b ∈ initial ∨ small b) (ld_blocks l')) as Hb'.
    { unfold truncate in Et. destruct (ld_db (to_ledger o)); [|destruct (_ <=? _)]; simplify_eq/=; try done.
      by apply Forall_take. }
    split; simpl; [done|lia|done|done].
Qed.

(** C37: in every state that the orderer reaches, reverts included, the timer runs exactly
    while a batch is open, an open batch is smaller than the configured maximum,
    and every block it cut has at most that many transactions; with a cut time of
    zero no batch stays open. *)
Theorem orderer_batches l o :
  0 ≤ oc_BlockCutTime cfg → rtc orderer_step (newTestOrderer l) o → to_panicked o = false →
  (to_timer o = true ↔ to_batch o ≠ []) ∧
  (oc_BlockCutTime cfg = 0 → to_batch o = []) ∧
  (0 < oc_MaxTxPerBlock cfg → Z.of_nat (length (to_batch o)) < oc_MaxTxPerBlock cfg ∧
   ∀ b, b ∈ ld_blocks (to_ledger o) → b ∉ ld_blocks l →
     Z.of_nat (length (default [] (rb_Data b))) ≤ oc_MaxTxPerBlock cfg).
Proof.
  intros Hcut Hr.
  assert (to_panicked o = false → batch_inv (ld_blocks l) o) as Hinv.
  { refine (rtc_ind_r (λ o, to_panicked o = false → batch_inv (ld_blocks l) o) _ _ _ o Hr).
    - intros _. split; simpl; [done|lia|done|]. apply Forall_forall. by left.
    - intros o1 o2 _ Hs IH Hp. destruct (orderer_step_inv (ld_blocks l) _ _ Hcut Hs Hp). auto. }
  intros [Ht Hsz Hz Hb]%Hinv. split_and!; [done|done|]. intros Hm. split; [auto|]. intros b Hin Hnew.
  rewrite Forall_forall in Hb. destruct (Hb b Hin) as [?|Hs]; [done|]. by apply Hs.
Qed.

End Orderer.

(** ** A concrete orderer *)

Module Orderers.
Import Wire.

Definition cfg : Config := MkOrdererConfig (2 * 10 ^ 9) 5 0 0.

Definition step := forward_step Ledgers.hash Ledgers.data_hash Ledgers.no_faults Ledgers.vdb
  (fabricx_Parse (H2 := committer_codes) Ledgers.hash 0)
  (λ _, fabricx_NewMVCCValidator (H := committer_codes) Ledgers.getter) cfg.

(** One envelope was broadcast, then it is in the open batch. *)
Definition sent : testOrderer := MkTestOrderer [Ledgers.env] [] false Ledgers.start false false false.
Definition waiting : testOrderer := MkTestOrderer [] [Ledgers.env] true Ledgers.start false false false.

Lemma broadcast_step : step (newTestOrderer Ledgers.start) [Ledgers.env] sent.
Proof. exact (fs_broadcast _ _ _ _ _ _ cfg Ledgers.env (newTestOrderer Ledgers.start) sent eq_refl). Qed.

Lemma receive_step : step sent [] waiting.
Proof. exact (fs_receive _ _ _ _ _ _ cfg Ledgers.env [] sent (conj eq_refl eq_refl) eq_refl). Qed.

Lemma waiting_reached : forward Ledgers.hash Ledgers.data_hash Ledgers.no_faults Ledgers.vdb
  (fabricx_Parse (H2 := committer_codes) Ledgers.hash 0)
  (λ _, fabricx_NewMVCCValidator (H := committer_codes) Ledgers.getter) cfg
  (newTestOrderer Ledgers.start) [Ledgers.env] waiting.
Proof.
  change [Ledgers.env] with (([] ++ [Ledgers.env]) ++ []).
  eapply forward_snoc; [eapply forward_snoc; [apply forward_refl|exact broadcast_step]|exact receive_step].
Qed.

Lemma waiting_steps : rtc (orderer_step Ledgers.hash Ledgers.data_hash Ledgers.no_faults Ledgers.vdb
  (fabricx_Parse (H2 := committer_codes) Ledgers.hash 0)
  (λ _, fabricx_NewMVCCValidator (H := committer_codes) Ledgers.getter) cfg)
  (newTestOrderer Ledgers.start) waiting.
Proof.
  eapply rtc_l; [eapply os_forward, broadcast_step|].
  eapply rtc_l; [eapply os_forward, receive_step|]. apply rtc_refl.
Qed.

End Orderers.

Import Wire.

Lemma orderer_in_order_witness :
  ∃ blocks, ld_blocks (to_ledger Orderers.waiting) = ld_blocks Ledgers.start ++ blocks ∧
    chain_data blocks ++ (marshal_envelope <$> to_batch Orderers.waiting ++ to_inCh Orderers.waiting) =
    marshal_envelope <$> [Ledgers.env].
Proof. exact (orderer_in_order _ _ _ _ _ _ _ _ _ _ Orderers.waiting_reached eq_refl). Defined.

Lemma orderer_batches_witness : to_timer Orderers.waiting = true ↔ to_batch Orderers.waiting ≠ [].
Proof.
  refine (proj1 (orderer_batches _ _ _ _ _ _ Orderers.cfg _ _ _ Orderers.waiting_steps eq_refl)).
  unfold Orderers.cfg. simpl. lia.
Defined.
