(* ===== verification/Requests.v ===== *)
(** * Requests to the test orderer

    [cutBlock] and [revert] of fabrictest/orderer.go, which hand a request with
    a reply channel of its own to [batchingLoop] and wait for the answer, both
    under a context that may end at any moment.

    A step of [requests_step] is one select of a caller, one case of the select
    of the loop, or the send of the loop on a reply channel: between taking a
    request and that send the loop does nothing else, while callers and
    broadcasts go on.  [rq_served] is the history of the requests that the loop
    has taken, with the orderer they were taken in.

    The theorems: the loop takes a request at most once and never blocks on a
    reply, also when its caller has given up; and the answer that a caller
    returns is that of a step which did to the orderer what it asked for. *)

From S2P Require Import Prelude Blocks Status Mvcc WorldState Proto Endorse Parser Finality Delivery Ledger TestOrderer.

(** What is sent on [cutCh] and on [revertCh]. *)
Inductive request :=
  | CutReq
  | RevertReq (num : Z).

(** The number of a block is unsigned. *)
Definition request_typed (req : request) : Prop :=
  match req with CutReq => True | RevertReq num => 0 ≤ num < 2 ^ 64 end.

(** A call of [cutBlock] or [revert]: at its first select, at its second, or
    returned with the answer or with the error of its context. *)
Inductive caller :=
  | Offering (req : request)
  | Awaiting (req : request)
  | Answered (req : request) (answer : result unit)
  | GaveUp (req : request).

Definition reply_cap : nat := 1.

Record requests := MkRequests {
  rq_orderer : testOrderer;
  rq_callers : list caller;
  rq_replies : list (list (result unit));
  (** The send that the loop is about to make. *)
  rq_pending : option (nat * result unit);
  rq_served : list (nat * request * testOrderer * result unit) }.

Definition new_requests (o : testOrderer) : requests := MkRequests o [] [] None [].

Definition with_orderer (o : testOrderer) (s : requests) : requests :=
  MkRequests o (rq_callers s) (rq_replies s) (rq_pending s) (rq_served s).

Definition with_caller (id : nat) (c : caller) (s : requests) : requests :=
  MkRequests (rq_orderer s) (<[id := c]> (rq_callers s)) (rq_replies s) (rq_pending s) (rq_served s).

Definition with_reply (id : nat) (ch : list (result unit)) (s : requests) : requests :=
  MkRequests (rq_orderer s) (rq_callers s) (<[id := ch]> (rq_replies s)) (rq_pending s) (rq_served s).

Section Requests.
Context `{Protos} `{HeaderTypes}.
Context (BlockHeaderHash : BlockHeader → bytes) (ComputeBlockDataHash : list bytes → bytes).
Context (faults : nat → bool) (vdb : VersionedDB) (parser : RawBlock → outcome Block).
Context (validator : ledger → MVCCValidator) (cfg : Config).

(** The two cases of the select that take a request; no answer when the ledger
    panics. *)
Definition serve (req : request) (o : testOrderer) : testOrderer * option (result unit) :=
  match req with
  | CutReq =>
      match cut BlockHeaderHash ComputeBlockDataHash faults vdb parser validator o with
      | (o', Ok _) => (o', Some (Ret tt))
      | (o', Err err) => (o', Some (Fail err))
      | (o', Panic) => (o', None)
      end
  | RevertReq num => let '(o', r) := revert num o in (o', Some r)
  end.

(** The loop takes the request of caller [id]. *)
Definition take_request (id : nat) (req : request) (s : requests) : requests :=
  match serve req (rq_orderer s) with
  | (o', Some r) =>
      MkRequests o' (<[id := Awaiting req]> (rq_callers s)) (rq_replies s) (Some (id, r))
        (rq_served s ++ [(id, req, rq_orderer s, r)])
  | (o', None) => MkRequests o' (<[id := Awaiting req]> (rq_callers s)) (rq_replies s) None (rq_served s)
  end.

Definition call (req : request) (s : requests) : requests :=
  MkRequests (rq_orderer s) (rq_callers s ++ [Offering req]) (rq_replies s ++ [[]]) (rq_pending s) (rq_served s).

(** The send of the loop, where the channel has room. *)
Definition send_reply (s : requests) : option requests :=
  match rq_pending s with
  | Some (id, r) =>
      ch ← rq_replies s !! id;
      if decide (length ch < reply_cap)%nat then
        Some (MkRequests (rq_orderer s) (rq_callers s) (<[id := ch ++ [r]]> (rq_replies s)) None (rq_served s))
      else None
  | None => None
  end.

Inductive requests_step : requests → requests → Prop :=
  | rs_broadcast env s o' : broadcast env (rq_orderer s) = Some o' → requests_step s (with_orderer o' s)
  | rs_stop s o' : stop (rq_orderer s) = Ok o' → requests_step s (with_orderer o' s)
  | rs_receive env rest s : running (rq_orderer s) → rq_pending s = None → to_inCh (rq_orderer s) = env :: rest →
      requests_step s (with_orderer
        (receive_env BlockHeaderHash ComputeBlockDataHash faults vdb parser validator cfg env rest (rq_orderer s)) s)
  | rs_timer s : running (rq_orderer s) → rq_pending s = None → to_timer (rq_orderer s) = true →
      requests_step s (with_orderer
        (flush BlockHeaderHash ComputeBlockDataHash faults vdb parser validator (rq_orderer s)) s)
  | rs_return s : running (rq_orderer s) → rq_pending s = None → to_stopped (rq_orderer s) = true →
      requests_step s (with_orderer (return_loop (rq_orderer s)) s)
  | rs_call req s : requests_step s (call req s)
  | rs_take id req s : running (rq_orderer s) → rq_pending s = None →
      rq_callers s !! id = Some (Offering req) → request_typed req →
      requests_step s (take_request id req s)
  | rs_send s s' : running (rq_orderer s) → send_reply s = Some s' → requests_step s s'
  | rs_answer id req r ch s : rq_callers s !! id = Some (Awaiting req) → rq_replies s !! id = Some (r :: ch) →
      requests_step s (with_reply id ch (with_caller id (Answered req r) s))
  | rs_cancel id req s : rq_callers s !! id = Some (Offering req) ∨ rq_callers s !! id = Some (Awaiting req) →
      requests_step s (with_caller id (GaveUp req) s).

(** ** The invariant *)

Definition asked (c : caller) : request :=
  match c with Offering req | Awaiting req | Answered req _ | GaveUp req => req end.

(** The request [id] was taken, and this is its answer. *)
Definition answer_of (s : requests) (id : nat) (req : request) (r : result unit) : Prop :=
  ∃ o, (id, req, o, r) ∈ rq_served s.

Definition served_ids (s : requests) : list nat := (λ e, e.1.1.1) <$> rq_served s.

Record requests_inv (s : requests) : Prop := {
  ri_length : length (rq_replies s) = length (rq_callers s);
  ri_once : NoDup (served_ids s);
  ri_entries : ∀ id req o r, (id, req, o, r) ∈ rq_served s →
    (serve req o).2 = Some r ∧ ∃ c, rq_callers s !! id = Some c ∧ asked c = req;
  ri_offering : ∀ id req, rq_callers s !! id = Some (Offering req) → id ∉ served_ids s;
  ri_empty : ∀ id ch, rq_replies s !! id = Some ch → id ∉ served_ids s → ch = [];
  ri_pending : ∀ id r, rq_pending s = Some (id, r) →
    rq_replies s !! id = Some [] ∧ ∃ req, answer_of s id req r;
  ri_replies : ∀ id ch r, rq_replies s !! id = Some ch → r ∈ ch → ch = [r] ∧ ∃ req, answer_of s id req r;
  ri_answered : ∀ id req r, rq_callers s !! id = Some (Answered req r) → answer_of s id req r }.

Lemma new_requests_inv o : requests_inv (new_requests o).
Proof. split; simpl; try done; try set_solver. constructor. Qed.

Lemma with_orderer_inv o s : requests_inv s → requests_inv (with_orderer o s).
Proof. by intros []. Qed.

(** A caller that moves on keeps its request, is not offering it again, and
    returns an answer only if that is the answer to its request. *)
Lemma with_caller_inv id c c' s :
  requests_inv s → rq_callers s !! id = Some c → asked c' = asked c →
  (∀ req, c' ≠ Offering req) → (∀ req r, c' = Answered req r → answer_of s id req r) →
  requests_inv (with_caller id c' s).
Proof.
  intros [Hlen Honce Hent Hoff Hemp Hpend Hrep Hans] Hid Hreq Hno Hr. split; simpl; try done.
  - by rewrite length_insert.
  - intros i req o r Hin. destruct (Hent i req o r Hin) as (Hs & c0 & Hc & <-). split; [done|].
    destruct (decide (i = id)) as [->|Hne].
    + exists c'. simplify_eq. by rewrite list_lookup_insert_eq by by eapply lookup_lt_Some.
    + exists c0. by rewrite list_lookup_insert_ne.
  - intros i req. destruct (decide (i = id)) as [->|Hne].
    + rewrite list_lookup_insert_eq by (by eapply lookup_lt_Some). intros [= ->]. by destruct (Hno req).
    + rewrite list_lookup_insert_ne by done. apply Hoff.
  - intros i req r. destruct (decide (i = id)) as [->|Hne].
    + rewrite list_lookup_insert_eq by (by eapply lookup_lt_Some). intros [= ->]. by apply Hr.
    + rewrite list_lookup_insert_ne by done. apply Hans.
Qed.

(** Emptying a reply channel that no send is under way on. *)
Lemma with_reply_inv id r s :
  requests_inv s → rq_replies s !! id = Some [r] → requests_inv (with_reply id [] s).
Proof.
  intros [Hlen Honce Hent Hoff Hemp Hpend Hrep Hans] Hid. split; simpl; try done.
  - by rewrite length_insert.
  - intros i ch. destruct (decide (i = id)) as [->|Hne].
    + rewrite list_lookup_insert_eq by (by eapply lookup_lt_Some). by intros [= <-].
    + rewrite list_lookup_insert_ne by done. apply Hemp.
  - intros i r' Hp. destruct (Hpend i r' Hp) as [Hch ?]. split; [|done].
    rewrite list_lookup_insert_ne; [done|]. intros ->. congruence.
  - intros i ch r'. destruct (decide (i = id)) as [->|Hne].
    + rewrite list_lookup_insert_eq by (by eapply lookup_lt_Some). intros [= <-]. set_solver.
    + rewrite list_lookup_insert_ne by done. apply Hrep.
Qed.

Lemma call_inv req s : requests_inv s → requests_inv (call req s).
Proof.
  intros [Hlen Honce Hent Hoff Hemp Hpend Hrep Hans].
  assert (length (rq_callers s) ∉ served_ids s) as Hfresh.
  { unfold served_ids. intros ([[[i rq] o] r] & Hi & Hin)%list_elem_of_fmap. simpl in Hi.
    destruct (Hent i rq o r Hin) as (_ & c & Hc%lookup_lt_Some & _). lia. }
  assert (∀ i ch, (rq_replies s ++ [[]]) !! i = Some ch → rq_replies s !! i = Some ch ∨ ch = []) as Hcase.
  { intros i ch [?|[_ Hi]]%lookup_app_Some; [by left|]. right. apply list_lookup_singleton_Some in Hi. naive_solver. }
  split; simpl.
  - rewrite !length_app. simpl. lia.
  - done.
  - intros i rq o r Hin. destruct (Hent i rq o r Hin) as (Hs & c & Hc & ?). split; [done|]. exists c.
    by rewrite (lookup_app_l_Some _ _ _ _ Hc).
  - intros i rq [Hi|[Hge Hi]]%lookup_app_Some; [by eapply Hoff|].
    apply list_lookup_singleton_Some in Hi as [Hi _].
    by replace i with (length (rq_callers s)) by lia.
  - intros i ch [Hi|?]%Hcase; [by eapply Hemp|done].
  - intros i r Hp. destruct (Hpend i r Hp) as [Hch ?]. split; [|done]. by rewrite (lookup_app_l_Some _ _ _ _ Hch).
  - intros i ch r [Hi| ->]%Hcase; [by apply Hrep|set_solver].
  - intros i rq r [Hi|[_ Hi]]%lookup_app_Some; [by apply Hans|].
    apply list_lookup_singleton_Some in Hi as [_ [=]].
Qed.

Lemma send_reply_inv s s' : requests_inv s → send_reply s = Some s' → requests_inv s'.
Proof.
  intros [Hlen Honce Hent Hoff Hemp Hpend Hrep Hans]. unfold send_reply.
  destruct (rq_pending s) as [[id r]|] eqn:Ep; [|done]. destruct (Hpend id r eq_refl) as (Hch & req & Hr).
  rewrite Hch. simpl. intros [= <-]. split; simpl; try done.
  - by rewrite length_insert.
  - intros i ch. destruct (decide (i = id)) as [->|Hne].
    + intros _ Hnot. destruct Hnot, Hr as [o Ho]. unfold served_ids. apply list_elem_of_fmap. by exists (id, req, o, r).
    + rewrite list_lookup_insert_ne by done. apply Hemp.
  - intros i ch r'. destruct (decide (i = id)) as [->|Hne].
    + rewrite list_lookup_insert_eq by (by eapply lookup_lt_Some). intros [= <-] ->%list_elem_of_singleton.
      split; [done|]. by exists req.
    + rewrite list_lookup_insert_ne by done. apply Hrep.
Qed.

(** Recording a request that has not been taken before. *)
Lemma take_request_inv id req s :
  requests_inv s → rq_pending s = None → rq_callers s !! id = Some (Offering req) → requests_inv (take_request id req s).
Proof.
  intros Hinv Hnone Hid. assert (id ∉ served_ids s) as Hnew by by eapply ri_offering.
  pose proof (with_caller_inv id (Offering req) (Awaiting req) s Hinv Hid eq_refl ltac:(done) ltac:(done)) as Hinv'.
  unfold take_request. destruct (serve req (rq_orderer s)) as [o' [r|]] eqn:Es.
  2: { destruct Hinv'. split; simpl in *; try done. }
  destruct Hinv' as [Hlen Honce Hent Hoff Hemp Hpend Hrep Hans]. simpl in *.
  assert (∀ i rq r', answer_of s i rq r' → ∃ o, (i, rq, o, r') ∈ rq_served s ++ [(id, req, rq_orderer s, r)]) as Hext.
  { intros i rq r' [o Ho]. exists o. set_solver. }
  assert (∃ ch, rq_replies s !! id = Some ch) as [ch Hch].
  { apply lookup_lt_is_Some. rewrite (ri_length _ Hinv). by eapply lookup_lt_Some. }
  split; unfold served_ids, answer_of in *; simpl in *.
  - done.
  - rewrite fmap_app. apply NoDup_app. split; [done|]. split; [|apply NoDup_singleton].
    intros i Hi ->%list_elem_of_singleton. done.
  - intros i rq o r' [Hin|[= -> -> -> ->]%list_elem_of_singleton]%elem_of_app; [by apply Hent|]. rewrite Es.
    split; [done|]. exists (Awaiting req). split; [|done].
    apply list_lookup_insert_eq. by eapply lookup_lt_Some.
  - intros i rq Hi. rewrite fmap_app, elem_of_app. intros [Hin| ->%list_elem_of_singleton]; [by eapply Hoff|].
    rewrite list_lookup_insert_eq in Hi by (by eapply lookup_lt_Some). done.
  - intros i c Hc Hnot. apply (Hemp i c Hc). intros Hin. apply Hnot. rewrite fmap_app. set_solver.
  - intros i r' [= <- <-]. split; [by rewrite Hch, (Hemp id ch Hch Hnew)|]. exists req, (rq_orderer s). set_solver.
  - intros i c r' Hc Hin. destruct (Hrep i c r' Hc Hin) as (? & rq & ?). split; [done|]. exists rq. by apply Hext.
  - intros i rq r' Hi. by apply Hext, Hans.
Qed.

Lemma requests_step_inv s s' : requests_step s s' → requests_inv s → requests_inv s'.
Proof.
  intros Hs Hinv. destruct Hs as [env s o' _|s o' _|env rest s _ _ _|s _ _ _|s _ _ _|req s|id req s _ Hp Hid _
    |s s' _ Hsend|id req r ch s Hid Hch|id req s Hid]; try (by apply with_orderer_inv).
  - by apply call_inv.
  - by apply take_request_inv.
  - by eapply send_reply_inv.
  - destruct (ri_replies _ Hinv id (r :: ch) r Hch) as ([= ->] & rq & o & Ho); [set_solver|].
    apply (with_reply_inv id r); [|done]. apply (with_caller_inv id (Awaiting req)); try done.
    intros ? ? [= <- <-]. exists o. destruct (ri_entries _ Hinv _ _ _ _ Ho) as (_ & c & Hc & <-). by simplify_eq.
  - destruct Hid as [Hid|Hid]; by eapply with_caller_inv.
Qed.

Lemma requests_reachable_inv o s : rtc requests_step (new_requests o) s → requests_inv s.
Proof.
  refine (rtc_ind_r requests_inv _ (new_requests_inv o) _ s). intros s1 s2 _ Hs Hi. by eapply requests_step_inv.
Qed.

(** ** Answers *)

(** A request is taken at most once, and the loop is never stuck on an answer: in every
    state that the callers, the clients and the loop reach, the send that the loop is about
    to make has room in the reply channel, whether or not the caller still waits, and no
    request has been taken twice. *)
Theorem replies_never_block (o : testOrderer) (s : requests) :
  rtc requests_step (new_requests o) s →
  NoDup (served_ids s) ∧ ∀ id r, rq_pending s = Some (id, r) → is_Some (send_reply s).
Proof.
  intros Hinv%requests_reachable_inv. split; [by apply ri_once|]. intros id r Hp.
  unfold send_reply. rewrite Hp. destruct (ri_pending _ Hinv id r Hp) as [-> _]. by eexists.
Qed.

(** What a request that was answered with [r] did to the orderer. *)
Definition done_by (req : request) (r : result unit) (o1 o2 : testOrderer) : Prop :=
  match r, req with
  | Ret _, CutReq => to_batch o2 = to_batch o1 ∧
      ∃ fbl, ld_blocks (to_ledger o2) = ld_blocks (to_ledger o1) ++ [fbl] ∧ rb_Data fbl = Some []
  | Ret _, RevertReq num => to_batch o2 = [] ∧ num < height (to_ledger o1) ∧
      ld_blocks (to_ledger o2) = take (Z.to_nat (num + 1)) (ld_blocks (to_ledger o1))
  | Fail _, _ => ld_blocks (to_ledger o2) = ld_blocks (to_ledger o1)
  end.

Lemma serve_done req o1 o2 r : serve req o1 = (o2, Some r) → done_by req r o1 o2.
Proof.
  unfold done_by. destruct req as [|num]; simpl; intros Es.
  - unfold cut in Es. destruct (process_batch _ _ _ _ _ _ [] (to_ledger o1)) as [l' rc] eqn:Ep.
    apply process_batch_chain in Ep. destruct rc as [[]| |]; simplify_eq/=; [|done].
    split; [done|]. by destruct Ep as (fbl & ? & ?); exists fbl.
  - unfold revert, truncate in Es. destruct (ld_db (to_ledger o1)); simplify_eq/=; [done|].
    destruct (_ <=? _) eqn:El; simplify_eq/=; bool_to_prop; [done|]. split_and!; [done|lia|done].
Qed.

(** A new entry of the history is a request that the loop takes in this step. *)
Lemma requests_step_served s s' id req o1 r : requests_step s s' → (id, req, o1, r) ∈ rq_served s' →
  (id, req, o1, r) ∈ rq_served s ∨
  rq_callers s !! id = Some (Offering req) ∧ rq_callers s' !! id = Some (Awaiting req) ∧
    serve req (rq_orderer s) = (rq_orderer s', Some r).
Proof.
  intros Hs Hin. destruct Hs as [| | | | | |id0 req0 s _ _ Hid _|s s' _ Hsend| |]; try (by left).
  - unfold take_request in *. destruct (serve req0 (rq_orderer s)) as [o' [r0|]] eqn:Es; [|by left]. simpl in *.
    apply elem_of_app in Hin as [?|Hin]; [by left|]. apply list_elem_of_singleton in Hin. simplify_eq. right.
    split_and!; [done| |done]. apply list_lookup_insert_eq. by eapply lookup_lt_Some.
  - left. unfold send_reply in Hsend. destruct (rq_pending s) as [[i0 r0]|]; [|done].
    apply bind_Some in Hsend as (ch & _ & Hsend). by case_decide; simplify_eq.
Qed.

(** The step of a run in which a request was taken. *)
Lemma served_when o s id req o1 r : rtc requests_step (new_requests o) s → (id, req, o1, r) ∈ rq_served s →
  ∃ s1 s2, rtc requests_step (new_requests o) s1 ∧ requests_step s1 s2 ∧ rtc requests_step s2 s ∧
    rq_callers s1 !! id = Some (Offering req) ∧ rq_callers s2 !! id = Some (Awaiting req) ∧
    serve req (rq_orderer s1) = (rq_orderer s2, Some r).
Proof.
  intros Hr. revert s Hr. refine (rtc_ind_r _ (new_requests o) _ _); [by intros ?%elem_of_nil|].
  intros s s' Hr Hs IH Hin. destruct (requests_step_served _ _ _ _ _ _ Hs Hin) as [Hold|Hnew].
  - destruct (IH Hold) as (s1 & s2 & ? & ? & Hr2 & Hrest). exists s1, s2.
    split; [done|]. split; [done|]. split; [by eapply rtc_r|done].
  - by exists s, s'.
Qed.

(** C38: a caller gets the answer to its own request: when [cutBlock] or [revert] returns an
    answer, there is a step of the run in which the loop took this request, and no request
    was taken twice; when the answer is nil, that step appended exactly one block without
    transactions to the ledger of the orderer and left the batch alone ([cutBlock]), or cut
    the chain back so that the block asked for is the last one and dropped the batch
    ([revert]); and when it is an error, the step left the chain as it was. *)
Theorem answers_own_request (o : testOrderer) (s : requests) (id : nat) (req : request) (r : result unit) :
  rtc requests_step (new_requests o) s → rq_callers s !! id = Some (Answered req r) →
  NoDup (served_ids s) ∧
  ∃ s1 s2, rtc requests_step (new_requests o) s1 ∧ requests_step s1 s2 ∧ rtc requests_step s2 s ∧
    rq_callers s1 !! id = Some (Offering req) ∧ rq_callers s2 !! id = Some (Awaiting req) ∧
    done_by req r (rq_orderer s1) (rq_orderer s2).
Proof.
  intros Hr Hid. pose proof (requests_reachable_inv _ _ Hr) as Hinv. split; [by apply ri_once|].
  destruct (ri_answered _ Hinv id req r Hid) as [o1 Ho].
  destruct (served_when _ _ _ _ _ _ Hr Ho) as (s1 & s2 & ? & ? & ? & ? & ? & Hs). exists s1, s2.
  split_and!; [done..|]. by apply serve_done.
Qed.

(** A revert that is refused still drops the transactions of the open batch:
    the loop empties it before it asks the ledger, which refuses when the world
    state is its own. *)
Theorem refused_revert_drops_batch (o : testOrderer) (num : Z) :
  is_Some (ld_db (to_ledger o)) →
  ∃ o' err, serve (RevertReq num) o = (o', Some (Fail err)) ∧ to_ledger o' = to_ledger o ∧
    to_batch o' = [] ∧ to_timer o' = false.
Proof. intros [db Hdb]. unfold serve, revert, truncate. rewrite Hdb. by eexists _, _. Qed.

End Requests.

(** ** A concrete run

    A revert to genesis that is asked, taken, answered and returned. *)

Module RequestRuns.
Import Wire.

Definition step := requests_step Ledgers.hash Ledgers.data_hash Ledgers.no_faults Ledgers.vdb
  (fabricx_Parse (H2 := committer_codes) Ledgers.hash 0)
  (λ _, fabricx_NewMVCCValidator (H := committer_codes) Ledgers.getter) Orderers.cfg.

Definition idle : testOrderer := (revert 0 Orderers.waiting).1.

Definition pending : requests :=
  MkRequests idle [Awaiting (RevertReq 0)] [[]] (Some (0%nat, Ret tt)) [(0%nat, RevertReq 0, Orderers.waiting, Ret tt)].

Definition answered : requests :=
  MkRequests idle [Answered (RevertReq 0) (Ret tt)] [[]] None [(0%nat, RevertReq 0, Orderers.waiting, Ret tt)].

Lemma to_pending : rtc step (new_requests Orderers.waiting) pending.
Proof.
  eapply rtc_l; [apply (rs_call _ _ _ _ _ _ _ (RevertReq 0))|].
  apply rtc_once. exact (rs_take _ _ _ _ _ _ _ 0 (RevertReq 0) (call (RevertReq 0) (new_requests Orderers.waiting))
    (conj eq_refl eq_refl) eq_refl eq_refl (conj (Z.le_refl 0) eq_refl)).
Qed.

Definition sent : requests :=
  MkRequests idle [Awaiting (RevertReq 0)] [[Ret tt]] None [(0%nat, RevertReq 0, Orderers.waiting, Ret tt)].

Lemma to_answered : rtc step (new_requests Orderers.waiting) answered.
Proof.
  etrans; [exact to_pending|].
  eapply rtc_l; [exact (rs_send _ _ _ _ _ _ _ pending sent (conj eq_refl eq_refl) eq_refl)|].
  apply rtc_once. exact (rs_answer _ _ _ _ _ _ _ 0 (RevertReq 0) (Ret tt) [] sent eq_refl eq_refl).
Qed.

End RequestRuns.

Import Wire.

Lemma replies_never_block_witness : is_Some (send_reply RequestRuns.pending).
Proof.
  exact (proj2 (replies_never_block _ _ _ _ _ _ _ _ _ RequestRuns.to_pending) 0%nat (Ret tt) eq_refl).
Defined.

Lemma answers_own_request_witness :
  ∃ s1 s2, RequestRuns.step s1 s2 ∧ rtc RequestRuns.step s2 RequestRuns.answered ∧
    ld_blocks (to_ledger (rq_orderer s2)) = take 1 (ld_blocks (to_ledger (rq_orderer s1))).
Proof.
  destruct (answers_own_request _ _ _ _ _ _ _ _ _ 0%nat (RevertReq 0) (Ret tt) RequestRuns.to_answered eq_refl)
    as (_ & s1 & s2 & _ & Hs & Hr & _ & _ & _ & _ & Hb).
  exists s1, s2. exact (conj Hs (conj Hr Hb)).
Defined.
