(* ===== verification/Subscription.v ===== *)
(** * Block subscriptions

    The client side of block delivery, [newDeliverSeekInfo] and
    [SubscribeBlocks] of network/peer.go, and the server side of the test
    network, [parseStartBlock] and [Deliver] of fabrictest/peer.go over the
    subscriber channels of the ledger (Ledger.v).

    A stream is the list of what its [Recv] returns; [subscriber] is a
    subscription of the ledger as the ledger goes on.  The theorem: the server
    reads from the seek envelope the start block the client asked for, and a
    subscriber that keeps up handles the chain from that block on, in order and
    without gaps.  TestPeer.v has what a slow subscriber gets. *)

From S2P Require Import Prelude Blocks Status Mvcc WorldState Proto Endorse Parser Finality Delivery Ledger.

(** ** Seek messages

    The generated [orderer.SeekInfo]; [SeekOther] stands for a position whose
    type is absent or not one of the three the SDK names. *)

Inductive SeekPosition :=
  | SeekOldest
  | SeekNewest
  | SeekSpecified (number : Z)
  | SeekOther.

Record SeekInfo := MkSeekInfo {
  si_Start : option SeekPosition;
  si_Stop : option SeekPosition;
  si_Behavior : Z }.

(** The constants that the seek envelope uses. *)
Class SeekTypes := {
  HeaderType_DELIVER_SEEK_INFO : Z;
  SeekInfo_BLOCK_UNTIL_READY : Z }.

Section Client.
Context `{Protos} `{Codec SeekInfo} `{SeekTypes}.

(** [mustNonce] panics when the random source fails. *)
Definition mustNonce (rand : result bytes) : outcome bytes :=
  match rand with
  | Ret nonce => Ok nonce
  | Fail _ => Panic
  end.

(** [now] is the clock in seconds; the nanoseconds are cleared. *)
Definition newDeliverSeekInfo (now : Z) (rand : result bytes) (submitter : option Signer)
    (channel : string) (startBlock : Z) : outcome Envelope :=
  creator ← lift (match submitter with None => Ret [] | Some s => Serialize s end);
  channelHeader ← lift (wrapf "marshal channel header: %w" []
    (Marshal (MkChannelHeader HeaderType_DELIVER_SEEK_INFO 0 (Some (MkTimestamp now 0)) channel "" 0 [] [])));
  nonce ← mustNonce rand;
  sigHeader ← lift (wrapf "marshal signature header: %w" [] (Marshal (MkSignatureHeader creator nonce)));
  seekInfo ← lift (wrapf "marshal seek info: %w" []
    (Marshal (MkSeekInfo (Some (SeekSpecified startBlock)) (Some (SeekSpecified max_uint64)) SeekInfo_BLOCK_UNTIL_READY)));
  payload ← lift (wrapf "marshal payload: %w" [] (Marshal (MkPayload (Some (MkHeader channelHeader sigHeader)) seekInfo)));
  match submitter with
  | None => Ok (MkEnvelope payload [])
  | Some s =>
      sig ← lift (wrapf "sign payload: %w" [] (Sign s payload));
      Ok (MkEnvelope payload sig)
  end.

(** What [deliver.Recv] returns: a message, or an error with whether the
    context is done by then. *)
Inductive delivery :=
  | DeliverBlock (block : RawBlock)
  | DeliverStatus (status : Z)
  | DeliverOther
  | DeliverError (err : error) (cancelled : bool).

Context {W : Type} (process : RawBlock → W → W * outcome unit) (Status_SUCCESS : Z).

(** The receive loop; [None] while the stream is open and idle. *)
Fixpoint receive_blocks (msgs : list delivery) (w : W) : W * option (outcome unit) :=
  match msgs with
  | [] => (w, None)
  | DeliverError err cancelled :: _ =>
      (w, Some (if cancelled then Ok tt else Err (Wrapf "recv deliver: %w" [] err)))
  | DeliverBlock block :: msgs' =>
      match process block w with
      | (w', Ok _) => receive_blocks msgs' w'
      | (w', Err err) => (w', Some (Err (Wrapf "processor: %w" [] err)))
      | (w', Panic) => (w', Some Panic)
      end
  | DeliverStatus status :: _ =>
      (w, Some (if negb (status =? Status_SUCCESS) then Err (Errorf "deliver stream ended: %s" [AInt status]) else Ok tt))
  | DeliverOther :: msgs' => receive_blocks msgs' w
  end.

(** [SubscribeBlocks]: [opened] is the result of opening the stream and
    [sent] that of sending an envelope on it. *)
Definition SubscribeBlocks (opened : result unit) (sent : Envelope → result unit) (now : Z) (rand : result bytes)
    (signer : option Signer) (channel : string) (startBlock : Z) (msgs : list delivery) (w : W) : W * option (outcome unit) :=
  match opened with
  | Fail err => (w, Some (Err (Wrapf "open Deliver: %w" [] err)))
  | Ret _ =>
      match newDeliverSeekInfo now rand signer channel startBlock with
      | Panic => (w, Some Panic)
      | Err err => (w, Some (Err (Wrapf "build seek envelope: %w" [] err)))
      | Ok env =>
          match sent env with
          | Fail err => (w, Some (Err (Wrapf "send seek envelope: %w" [] err)))
          | Ret _ => receive_blocks msgs w
          end
      end
  end.

(** The state after processing blocks, none of which fails. *)
Fixpoint process_all (blocks : list RawBlock) (w : W) : option W :=
  match blocks with
  | [] => Some w
  | b :: bs =>
      match process b w with
      | (w', Ok _) => process_all bs w'
      | _ => None
      end
  end.

Lemma receive_blocks_in_order blocks msgs w w' :
  process_all blocks w = Some w' → receive_blocks ((DeliverBlock <$> blocks) ++ msgs) w = receive_blocks msgs w'.
Proof.
  revert w. induction blocks as [|b blocks IH]; intros w; csimpl; [by intros [= ->]|].
  destruct (process b w) as [w1 [[]| |]]; [apply IH|done..].
Qed.

End Client.

(** ** The server *)

Section Server.
Context `{Protos} `{Codec SeekInfo}.

Definition parseStartBlock (env : Envelope) : Z * bool :=
  match Unmarshal (M := Payload) (env_Payload env) with
  | Fail _ => (0, false)
  | Ret pl =>
      match Unmarshal (M := SeekInfo) (pl_Data pl) with
      | Fail _ => (0, false)
      | Ret si =>
          match si_Start si with
          | None => (0, false)
          | Some SeekOldest => (0, false)
          | Some (SeekSpecified number) => (number, false)
          | Some SeekNewest => (0, true)
          | Some SeekOther => (0, false)
          end
      end
  end.

(** The two loops over blocks: skip what is before the start, send the rest,
    stop at a failed send.  [send_error] says which sends fail. *)
Fixpoint send_blocks (send_error : nat → option error) (startBlock : Z) (blocks : list RawBlock) (sent : list RawBlock)
    : outcome (list RawBlock * option error) :=
  match blocks with
  | [] => Ok (sent, None)
  | b :: bs =>
      h ← deref (rb_Header b);
      if bh_Number h <? startBlock then send_blocks send_error startBlock bs sent
      else
        match send_error (length sent) with
        | Some err => Ok (sent, Some err)
        | None => send_blocks send_error startBlock bs (sent ++ [b])
        end
  end.

(** [Deliver] for the seek envelope [env]: [existing] is the snapshot and
    [incoming] what the subscriber channel yields.  With [SeekNewest] the start
    is the last block of the snapshot. *)
Definition Deliver (send_error : nat → option error) (env : Envelope) (existing incoming : list RawBlock)
    : outcome (list RawBlock * option error) :=
  let '(startBlock, newest) := parseStartBlock env in
  startBlock ← (if newest : bool then tip ← deref (last existing); h ← deref (rb_Header tip); Ok (bh_Number h)
                else Ok startBlock);
  r ← send_blocks send_error startBlock existing [];
  match r with
  | (sent, Some err) => Ok (sent, Some err)
  | (sent, None) => send_blocks send_error startBlock incoming sent
  end.

Lemma send_blocks_app send_error startBlock l1 l2 sent :
  send_blocks send_error startBlock (l1 ++ l2) sent =
  (r ← send_blocks send_error startBlock l1 sent;
   match r with
   | (sent', Some err) => Ok (sent', Some err)
   | (sent', None) => send_blocks send_error startBlock l2 sent'
   end).
Proof.
  revert sent. induction l1 as [|b l1 IH]; intros sent; simpl; [done|].
  destruct (rb_Header b) as [h|]; simpl; [|done].
  destruct (_ <? _); [apply IH|]. destruct (send_error _); [done|apply IH].
Qed.

Lemma newDeliverSeekInfo_start `{!ProtosLaws} `{!CodecLaws SeekInfo} `{SeekTypes} now rand submitter channel startBlock env :
  newDeliverSeekInfo now rand submitter channel startBlock = Ok env → parseStartBlock env = (startBlock, false).
Proof.
  unfold newDeliverSeekInfo. intros (creator & _ & Hs)%lift_bind_ok.
  apply lift_bind_ok in Hs as (chdr & _ & Hs). apply outcome_bind_ok in Hs as (nonce & _ & Hs).
  apply lift_bind_ok in Hs as (shdr & _ & Hs). apply lift_bind_ok in Hs as (si & Hsi%wrapf_ret & Hs).
  apply lift_bind_ok in Hs as (pl & Hpl%wrapf_ret & Hs).
  assert (env_Payload env = pl) as Hp.
  { destruct submitter as [s|]; [apply lift_bind_ok in Hs as (sig & _ & [= <-]); done|by injection Hs as <-]. }
  unfold parseStartBlock. rewrite Hp, (Unmarshal_Marshal _ _ Hpl). simpl. by rewrite (Unmarshal_Marshal _ _ Hsi).
Qed.

End Server.

(** ** A subscriber of the ledger *)

Section Following.
Context `{Protos} `{HeaderTypes}.
Context (BlockHeaderHash : BlockHeader → bytes) (ComputeBlockDataHash : list bytes → bytes).

(** Subscriber number [i] of a ledger: the ledger, whether the channel is open
    and what it holds, and what happened since the subscription: the blocks that
    [Deliver] took from the channel, those that the ledger committed while the
    channel was open, those of them that found it full, and the number of
    reverts. *)
Record subscriber := MkSubscriber {
  sb_ledger : ledger;
  sb_open : bool;
  sb_queue : list RawBlock;
  sb_taken : list RawBlock;
  sb_committed : list RawBlock;
  sb_missed : list RawBlock;
  sb_reverts : nat }.

Definition new_subscriber (l : ledger) : subscriber := MkSubscriber (subscribe l).2 true [] [] [] [] 0.

(** The ledger went on to [l']; the channel is a field of it until it is
    closed. *)
Definition ledger_went (i : nat) (l' : ledger) (u : subscriber) : subscriber :=
  let new := drop (length (ld_blocks (sb_ledger u))) (ld_blocks l') in
  if sb_open u then
    MkSubscriber l' true (default [] (ld_subs l' !! i)) (sb_taken u) (sb_committed u ++ new)
      (sb_missed u ++ if decide (length (sb_queue u) < sub_cap)%nat then [] else new) (sb_reverts u)
  else MkSubscriber l' false (sb_queue u) (sb_taken u) (sb_committed u) (sb_missed u) (sb_reverts u).

Definition with_sub (i : nat) (ch : list RawBlock) (l : ledger) : ledger :=
  MkLedger (ld_blocks l) (<[i := ch]> (ld_subs l)) (ld_db l) (ld_closed l).

(** The ledger in use, as in [ledger_step], with the receives of the subscriber
    told apart from those of the others. *)
Inductive sub_step (i : nat) (u : subscriber) : subscriber → Prop :=
  | sub_process faults vdb parser validator envs :
      sub_step i u (ledger_went i
        (process BlockHeaderHash ComputeBlockDataHash faults vdb parser validator envs (sb_ledger u)).1 u)
  | sub_subscribe : sub_step i u (ledger_went i (subscribe (sb_ledger u)).2 u)
  | sub_other j b ch : (sb_open u = true → j ≠ i) → ld_subs (sb_ledger u) !! j = Some (b :: ch) →
      sub_step i u (ledger_went i (with_sub j ch (sb_ledger u)) u)
  | sub_truncate num l' r : 0 ≤ num → truncate num (sb_ledger u) = (l', r) →
      sub_step i u (MkSubscriber l' (sb_open u) (sb_queue u) (sb_taken u) (sb_committed u) (sb_missed u)
        (match r with Ret _ => S (sb_reverts u) | Fail _ => sb_reverts u end))
  | sub_close :
      sub_step i u (MkSubscriber (close (sb_ledger u)) false (sb_queue u) (sb_taken u) (sb_committed u) (sb_missed u)
        (sb_reverts u))
  | sub_take b ch : sb_queue u = b :: ch →
      sub_step i u (MkSubscriber (if sb_open u then with_sub i ch (sb_ledger u) else sb_ledger u) (sb_open u) ch
        (sb_taken u ++ [b]) (sb_committed u) (sb_missed u) (sb_reverts u)).

(** A batch adds at most one block, and notifies every subscriber of it. *)
Lemma process_notifies faults vdb parser validator envs l :
  let l' := (process BlockHeaderHash ComputeBlockDataHash faults vdb parser validator envs l).1 in
  ld_blocks l' = ld_blocks l ∧ ld_subs l' = ld_subs l ∨
  ∃ fbl, ld_blocks l' = ld_blocks l ++ [fbl] ∧ ld_subs l' = notify fbl <$> ld_subs l.
Proof.
  intros l'. destruct (process _ _ _ _ _ _ envs l) as [l1 r] eqn:E. subst l'. simpl.
  apply process_cases in E as [[_ ->]|(_ & bl & fbl & _ & Hc)]; [by left|].
  apply commit_cases in Hc as [(? & [=] & _)|(_ & Hb & Hs & _)]. right. by exists fbl.
Qed.

(** Every committed block was handed to the channel or missed. *)
Record sub_inv (i : nat) (existing : list RawBlock) (u : subscriber) : Prop := {
  su_queue : sb_open u = true → ld_subs (sb_ledger u) !! i = Some (sb_queue u);
  su_order : sb_taken u ++ sb_queue u `sublist_of` sb_committed u;
  su_all : (sb_taken u ++ sb_queue u) ++ sb_missed u ≡ₚ sb_committed u;
  su_chain : sb_reverts u = 0%nat → existing ++ sb_committed u `prefix_of` ld_blocks (sb_ledger u);
  su_tip : sb_reverts u = 0%nat → sb_open u = true → ld_blocks (sb_ledger u) = existing ++ sb_committed u;
  su_ledger : ledger_reachable BlockHeaderHash ComputeBlockDataHash (sb_ledger u);
  su_headers : Forall (λ b, is_Some (rb_Header b)) (existing ++ sb_committed u) }.

Context (filter_index : BlockMetadataIndex_TRANSACTIONS_FILTER = 2%nat).

(** The number of a block is its position. *)
Lemma chain_number l j b : ledger_reachable BlockHeaderHash ComputeBlockDataHash l →
  ld_blocks l !! j = Some b → ∃ h, rb_Header b = Some h ∧ bh_Number h = Z.of_nat j.
Proof.
  intros [_ Hall]%(reachable_chained _ _ filter_index) Hj. destruct (Hall j b Hj) as (h & data & filt & (Hh & _) & Hn & _).
  by exists h.
Qed.

Lemma chain_headers l : ledger_reachable BlockHeaderHash ComputeBlockDataHash l →
  Forall (λ b, is_Some (rb_Header b)) (ld_blocks l).
Proof.
  intros Hr. apply Forall_forall. intros b [j Hj]%list_elem_of_lookup. destruct (chain_number l j b Hr Hj) as (h & -> & _).
  by eexists.
Qed.

Lemma ledger_reachable_step l l' : ledger_reachable BlockHeaderHash ComputeBlockDataHash l →
  ledger_step BlockHeaderHash ComputeBlockDataHash l l' → ledger_reachable BlockHeaderHash ComputeBlockDataHash l'.
Proof.
  intros (config & genesis & db & Hg & Hr) Hs. exists config, genesis, db. split; [done|]. by eapply rtc_r.
Qed.

Lemma new_subscriber_inv l : ledger_reachable BlockHeaderHash ComputeBlockDataHash l →
  sub_inv (length (ld_subs l)) (subscribe l).1 (new_subscriber l).
Proof.
  intros Hr. split; simpl; try done.
  - intros _. by rewrite lookup_app_r, Nat.sub_diag by lia.
  - intros _. by rewrite app_nil_r.
  - intros _ _. by rewrite app_nil_r.
  - eapply ledger_reachable_step; [done|]. apply lg_subscribe.
  - rewrite app_nil_r. by apply chain_headers.
Qed.

(** The ledger goes on without a new block. *)
Lemma ledger_went_quiet i existing l' u :
  sub_inv i existing u → ledger_step BlockHeaderHash ComputeBlockDataHash (sb_ledger u) l' →
  ld_blocks l' = ld_blocks (sb_ledger u) → (sb_open u = true → ld_subs l' !! i = Some (sb_queue u)) →
  sub_inv i existing (ledger_went i l' u).
Proof.
  intros [Hq Ho Ha Hc Ht Hr Hh] Hs Hb Hsub. unfold ledger_went. rewrite Hb, drop_all.
  destruct (sb_open u) eqn:Eo; split; simpl; rewrite ?app_nil_r; try done; rewrite ?Hb; eauto using ledger_reachable_step.
  - intros _. by rewrite Hsub.
  - rewrite Hsub by done. simpl. done.
  - rewrite Hsub by done. simpl. case_decide; by rewrite ?app_nil_r.
Qed.

(** The ledger goes on with a new block. *)
Lemma ledger_went_block i existing l' fbl u :
  sub_inv i existing u → ledger_step BlockHeaderHash ComputeBlockDataHash (sb_ledger u) l' →
  ld_blocks l' = ld_blocks (sb_ledger u) ++ [fbl] → ld_subs l' = notify fbl <$> ld_subs (sb_ledger u) →
  sub_inv i existing (ledger_went i l' u).
Proof.
  intros [Hq Ho Ha Hc Ht Hr Hh] Hs Hb Hsub. pose proof (ledger_reachable_step _ _ Hr Hs) as Hr'.
  assert (is_Some (rb_Header fbl)) as Hf.
  { pose proof (chain_headers _ Hr') as Hall. rewrite Hb in Hall. by apply Forall_app in Hall as [_ [? _]%Forall_cons]. }
  unfold ledger_went. rewrite Hb, drop_app_length. destruct (sb_open u) eqn:Eo.
  - rewrite Hsub, list_lookup_fmap, (Hq eq_refl). simpl.
    split; simpl; rewrite ?Hb; try done; unfold notify; rewrite ?(assoc_L (++)).
    + intros _. by rewrite Hsub, list_lookup_fmap, (Hq eq_refl).
    + case_decide; [rewrite (assoc_L (++)); by apply sublist_app|by apply sublist_inserts_r].
    + case_decide; rewrite ?app_nil_r; [rewrite (assoc_L (++))|]; rewrite <- Ha, <- ?(assoc_L (++)); [|done]. do 2 f_equiv. by rewrite Permutation_app_comm.
    + intros Hz. by rewrite (Ht Hz).
    + intros Hz _. by rewrite (Ht Hz).
    + apply Forall_app. split; [done|by constructor].
  - split; simpl; rewrite ?Hb; try done. intros Hz. by apply prefix_app_r, Hc.
Qed.

Lemma sub_step_inv i existing u u' : sub_step i u u' → sub_inv i existing u → sub_inv i existing u'.
Proof.
  intros Hs Hinv. destruct Hs as [faults vdb parser validator envs| |j b ch Hj Hch|num l' r Hnum Ht| |b ch Hq].
  - destruct (process_notifies faults vdb parser validator envs (sb_ledger u)) as [[Hb Hsub]|(fbl & Hb & Hsub)].
    + apply ledger_went_quiet; [done|constructor|done|]. rewrite Hsub. apply Hinv.
    + eapply ledger_went_block; [done|constructor|done|done].
  - apply ledger_went_quiet; [done|apply lg_subscribe|done|]. intros Ho. simpl. apply lookup_app_l_Some. by apply Hinv.
  - apply ledger_went_quiet; [done|by eapply lg_receive|done|]. intros Ho. simpl.
    rewrite list_lookup_insert_ne by (by apply Hj). by apply Hinv.
  - destruct Hinv as [Hq Ho Ha Hc Htip Hr Hh].
    assert (ledger_reachable BlockHeaderHash ComputeBlockDataHash l') as Hr'.
    { eapply ledger_reachable_step; [exact Hr|]. replace l' with (truncate num (sb_ledger u)).1 by (by rewrite Ht). by apply lg_truncate. }
    revert Ht. unfold truncate. destruct (ld_db (sb_ledger u)); [|case_match]; intros [= <- <-]; split; simpl; done.
  - destruct Hinv as [Hq Ho Ha Hc Ht Hr Hh]. split; simpl; try done. eapply ledger_reachable_step; [done|]. apply lg_close.
  - destruct Hinv as [Hsub Ho Ha Hc Ht Hr Hh]. rewrite Hq in *. split; simpl; rewrite <- ?(assoc_L (++)) in *; simpl; try done.
    + intros Hopen. rewrite Hopen. simpl. rewrite list_lookup_insert_eq; [done|]. by eapply lookup_lt_Some, Hsub.
    + intros Hz. destruct (sb_open u); by apply Hc.
    + intros Hz Hopen. rewrite Hopen. by apply Ht.
    + destruct (sb_open u) eqn:Hopen; [|done]. eapply ledger_reachable_step; [done|]. by eapply lg_receive, Hsub.
Qed.

Lemma sub_reachable_inv l u : ledger_reachable BlockHeaderHash ComputeBlockDataHash l →
  rtc (sub_step (length (ld_subs l))) (new_subscriber l) u → sub_inv (length (ld_subs l)) (subscribe l).1 u.
Proof.
  intros Hr Hu. refine (rtc_ind_r (sub_inv _ _) (new_subscriber l) _ _ u Hu); [by apply new_subscriber_inv|].
  eauto using sub_step_inv.
Qed.

(** A subscriber that missed nothing has all that was committed. *)
Lemma nothing_missed i existing u : sub_inv i existing u → sb_missed u = [] → sb_taken u ++ sb_queue u = sb_committed u.
Proof.
  intros Hinv Hm. pose proof (su_all _ _ _ Hinv) as Ha. rewrite Hm, app_nil_r in Ha.
  pose proof (su_order _ _ _ Hinv) as Ho. apply Permutation_length in Ha. clear Hinv Hm.
  induction Ho as [|x l1 l2 _ IH|x l1 l2 Hsub IH]; [done|by rewrite IH by (simpl in *; lia)|].
  apply sublist_length in Hsub. simpl in Ha. lia.
Qed.

(** Of a prefix of a chain, the blocks from [start] on. *)
Lemma send_blocks_chained start blocks sent k :
  (∀ i b, blocks !! i = Some b → ∃ h, rb_Header b = Some h ∧ bh_Number h = Z.of_nat (k + i)) →
  0 ≤ start → sent = [] ∨ start ≤ Z.of_nat k →
  send_blocks (λ _, None) start blocks sent = Ok (sent ++ drop (Z.to_nat start - k) blocks, None).
Proof.
  revert sent k. induction blocks as [|b blocks IH]; intros sent k Hnum Hs Hsent; simpl.
  { by rewrite drop_nil, app_nil_r. }
  destruct (Hnum 0%nat b eq_refl) as (h & -> & Hn). simpl. rewrite Nat.add_0_r in Hn. rewrite Hn.
  assert (∀ i b', blocks !! i = Some b' → ∃ h, rb_Header b' = Some h ∧ bh_Number h = Z.of_nat (S k + i)) as Hnum'.
  { intros i b' Hi. destruct (Hnum (S i) b' Hi) as (h' & ? & ?). exists h'. split; [done|]. lia. }
  destruct (_ <? _) eqn:E; bool_to_prop.
  - rewrite (IH sent (S k) Hnum' Hs) by (left; destruct Hsent; [done|lia]).
    replace (Z.to_nat start - k)%nat with (S (Z.to_nat start - S k)) by lia. done.
  - rewrite (IH _ (S k) Hnum' Hs) by (right; lia). rewrite <- (assoc_L (++)).
    replace (Z.to_nat start - k)%nat with 0%nat by lia. by replace (Z.to_nat start - S k)%nat with 0%nat by lia.
Qed.

Context `{Codec SeekInfo} `{!ProtosLaws} `{!CodecLaws SeekInfo} `{SeekTypes}.
Context {W : Type} (handle : RawBlock → W → W * outcome unit) (Status_SUCCESS : Z).

(** C14: a client that subscribes from a block handles the chain from that block on, as
    long as the ledger is not reverted and the channel of the subscription never
    overflows.  The server finds the start block in the seek envelope that the client
    sends; what it sends back, out of its snapshot and then out of the channel, are the
    blocks of the ledger from the start block on, in order, each once and without gaps;
    what the ledger has beyond them is in the channel, until it is closed; and a client
    whose processor takes every block ends with all of them processed, in that order, and
    the subscription still open. *)
Theorem subscription_delivers_chain l u now rand signer chan start env :
  ledger_reachable BlockHeaderHash ComputeBlockDataHash l →
  let existing := (subscribe l).1 in
  rtc (sub_step (length (ld_subs l))) (new_subscriber l) u → sb_missed u = [] → sb_reverts u = 0%nat →
  0 ≤ start → newDeliverSeekInfo now rand signer chan start = Ok env →
  let k := (length existing + length (sb_taken u))%nat in
  ∃ sent, Deliver (λ _, None) env existing (sb_taken u) = Ok (sent, None) ∧
    sent = drop (Z.to_nat start) (take k (ld_blocks (sb_ledger u))) ∧
    (sb_open u = true → sb_queue u = drop k (ld_blocks (sb_ledger u))) ∧
    ∀ send w w', send env = Ret tt → process_all handle sent w = Some w' →
      SubscribeBlocks handle Status_SUCCESS (Ret tt) send now rand signer chan start (DeliverBlock <$> sent) w = (w', None).
Proof.
  intros Hr existing Hu Hm Hz Hs Henv k. pose proof (sub_reachable_inv l u Hr Hu) as Hinv.
  pose proof (nothing_missed _ _ _ Hinv Hm) as Hall. destruct (su_chain _ _ _ Hinv Hz) as [rest Hrest].
  fold existing in Hrest. rewrite <- Hall in Hrest.
  assert (take k (ld_blocks (sb_ledger u)) = existing ++ sb_taken u) as Htake.
  { rewrite Hrest, !(assoc_L (++)), <- (assoc_L (++) (existing ++ sb_taken u)). unfold k. rewrite <- length_app. apply take_app_length. }
  exists (drop (Z.to_nat start) (existing ++ sb_taken u)). split_and!.
  - unfold Deliver. rewrite (newDeliverSeekInfo_start _ _ _ _ _ _ Henv). simpl. rewrite <- send_blocks_app.
    rewrite (send_blocks_chained start (existing ++ sb_taken u) [] 0); [by rewrite Nat.sub_0_r| |done|by left].
    intros j b Hj. eapply chain_number; [apply (su_ledger _ _ _ Hinv)|]. rewrite <- Htake in Hj. simpl.
    by apply lookup_take_Some in Hj as [? _].
  - by rewrite Htake.
  - intros Ho. rewrite (su_tip _ _ _ Hinv Hz Ho), <- Hall. fold existing. rewrite (assoc_L (++)). unfold k.
    rewrite <- length_app. by rewrite drop_app_length.
  - intros send w w' Hsend Hp. unfold SubscribeBlocks. rewrite Henv, Hsend.
    rewrite <- (app_nil_r (DeliverBlock <$> _)). by rewrite (receive_blocks_in_order _ _ _ _ _ w').
Qed.

End Following.

(** ** A concrete subscription *)

Module Seeks.
Import Wire.

#[export] Instance SeekPosition_eq_dec : EqDecision SeekPosition.
Proof. solve_decision. Defined.
#[export] Instance SeekPosition_countable : Countable SeekPosition.
Proof.
  refine (inj_countable'
    (λ p, match p with SeekSpecified n => inl n | SeekOldest => inr 0 | SeekNewest => inr 1 | SeekOther => inr 2 end)
    (λ x, match x with inl n => SeekSpecified n | inr 0 => SeekOldest | inr 1 => SeekNewest | inr _ => SeekOther end) _).
  by intros [].
Defined.
#[export] Instance SeekInfo_eq_dec : EqDecision SeekInfo.
Proof. solve_decision. Defined.
#[export] Instance SeekInfo_countable : Countable SeekInfo.
Proof. by_fields (λ m, (si_Start m, si_Stop m, si_Behavior m)) (λ '(x0, x1, x2), MkSeekInfo x0 x1 x2). Defined.

#[export] Instance seek_codec : Codec SeekInfo := codec SeekInfo.
#[export] Instance seek_codec_laws : CodecLaws SeekInfo := codec_laws SeekInfo.
#[export] Instance seek_types : SeekTypes := {| HeaderType_DELIVER_SEEK_INFO := 5; SeekInfo_BLOCK_UNTIL_READY := 0 |}.

Lemma seek_envelope : ∃ env, newDeliverSeekInfo 1700000000 (Ret [Byte.x01]) None "ch" 1 = Ok env.
Proof. by eexists. Qed.

(** A subscriber of a fresh ledger, and one batch after it subscribed. *)
Lemma followed : ∃ l u, ledger_reachable Ledgers.hash Ledgers.data_hash l ∧
  rtc (sub_step Ledgers.hash Ledgers.data_hash (length (ld_subs l))) (new_subscriber l) u ∧
  sb_missed u = [] ∧ sb_reverts u = 0%nat.
Proof.
  destruct Ledgers.real_genesis as [g Hg]. eexists (newLedger g None), _. split_and!.
  - exists (0, []), g, None. split; [exact Hg|apply rtc_refl].
  - eapply rtc_l; [|apply rtc_refl].
    apply (sub_process _ _ _ _ Ledgers.no_faults Ledgers.vdb (fabricx_Parse (H2 := committer_codes) Ledgers.hash 0)
      (fabricx_NewMVCCValidator (H := committer_codes) Ledgers.getter) [Ledgers.env]).
  - reflexivity.
  - reflexivity.
Qed.

End Seeks.

Import Wire Seeks.

Lemma subscription_delivers_chain_witness :
  ∃ l u env sent, ledger_reachable Ledgers.hash Ledgers.data_hash l ∧
    newDeliverSeekInfo 1700000000 (Ret [Byte.x01]) None "ch" 1 = Ok env ∧
    Deliver (λ _, None) env (subscribe l).1 (sb_taken u) = Ok (sent, None) ∧
    sent = drop 1 (take (length (subscribe l).1 + length (sb_taken u)) (ld_blocks (sb_ledger u))).
Proof.
  destruct followed as (l & u & Hr & Hu & Hm & Hz). destruct seek_envelope as [env Henv].
  destruct (subscription_delivers_chain (H1 := headers) Ledgers.hash Ledgers.data_hash eq_refl (W := unit) (λ _ w, (w, Ok tt))
    200 l u _ _ _ _ 1 env Hr Hu Hm Hz ltac:(lia) Henv) as (sent & Hd & Hsent & _).
  exists l, u, env, sent. exact (conj Hr (conj Henv (conj Hd Hsent))).
Defined.
