(* ===== verification/Dial.v ===== *)
(** * Connections

    TLS settings (network/tls.go) and the checks that [NewPeer]
    (network/peer.go) and [NewOrderer] (network/orderer.go) make before they
    dial.  The file system, the certificate parsers, [net.SplitHostPort] and
    [grpc.NewClient] are parameters.

    The theorem is that the transport of a connection is the one configured:
    a connection is insecure only when TLS is off, and otherwise verifies the
    configured name against exactly the configured authorities, with a client
    certificate exactly in mutual mode. *)

From S2P Require Import Prelude.

Record TLSConfig := MkTLSConfig {
  tls_Mode : string;
  tls_CertPath : string;
  tls_KeyPath : string;
  tls_CACertPaths : list string;
  tls_ServerName : string }.

Definition TLSModeNone : string := "none".
Definition TLSModeTLS : string := "tls".
Definition TLSModeMTLS : string := "mtls".

(** [tls.VersionTLS13]. *)
Definition DefaultTLSMinVersion : Z := 772.

Definition mode_off (mode : string) : bool := bool_decide (mode = "" ∨ mode = TLSModeNone).

Definition tls_Validate (c : TLSConfig) : result unit :=
  if mode_off (tls_Mode c) then
    if negb (bool_decide (tls_CertPath c = "")) || negb (bool_decide (tls_KeyPath c = "")) ||
       (0 <? length (tls_CACertPaths c))%nat
    then Fail (Errorf "tls mode 'none': cert/key/ca paths should not be set" []) else Ret tt
  else if bool_decide (tls_Mode c = TLSModeTLS) then
    if (length (tls_CACertPaths c) =? 0)%nat then Fail (Errorf "tls mode 'tls': ca-cert-paths required" [])
    else if negb (bool_decide (tls_CertPath c = "")) || negb (bool_decide (tls_KeyPath c = ""))
    then Fail (Errorf "tls mode 'tls': cert-path and key-path should not be set (use 'mtls' for mutual TLS)" [])
    else Ret tt
  else if bool_decide (tls_Mode c = TLSModeMTLS) then
    if bool_decide (tls_CertPath c = "") then Fail (Errorf "tls mode 'mtls': cert-path required" [])
    else if bool_decide (tls_KeyPath c = "") then Fail (Errorf "tls mode 'mtls': key-path required" [])
    else if (length (tls_CACertPaths c) =? 0)%nat then Fail (Errorf "tls mode 'mtls': ca-cert-paths required" [])
    else Ret tt
  else Fail (Errorf "invalid tls mode '%s': must be 'none', 'tls', or 'mtls'" [AStr (tls_Mode c)]).

Section Dial.
Context {CertPool Certificate Conn : Type}.
Context (ReadFile : string → result bytes).
Context (NewCertPool : CertPool) (AppendCertsFromPEM : CertPool → bytes → CertPool * bool).
Context (X509KeyPair : bytes → bytes → result Certificate).
Context (SplitHostPort : string → result (string * string)).

(** The fields of [tls.Config] that the SDK sets. *)
Record ClientTLS := MkClientTLS {
  ct_MinVersion : Z;
  ct_ServerName : string;
  ct_RootCAs : CertPool;
  ct_Certificates : list Certificate }.

(** The loop over the authorities. *)
Fixpoint load_roots (pool : CertPool) (paths : list string) : result CertPool :=
  match paths with
  | [] => Ret pool
  | caPath :: paths' =>
      caPEM ← wrapf "failed to read CA cert %s: %w" [AStr caPath] (ReadFile caPath);
      match AppendCertsFromPEM pool caPEM with
      | (_, false) => Fail (Errorf "failed to parse CA cert %s" [AStr caPath])
      | (pool', true) => load_roots pool' paths'
      end
  end.

Definition load_certificate (c : TLSConfig) : result Certificate :=
  certPEM ← wrapf "failed to read cert %s: %w" [AStr (tls_CertPath c)] (ReadFile (tls_CertPath c));
  keyPEM ← wrapf "failed to read key %s: %w" [AStr (tls_KeyPath c)] (ReadFile (tls_KeyPath c));
  wrapf "failed to load client certificate and key: %w" [] (X509KeyPair certPEM keyPEM).

(** A nil configuration is [None]. *)
Definition LoadClientTLSConfig (c : TLSConfig) (serverName : string) : result (option ClientTLS) :=
  _ ← tls_Validate c;
  let serverName := if bool_decide (tls_ServerName c = "") then serverName else tls_ServerName c in
  if mode_off (tls_Mode c) then Ret None
  else if bool_decide (tls_Mode c = TLSModeTLS ∨ tls_Mode c = TLSModeMTLS) then
    rootCAs ← load_roots NewCertPool (tls_CACertPaths c);
    certs ← (if bool_decide (tls_Mode c = TLSModeMTLS) then cert ← load_certificate c; Ret [cert] else Ret []);
    Ret (Some (MkClientTLS DefaultTLSMinVersion serverName rootCAs certs))
  else Fail (Errorf "invalid tls mode: %s" [AStr (tls_Mode c)]).

(** Transport credentials: [credentials.NewTLS] of a configuration. *)
Inductive Creds :=
  | Insecure
  | TLS (cfg : option ClientTLS).

Record PeerConf := MkPeerConf { pc_Address : string; pc_TLS : TLSConfig }.

(** What [NewPeer] and [NewOrderer] share; [kind] is the word their messages
    start with. *)
Definition transport (kind : string) (c : PeerConf) : result Creds :=
  _ ← wrapf (kind +:+ " %s: invalid TLS config: %w") [AStr (pc_Address c)] (tls_Validate (pc_TLS c));
  '(host, _) ← wrapf (kind +:+ " %s: address must contain port: %w") [AStr (pc_Address c)] (SplitHostPort (pc_Address c));
  if negb (bool_decide (tls_Mode (pc_TLS c) = "")) && negb (bool_decide (tls_Mode (pc_TLS c) = TLSModeNone)) then
    tlsCfg ← wrapf (kind +:+ " %s: failed to load TLS config: %w") [AStr (pc_Address c)]
               (LoadClientTLSConfig (pc_TLS c) host);
    Ret (TLS tlsCfg)
  else Ret Insecure.

(** [NewClient] is [grpc.NewClient]. *)
Definition NewPeer (NewClient : string → Creds → result Conn) (c : PeerConf) : result Conn :=
  creds ← transport "peer" c;
  wrapf "dial peer %s: %w" [AStr (pc_Address c)] (NewClient (pc_Address c) creds).

Definition NewOrderer (NewClient : string → Creds → result Conn) (c : PeerConf) : result Conn :=
  creds ← transport "orderer" c;
  wrapf "dial orderer %s: %w" [AStr (pc_Address c)] (NewClient (pc_Address c) creds).

(** ** What is dialled *)

(** The pool after reading the authorities at the given paths, in order. *)
Inductive pool_of : CertPool → list string → CertPool → Prop :=
  | pool_nil pool : pool_of pool [] pool
  | pool_cons pool path pem pool1 paths pool2 :
      ReadFile path = Ret pem → AppendCertsFromPEM pool pem = (pool1, true) →
      pool_of pool1 paths pool2 → pool_of pool (path :: paths) pool2.

Lemma load_roots_spec pool paths pool' : load_roots pool paths = Ret pool' ↔ pool_of pool paths pool'.
Proof.
  split.
  - revert pool. induction paths as [|path paths IH]; intros pool; simpl; [intros [= <-]; constructor|].
    rewrite result_bind_ret. intros (pem & Hr%wrapf_ret & Hp).
    destruct (AppendCertsFromPEM pool pem) as [pool1 []] eqn:E; [|done]. econstructor; [done..|]. by apply IH.
  - induction 1 as [|pool path pem pool1 paths pool2 Hr Ha _ IH]; simpl; [done|]. rewrite Hr. simpl. by rewrite Ha.
Qed.

Lemma mode_off_spec mode : mode_off mode = true ↔ mode = "" ∨ mode = TLSModeNone.
Proof. unfold mode_off. by rewrite bool_decide_eq_true. Qed.

(** A validated configuration with TLS on. *)
Lemma tls_Validate_on c :
  tls_Validate c = Ret tt → mode_off (tls_Mode c) = false →
  (tls_Mode c = TLSModeTLS ∨ tls_Mode c = TLSModeMTLS) ∧ tls_CACertPaths c ≠ [].
Proof.
  unfold tls_Validate. intros Hv Hm. rewrite Hm in Hv. case_bool_decide as Ht.
  - split; [by left|]. intros He. by rewrite He in Hv.
  - case_bool_decide as Ht2; [|done]. split; [by right|]. intros He. rewrite He in Hv. simpl in Hv.
    by repeat case_bool_decide.
Qed.

Lemma LoadClientTLSConfig_on c host cfg :
  mode_off (tls_Mode c) = false → LoadClientTLSConfig c host = Ret cfg →
  ∃ t, cfg = Some t ∧ ct_MinVersion t = DefaultTLSMinVersion ∧
    ct_ServerName t = (if bool_decide (tls_ServerName c = "") then host else tls_ServerName c) ∧
    tls_CACertPaths c ≠ [] ∧ pool_of NewCertPool (tls_CACertPaths c) (ct_RootCAs t) ∧
    (tls_Mode c = TLSModeTLS ∧ ct_Certificates t = [] ∨
     tls_Mode c = TLSModeMTLS ∧ ∃ cert, load_certificate c = Ret cert ∧ ct_Certificates t = [cert]).
Proof.
  intros Hm. unfold LoadClientTLSConfig. rewrite result_bind_ret. intros ([] & Hv & Hl).
  destruct (tls_Validate_on c Hv Hm) as [Hmode Hca]. rewrite Hm, bool_decide_true in Hl by done.
  apply result_bind_ret in Hl as (pool & Hp%load_roots_spec & Hl). apply result_bind_ret in Hl as (certs & Hc & [= <-]).
  eexists. split_and!; [done..|]. case_bool_decide as Hmt.
  - right. split; [done|]. apply result_bind_ret in Hc as (cert & Hcert & [= <-]). by exists cert.
  - left. split; [by destruct Hmode|]. by injection Hc as <-.
Qed.

(** C40: the transport of a connection is the one configured: it is insecure exactly when
    the mode is empty or "none", and then no certificate was configured; otherwise
    it is TLS 1.3 or later, checks the override or the host of the address against
    a non-empty pool of exactly the configured authorities, and presents the
    configured certificate exactly in mode "mtls". *)
Theorem transport_as_configured kind c creds :
  transport kind c = Ret creds →
  match creds with
  | Insecure => (tls_Mode (pc_TLS c) = "" ∨ tls_Mode (pc_TLS c) = TLSModeNone) ∧
      tls_CertPath (pc_TLS c) = "" ∧ tls_KeyPath (pc_TLS c) = "" ∧ tls_CACertPaths (pc_TLS c) = []
  | TLS cfg => ∃ host port t, SplitHostPort (pc_Address c) = Ret (host, port) ∧ cfg = Some t ∧
      ct_MinVersion t = DefaultTLSMinVersion ∧
      ct_ServerName t = (if bool_decide (tls_ServerName (pc_TLS c) = "") then host else tls_ServerName (pc_TLS c)) ∧
      tls_CACertPaths (pc_TLS c) ≠ [] ∧ pool_of NewCertPool (tls_CACertPaths (pc_TLS c)) (ct_RootCAs t) ∧
      (tls_Mode (pc_TLS c) = TLSModeTLS ∧ ct_Certificates t = [] ∨
       tls_Mode (pc_TLS c) = TLSModeMTLS ∧ ∃ cert, load_certificate (pc_TLS c) = Ret cert ∧ ct_Certificates t = [cert])
  end.
Proof.
  unfold transport. rewrite result_bind_ret. intros ([] & Hv%wrapf_ret & Ht).
  apply result_bind_ret in Ht as ([host port] & Hs%wrapf_ret & Ht).
  destruct (mode_off (tls_Mode (pc_TLS c))) eqn:Hm.
  - pose proof (proj1 (mode_off_spec _) Hm) as Hmode.
    assert (negb (bool_decide (tls_Mode (pc_TLS c) = "")) && negb (bool_decide (tls_Mode (pc_TLS c) = TLSModeNone)) = false) as Hoff.
    { destruct Hmode as [-> | ->]; done. }
    rewrite Hoff in Ht. injection Ht as <-. split; [done|]. unfold tls_Validate in Hv. rewrite Hm in Hv.
    destruct (_ || _) eqn:Ef; [done|].
    rewrite !orb_false_iff, !negb_false_iff, !bool_decide_eq_true, Nat.ltb_ge in Ef. destruct Ef as [[? ?] Hlen].
    split_and!; [done..|]. apply nil_length_inv. lia.
  - assert (negb (bool_decide (tls_Mode (pc_TLS c) = "")) && negb (bool_decide (tls_Mode (pc_TLS c) = TLSModeNone)) = true) as Hon.
    { unfold mode_off in Hm. apply bool_decide_eq_false in Hm. repeat case_bool_decide; naive_solver. }
    rewrite Hon in Ht. apply result_bind_ret in Ht as (cfg & Hl%wrapf_ret & [= <-]).
    destruct (LoadClientTLSConfig_on _ _ _ Hm Hl) as (t & ? & ?). by exists host, port, t.
Qed.

End Dial.

(** A configuration for mutual TLS whose files all exist. *)
Definition example_conf : PeerConf := MkPeerConf "orderer.example.com:7050" (MkTLSConfig "mtls" "cert.pem" "key.pem" ["ca.pem"] "").

Lemma transport_as_configured_witness :
  ∃ t, transport (λ path, Ret (bytes_of_string path)) [] (λ pool pem, (pool ++ [pem], true))
      (λ cert key, Ret (cert, key)) (λ _, Ret ("orderer.example.com", "7050")) "orderer" example_conf = Ret (TLS (Some t)) ∧
    ct_ServerName t = "orderer.example.com" ∧ ct_Certificates t ≠ [].
Proof.
  eexists. split; [reflexivity|].
  destruct (transport_as_configured (λ path, Ret (bytes_of_string path)) [] (λ pool pem, (pool ++ [pem], true))
    (λ cert key, Ret (cert, key)) (λ _, Ret ("orderer.example.com", "7050")) "orderer" example_conf _ eq_refl)
    as (host & port & t & Hs & Ht & _ & Hn & _ & _ & [[Hm _]|[_ (cert & _ & Hc)]]); [discriminate Hm|].
  injection Ht as <-. injection Hs as <- <-. split; [exact Hn|]. intros He. discriminate He.
Defined.
