(* ===== verification/Wiring.v ===== *)
(** * Constructors that wire the parts together

    The peers of network/fabric/peer.go and network/fabricx/peer.go and the
    synchronizers that these packages assemble: a peer connection (Dial.v), a
    block subscription on the channel of the peer (Subscription.v), the parser of
    the network in a processor (Blocks.v, Parser.v) and the loop that uses them
    (Synchronizer.v).

    A Fabric peer signs its requests and a Fabric-X peer does not: the theorem
    says so of the envelope that a subscription sends.  The list next to a result
    is the connections that were opened. *)

From S2P Require Import Prelude Blocks Status Mvcc WorldState Proto Endorse Parser Finality Delivery Ledger Subscription Dial Synchronizer.

(** ** Peers *)

Section Wiring.
Context {Conn : Type} (dial : PeerConf → result Conn).

Record fabric_Peer := MkFabricPeer { fp_conn : Conn; fp_channel : string; fp_signer : Signer }.

Definition fabric_NewPeer (conf : PeerConf) (channel : string) (signer : option Signer) : result fabric_Peer :=
  match signer with
  | None => Fail (Errorf "signer is required" [])
  | Some s => conn ← dial conf; mret (MkFabricPeer conn channel s)
  end.

Record fabricx_Peer := MkFabricxPeer { xp_conn : Conn; xp_channel : string }.

Definition fabricx_NewPeer (conf : PeerConf) (channel : string) : result fabricx_Peer :=
  conn ← dial conf; mret (MkFabricxPeer conn channel).

Section Subscribe.
Context `{Protos} `{Codec SeekInfo} `{SeekTypes} {W : Type}.
Context (process : RawBlock → W → W * outcome unit) (Status_SUCCESS : Z).
Context (opened : result unit) (sent : Envelope → result unit) (now : Z) (rand : result bytes).

Definition fabric_SubscribeBlocks (p : fabric_Peer) (startBlock : Z) (msgs : list delivery) (w : W) : W * option (outcome unit) :=
  SubscribeBlocks process Status_SUCCESS opened sent now rand (Some (fp_signer p)) (fp_channel p) startBlock msgs w.

Definition fabricx_SubscribeBlocks (p : fabricx_Peer) (startBlock : Z) (msgs : list delivery) (w : W) : W * option (outcome unit) :=
  SubscribeBlocks process Status_SUCCESS opened sent now rand None (xp_channel p) startBlock msgs w.

End Subscribe.

(** ** Synchronizers *)

Section Sync.
Context `{Protos} `{HeaderTypes} `{V : ValidationCodes} `{C : CommitterCodes} {DB W : Type}.
Context (BlockHeaderHash : BlockHeader → bytes) (now : Z).

(** [NewProcessor(NewBlockParser(...), handlers)]. *)
Definition fabric_processor (handlers : list (BlockHandler (W := W))) : Processor :=
  MkProcessor (fabric_Parse BlockHeaderHash now) handlers.

Definition fabricx_processor (handlers : list (BlockHandler (W := W))) : Processor :=
  MkProcessor (fabricx_Parse BlockHeaderHash now) handlers.

Definition fabric_NewSynchronizer (db : option DB) (channel : string) (conf : PeerConf) (signer : option Signer)
    (handlers : list (BlockHandler (W := W))) : list Conn * result (DB * fabric_Peer * Processor * Synchronizer) :=
  match fabric_NewPeer conf channel signer with
  | Fail err => ([], Fail err)
  | Ret peer =>
      ([fp_conn peer], '(db, peer, s) ← NewSynchronizer db (Some peer); mret (db, peer, fabric_processor handlers, s))
  end.

Definition fabricx_NewSynchronizer (db : option DB) (channel : string) (conf : PeerConf)
    (handlers : list (BlockHandler (W := W))) : list Conn * result (DB * fabricx_Peer * Processor * Synchronizer) :=
  match fabricx_NewPeer conf channel with
  | Fail err => ([], Fail err)
  | Ret peer =>
      ([xp_conn peer], '(db, peer, s) ← NewSynchronizer db (Some peer); mret (db, peer, fabricx_processor handlers, s))
  end.

(** Without a database the constructors fail after they have dialled, and
    nobody closes the connection. *)
Theorem NewSynchronizer_leaks channel conf signer handlers conn :
  dial conf = Ret conn →
  fabric_NewSynchronizer None channel conf (Some signer) handlers = ([conn], Fail (Errorf "db required" [])) ∧
  fabricx_NewSynchronizer None channel conf handlers = ([conn], Fail (Errorf "db required" [])).
Proof.
  intros Hd. unfold fabric_NewSynchronizer, fabricx_NewSynchronizer, fabric_NewPeer, fabricx_NewPeer. by rewrite Hd.
Qed.

End Sync.

(** ** What a subscription sends *)

Section Requests.
Context `{Protos} `{!ProtosLaws} `{Codec SeekInfo} `{!CodecLaws SeekInfo} `{SeekTypes}.

(** The seek envelope of a subscription: for the channel and the block asked
    for, signed over its payload by the submitter named in it, or not at all. *)
Definition seeks (env : Envelope) (signer : option Signer) (channel : string) (startBlock : Z) : Prop :=
  ∃ pl hdr chdr shdr si,
    Unmarshal (env_Payload env) = Ret pl ∧ pl_Header pl = Some hdr ∧
    Unmarshal (hdr_ChannelHeader hdr) = Ret chdr ∧ chdr_ChannelId chdr = channel ∧
    Unmarshal (hdr_SignatureHeader hdr) = Ret shdr ∧ Unmarshal (pl_Data pl) = Ret si ∧
    si_Start si = Some (SeekSpecified startBlock) ∧
    match signer with
    | Some s => Serialize s = Ret (shdr_Creator shdr) ∧ Sign s (env_Payload env) = Ret (env_Signature env)
    | None => shdr_Creator shdr = [] ∧ env_Signature env = []
    end.

Lemma newDeliverSeekInfo_seeks now rand signer channel startBlock env :
  newDeliverSeekInfo now rand signer channel startBlock = Ok env → seeks env signer channel startBlock.
Proof.
  unfold newDeliverSeekInfo. intros (creator & Hc & Hs)%lift_bind_ok.
  apply lift_bind_ok in Hs as (chdr & Hch%wrapf_ret & Hs). apply outcome_bind_ok in Hs as (nonce & _ & Hs).
  apply lift_bind_ok in Hs as (shdr & Hsh%wrapf_ret & Hs). apply lift_bind_ok in Hs as (si & Hsi%wrapf_ret & Hs).
  apply lift_bind_ok in Hs as (pl & Hpl%wrapf_ret & Hs).
  assert (env_Payload env = pl) as Hp.
  { destruct signer as [s|]; [apply lift_bind_ok in Hs as (sig & _ & [= <-]); done|by injection Hs as <-]. }
  unfold seeks. rewrite Hp. eexists _, _, _, _, _. split_and!.
  - exact (Unmarshal_Marshal _ _ Hpl).
  - reflexivity.
  - exact (Unmarshal_Marshal _ _ Hch).
  - reflexivity.
  - exact (Unmarshal_Marshal _ _ Hsh).
  - exact (Unmarshal_Marshal _ _ Hsi).
  - reflexivity.
  - simpl. destruct signer as [s|].
    + apply lift_bind_ok in Hs as (sig & Hsig%wrapf_ret & [= <-]). done.
    + by injection Hc as <-; injection Hs as <-.
Qed.

Lemma SubscribeBlocks_sends {W} (process : RawBlock → W → W * outcome unit) success opened sent now rand signer channel
    startBlock w :
  (SubscribeBlocks process success opened sent now rand signer channel startBlock [] w).2 = None →
  ∃ env, sent env = Ret tt ∧ seeks env signer channel startBlock.
Proof.
  unfold SubscribeBlocks. destruct opened as [[]|]; [|done].
  destruct (newDeliverSeekInfo now rand signer channel startBlock) as [env| |] eqn:E; [|done..].
  destruct (sent env) as [[]|] eqn:Es; [|done]. intros _. exists env. split; [done|].
  by eapply newDeliverSeekInfo_seeks.
Qed.

(** A subscription asks for what it should, as who it should: where a subscription of a
    peer is open, the peer has sent one envelope whose channel is the one the peer was made
    for and whose start is the block asked for; a Fabric peer names its signer as the
    creator and signs the payload with it, and the envelope of a Fabric-X peer has neither
    creator nor signature. *)
Theorem subscriptions_identify {W} (process : RawBlock → W → W * outcome unit) success opened sent now rand
    conf channel signer p xp startBlock w :
  (fabric_NewPeer conf channel signer = Ret p →
   (fabric_SubscribeBlocks process success opened sent now rand p startBlock [] w).2 = None →
   ∃ s env, signer = Some s ∧ sent env = Ret tt ∧ seeks env (Some s) channel startBlock) ∧
  (fabricx_NewPeer conf channel = Ret xp →
   (fabricx_SubscribeBlocks process success opened sent now rand xp startBlock [] w).2 = None →
   ∃ env, sent env = Ret tt ∧ seeks env None channel startBlock).
Proof.
  split.
  - destruct signer as [s|]; [|done]. unfold fabric_NewPeer. destruct (dial conf) as [conn|]; [|done].
    intros [= <-] (env & ? & ?)%SubscribeBlocks_sends. by exists s, env.
  - unfold fabricx_NewPeer. destruct (dial conf) as [conn|]; [|done]. intros [= <-]. apply SubscribeBlocks_sends.
Qed.

End Requests.

End Wiring.

(** ** An example *)

Import Wire Seeks.

Definition example_signer : Signer := MkSigner (λ msg, Ret (Byte.x53 :: msg)) (Ret (bytes_of_string "org1")).

Lemma subscriptions_identify_witness :
  ∃ s env, Some example_signer = Some s ∧ (Ret tt : result unit) = Ret tt ∧ seeks env (Some s) "ch" 7.
Proof.
  exact (proj1 (subscriptions_identify (λ c : PeerConf, Ret (pc_Address c)) (λ _ w, (w, Ok tt)) 200 (Ret tt) (λ _, Ret tt)
    1700000000 (Ret [Byte.x01]) (MkPeerConf "peer:7051" (MkTLSConfig "none" "" "" [] "")) "ch" (Some example_signer)
    (MkFabricPeer "peer:7051" "ch" example_signer) (MkFabricxPeer "peer:7051" "ch") 7 tt) eq_refl eq_refl).
Defined.
