(* ===== verification/Broadcast.v ===== *)
(** * Broadcasting transactions

    The orderer client of network/orderer.go, which keeps one broadcast stream
    open and replaces it when it breaks, and the [Submitter] of
    network/submitter.go, which sends an envelope to every orderer.

    A stream is what was written to it and whether its context is cancelled;
    [od_stream] is the index of the stream in use.  Whether opening a stream
    and writing to one succeed is decided by the environment: the n-th open and
    the n-th write get the answers [opens n] and [sends n].  The reader of the
    replies cancels its stream when it ends, which is the step [os_reader].

    The theorems: at most one stream is live, whatever breaks; a nil [Broadcast]
    wrote the envelope once, to one stream, and a failed one wrote it nowhere;
    a nil [Submit] reached at least half of the orderers; and a closed client
    never opens a stream again. *)

From S2P Require Import Prelude Blocks Status Proto Endorse Dial.

Record bstream := MkBstream { bs_cancelled : bool; bs_sent : list Envelope }.

Record Orderer := MkOrderer {
  od_addr : string;
  od_ctx : bool;
  od_closed : bool;
  od_stream : option nat;
  od_streams : list bstream;
  od_opens : nat;
  od_sends : nat }.

(** [NewOrderer] after its checks: no stream yet. *)
Definition new_orderer (addr : string) : Orderer := MkOrderer addr false false None [] 0 0.

Definition with_streams (o : Orderer) (cur : option nat) (ss : list bstream) : Orderer :=
  MkOrderer (od_addr o) (od_ctx o) (od_closed o) cur ss (od_opens o) (od_sends o).

Definition cancel_stream (ss : list bstream) (i : nat) : list bstream :=
  alter (λ b, MkBstream true (bs_sent b)) i ss.

(** [o.streamCancel()], nil before the first stream. *)
Definition streamCancel (o : Orderer) : Orderer :=
  match od_stream o with
  | None => o
  | Some i => with_streams o (Some i) (cancel_stream (od_streams o) i)
  end.

(** [o.stream != nil && o.streamCtx.Err() == nil]. *)
Definition stream_live (o : Orderer) : bool :=
  match od_stream o ≫= λ i, od_streams o !! i with
  | Some b => negb (bs_cancelled b) && negb (od_ctx o)
  | None => false
  end.

Section Orderer.
Context (opens sends : nat → result unit).

Definition ensureStream (o : Orderer) : Orderer * result unit :=
  if od_closed o then (o, Fail (Errorf "orderer %s: closed" [AStr (od_addr o)]))
  else if stream_live o then (o, Ret tt)
  else
    let o := streamCancel o in
    match opens (od_opens o) with
    | Fail err =>
        (MkOrderer (od_addr o) (od_ctx o) (od_closed o) None (od_streams o) (S (od_opens o)) (od_sends o),
         Fail (Wrapf "open broadcast stream to %s: %w" [AStr (od_addr o)] err))
    | Ret _ =>
        (MkOrderer (od_addr o) (od_ctx o) (od_closed o) (Some (length (od_streams o)))
           (od_streams o ++ [MkBstream false []]) (S (od_opens o)) (od_sends o), Ret tt)
    end.

(** [o.stream.Send(env)]; a nil stream panics. *)
Definition send (env : Envelope) (o : Orderer) : Orderer * outcome unit :=
  match od_stream o with
  | None => (o, Panic)
  | Some i =>
      let o' ss := MkOrderer (od_addr o) (od_ctx o) (od_closed o) (od_stream o) ss (od_opens o) (S (od_sends o)) in
      match sends (od_sends o) with
      | Fail err => (o' (od_streams o), Err err)
      | Ret _ => (o' (alter (λ b, MkBstream (bs_cancelled b) (bs_sent b ++ [env])) i (od_streams o)), Ok tt)
      end
  end.

(** [ctxErr] is [ctx.Err()] of the caller's context. *)
Definition Broadcast (ctxErr : option error) (env : Envelope) (o : Orderer) : Orderer * outcome unit :=
  match ctxErr with
  | Some err => (o, Err err)
  | None =>
      match ensureStream o with
      | (o, Fail err) => (o, Err err)
      | (o, Ret _) =>
          match send env o with
          | (o, Ok _) => (o, Ok tt)
          | (o, Panic) => (o, Panic)
          | (o, Err _) =>
              match ensureStream (streamCancel o) with
              | (o, Fail err) => (o, Err err)
              | (o, Ret _) =>
                  match send env o with
                  | (o, Ok _) => (o, Ok tt)
                  | (o, Panic) => (o, Panic)
                  | (o, Err err) => (o, Err (Wrapf "broadcast to %s: %w" [AStr (od_addr o)] err))
                  end
              end
          end
      end
  end.

(** [Close], up to the connection: no more streams, and the one in use is
    cancelled after its replies or the timeout. *)
Definition Close (o : Orderer) : Orderer :=
  let o := MkOrderer (od_addr o) (od_ctx o) true (od_stream o) (od_streams o) (od_opens o) (od_sends o) in
  streamCancel o.

(** ** The client in use *)

Inductive orderer_op : Orderer → Orderer → Prop :=
  | oo_broadcast ctxErr env o : orderer_op o (Broadcast ctxErr env o).1
  | oo_close o : orderer_op o (Close o)
  | oo_reader i o : orderer_op o (with_streams o (od_stream o) (cancel_stream (od_streams o) i))
  | oo_ctx o : orderer_op o
      (MkOrderer (od_addr o) true (od_closed o) (od_stream o) (od_streams o) (od_opens o) (od_sends o)).

(** The stream in use exists, and every other stream is cancelled. *)
Definition one_stream (o : Orderer) : Prop :=
  (∀ i, od_stream o = Some i → is_Some (od_streams o !! i)) ∧
  (∀ i b, od_streams o !! i = Some b → bs_cancelled b = false → od_stream o = Some i).

Lemma lookup_cancel_stream ss i j b :
  cancel_stream ss i !! j = Some b →
  ∃ b0, ss !! j = Some b0 ∧ bs_sent b = bs_sent b0 ∧ (i = j ∧ bs_cancelled b = true ∨ i ≠ j ∧ b = b0).
Proof.
  unfold cancel_stream. destruct (decide (i = j)) as [->|Hij].
  - rewrite list_lookup_alter_eq. intros (b0 & Hb & ->)%fmap_Some. naive_solver.
  - rewrite list_lookup_alter_ne by done. naive_solver.
Qed.

Lemma is_Some_alter {A} (f : A → A) (l : list A) i j : is_Some (l !! j) → is_Some (alter f i l !! j).
Proof. by rewrite !lookup_lt_is_Some, length_alter. Qed.

Lemma cancel_one_stream o cur i :
  one_stream o → (od_stream o = cur ∨ cur = None ∧ od_stream o = Some i ∨ cur = None ∧ od_stream o = None) →
  one_stream (with_streams o cur (cancel_stream (od_streams o) i)).
Proof.
  intros [Hex Hone] Hcur. split; simpl.
  - intros j Hj. apply is_Some_alter, Hex. naive_solver congruence.
  - intros j b (b0 & Hb & _ & [[-> Hc]|[Hij ->]])%lookup_cancel_stream Hlive; [congruence|].
    pose proof (Hone j b0 Hb Hlive). naive_solver congruence.
Qed.

Lemma streamCancel_one_stream o : one_stream o → one_stream (streamCancel o).
Proof.
  intros Ho. unfold streamCancel. destruct (od_stream o) as [i|] eqn:E; [|done].
  apply cancel_one_stream; [done|by left].
Qed.

(** After a cancel nothing is live. *)
Lemma streamCancel_dead o :
  one_stream o → ∀ i b, od_streams (streamCancel o) !! i = Some b → bs_cancelled b = true.
Proof.
  intros [Hex Hone] j b. unfold streamCancel. destruct (od_stream o) as [i|] eqn:E; simpl.
  - intros (b0 & Hb & _ & [[-> Hc]|[Hij ->]])%lookup_cancel_stream; [done|].
    destruct (bs_cancelled b0) eqn:Eb; [done|]. pose proof (Hone j b0 Hb Eb). congruence.
  - intros Hb. destruct (bs_cancelled b) eqn:Eb; [done|]. by pose proof (Hone j b Hb Eb).
Qed.

Lemma ensureStream_one_stream o o' r :
  ensureStream o = (o', r) → one_stream o →
  one_stream o' ∧ (od_closed o' = od_closed o) ∧ (r = Ret tt → is_Some (od_stream o')).
Proof.
  intros He Ho. unfold ensureStream in He. destruct (od_closed o) eqn:Ec; [by simplify_eq/=|].
  destruct (stream_live o) eqn:El.
  { simplify_eq. split_and!; [done..|]. intros _. unfold stream_live in El. by destruct (od_stream o'). }
  assert (od_closed (streamCancel o) = false) as Hc by (unfold streamCancel; by destruct (od_stream o)).
  pose proof (streamCancel_dead o Ho) as Hdead. destruct (opens _) as [[]|err]; simplify_eq/=.
  - split_and!; [|done|by eexists]. split; simpl.
    + intros i [= <-]. rewrite lookup_app_r, Nat.sub_diag by lia. by eexists.
    + intros i b Hb Hlive. apply lookup_app_Some in Hb as [Hb|[Hlen Hb]].
      * pose proof (Hdead i b Hb). congruence.
      * apply list_lookup_singleton_Some in Hb as [Hi <-]. f_equal. lia.
  - split_and!; [|done|done]. split; simpl; [done|]. intros i b Hb Hlive.
    pose proof (Hdead i b Hb). congruence.
Qed.

Lemma send_one_stream env o o' r :
  send env o = (o', r) → one_stream o → one_stream o' ∧ od_closed o' = od_closed o.
Proof.
  unfold send. intros Hs Ho. destruct (od_stream o) as [i|] eqn:E; [|by simplify_eq]. destruct Ho as [Hex Hone].
  destruct (sends _) as [[]|err]; simplify_eq/=; (split; [|done]); split; simpl; rewrite ?E; try done.
  - intros j [= <-]. by apply is_Some_alter, Hex.
  - intros j b Hb Hlive. destruct (decide (i = j)) as [->|Hij]; [done|].
    rewrite list_lookup_alter_ne in Hb by done. rewrite <- E. by apply (Hone j b).
  - intros j [= <-]. by apply Hex.
  - intros j b Hb Hlive. rewrite <- E. by apply (Hone j b).
Qed.

Lemma Broadcast_one_stream ctxErr env o :
  one_stream o → one_stream (Broadcast ctxErr env o).1 ∧ od_closed (Broadcast ctxErr env o).1 = od_closed o.
Proof.
  intros Ho. unfold Broadcast. destruct ctxErr as [err|]; [done|].
  destruct (ensureStream o) as [o1 r1] eqn:E1. destruct (ensureStream_one_stream _ _ _ E1 Ho) as (H1 & C1 & _).
  destruct r1 as [[]|err]; [|done]. destruct (send env o1) as [o2 r2] eqn:E2.
  destruct (send_one_stream _ _ _ _ E2 H1) as [H2 C2]. destruct r2 as [[]|err|]; simpl; [split; [done|congruence]| |split; [done|congruence]].
  assert (od_closed (streamCancel o2) = od_closed o2) as C2' by (unfold streamCancel; by destruct (od_stream o2)).
  destruct (ensureStream (streamCancel o2)) as [o3 r3] eqn:E3.
  destruct (ensureStream_one_stream _ _ _ E3 (streamCancel_one_stream _ H2)) as (H3 & C3 & _).
  destruct r3 as [[]|err']; [|simpl; split; [done|congruence]]. destruct (send env o3) as [o4 r4] eqn:E4.
  destruct (send_one_stream _ _ _ _ E4 H3) as [H4 C4].
  destruct r4 as [[]|err'|]; simpl; split; try done; congruence.
Qed.

Lemma orderer_op_inv o o' : orderer_op o o' → one_stream o → one_stream o' ∧ (od_closed o = true → od_closed o' = true).
Proof.
  intros Hop Ho. destruct Hop as [ctxErr env o|o|i o|o].
  - destruct (Broadcast_one_stream ctxErr env o Ho) as [? ->]. done.
  - split; [|by unfold Close, streamCancel; simpl; destruct (od_stream o)].
    apply streamCancel_one_stream. by destruct Ho.
  - split; [|done]. apply cancel_one_stream; [done|by left].
  - by split.
Qed.

(** ** What a broadcast writes *)

(** The envelopes written to the streams, stream by stream. *)
Definition written (o : Orderer) : list (list Envelope) := bs_sent <$> od_streams o.

Lemma streamCancel_written o : written (streamCancel o) = written o.
Proof.
  unfold streamCancel, written. destruct (od_stream o) as [i|]; [|done]. simpl. apply list_eq. intros j.
  rewrite !list_lookup_fmap. unfold cancel_stream. destruct (decide (i = j)) as [->|Hij].
  - rewrite list_lookup_alter_eq. by destruct (od_streams o !! j).
  - by rewrite list_lookup_alter_ne.
Qed.

Lemma ensureStream_written o o' r :
  ensureStream o = (o', r) → ∃ extra, written o' = written o ++ replicate extra [].
Proof.
  unfold ensureStream. destruct (od_closed o); [intros [= <- _]; exists 0%nat; by rewrite app_nil_r|].
  destruct (stream_live o); [intros [= <- _]; exists 0%nat; by rewrite app_nil_r|].
  destruct (opens _) as [[]|err]; intros [= <- _]; rewrite <- (streamCancel_written o); unfold written; simpl.
  - exists 1%nat. by rewrite fmap_app.
  - exists 0%nat. by rewrite app_nil_r.
Qed.

Lemma send_written env o o' r :
  one_stream o → send env o = (o', r) →
  match r with
  | Ok _ => ∃ i, is_Some (written o !! i) ∧ written o' = alter (λ l, l ++ [env]) i (written o)
  | _ => written o' = written o
  end.
Proof.
  unfold send. intros [Hex _] Hs. destruct (od_stream o) as [i|]; [|by simplify_eq].
  destruct (sends _) as [[]|err]; simplify_eq/=; [|done]. exists i. destruct (Hex i eq_refl) as [b Hb]. split.
  - unfold written. rewrite list_lookup_fmap, Hb. by eexists.
  - unfold written. simpl. apply list_eq. intros j. rewrite list_lookup_fmap.
    destruct (decide (i = j)) as [->|Hij]; [by rewrite !list_lookup_alter_eq, list_lookup_fmap, Hb|].
    by rewrite !list_lookup_alter_ne, list_lookup_fmap.
Qed.

(** The envelopes of an orderer after a broadcast: more, possibly empty streams,
    and the envelope once at the end of one of them. *)
Definition wrote_once (env : Envelope) (o o' : Orderer) : Prop :=
  ∃ extra i, is_Some ((written o ++ replicate extra []) !! i) ∧
    written o' = alter (λ l, l ++ [env]) i (written o ++ replicate extra []).

Definition wrote_nothing (o o' : Orderer) : Prop := ∃ extra, written o' = written o ++ replicate extra [].

Lemma wrote_nothing_trans o1 o2 o3 : wrote_nothing o1 o2 → wrote_nothing o2 o3 → wrote_nothing o1 o3.
Proof.
  intros [e1 H1] [e2 H2]. exists (e1 + e2)%nat. by rewrite H2, H1, replicate_add, (assoc_L (++)).
Qed.

Lemma wrote_nothing_once env o1 o2 o3 : wrote_nothing o1 o2 →
  (∃ i, is_Some (written o2 !! i) ∧ written o3 = alter (λ l, l ++ [env]) i (written o2)) → wrote_once env o1 o3.
Proof. intros [e H1] (i & Hi & H2). exists e, i. by rewrite <- H1. Qed.

Lemma wrote_nothing_refl o o' : written o' = written o → wrote_nothing o o'.
Proof. intros H. exists 0%nat. by rewrite H, app_nil_r. Qed.

Lemma Broadcast_writes ctxErr env o o' r :
  one_stream o → Broadcast ctxErr env o = (o', r) →
  match r with
  | Ok _ => wrote_once env o o'
  | Err _ => wrote_nothing o o'
  | Panic => False
  end.
Proof.
  intros Ho Hb. unfold Broadcast in Hb. destruct ctxErr as [err|]; [simplify_eq; by apply wrote_nothing_refl|].
  destruct (ensureStream o) as [o1 r1] eqn:E1. pose proof (ensureStream_written _ _ _ E1) as W1.
  destruct (ensureStream_one_stream _ _ _ E1 Ho) as (H1 & _ & S1). destruct r1 as [[]|err]; [|by simplify_eq].
  assert (∀ o env o2, is_Some (od_stream o) → send env o ≠ (o2, Panic)) as Hnp.
  { intros o0 env0 o2 [i Hi]. unfold send. rewrite Hi. by destruct (sends _). }
  destruct (send env o1) as [o2 r2] eqn:E2. pose proof (send_written _ _ _ _ H1 E2) as W2.
  destruct (send_one_stream _ _ _ _ E2 H1) as [H2 _].
  destruct r2 as [[]|err|]; [simplify_eq; by eapply wrote_nothing_once| |by destruct (Hnp _ _ _ (S1 eq_refl) E2)].
  assert (wrote_nothing o (streamCancel o2)) as W2'.
  { eapply wrote_nothing_trans; [exact W1|]. apply wrote_nothing_refl. by rewrite streamCancel_written. }
  destruct (ensureStream (streamCancel o2)) as [o3 r3] eqn:E3. pose proof (ensureStream_written _ _ _ E3) as W3.
  destruct (ensureStream_one_stream _ _ _ E3 (streamCancel_one_stream _ H2)) as (H3 & _ & S3).
  pose proof (wrote_nothing_trans _ _ _ W2' W3) as W3'. destruct r3 as [[]|err']; [|by simplify_eq].
  destruct (send env o3) as [o4 r4] eqn:E4. pose proof (send_written _ _ _ _ H3 E4) as W4.
  destruct r4 as [[]|err'|]; [simplify_eq; by eapply wrote_nothing_once| |by destruct (Hnp _ _ _ (S3 eq_refl) E4)].
  simplify_eq. eapply wrote_nothing_trans; [exact W3'|by apply wrote_nothing_refl].
Qed.

Lemma orderer_reachable_inv addr o : rtc orderer_op (new_orderer addr) o → one_stream o.
Proof.
  intros Hr. refine (rtc_ind_r one_stream (new_orderer addr) _ _ o Hr); [done|].
  intros o1 o2 _ Hop Ho. by apply (orderer_op_inv _ _ Hop).
Qed.

(** C18: in every state of an orderer client, whatever streams break, fail to open or are
    cancelled, at most one stream is live; a broadcast never panics, writes its
    envelope exactly once to one stream when it returns nil, and writes it nowhere
    when it returns an error. *)
Theorem Broadcast_exactly_once addr o ctxErr env :
  rtc orderer_op (new_orderer addr) o →
  (∀ i j bi bj, od_streams o !! i = Some bi → od_streams o !! j = Some bj →
     bs_cancelled bi = false → bs_cancelled bj = false → i = j) ∧
  match Broadcast ctxErr env o with
  | (o', Ok _) => wrote_once env o o'
  | (o', Err _) => wrote_nothing o o'
  | (_, Panic) => False
  end.
Proof.
  intros Ho%orderer_reachable_inv. split.
  - intros i j bi bj Hi Hj Li Lj. pose proof (proj2 Ho i bi Hi Li). pose proof (proj2 Ho j bj Hj Lj). congruence.
  - destruct (Broadcast ctxErr env o) as [o' r] eqn:E. pose proof (Broadcast_writes _ _ _ _ _ Ho E) as Hw.
    by destruct r.
Qed.

Lemma ensureStream_closed o : od_closed o = true → ensureStream o = (o, Fail (Errorf "orderer %s: closed" [AStr (od_addr o)])).
Proof. unfold ensureStream. by intros ->. Qed.

End Orderer.

(** ** The submitter *)

Section Submitter.
Context {E : Type}.

(** The loop of [NewSubmitter]: the connections made so far are kept next to the
    result, so that the ones an error leaves open are visible. *)
Fixpoint dial_all {Conf C : Type} (dial : Conf → result C) (config : list Conf) : list C * result unit :=
  match config with
  | [] => ([], Ret tt)
  | cfg :: config' =>
      match dial cfg with
      | Fail err => ([], Fail err)
      | Ret c => let '(cs, r) := dial_all dial config' in (c :: cs, r)
      end
  end.

Definition NewSubmitter {Conf C : Type} (dial : Conf → result C) (config : list Conf) : list C * result (list C) :=
  match config with
  | [] => ([], Fail (Errorf "no orderers configured" []))
  | _ => match dial_all dial config with
         | (cs, Ret _) => (cs, Ret cs)
         | (cs, Fail err) => (cs, Fail err)
         end
  end.

(** Environment [i] answers the [i]-th orderer; [ctxErr i] is the state of the
    caller's context when its turn comes. *)
Context (opens sends : nat → nat → result unit) (ctxErr : nat → option error).

(** The loop over the orderers, with which of them took the envelope. *)
Fixpoint broadcast_all (env : Envelope) (i : nat) (orderers : list Orderer) : list Orderer * outcome (list bool) :=
  match orderers with
  | [] => ([], Ok [])
  | o :: os =>
      match Broadcast (opens i) (sends i) (ctxErr i) env o with
      | (o', Panic) => (o' :: os, Panic)
      | (o', r) =>
          let '(os', rs) := broadcast_all env (S i) os in
          (o' :: os', (λ bs, (match r with Ok _ => true | _ => false end) :: bs) <$> rs)
      end
  end.

Definition failures (reached : list bool) : Z := Z.of_nat (length (filter (λ b, b = false) reached)).

(** [Submit]; the pause after a submission does not change the outcome. *)
Definition submitter_Submit (packager : E → outcome Envelope) (end_ : E) (orderers : list Orderer)
    : list Orderer * outcome unit :=
  match packager end_ with
  | Err err => (orderers, Err (Wrapf "package proposal: %w" [] err))
  | Panic => (orderers, Panic)
  | Ok env =>
      match broadcast_all env 0 orderers with
      | (os, Ok reached) =>
          if Z.of_nat (length orderers) <? failures reached * 2 then (os, Err (Errorf "error broadcasting" []))
          else (os, Ok tt)
      | (os, Err err) => (os, Err err)
      | (os, Panic) => (os, Panic)
      end
  end.

Lemma broadcast_all_spec env i orderers :
  Forall one_stream orderers →
  ∃ os' reached, broadcast_all env i orderers = (os', Ok reached) ∧
    Forall3 (λ o o' (b : bool), if b then wrote_once env o o' else wrote_nothing o o') orderers os' reached.
Proof.
  intros Hall. revert i. induction Hall as [|o os Ho _ IH]; intros i; simpl; [exists [], []; by repeat constructor|].
  destruct (Broadcast _ _ _ env o) as [o' r] eqn:Eb. pose proof (Broadcast_writes _ _ _ _ _ _ _ Ho Eb) as Hw.
  destruct (IH (S i)) as (os' & reached & -> & H3).
  destruct r as [[]|err|]; [| |done]; eexists _, _; (split; [reflexivity|]); constructor; try done.
Qed.

Lemma Forall3_lengths {A B C} (P : A → B → C → Prop) la lb lc :
  Forall3 P la lb lc → length la = length lc.
Proof. induction 1; simpl; congruence. Qed.

(** [Submit] decides by majority and reports what happened: for orderer clients in any
    reachable state it does not panic, it returns nil exactly when at least half of
    the orderers took the envelope, each of which has it written once, and the
    others got nothing. *)
Theorem Submit_majority packager end_ orderers env :
  Forall (λ o, ∃ opens sends addr, rtc (orderer_op opens sends) (new_orderer addr) o) orderers →
  packager end_ = Ok env →
  ∃ os' reached r, submitter_Submit packager end_ orderers = (os', r) ∧
    Forall3 (λ o o' (b : bool), if b then wrote_once env o o' else wrote_nothing o o') orderers os' reached ∧
    r = (if Z.of_nat (length orderers) <=? 2 * Z.of_nat (length (filter (λ b, b = true) reached))
         then Ok tt else Err (Errorf "error broadcasting" [])).
Proof.
  intros Hall Hp. unfold submitter_Submit. rewrite Hp.
  destruct (broadcast_all_spec env 0 orderers) as (os' & reached & -> & H3).
  { eapply Forall_impl; [exact Hall|]. intros o (op & se & addr & Hr). by eapply orderer_reachable_inv. }
  assert (Z.of_nat (length orderers) = failures reached + Z.of_nat (length (filter (λ b, b = true) reached))) as Hlen.
  { rewrite (Forall3_lengths _ _ _ _ H3). unfold failures. clear. induction reached as [|[] reached IH]; simpl; [done|..];
      rewrite ?filter_cons_True, ?filter_cons_False by done; simpl; lia. }
  exists os', reached. destruct (_ <? _) eqn:El; bool_to_prop; eexists; (split; [reflexivity|]); (split; [done|]).
  - by rewrite (proj2 (Z.leb_gt _ _)) by lia.
  - by rewrite (proj2 (Z.leb_le _ _)) by lia.
Qed.

End Submitter.

(** ** Concrete clients *)

Module Broadcasts.

Definition env : Envelope := MkEnvelope (bytes_of_string "tx") [].
Definition works : nat → result unit := λ _, Ret tt.
Definition fails : nat → result unit := λ _, Fail (Errorf "connection refused" []).

(** The first write breaks the stream. *)
Definition breaks : nat → result unit := λ n, if (n =? 0)%nat then Fail (Errorf "EOF" []) else Ret tt.

Lemma fresh_reachable opens sends : rtc (orderer_op opens sends) (new_orderer "o1") (new_orderer "o1").
Proof. apply rtc_refl. Qed.

End Broadcasts.

Lemma Broadcast_exactly_once_witness :
  ∃ o', Broadcast Broadcasts.works Broadcasts.breaks None Broadcasts.env (new_orderer "o1") = (o', Ok tt) ∧
    written o' = [[]; [Broadcasts.env]] ∧ wrote_once Broadcasts.env (new_orderer "o1") o'.
Proof.
  eexists. split; [reflexivity|]. split; [reflexivity|].
  exact (proj2 (Broadcast_exactly_once Broadcasts.works Broadcasts.breaks "o1" _ None Broadcasts.env
    (Broadcasts.fresh_reachable _ _))).
Defined.

(** One of two orderers cannot be reached. *)
Lemma Submit_majority_witness :
  ∃ os' reached, submitter_Submit (λ i, if (i =? 0)%nat then Broadcasts.works else Broadcasts.fails) (λ _, Broadcasts.works)
      (λ _, None) (λ _ : unit, Ok Broadcasts.env) tt [new_orderer "o1"; new_orderer "o1"] = (os', Ok tt) ∧
    Forall3 (λ o o' (b : bool), if b then wrote_once Broadcasts.env o o' else wrote_nothing o o')
      [new_orderer "o1"; new_orderer "o1"] os' reached.
Proof.
  destruct (Submit_majority (λ i, if (i =? 0)%nat then Broadcasts.works else Broadcasts.fails) (λ _, Broadcasts.works)
    (λ _, None) (λ _ : unit, Ok Broadcasts.env) tt [new_orderer "o1"; new_orderer "o1"] Broadcasts.env)
    as (os' & reached & r & Hs & H3 & Hr).
  - repeat constructor; exists Broadcasts.works, Broadcasts.works, "o1"; apply Broadcasts.fresh_reachable.
  - reflexivity.
  - exists os', reached. split; [|exact H3]. vm_compute in Hs. injection Hs as <- <-. reflexivity.
Defined.

(** An error on a later orderer leaves the connections made before it open: no
    caller gets them. *)
Lemma NewSubmitter_leaks :
  NewSubmitter (λ n : nat, if (n =? 1)%nat then Fail (Errorf "dial" []) else Ret n) [0; 1]%nat =
  ([0%nat], Fail (Errorf "dial" [])).
Proof. reflexivity. Qed.
