(* ===== verification/Submission.v ===== *)
(** * Submitting an execution

    The packagers and submitters that an application constructs
    (network/fabric/packager.go, network/fabricx/packager.go and [NewSubmitter]
    of network/submitter.go), and the way of an execution from the endorsers'
    responses through packager and submitter to the orderers.

    Dialling an orderer is a parameter; so is [protoutil.CreateSignedTx], which
    is all that the Fabric packager calls.  The theorems: a submitter has one
    client per configured orderer; and what it writes to them, to each once, is
    an envelope in which a parser reads the execution that was endorsed. *)

From S2P Require Import Prelude Blocks Status Mvcc Proto Endorse Parser Packager Dial Broadcast.

Section Submission.
Context `{PR : Protos} {PRL : ProtosLaws} `{HT : HeaderTypes} {HTL : HeaderTypesLaws} `{PU : Protoutil}.

(** ** Packagers *)

Record fabric_TxPackager := MkFabricTxPackager { ftp_signer : Signer }.

Definition fabric_NewTxPackager (s : Signer) : fabric_TxPackager := MkFabricTxPackager s.

Definition fabric_PackageTx (CreateSignedTx : option Proposal → Signer → list ProposalResponse → outcome Envelope)
    (p : fabric_TxPackager) (end_ : Endorsement) : outcome Envelope :=
  CreateSignedTx (e_Proposal end_) (ftp_signer p) (e_Responses end_).

Record fabricx_TxPackager := MkFabricxTxPackager { xtp_signer : option Signer }.

Definition fabricx_NewTxPackager (signer : option Signer) : fabricx_TxPackager := MkFabricxTxPackager signer.

Definition fabricx_PackageTx (rand : result bytes) (p : fabricx_TxPackager) (end_ : Endorsement) : outcome Envelope :=
  PackageTx rand (xtp_signer p) end_.

(** ** Submitters *)

(** The pause after a submission is [sub_wait]. *)
Record Submitter := MkSubmitter {
  sub_orderers : list Orderer;
  sub_packager : Endorsement → outcome Envelope;
  sub_wait : Z }.

(** [network.NewSubmitter]: the clients that were dialled, and the submitter. *)
Definition new_submitter {Conf} (dial : Conf → result Orderer) (config : list Conf)
    (packager : Endorsement → outcome Envelope) (wait : Z) : list Orderer * result Submitter :=
  let '(dialled, r) := NewSubmitter dial config in
  (dialled, os ← r; Ret (MkSubmitter os packager wait)).

Definition fabric_NewSubmitter {Conf} (CreateSignedTx : option Proposal → Signer → list ProposalResponse → outcome Envelope)
    (dial : Conf → result Orderer) (orderers : list Conf) (s : Signer) (wait : Z) : list Orderer * result Submitter :=
  new_submitter dial orderers (fabric_PackageTx CreateSignedTx (fabric_NewTxPackager s)) wait.

Definition fabricx_NewSubmitter {Conf} (rand : result bytes) (dial : Conf → result Orderer) (orderers : list Conf)
    (signer : option Signer) (wait : Z) : list Orderer * result Submitter :=
  new_submitter dial orderers (fabricx_PackageTx rand (fabricx_NewTxPackager signer)) wait.

Definition Submit (opens sends : nat → nat → result unit) (ctxErr : nat → option error) (end_ : Endorsement)
    (s : Submitter) : Submitter * outcome unit :=
  let '(os, r) := submitter_Submit opens sends ctxErr (sub_packager s) end_ (sub_orderers s) in
  (MkSubmitter os (sub_packager s) (sub_wait s), r).

(** The pause of a submission in nanoseconds: only after one that succeeded. *)
Definition pause_after (s : Submitter) (r : outcome unit) : Z :=
  match r with Ok _ => if 0 <? sub_wait s then sub_wait s else 0 | _ => 0 end.

Lemma dial_all_ret {Conf C} (dial : Conf → result C) config cs u :
  dial_all dial config = (cs, Ret u) → Forall2 (λ cfg c, dial cfg = Ret c) config cs.
Proof.
  revert cs. induction config as [|cfg config IH]; intros cs; simpl; [by intros [= <-]|].
  destruct (dial cfg) as [c|err] eqn:Ed; [|done]. destruct (dial_all dial config) as [cs' [u'|err]] eqn:E; [|done].
  intros [= <- <-]. constructor; [done|]. by apply IH.
Qed.

(** A submitter has the client of each configured orderer, in order, and its packager. *)
Lemma new_submitter_ret {Conf} (dial : Conf → result Orderer) config packager wait dialled s :
  new_submitter dial config packager wait = (dialled, Ret s) →
  config ≠ [] ∧ Forall2 (λ cfg o, dial cfg = Ret o) config (sub_orderers s) ∧
  sub_packager s = packager ∧ sub_wait s = wait ∧ dialled = sub_orderers s.
Proof.
  unfold new_submitter, NewSubmitter. destruct config as [|cfg config]; [done|].
  destruct (dial_all dial (cfg :: config)) as [cs [u|err]] eqn:E; [|done]. intros [= <- <-]. simpl.
  split_and!; [done|by eapply dial_all_ret|done..].
Qed.

(** ** From execution to orderers *)

Context (ASN1Marshal : TxNamespace → string → list bytes → result bytes).

(** C7: from execution to the orderers on Fabric-X: when one or more endorsers, whose
    identities decode, answer the same invocation with the same successful result, and the
    messages encode as the encoder documents, a submitter that was made for a list of
    orderers packages their responses into one envelope, in which a parser reads the id,
    the arguments, the event, the payload and the accesses of the execution; it writes
    this envelope once to every orderer that it reaches and to no other; and it returns
    nil exactly when at least half of the orderers have it. *)
Theorem submitted_execution {Conf} (dial : Conf → result Orderer) config wait dialled sub opens sends ctxErr
    now rand rand' s signer channel namespace version nsVersion args inv order res metadata b resps :
  (∀ cfg o, dial cfg = Ret o → ∃ addr, o = new_orderer addr) →
  fabricx_NewSubmitter rand' dial config signer wait = (dialled, Ret sub) →
  fabricx_NewInvocation now rand (Some s) channel namespace version nsVersion args = Ret inv →
  map_order order → rws_unique (res_RWS res) →
  EncodeMetadata (MkMetadata (res_Event res) (res_EventName res) (res_Payload res) args) = Ret metadata →
  Marshal (buildTx order (res_RWS res) namespace (inv_NsVersion inv) metadata) = Ret b →
  resps ≠ [] → Forall (endorsed_by ASN1Marshal inv res) resps →
  identities_decode resps → can_sign signer rand' → encoder_total →
  ∃ sub' r env tx rws' reached, Submit opens sends ctxErr (MkEndorsement (inv_Proposal inv) resps) sub = (sub', r) ∧
    length (sub_orderers sub) = length config ∧
    Forall3 (λ o o' (b : bool), if b then wrote_once env o o' else wrote_nothing o o')
      (sub_orderers sub) (sub_orderers sub') reached ∧
    r = (if Z.of_nat (length config) <=? 2 * Z.of_nat (length (filter (λ b, b = true) reached))
         then Ok tt else Err (Errorf "error broadcasting" [])) ∧
    fabricx_ParseTx env = Ok (Some tx) ∧
    tx_ID tx = inv_TxID inv ∧ tx_InputArgs tx = args ∧ tx_Event tx = res_Event res ∧
    tx_EventName tx = res_EventName res ∧ tx_Payload tx = res_Payload res ∧
    tx_NsRWS tx = [MkNsRWS namespace rws'] ∧
    rws_Reads rws' ≡ₚ neutral_read <$> rws_Reads (res_RWS res) ∧
    rws_Writes rws' ≡ₚ neutral_write <$> rws_Writes (res_RWS res).
Proof.
  intros Hdial Hsub Hinv Ho Hu Hmd Hb Hne Hall Hids Hsign Henc.
  destruct (fabricx_execution_roundtrip ASN1Marshal now rand rand' s signer channel namespace version nsVersion args inv
    order res metadata b resps) as (env & tx & rws' & Henv & Htx); [done..|].
  apply new_submitter_ret in Hsub as (_ & Hos & Hp & _ & _). unfold Submit. rewrite Hp.
  destruct (Submit_majority opens sends ctxErr (fabricx_PackageTx rand' (fabricx_NewTxPackager signer))
    (MkEndorsement (inv_Proposal inv) resps) (sub_orderers sub) env) as (os' & reached & r & -> & H3 & Hr); [|exact Henv|].
  { apply Forall_forall. intros o Ho'. apply list_elem_of_lookup in Ho' as [i Hi].
    destruct (Forall2_lookup_r _ _ _ _ _ Hos Hi) as (cfg & _ & [addr ->]%Hdial).
    exists (λ _, Ret tt), (λ _, Ret tt), addr. apply rtc_refl. }
  rewrite <- (Forall2_length _ _ _ Hos) in Hr.
  eexists _, r, env, tx, rws', reached. split; [reflexivity|]. split; [by rewrite (Forall2_length _ _ _ Hos)|]. by repeat (split; [assumption|]).
Qed.

End Submission.

(** ** A concrete submission *)

Import Wire Wired.

(** Of two orderers the second cannot be reached. *)
Lemma submitted_execution_witness :
  ∃ sub' env tx, Submit (λ i, if (i =? 0)%nat then Broadcasts.works else Broadcasts.fails) (λ _, Broadcasts.works) (λ _, None)
      (MkEndorsement (inv_Proposal invocation) [response; response])
      (MkSubmitter [new_orderer "o1"; new_orderer "o2"]
        (fabricx_PackageTx (Fail (Errorf "unused" [])) (fabricx_NewTxPackager None)) 0) = (sub', Ok tt) ∧
    fabricx_ParseTx env = Ok (Some tx) ∧ tx_ID tx = inv_TxID invocation ∧ tx_EventName tx = "moved".
Proof.
  destruct (submitted_execution digest (λ addr, Ret (new_orderer addr)) ["o1"; "o2"] 0 [new_orderer "o1"; new_orderer "o2"]
    (MkSubmitter [new_orderer "o1"; new_orderer "o2"]
      (fabricx_PackageTx (Fail (Errorf "unused" [])) (fabricx_NewTxPackager None)) 0)
    (λ i, if (i =? 0)%nat then Broadcasts.works else Broadcasts.fails) (λ _, Broadcasts.works) (λ _, None)
    now nonce (Fail (Errorf "unused" [])) signer None "ch" "cc" "" 0 args invocation map_list execution metadata
    (wire (buildTx map_list (res_RWS execution) "cc" (inv_NsVersion invocation) metadata)) [response; response])
    as (sub' & r & env & tx & rws' & reached & Hs & _ & _ & Hr & Hp & Hid & _ & _ & Hname & _); try reflexivity.
  - intros cfg o [= <-]. by eexists.
  - apply map_list_order.
  - apply Accesses.rws_keys.
  - done.
  - repeat constructor; apply response_endorsed.
  - intros r e [->|[->|[]%elem_of_nil]%elem_of_cons]%elem_of_cons [= <-]; eexists; apply unwire.
  - by left.
  - apply encoder.
  - exists sub', env, tx. split; [|exact (conj Hp (conj Hid Hname))]. rewrite Hs. f_equal.
    apply (f_equal snd) in Hs. simpl in Hs. rewrite <- Hs. vm_compute. reflexivity.
Defined.
