(* ===== verification/Closing.v ===== *)
(** * Closing a broadcast stream

    [Orderer.Close] (network/orderer.go) with the stream that it closes: the
    envelopes that [Broadcast] wrote and that are still on their way, the orderer
    at the other end, and the goroutine that reads the replies and logs those
    that are not a success.  [Submitter.Close] (network/submitter.go) closes all
    orderers in parallel.

    The orderer is any server that answers each envelope once: with which status
    is up to it, as is the order of the answers while it has several envelopes
    at hand ([may_answer] and [window]); that of the test network ([Broadcast]
    of fabrictest/orderer.go) has one at a time and answers each with a success.
    gRPC is a parameter through its documented behaviour: a stream delivers in
    order what was written, a half-closed stream ends at the server when
    everything was delivered, the client sees the end after the replies, and
    cancelling or breaking a stream drops what was not delivered.

    The theorems: a [Close] that did not run into its timeout, on a stream that
    did not break, lost nothing: the orderer has answered every envelope that
    was written, and every rejection was logged; while the orderer answers
    envelopes such a [Close] can always complete; and the error of
    [Submitter.Close] does not depend on the order in which the orderers
    finish. *)

From S2P Require Import Prelude Blocks Status Proto.

(** The server: the envelopes that it received and has not decided on, its
    decisions so far, and the replies that it has yet to send for them. *)
Record server := MkServer {
  sv_pending : list Envelope;
  sv_decided : list (Envelope * Z);
  sv_owed : list Z;
  sv_running : bool }.

(** [Close]: not called, called and in front of [CloseSend], waiting for the
    reader, in front of the cancel, or returned; with whether it timed out. *)
Inductive close_pc :=
  | CloseIdle
  | AtCloseSend
  | AtWait
  | AtCancel (timedOut : bool)
  | CloseReturned (timedOut : bool).

Record link := MkLink {
  (** Everything that [Broadcast] wrote. *)
  lk_sent : list Envelope;
  (** What was written and not yet received by the server. *)
  lk_wire : list Envelope;
  lk_halfClosed : bool;
  lk_server : server;
  (** The status of the replies on their way back, and of those that were logged. *)
  lk_replies : list Z;
  lk_log : list Z;
  (** The reader of the replies has returned. *)
  lk_done : bool;
  lk_broken : bool;
  lk_cancelled : bool;
  lk_close : close_pc }.

Definition new_link : link := MkLink [] [] false (MkServer [] [] [] true) [] [] false false false CloseIdle.

(** Updates of the two ends. *)
Definition at_server (wire : list Envelope) (sv : server) (replies : list Z) (l : link) : link :=
  MkLink (lk_sent l) wire (lk_halfClosed l) sv replies (lk_log l) (lk_done l) (lk_broken l) (lk_cancelled l) (lk_close l).

Definition at_close (pc : close_pc) (halfClosed : bool) (l : link) : link :=
  MkLink (lk_sent l) (lk_wire l) halfClosed (lk_server l) (lk_replies l) (lk_log l) (lk_done l) (lk_broken l)
    (lk_cancelled l) pc.

(** The reader returns: it cancels the context of the stream, then closes [done]. *)
Definition reader_done (l : link) : link :=
  MkLink (lk_sent l) [] (lk_halfClosed l) (lk_server l) (lk_replies l) (lk_log l) true (lk_broken l) true (lk_close l).

(** [stream.Send(env)] that returned nil; [Broadcast] refuses after [closed] was
    set. *)
Definition write (env : Envelope) (l : link) : link :=
  MkLink (lk_sent l ++ [env]) (lk_wire l ++ [env]) (lk_halfClosed l) (lk_server l) (lk_replies l) (lk_log l)
    (lk_done l) (lk_broken l) (lk_cancelled l) (lk_close l).

Definition break (l : link) : link :=
  MkLink (lk_sent l) [] (lk_halfClosed l) (lk_server l) (lk_replies l) (lk_log l) (lk_done l) true
    (lk_cancelled l) (lk_close l).

Definition cancel (timedOut : bool) (l : link) : link :=
  MkLink (lk_sent l) [] (lk_halfClosed l) (lk_server l) (lk_replies l) (lk_log l) (lk_done l) (lk_broken l)
    true (CloseReturned timedOut).

(** The stream carries data. *)
Definition up (l : link) : Prop := lk_broken l = false ∧ lk_cancelled l = false.

(** Steps of the server. *)
Definition received (env : Envelope) (sv : server) : server :=
  MkServer (sv_pending sv ++ [env]) (sv_decided sv) (sv_owed sv) true.

Definition decided (pending : list Envelope) (env : Envelope) (st : Z) (sv : server) : server :=
  MkServer pending (sv_decided sv ++ [(env, st)]) (sv_owed sv ++ [st]) true.

Definition replied (owed : list Z) (sv : server) : server := MkServer (sv_pending sv) (sv_decided sv) owed true.

Definition server_returned (sv : server) : server := MkServer (sv_pending sv) (sv_decided sv) (sv_owed sv) false.

Section Link.
Context (Status_SUCCESS : Z).
(** The status that the orderer may answer an envelope with, and the number of
    envelopes that it has at hand at most. *)
Context (may_answer : Envelope → Z → Prop) (window : nat).

(** The envelopes that were answered with a success. *)
Definition accepted (l : link) : list Envelope :=
  (filter (λ d, d.2 = Status_SUCCESS) (sv_decided (lk_server l))).*1.

(** The statuses that the reader logs. *)
Definition rejections (sts : list Z) : list Z := filter (λ st, st ≠ Status_SUCCESS) sts.

(** The body of the loop that reads the replies. *)
Definition read_reply (st : Z) (replies : list Z) (l : link) : link :=
  MkLink (lk_sent l) (lk_wire l) (lk_halfClosed l) (lk_server l) replies
    (if decide (st ≠ Status_SUCCESS) then lk_log l ++ [st] else lk_log l) (lk_done l) (lk_broken l) (lk_cancelled l)
    (lk_close l).

(** One step of the client, of the server or of the network. *)
Inductive link_step : link → link → Prop :=
  | ls_write env l : lk_close l = CloseIdle → lk_done l = false → link_step l (write env l)
  | ls_recv env rest l : up l → sv_running (lk_server l) = true →
      (length (sv_pending (lk_server l)) + length (sv_owed (lk_server l)) < window)%nat → lk_wire l = env :: rest →
      link_step l (at_server rest (received env (lk_server l)) (lk_replies l) l)
  | ls_decide p1 env p2 st l : sv_running (lk_server l) = true → sv_pending (lk_server l) = p1 ++ env :: p2 →
      may_answer env st →
      link_step l (at_server (lk_wire l) (decided (p1 ++ p2) env st (lk_server l)) (lk_replies l) l)
  | ls_reply o1 st o2 l : up l → sv_running (lk_server l) = true → sv_owed (lk_server l) = o1 ++ st :: o2 →
      link_step l (at_server (lk_wire l) (replied (o1 ++ o2) (lk_server l)) (lk_replies l ++ [st]) l)
  | ls_eof l : up l → sv_running (lk_server l) = true → sv_pending (lk_server l) = [] → sv_owed (lk_server l) = [] →
      lk_wire l = [] → lk_halfClosed l = true →
      link_step l (at_server [] (server_returned (lk_server l)) (lk_replies l) l)
  | ls_server_error l : ¬ up l → sv_running (lk_server l) = true →
      link_step l (at_server (lk_wire l) (server_returned (lk_server l)) (lk_replies l) l)
  | ls_read st rest l : lk_done l = false → lk_replies l = st :: rest → link_step l (read_reply st rest l)
  | ls_read_end l : up l → lk_replies l = [] → sv_running (lk_server l) = false → link_step l (reader_done l)
  | ls_read_error l : ¬ up l → link_step l (reader_done l)
  | ls_break l : link_step l (break l)
  | ls_close l : lk_close l = CloseIdle → link_step l (at_close AtCloseSend (lk_halfClosed l) l)
  | ls_closeSend l : lk_close l = AtCloseSend → link_step l (at_close AtWait true l)
  | ls_closeSend_error l : lk_close l = AtCloseSend → lk_broken l = true →
      link_step l (at_close (AtCancel false) (lk_halfClosed l) l)
  | ls_answered l : lk_close l = AtWait → lk_done l = true → link_step l (at_close (AtCancel false) (lk_halfClosed l) l)
  | ls_timeout l : lk_close l = AtWait → link_step l (at_close (AtCancel true) (lk_halfClosed l) l)
  | ls_cancel timedOut l : lk_close l = AtCancel timedOut → link_step l (cancel timedOut l).

(** ** The invariant *)

(** The same elements; in the same order where the orderer takes one envelope at
    a time. *)
Definition same {A} (l1 l2 : list A) : Prop := l1 ≡ₚ l2 ∧ (window = 1%nat → l1 = l2).

Lemma same_trans {A} (l1 l2 l3 : list A) : same l1 l2 → same l2 l3 → same l1 l3.
Proof. intros [H1 E1] [H2 E2]. split; [by rewrite H1|]. intros Hw. by rewrite E1, E2. Qed.

Lemma same_app_r {A} (l1 l2 l : list A) : same l1 l2 → same (l1 ++ l) (l2 ++ l).
Proof. intros [H1 E1]. split; [by rewrite H1|]. intros Hw. by rewrite E1. Qed.

(** Taking an element out of a list of at most [window]. *)
Lemma same_middle {A} (l1 : list A) x l2 : (length (l1 ++ x :: l2) ≤ window)%nat → same (l1 ++ x :: l2) (x :: l1 ++ l2).
Proof.
  intros Hlen. split; [by rewrite Permutation_middle|]. intros Hw. rewrite length_app in Hlen. simpl in Hlen.
  destruct l1 as [|y l1]; [done|]. simpl in Hlen. lia.
Qed.

Lemma rejections_app l1 l2 : rejections (l1 ++ l2) = rejections l1 ++ rejections l2.
Proof. apply filter_app. Qed.

Definition close_started (l : link) : bool :=
  match lk_close l with CloseIdle | AtCloseSend => false | _ => true end.

(** Everything that was written has been answered, the answers have been read,
    and the server is gone. *)
Record settled (l : link) : Prop := {
  st_sent : same (lk_sent l) (sv_decided (lk_server l)).*1;
  st_gone : sv_running (lk_server l) = false;
  st_owed : sv_owed (lk_server l) = [];
  st_read : lk_replies l = [] }.

(** The server side on its own. *)
Record server_inv (l : link) : Prop := {
  vi_room : (length (sv_pending (lk_server l)) + length (sv_owed (lk_server l)) ≤ window)%nat;
  vi_answers : Forall (λ d, may_answer d.1 d.2) (sv_decided (lk_server l));
  vi_log : same (rejections (sv_decided (lk_server l)).*2)
    (lk_log l ++ rejections (lk_replies l) ++ rejections (sv_owed (lk_server l))) }.

Record link_inv (l : link) : Prop := {
  ki_server : server_inv l;
  ki_flow : lk_cancelled l = false →
    same (lk_sent l) ((sv_decided (lk_server l)).*1 ++ sv_pending (lk_server l) ++ lk_wire l);
  ki_half : lk_halfClosed l = true → close_started l = true;
  ki_wait : lk_close l = AtWait → lk_halfClosed l = true;
  ki_returned : lk_cancelled l = false → sv_running (lk_server l) = false →
    sv_pending (lk_server l) = [] ∧ sv_owed (lk_server l) = [] ∧ lk_wire l = [] ∧ lk_halfClosed l = true;
  ki_stopped : lk_done l = true → lk_cancelled l = true;
  ki_cancelled : lk_cancelled l = true → lk_done l = true ∨ ∃ t, lk_close l = CloseReturned t;
  ki_done : lk_done l = true → (∀ t, lk_close l ≠ CloseReturned t) → settled l ∧ close_started l = true;
  ki_answered : lk_close l = AtCancel false ∨ lk_close l = CloseReturned false → settled l }.

Lemma link_step_broken l l' : link_step l l' → lk_broken l = true → lk_broken l' = true.
Proof. by destruct 1. Qed.

(** The steps of the server and of the reader keep room, answers and log. *)
Lemma server_inv_step l l' : link_step l l' → server_inv l → server_inv l'.
Proof.
  intros Hs [Hroom Hans Hlog]. destruct Hs as [|env rest l _ _ Hlt _|p1 env p2 st l _ Hp Hmay|o1 st o2 l _ _ Ho| | |st rest l _ Hr| | | | | | | | |];
    try (split; assumption); split; simpl; try done; rewrite ?length_app; simpl.
  - lia.
  - rewrite Hp, !length_app in Hroom. simpl in Hroom. lia.
  - by apply Forall_app_2; [|constructor].
  - rewrite fmap_app, !rejections_app, !(assoc_L (++)). apply same_app_r. by rewrite <- !(assoc_L (++)).
  - rewrite Ho, !length_app in Hroom. simpl in Hroom. lia.
  - eapply same_trans; [exact Hlog|]. rewrite Ho, (rejections_app (lk_replies l)), <- (assoc_L (++)).
    split; [|intros Hw].
    + do 2 f_equiv. rewrite <- rejections_app. unfold rejections. by rewrite <- Permutation_middle.
    + destruct (same_middle o1 st o2) as [_ E]; [rewrite <- Ho; lia|]. rewrite (E Hw).
      replace (st :: o1 ++ o2) with ([st] ++ o1 ++ o2) by done. by rewrite rejections_app.
  - eapply same_trans; [exact Hlog|]. rewrite Hr. unfold rejections at 1. rewrite filter_cons.
    destruct (decide (st ≠ Status_SUCCESS)) as [Hn|Hn]; [|done]. by rewrite <- !(assoc_L (++)).
Qed.

(** Where the stream is not settled, neither reader nor [Close] got an answer. *)
Lemma not_settled l : link_inv l → ¬ settled l →
  lk_close l ≠ AtCancel false ∧ lk_close l ≠ CloseReturned false ∧
  (lk_done l = true → ∃ t, lk_close l = CloseReturned t).
Proof.
  intros Hinv Hst. split_and!.
  - intros Hc. by apply Hst, (ki_answered _ Hinv); left.
  - intros Hc. by apply Hst, (ki_answered _ Hinv); right.
  - intros Hd. destruct (lk_close l) as [| | | |t] eqn:E; [..|by exists t];
      by destruct Hst; apply (ki_done _ Hinv Hd); rewrite E.
Qed.

(** A step of the server keeps the invariant if it keeps the flow. *)
Lemma at_server_inv l wire sv replies : link_inv l → sv_running (lk_server l) = true →
  server_inv (at_server wire sv replies l) →
  (lk_cancelled l = false → same (lk_sent l) ((sv_decided sv).*1 ++ sv_pending sv ++ wire)) →
  (lk_cancelled l = false → sv_running sv = false →
     sv_pending sv = [] ∧ sv_owed sv = [] ∧ wire = [] ∧ lk_halfClosed l = true) →
  link_inv (at_server wire sv replies l).
Proof.
  intros Hinv Hsv Hserver Hflow Hret. destruct (not_settled l Hinv) as (Hn1 & Hn2 & Hd); [intros Hs; apply st_gone in Hs; congruence|].
  split; simpl; try done; try apply Hinv.
  - intros Hdn Hne. destruct (Hd Hdn) as [t ?]. by destruct (Hne t).
  - by intros [?|?].
Qed.

(** A step of [Close] before its cancel. *)
Lemma at_close_inv l pc half : link_inv l → (∀ t, lk_close l ≠ CloseReturned t) → (∀ t, pc ≠ CloseReturned t) →
  (half = true → close_started (at_close pc half l) = true) → (lk_halfClosed l = true → half = true) →
  (close_started l = true → close_started (at_close pc half l) = true) → (pc = AtCancel false → settled l) →
  (pc = AtWait → half = true) → link_inv (at_close pc half l).
Proof.
  intros Hinv Hl Hpc Hhalf Hkeep Hst Hset Hwait. split; simpl; try done; try apply Hinv.
  - by destruct (ki_server _ Hinv).
  - intros Hca Hsv. destruct (ki_returned _ Hinv Hca Hsv) as (? & ? & ? & ?). auto.
  - intros Hca. destruct (ki_cancelled _ Hinv Hca) as [?|[t ?]]; [by left|by destruct (Hl t)].
  - intros Hd _. destruct (ki_done _ Hinv Hd Hl) as [[] ?]. split; [by split|auto].
  - intros [Hp|?]; [destruct (Hset Hp); by split|by destruct (Hpc false)].
Qed.

(** A write, while the stream is open. *)
Lemma written_inv env l : link_inv l → server_inv (write env l) → lk_close l = CloseIdle → lk_done l = false →
  link_inv (write env l).
Proof.
  intros Hinv Hserver Hc Hd. split; simpl; try done; try apply Hinv; try congruence.
  - intros Hca. eapply same_trans; [apply same_app_r, (ki_flow _ Hinv Hca)|]. by rewrite <- !(assoc_L (++)).
  - intros Hca Hsv. destruct (ki_returned _ Hinv Hca Hsv) as (_ & _ & _ & Hh%(ki_half _ Hinv)).
    unfold close_started in Hh. by rewrite Hc in Hh.
  - rewrite Hc. by intros [|].
Qed.

(** A reply that is read leaves only the log changed. *)
Lemma read_reply_inv st rest l : link_inv l → server_inv (read_reply st rest l) → lk_done l = false →
  lk_replies l = st :: rest → link_inv (read_reply st rest l).
Proof.
  intros Hinv Hserver Hd Hr. split; simpl; try done; try apply Hinv; try congruence.
  intros Ha. apply (ki_answered _ Hinv) in Ha as [_ _ _ Hrd]. congruence.
Qed.

(** The invariant holds as long as the stream has not broken. *)
Lemma link_step_inv l l' : link_step l l' → lk_broken l' = false → link_inv l → link_inv l'.
Proof.
  intros Hs Hb Hinv. pose proof (server_inv_step l l' Hs (ki_server _ Hinv)) as Hserver.
  pose proof (vi_room _ (ki_server _ Hinv)) as Hroom. pose proof (ki_flow _ Hinv) as Hflow.
  destruct Hs as [env l Hc Hd|env rest l [_ Hu] Hsv _ Hw|p1 env p2 st l Hsv Hp Hmay|o1 st o2 l [_ Hu] Hsv Ho
    |l [_ Hu] Hsv Hp Ho Hw Hh|l Hup Hsv|st rest l Hd Hr|l [_ Hu] Hn Hsv|l Hup|l|l Hc|l Hc|l Hc Hbr|l Hc Hd|l Hc|t l Hc];
    simpl in Hb; try done; try congruence.
  - by apply written_inv.
  - apply at_server_inv; [done..| |done]. intros Hca. simpl. eapply same_trans; [exact (Hflow Hca)|].
    rewrite Hw. by rewrite <- (assoc_L (++) (sv_pending _)).
  - apply at_server_inv; [done..| |done]. intros Hca. simpl. eapply same_trans; [exact (Hflow Hca)|].
    destruct (same_middle p1 env p2) as [Hperm Heq]; [rewrite <- Hp; lia|]. rewrite Hp, fmap_app, <- (assoc_L (++) (_.*1)). simpl.
    split; [by rewrite Hperm|intros Ew; by rewrite (Heq Ew)].
  - by apply at_server_inv.
  - apply at_server_inv; [done..| |done]. simpl. intros Hca. specialize (Hflow Hca). by rewrite Hw in Hflow.
  - assert (lk_cancelled l = true) as Hca by (destruct (lk_cancelled l) eqn:E; [done|by destruct Hup]).
    apply at_server_inv; [done..|congruence|congruence].
  - by apply read_reply_inv.
  - destruct (ki_returned _ Hinv Hu Hsv) as (Hp & Ho & Hw & Hh). specialize (Hflow Hu).
    rewrite Hp, Hw, !app_nil_r in Hflow. split; simpl; try done; try apply Hinv; [by left|].
    intros _ _. split; [by split|]. by apply (ki_half _ Hinv).
  - assert (lk_cancelled l = true) as Hca by (destruct (lk_cancelled l) eqn:E; [done|by destruct Hup]).
    split; simpl; try done; try apply Hinv; [by left|..].
    + intros _ Hne. destruct (ki_cancelled _ Hinv Hca) as [Hd|[t ?]]; [|by destruct (Hne t)].
      destruct (ki_done _ Hinv Hd Hne) as [[] ?]. split; [by split|done].
    + intros Ha. by destruct (ki_answered _ Hinv Ha).
  - apply at_close_inv; simpl; try done; try congruence.
    + intros Hh%(ki_half _ Hinv). unfold close_started in Hh. by rewrite Hc in Hh.
    + unfold close_started. by rewrite Hc.
  - apply at_close_inv; simpl; try done; congruence.
  - apply at_close_inv; simpl; try done; try congruence. intros _. by apply (ki_done _ Hinv); [|congruence].
  - apply at_close_inv; simpl; try done; congruence.
  - split; simpl; try done; [right; by exists t| |].
    + intros _ Hne. by destruct (Hne t).
    + intros [?|[= ->]]; [done|]. destruct (ki_answered _ Hinv) as []; [by left|]. by split.
Qed.

Lemma new_link_inv : link_inv new_link.
Proof. split; simpl; try done; [by split; simpl; [lia|..]|by intros [|]]. Qed.

Lemma link_reachable_inv l : rtc link_step new_link l → lk_broken l = false → link_inv l.
Proof.
  refine (rtc_ind_r (λ l, lk_broken l = false → link_inv l) new_link (λ _, new_link_inv) _ l).
  intros l1 l2 _ Hs IH Hb. eapply link_step_inv; [done..|]. apply IH.
  destruct (lk_broken l1) eqn:E; [|done]. apply link_step_broken in Hs; congruence.
Qed.

(** On a settled stream, every envelope has its answer, and every rejection was logged. *)
Record answered (l : link) : Prop := {
  an_each : (sv_decided (lk_server l)).*1 ≡ₚ lk_sent l;
  an_status : Forall (λ d, may_answer d.1 d.2) (sv_decided (lk_server l));
  an_logged : lk_log l ≡ₚ rejections (sv_decided (lk_server l)).*2;
  an_order : window = 1%nat →
    (sv_decided (lk_server l)).*1 = lk_sent l ∧ lk_log l = rejections (sv_decided (lk_server l)).*2 }.

Lemma settled_answered l : link_inv l → settled l → answered l.
Proof.
  intros Hinv [[Hp He] _ Ho Hr]. destruct (vi_log _ (ki_server _ Hinv)) as [Hlp Hle]. rewrite Ho, Hr, !app_nil_r in *.
  split; [done|apply (ki_server _ Hinv)|done|]. intros Hw. by rewrite (He Hw), (Hle Hw).
Qed.

(** Of an orderer that rejects nothing, what it decided on is what it accepted. *)
Lemma accepts_all l : (∀ env st, may_answer env st → st = Status_SUCCESS) →
  Forall (λ d, may_answer d.1 d.2) (sv_decided (lk_server l)) →
  accepted l = (sv_decided (lk_server l)).*1 ∧ rejections (sv_decided (lk_server l)).*2 = [].
Proof.
  intros Hall Hans. unfold accepted, rejections. induction Hans as [|[env st] ds Hd _ [IH1 IH2]]; [done|].
  simpl in *. rewrite !filter_cons. apply Hall in Hd as ->. rewrite decide_True, decide_False by naive_solver.
  split; [cbn; by f_equal|exact IH2].
Qed.

(** C19: [Close] loses nothing: when it returned because the orderer ended the stream, and not
    because of its timeout, on a stream that did not break, then the orderer has answered
    exactly the envelopes that [Broadcast] wrote, each once, also those that were still on
    their way when [Close] was called, and each answer that is not a success was logged.
    An orderer that takes one envelope at a time and answers each with a success, as that
    of the test network, has then accepted them all, in the order in which they were
    written. *)
Theorem Close_loses_nothing (l : link) :
  rtc link_step new_link l → lk_broken l = false → lk_close l = CloseReturned false →
  answered l ∧
  (window = 1%nat → (∀ env st, may_answer env st → st = Status_SUCCESS) → accepted l = lk_sent l ∧ lk_log l = []).
Proof.
  intros Hr Hb Hc. pose proof (link_reachable_inv l Hr Hb) as Hinv.
  pose proof (settled_answered l Hinv (ki_answered _ Hinv (or_intror Hc))) as Ha. split; [done|].
  intros Hw Hall. destruct (accepts_all l Hall (an_status _ Ha)) as [-> Hrej]. destruct (an_order _ Ha Hw) as [-> ->]. done.
Qed.

(** ** Closing completes *)

Context (answers : ∀ env, ∃ st, may_answer env st) (room : (0 < window)%nat).

Lemma at_server_eta l : at_server (lk_wire l) (lk_server l) (lk_replies l) l = l.
Proof. by destruct l. Qed.

(** What the server has begun, it can finish. *)
Lemma pay l wire sv replies owed : up l → sv_running sv = true →
  rtc link_step (at_server wire (MkServer (sv_pending sv) (sv_decided sv) owed true) replies l)
    (at_server wire (MkServer (sv_pending sv) (sv_decided sv) [] true) (replies ++ owed) l).
Proof.
  intros Hup Hsv. revert replies. induction owed as [|st owed IH]; intros replies; [by rewrite app_nil_r|].
  eapply rtc_l; [by eapply (ls_reply [] st owed)|]. simpl. specialize (IH (replies ++ [st])).
  by rewrite <- (assoc_L (++)) in IH.
Qed.

Lemma answer_pending l wire ds replies pending owed : up l →
  ∃ ds' replies', rtc link_step (at_server wire (MkServer pending ds owed true) replies l)
    (at_server wire (MkServer [] ds' [] true) replies' l).
Proof.
  intros Hup. revert ds owed. induction pending as [|env pending IH]; intros ds owed.
  - exists ds. eexists. by apply (pay l wire (MkServer [] ds owed true)).
  - destruct (answers env) as [st Hst]. destruct (IH (ds ++ [(env, st)]) (owed ++ [st])) as (ds' & replies' & Hr).
    exists ds', replies'. eapply rtc_l; [by apply (ls_decide [] env pending st)|]. exact Hr.
Qed.

Lemma drain l wire ds replies : up l →
  ∃ ds' replies', rtc link_step (at_server wire (MkServer [] ds [] true) replies l)
    (at_server [] (MkServer [] ds' [] true) replies' l).
Proof.
  intros Hup. revert ds replies. induction wire as [|env wire IH]; intros ds replies; [by exists ds, replies|].
  destruct (answer_pending l wire ds replies [env] [] Hup) as (ds1 & replies1 & H1).
  destruct (IH ds1 replies1) as (ds' & replies' & H2). exists ds', replies'.
  eapply rtc_l; [by eapply (ls_recv env wire)|]. etrans; [exact H1|exact H2].
Qed.

Lemma read_all l replies : lk_done l = false → lk_replies l = replies →
  ∃ log, rtc link_step l (MkLink (lk_sent l) (lk_wire l) (lk_halfClosed l) (lk_server l) [] log
    (lk_done l) (lk_broken l) (lk_cancelled l) (lk_close l)).
Proof.
  revert l. induction replies as [|st replies IH]; intros l Hd Hr.
  - exists (lk_log l). rewrite <- Hr. by destruct l.
  - destruct (IH (read_reply st replies l)) as [log Hl]; [done..|]. exists log.
    eapply rtc_l; [by apply (ls_read st replies)|]. exact Hl.
Qed.

(** A server that runs comes to the end of the stream. *)
Lemma server_ends l : up l → lk_halfClosed l = true → sv_running (lk_server l) = true →
  ∃ ds replies, rtc link_step l (at_server [] (MkServer [] ds [] false) replies l).
Proof.
  intros Hup Hh Hsv.
  destruct (answer_pending l (lk_wire l) (sv_decided (lk_server l)) (lk_replies l) (sv_pending (lk_server l))
    (sv_owed (lk_server l)) Hup) as (ds1 & replies1 & H1).
  destruct (drain l (lk_wire l) ds1 replies1 Hup) as (ds & replies & H2). exists ds, replies.
  etrans; [|etrans; [exact H2|apply rtc_once; by apply (ls_eof (at_server [] (MkServer [] ds [] true) replies l))]].
  etrans; [|exact H1]. rewrite <- Hsv. rewrite <- (at_server_eta l) at 1. by destruct (lk_server l).
Qed.

(** C20: [Close] can always complete: while the stream has not broken, and the orderer answers
    every envelope in some way, a [Close] that waits can come to its end without its
    timeout, whatever is still on its way, and then everything that was written has been
    answered, and the rejections were logged. *)
Theorem Close_can_complete (l : link) :
  rtc link_step new_link l → up l → lk_close l = AtWait →
  ∃ l', rtc link_step l l' ∧ lk_close l' = CloseReturned false ∧ lk_broken l' = false ∧ lk_sent l' = lk_sent l ∧
    answered l'.
Proof.
  intros Hr [Hb Hu] Hc. pose proof (link_reachable_inv l Hr Hb) as Hinv.
  pose proof (ki_wait _ Hinv Hc) as Hhalf.
  assert (∃ ds replies, rtc link_step l (at_server [] (MkServer [] ds [] false) replies l)) as (ds & replies & Hret).
  { destruct (sv_running (lk_server l)) eqn:Hsv; [by apply server_ends|].
    destruct (ki_returned _ Hinv Hu Hsv) as (Hp & Ho & Hw & _). exists (sv_decided (lk_server l)), (lk_replies l).
    rewrite <- (at_server_eta l) at 1. rewrite Hw. destruct (lk_server l). simpl in *. by subst. }
  assert (lk_done l = false) as Hd.
  { destruct (lk_done l) eqn:Hd; [|done]. apply (ki_stopped _ Hinv) in Hd. congruence. }
  destruct (read_all (at_server [] (MkServer [] ds [] false) replies l) replies) as [log Hlog]; [done..|].
  set (l1 := MkLink _ _ _ _ _ log _ _ _ _) in Hlog.
  set (l' := cancel false (at_close (AtCancel false) (lk_halfClosed l) (reader_done l1))).
  assert (rtc link_step l l') as Hend.
  { etrans; [exact Hret|]. etrans; [exact Hlog|]. eapply rtc_l; [by apply (ls_read_end l1)|].
    eapply rtc_l; [by apply (ls_answered (reader_done l1))|]. apply rtc_once. by apply ls_cancel. }
  exists l'. split_and!; [done..|]. assert (link_inv l') as Hinv' by (apply link_reachable_inv; [by etrans|done]).
  apply settled_answered; [done|]. apply (ki_answered _ Hinv'). by right.
Qed.

End Link.

(** ** Closing all orderers *)

(** [errors.Join]: nil when no error is, and otherwise the errors that are not
    nil, in their order. *)
Definition Join (errs : list (option error)) : option (list error) :=
  match omap id errs with
  | [] => None
  | es => Some es
  end.

(** [Submitter.Close]: every goroutine stores its error at its own index;
    [finished] is the order in which they do. *)
Definition store_error (closes errs : list (option error)) (i : nat) : list (option error) :=
  <[i := mjoin (closes !! i)]> errs.

Definition close_orderers (closes : list (option error)) (finished : list nat) : list (option error) :=
  foldl (store_error closes) (replicate (length closes) None) finished.

Definition submitter_Close (closes : list (option error)) (finished : list nat) : option (list error) :=
  Join (close_orderers closes finished).

Lemma close_all_lookup closes finished errs i : length errs = length closes →
  foldl (store_error closes) errs finished !! i =
    if decide (i ∈ finished ∧ i < length closes)%nat then closes !! i else errs !! i.
Proof.
  revert errs. induction finished as [|j finished IH]; intros errs Hlen; cbn [foldl].
  { rewrite decide_False; [done|]. by intros [?%elem_of_nil _]. }
  rewrite IH by (unfold store_error; by rewrite length_insert). unfold store_error. destruct (decide (i = j)) as [->|Hne].
  - assert (j ∈ j :: finished) as Hj by by left.
    destruct (decide (j < length closes)%nat) as [Hlt|Hge].
    + rewrite list_lookup_insert_eq by lia. destruct (lookup_lt_is_Some_2 closes j Hlt) as [e ->]. simpl.
      by repeat case_decide; naive_solver.
    + rewrite list_insert_ge by lia. repeat case_decide; naive_solver.
  - rewrite list_lookup_insert_ne by done. do 2 case_decide; try done; set_solver.
Qed.

(** The error of [Submitter.Close] is that of closing the orderers one after the other,
    in whatever order the goroutines finish. *)
Theorem submitter_Close_order_independent (closes : list (option error)) (finished : list nat) :
  finished ≡ₚ seq 0 (length closes) → submitter_Close closes finished = Join closes.
Proof.
  intros Hp. unfold submitter_Close, close_orderers. f_equal. apply list_eq. intros i.
  rewrite close_all_lookup by apply length_replicate. destruct (decide (i < length closes)%nat) as [Hlt|Hge].
  - rewrite decide_True; [done|]. split; [|done]. rewrite Hp. apply elem_of_seq. lia.
  - rewrite decide_False by naive_solver. rewrite !lookup_ge_None_2; [done|lia|]. rewrite length_replicate. lia.
Qed.

(** ** An example

    Two envelopes are on their way when [Close] is called; the orderer has both
    at hand, rejects the second and then accepts the first. *)

Definition example_env : Envelope := MkEnvelope [Byte.x01] [].
Definition example_forged : Envelope := MkEnvelope [Byte.x02] [].

Definition example_answer (env : Envelope) (st : Z) : Prop := st = if decide (env_Payload env = [Byte.x01]) then 200 else 403.

Definition example_waiting : link :=
  MkLink [example_env; example_forged] [example_env; example_forged] true (MkServer [] [] [] true) [] [] false false false
    AtWait.

Lemma example_waiting_reached : rtc (link_step 200 example_answer 2) new_link example_waiting.
Proof.
  eapply rtc_l; [by apply (ls_write _ _ _ example_env)|]. eapply rtc_l; [by apply (ls_write _ _ _ example_forged)|].
  eapply rtc_l; [by apply ls_close|]. apply rtc_once. exact (ls_closeSend _ _ _
    (MkLink [example_env; example_forged] [example_env; example_forged] false (MkServer [] [] [] true) [] [] false false false
      AtCloseSend) eq_refl).
Qed.

Definition example_decided : list (Envelope * Z) := [(example_forged, 403); (example_env, 200)].

Definition example_closed : link :=
  MkLink [example_env; example_forged] [] true (MkServer [] example_decided [] false) [] [403] true false true
    (CloseReturned false).

Lemma example_closed_reached : rtc (link_step 200 example_answer 2) new_link example_closed.
Proof.
  etrans; [exact example_waiting_reached|].
  eapply rtc_l; [by apply (ls_recv _ _ _ example_env [example_forged]); simpl; try lia|].
  eapply rtc_l; [by apply (ls_recv _ _ _ example_forged []); simpl; try lia|].
  eapply rtc_l; [by apply (ls_decide _ _ _ [example_env] example_forged [] 403)|].
  eapply rtc_l; [by apply (ls_decide _ _ _ [] example_env [] 200)|].
  eapply rtc_l; [by apply (ls_reply _ _ _ [] 403 [200])|]. eapply rtc_l; [by apply (ls_reply _ _ _ [] 200 [])|].
  eapply rtc_l; [by apply ls_eof|]. eapply rtc_l; [by apply (ls_read _ _ _ 403 [200])|].
  eapply rtc_l; [by apply (ls_read _ _ _ 200 [])|].
  eapply rtc_l; [by apply ls_read_end|]. eapply rtc_l; [by apply ls_answered|].
  apply rtc_once. exact (ls_cancel _ _ _ false
    (MkLink [example_env; example_forged] [] true (MkServer [] example_decided [] false) [] [403] true false true
      (AtCancel false)) eq_refl).
Qed.

Lemma Close_loses_nothing_witness : example_decided.*1 ≡ₚ [example_env; example_forged] ∧ lk_log example_closed ≡ₚ [403].
Proof.
  destruct (Close_loses_nothing 200 example_answer 2 example_closed example_closed_reached eq_refl eq_refl) as [Ha _].
  exact (conj (an_each _ _ _ _ Ha) (an_logged _ _ _ _ Ha)).
Defined.

Lemma Close_can_complete_witness :
  ∃ l', rtc (link_step 200 example_answer 2) example_waiting l' ∧ lk_close l' = CloseReturned false ∧
    (sv_decided (lk_server l')).*1 ≡ₚ [example_env; example_forged].
Proof.
  destruct (Close_can_complete 200 example_answer 2 (λ env, ex_intro _ _ eq_refl) ltac:(lia) example_waiting
    example_waiting_reached (conj eq_refl eq_refl) eq_refl) as (l' & Hr & Hc & _ & Hs & Ha).
  exists l'. split; [exact Hr|]. split; [exact Hc|]. pose proof (an_each _ _ _ _ Ha) as He. by rewrite Hs in He.
Defined.
