(* ===== verification/Query.v ===== *)
(** * Asking peers

    The proposals a client sends to Fabric peers (network/fabric/peer.go): the
    endorsement of a transaction by several peers in parallel, and the height
    query through the system chaincode "qscc", with the peer of the test network
    that answers it (fabrictest/peer.go, fabrictest/signer.go).

    A peer is the function from a signed proposal to its reply.  The goroutines
    of [ExecuteTransaction] each write their own slot of the result slice; the
    order in which they finish is a parameter.  The theorems: that order does
    not matter, and the height a client gets is the height of the ledger. *)

From S2P Require Import Prelude Blocks Status Mvcc WorldState Proto Endorse Parser Packager Finality Delivery Ledger.

(** [common.BlockchainInfo]. *)
Record BlockchainInfo := MkBlockchainInfo {
  bi_Height : Z;
  bi_CurrentBlockHash : bytes;
  bi_PreviousBlockHash : bytes }.

Section Client.
Context `{Protos} `{HeaderTypes} `{Protoutil} `{Codec BlockchainInfo}.

(** [p.endorserClient.ProcessProposal]: the reply or the error of the call. *)
Definition Endorser : Type := SignedProposal → result ProposalResponse.

Definition peer_ProcessProposal (endorser : Endorser) (signedProp : SignedProposal) : result ProposalResponse :=
  resp ← wrapf "peer: %w" [] (endorser signedProp);
  match pr_Response resp with
  | None => Fail (Errorf "peer returned nil response" [])
  | Some _ => Ret resp
  end.

Definition GetChainInfo : bytes := bytes_of_string "GetChainInfo".

Definition fabric_BlockHeight (endorser : Endorser) (rand : result bytes) (signer : Signer) (channel : string) : outcome Z :=
  prop ← NewSignedProposal rand signer channel "qscc" [GetChainInfo; bytes_of_string channel];
  res ← lift (peer_ProcessProposal endorser prop);
  resp ← deref (pr_Response res);
  info ← lift (Unmarshal (M := BlockchainInfo) (resp_Payload resp));
  Ok (bi_Height info).

(** The slots after the goroutines finished in the order [finished]. *)
Definition gather (endorsers : list Endorser) (prop : SignedProposal) (finished : list nat)
    : list (option (result ProposalResponse)) :=
  foldl (λ results i,
      match endorsers !! i with
      | Some p => <[i := Some (peer_ProcessProposal p prop)]> results
      | None => results
      end) (replicate (length endorsers) None) finished.

(** The loop over the slots; an empty slot is the zero [result], a nil response
    without an error. *)
Fixpoint collect (results : list (option (result ProposalResponse))) : result (list (option ProposalResponse)) :=
  match results with
  | [] => Ret []
  | Some (Fail err) :: _ => Fail (Wrapf "peer endorsement: %w" [] err)
  | Some (Ret resp) :: results' => rs ← collect results'; Ret (Some resp :: rs)
  | None :: results' => rs ← collect results'; Ret (None :: rs)
  end.

Definition ExecuteTransaction (endorsers : list Endorser) (finished : list nat) (rand : result bytes) (signer : Signer)
    (channel namespace : string) (args : list bytes) : outcome (Proposal * list (option ProposalResponse)) :=
  prop ← NewSignedProposal rand signer channel namespace args;
  responses ← lift (collect (gather endorsers prop finished));
  proposal ← lift (Unmarshal (M := Proposal) (sp_ProposalBytes prop));
  Ok (proposal, responses).

(** [NewEndorsementClient] refuses an empty configuration and a missing signer. *)
Definition NewEndorsementClient {Conf C : Type} (dial : Conf → result C) (signer : option Signer) (config : list Conf)
    : result (list C) :=
  match config with
  | [] => Fail (Errorf "no peers configured" [])
  | _ =>
      mapM (λ c, match signer with
                 | None => Fail (Errorf "signer is required" [])
                 | Some _ => dial c
                 end) config
  end.

Definition close_all (closes : list (result unit)) : list error :=
  omap (λ r, match r with Fail err => Some err | Ret _ => None end) closes.

End Client.

(** ** The peer of the test network *)

Definition testSigner : Signer :=
  MkSigner (λ _, Ret (bytes_of_string "sig")) (Ret (bytes_of_string "identity")).

Section Server.
Context `{Protos} `{HeaderTypes} `{Protoutil} `{Codec BlockchainInfo}.
Context (BlockHeaderHash : BlockHeader → bytes).
Context (GetBytesProposalResponsePayload : bytes → Response → bytes → bytes → ChaincodeID → result bytes).

Definition GetBlockchainInfo (l : ledger) : outcome BlockchainInfo :=
  '(h, currentHash, previousHash) ← chainInfo BlockHeaderHash l;
  Ok (MkBlockchainInfo h currentHash previousHash).

(** The height that a Fabric-X client asks the sidecar for. *)
Definition fabricx_BlockHeight (info : result BlockchainInfo) : result Z := bi_Height <$> info.

Definition testPeer_ProcessProposal (now : Z) (l : ledger) (prop : SignedProposal) : outcome ProposalResponse :=
  inv ← lift (ParseProposal prop (Some now));
  match inv_Args inv with
  | arg :: _ =>
      if negb (bool_decide (inv_Namespace inv = "qscc")) || negb (bool_decide (string_of_bytes arg = "GetChainInfo"))
      then Err (Errorf "only qscc GetChainInfo is supported in fabrictest" [])
      else
        info ← GetBlockchainInfo l;
        payload ← MarshalOrPanic info;
        fabric_Endorse GetBytesProposalResponsePayload testSigner inv
          {| res_RWS := MkRWS [] []; res_Event := []; res_EventName := ""; res_Status := 200;
             res_Message := ""; res_Payload := payload |}
  | [] => Err (Errorf "only qscc GetChainInfo is supported in fabrictest" [])
  end.

(** The server behind gRPC: an error travels to the client. *)
Definition served (now : Z) (l : ledger) : Endorser := λ prop,
  match testPeer_ProcessProposal now l prop with
  | Ok resp => Ret resp
  | Err err => Fail err
  | Panic => Fail (Errorf "transport is closing" [])
  end.

End Server.

(** ** Parallel endorsement *)

Section Parallel.
Context `{Protos} `{HeaderTypes} `{Protoutil}.

(** The same calls one after the other, up to the first error. *)
Definition execute_sequentially (endorsers : list Endorser) (rand : result bytes) (signer : Signer)
    (channel namespace : string) (args : list bytes) : outcome (Proposal * list (option ProposalResponse)) :=
  prop ← NewSignedProposal rand signer channel namespace args;
  responses ← lift (mapM (M := result) (λ p, wrapf "peer endorsement: %w" [] (peer_ProcessProposal p prop)) endorsers);
  proposal ← lift (Unmarshal (M := Proposal) (sp_ProposalBytes prop));
  Ok (proposal, (Some <$> responses : list (option ProposalResponse))).

Lemma gather_lookup endorsers prop finished i p :
  endorsers !! i = Some p → i ∈ finished →
  gather endorsers prop finished !! i = Some (Some (peer_ProcessProposal p prop)).
Proof.
  intros Hi. unfold gather.
  assert (∀ acc, length acc = length endorsers → (i ∈ finished ∨ acc !! i = Some (Some (peer_ProcessProposal p prop))) →
    foldl (λ results j, match endorsers !! j with
      | Some q => <[j := Some (peer_ProcessProposal q prop)]> results
      | None => results end) acc finished !! i = Some (Some (peer_ProcessProposal p prop))) as Hgen.
  { induction finished as [|j finished IH]; intros acc Hlen Hacc; simpl; [by destruct Hacc as [?%elem_of_nil|]|].
    assert (i < length acc)%nat as Hlt by (rewrite Hlen; by eapply lookup_lt_Some).
    destruct (decide (j = i)) as [->|Hj].
    - rewrite Hi. apply IH; [by rewrite length_insert|]. right. by apply list_lookup_insert_eq.
    - destruct (endorsers !! j); apply IH; rewrite ?length_insert, ?list_lookup_insert_ne by done;
        [done|set_solver|done|set_solver]. }
  intros Hin. apply Hgen; [apply length_replicate|by left].
Qed.

Lemma gather_length endorsers prop finished : length (gather endorsers prop finished) = length endorsers.
Proof.
  unfold gather. rewrite <- (length_replicate (length endorsers) (None (A := result ProposalResponse))) at 2.
  generalize (replicate (length endorsers) (None (A := result ProposalResponse))).
  induction finished as [|j finished IH]; intros acc; simpl; [done|]. rewrite IH.
  destruct (endorsers !! j); [apply length_insert|done].
Qed.

Lemma gather_all endorsers prop finished :
  finished ≡ₚ seq 0 (length endorsers) →
  gather endorsers prop finished = (λ p, Some (peer_ProcessProposal p prop)) <$> endorsers.
Proof.
  intros Hf. apply list_eq_same_length with (length endorsers); [by rewrite length_fmap|apply gather_length|].
  intros i x y Hlt Hx Hy. rewrite list_lookup_fmap in Hy. apply fmap_Some in Hy as (p & Hp & ->).
  rewrite (gather_lookup _ _ _ _ _ Hp) in Hx; [congruence|]. rewrite Hf. apply elem_of_seq. lia.
Qed.

Lemma collect_all endorsers prop :
  collect ((λ p, Some (peer_ProcessProposal p prop)) <$> endorsers) =
  (responses ← mapM (M := result) (λ p, wrapf "peer endorsement: %w" [] (peer_ProcessProposal p prop)) endorsers;
   Ret (Some <$> responses : list (option ProposalResponse))).
Proof.
  induction endorsers as [|p endorsers IH]; csimpl; [done|].
  destruct (peer_ProcessProposal p prop) as [resp|err]; simpl; [|done]. rewrite IH.
  by destruct (mapM _ endorsers).
Qed.

(** C39: the endorsement of a transaction does not depend on which peer answers first: in
    whatever order the goroutines finish, [ExecuteTransaction] returns what calling
    the peers one after the other returns, the responses in the order of the
    configuration or the error of the first peer in it that failed. *)
Theorem ExecuteTransaction_order_independent endorsers finished rand signer channel namespace args :
  finished ≡ₚ seq 0 (length endorsers) →
  ExecuteTransaction endorsers finished rand signer channel namespace args =
  execute_sequentially endorsers rand signer channel namespace args.
Proof.
  intros Hf. unfold ExecuteTransaction, execute_sequentially.
  destruct (NewSignedProposal rand signer channel namespace args) as [prop|err|]; simpl; [|done..].
  rewrite (gather_all _ _ _ Hf), collect_all.
  by destruct (mapM _ endorsers).
Qed.

End Parallel.

(** ** The height query *)

Section Height.
Context `{Protos} `{!ProtosLaws} `{HeaderTypes} `{PU : Protoutil} `{!ProtoutilLaws} `{Codec BlockchainInfo} `{!CodecLaws BlockchainInfo}.
Context (BlockHeaderHash : BlockHeader → bytes) (ComputeBlockDataHash : list bytes → bytes).
Context (GetBytesProposalResponsePayload : bytes → Response → bytes → bytes → ChaincodeID → result bytes).

(** The parts of a proposal that [NewSignedProposal] built. *)
Lemma NewSignedProposal_parses rand nonce signer creator channel namespace args sp now :
  rand = Ret nonce → nonce ≠ [] → Serialize signer = Ret creator → creator ≠ [] → args ≠ [] →
  (∀ hdr payload, ∃ hash, GetProposalHash1 hdr payload = Ret hash) →
  NewSignedProposal rand signer channel namespace args = Ok sp →
  (∀ prop hdr chdr ts, Unmarshal (sp_ProposalBytes sp) = Ret prop → Unmarshal (prop_Header prop) = Ret hdr →
     Unmarshal (hdr_ChannelHeader hdr) = Ret chdr → chdr_Timestamp chdr = Some ts → outside_window ts (Some now) = false) →
  ∃ inv, ParseProposal sp (Some now) = Ret inv ∧ inv_Namespace inv = namespace ∧ inv_Args inv = args.
Proof.
  intros -> Hne Hs Hce Hae Hhash. unfold NewSignedProposal. rewrite Hs. simpl.
  rewrite lift_bind_ok. intros (p & Hp & Hsp) Hwin.
  assert (GetSignedProposal p signer = Ret sp) as Hsp'. { by destruct (GetSignedProposal p signer); simplify_eq/=. }
  apply signed_carries in Hsp'.
  destruct (proposal_carries _ _ _ _ _ _ _ Hp) as (hdr & chdr & ts & cpp & Hh & Hc & Ht & Hch & Htx & He & Hts & Hsh & Hcpp & Hcis).
  destruct (Hhash hdr (prop_Payload p)) as [hash Hhash'].
  pose proof (Hwin p hdr chdr ts Hsp' Hh Hc Hts) as Hw.
  unfold ParseProposal. rewrite Hsp'. simpl. rewrite Hh. simpl. rewrite Hc. simpl.
  rewrite Ht, Z.eqb_refl, He, Hts. simpl. simpl in Hw. rewrite Hw, Hsh. simpl.
  destruct nonce as [|n0 nonce]; [done|]. destruct creator as [|c0 creator]; [done|]. simpl.
  rewrite bool_decide_false by (intros Hx; by apply Hx). rewrite Hcpp. simpl. rewrite Hcis. simpl.
  destruct args as [|a0 args]; [done|]. rewrite Hhash'. simpl. by eexists.
Qed.

Lemma fabric_Endorse_payload signer inv payload :
  (∀ m : KVRWSet, encodable m) → (∀ m : TxReadWriteSet, encodable m) →
  (∀ hash r results event ccid, ∃ b, GetBytesProposalResponsePayload hash r results event ccid = Ret b) →
  (∀ m, ∃ sig, Sign signer m = Ret sig) → (∃ id, Serialize signer = Ret id) →
  ∃ resp r, fabric_Endorse GetBytesProposalResponsePayload signer inv
      {| res_RWS := MkRWS [] []; res_Event := []; res_EventName := ""; res_Status := 200;
         res_Message := ""; res_Payload := payload |} = Ok resp ∧ pr_Response resp = Some r ∧ resp_Payload r = payload.
Proof.
  intros Hkv Htx Hprp Hsign [id Hid]. unfold fabric_Endorse, marshalRWSet, MarshalOrPanic. simpl.
  destruct (Hkv (MkKVRWSet [] [])) as [b Hb]. rewrite Hb. simpl.
  destruct (Htx (MkTxRWS [MkPbNsRWS (inv_Namespace inv) b])) as [b' Hb']. rewrite Hb'. simpl.
  destruct (Hprp (inv_ProposalHash inv) (MkResponse 200 "" payload) b' []
    (MkChaincodeID (inv_Namespace inv) (inv_ChaincodeVersion inv))) as [prp Hp]. rewrite Hp. simpl.
  rewrite Hid. simpl. destruct (Hsign (prp ++ id)) as [sig Hsig]. rewrite Hsig. simpl. by eexists _, _.
Qed.

(** The height a Fabric client reads is the height of the ledger: when the proposal can
    be built and signed, the clocks of client and peer are within five minutes, and
    the messages encode, [BlockHeight] against the peer of the test network returns
    the number of blocks of its ledger. *)
Theorem fabric_BlockHeight_of_ledger rand nonce signer creator channel now l sp :
  BlockMetadataIndex_TRANSACTIONS_FILTER = 2%nat →
  ledger_reachable BlockHeaderHash ComputeBlockDataHash l →
  rand = Ret nonce → nonce ≠ [] → Serialize signer = Ret creator → creator ≠ [] →
  (∀ hdr payload, ∃ hash, GetProposalHash1 hdr payload = Ret hash) →
  (∀ hash r results event ccid, ∃ b, GetBytesProposalResponsePayload hash r results event ccid = Ret b) →
  (∀ m : KVRWSet, encodable m) → (∀ m : TxReadWriteSet, encodable m) → (∀ m : BlockchainInfo, encodable m) →
  NewSignedProposal rand signer channel "qscc" [GetChainInfo; bytes_of_string channel] = Ok sp →
  (∀ prop hdr chdr ts, Unmarshal (sp_ProposalBytes sp) = Ret prop → Unmarshal (prop_Header prop) = Ret hdr →
     Unmarshal (hdr_ChannelHeader hdr) = Ret chdr → chdr_Timestamp chdr = Some ts → outside_window ts (Some now) = false) →
  fabric_BlockHeight (served BlockHeaderHash GetBytesProposalResponsePayload now l) rand signer channel = Ok (height l).
Proof.
  intros Hidx Hl Hr Hne Hs Hce Hhash Hprp Hkv Htx Hbi Hsp Hwin.
  destruct (NewSignedProposal_parses rand nonce signer creator channel "qscc" [GetChainInfo; bytes_of_string channel] sp now)
    as (inv & Hinv & Hns & Hargs); [done..|].
  destruct (reachable_chained _ _ Hidx l Hl) as [Hnil Hall].
  assert (∃ h, tip_header l = Ok h) as [h Hh].
  { unfold tip_header. destruct (last (ld_blocks l)) as [tip|] eqn:El; [|by apply last_None in El].
    rewrite last_lookup in El. destruct (Hall _ _ El) as (h & ? & ? & (Hh & _) & _). simpl. rewrite Hh. by exists h. }
  destruct (Hbi (MkBlockchainInfo (height l) (BlockHeaderHash h) (bh_PreviousHash h))) as [payload Hpay].
  destruct (fabric_Endorse_payload testSigner inv payload) as (resp & r & Hend & Hresp & Hpl); [done..|by eexists|by eexists|].
  unfold fabric_BlockHeight. rewrite Hsp. simpl.
  assert (served BlockHeaderHash GetBytesProposalResponsePayload now l sp = Ret resp) as Hserved.
  { unfold served, testPeer_ProcessProposal. rewrite Hinv. simpl. rewrite Hargs, Hns. unfold GetChainInfo.
    rewrite string_of_bytes_of_string. simpl. unfold GetBlockchainInfo, chainInfo. rewrite Hh. simpl.
    unfold MarshalOrPanic. rewrite Hpay. simpl. by rewrite Hend. }
  unfold peer_ProcessProposal. rewrite Hserved. simpl. rewrite Hresp. simpl. rewrite Hresp. simpl.
  by rewrite Hpl, (Unmarshal_Marshal _ _ Hpay).
Qed.

End Height.

(** ** Concrete queries *)

Module Queries.
Import Wire Wired.

#[export] Instance BlockchainInfo_eq_dec : EqDecision BlockchainInfo.
Proof. solve_decision. Defined.
#[export] Instance BlockchainInfo_countable : Countable BlockchainInfo.
Proof.
  by_fields (λ m, (bi_Height m, bi_CurrentBlockHash m, bi_PreviousBlockHash m)) (λ '(x0, x1, x2), MkBlockchainInfo x0 x1 x2).
Defined.
#[export] Instance info_codec : Codec BlockchainInfo := codec BlockchainInfo.
#[export] Instance info_codec_laws : CodecLaws BlockchainInfo := codec_laws BlockchainInfo.

(** The clock of the peer is that of the client. *)
Definition clock : Z := unix_nanos Wired.now.

Definition args : list bytes := [GetChainInfo; bytes_of_string "ch"].

(** The proposal that the client builds. *)
Definition proposal : Proposal :=
  MkProposal (wire (MkHeader (wire (MkChannelHeader HeaderType_ENDORSER_TRANSACTION 0 (Some Wired.now) "ch" "nonceorg1" 0 [] []))
                             (wire (MkSignatureHeader (bytes_of_string "org1") (bytes_of_string "nonce")))))
             (wire (MkCPP (wire (invocation_spec (MkChaincodeID "qscc" "") args)))) [].

Definition signed : SignedProposal := MkSignedProposal (wire proposal) (wire proposal).

Lemma signed_built : NewSignedProposal Wired.nonce Wired.client "ch" "qscc" args = Ok signed.
Proof. reflexivity. Qed.

Lemma signed_in_window prop hdr chdr ts :
  Unmarshal (sp_ProposalBytes signed) = Ret prop → Unmarshal (prop_Header prop) = Ret hdr →
  Unmarshal (hdr_ChannelHeader hdr) = Ret chdr → chdr_Timestamp chdr = Some ts →
  outside_window ts (Some clock) = false.
Proof.
  unfold signed. simpl. rewrite unwire. intros [= <-]. unfold proposal. simpl. rewrite unwire. intros [= <-]. simpl.
  rewrite unwire. intros [= <-]. simpl. intros [= <-]. reflexivity.
Qed.

Definition response_payload (hash : bytes) (r : Response) (results event : bytes) (ccid : ChaincodeID) : result bytes :=
  Ret results.

(** Two peers that answer with their name. *)
Definition endorser (name : string) : Endorser :=
  λ _, Ret (MkProposalResponse 1 (Some (MkResponse 200 name [])) [] None).

End Queries.

Import Wire Wired Queries.

Lemma ExecuteTransaction_order_independent_witness :
  ExecuteTransaction [endorser "p1"; endorser "p2"] [1; 0]%nat Wired.nonce Wired.client "ch" "qscc" Queries.args =
  execute_sequentially [endorser "p1"; endorser "p2"] Wired.nonce Wired.client "ch" "qscc" Queries.args.
Proof.
  apply ExecuteTransaction_order_independent. apply Permutation_swap.
Defined.

Lemma fabric_BlockHeight_of_ledger_witness :
  ∃ l, ledger_reachable Ledgers.hash Ledgers.data_hash l ∧
    fabric_BlockHeight (served Ledgers.hash response_payload clock l) Wired.nonce Wired.client "ch" = Ok (height l).
Proof.
  destruct Ledgers.grown_reachable as [g Hg]. eexists. split; [exact Hg|].
  apply (fabric_BlockHeight_of_ledger Ledgers.hash Ledgers.data_hash response_payload Wired.nonce
    (bytes_of_string "nonce") Wired.client (bytes_of_string "org1") "ch" clock _ signed);
    [reflexivity|exact Hg|reflexivity|discriminate|reflexivity|discriminate
    |intros; eexists; reflexivity|intros; eexists; reflexivity|intros; eexists; reflexivity|intros; eexists; reflexivity
    |intros; eexists; reflexivity|exact signed_built|exact signed_in_window].
Defined.
