(* ===== verification/TestPeer.v ===== *)
(** * The peer of the test network

    What fabrictest/peer.go does beside the queries (Query.v) and the filters of
    the event feed (Delivery.v): its calls that are not implemented, and the
    delivery of blocks to a subscriber that may be slow.

    The ledger hands a block to a subscriber only if there is room in its
    channel (fabrictest/ledger.go).  The theorems: whatever a subscriber is sent
    are blocks that the ledger committed, from the start block on and in the
    order of the commits, which is that of the chain unless the ledger is
    reverted; but a block that finds the channel full is never sent; and a client does not
    notice, because the world state (state/db.go) takes any later block and
    resumes behind it (network/synchronizer.go), so that the writes of the block
    are missing for good. *)

From S2P Require Import Prelude Blocks Status Mvcc WorldState WorldStateTheory Proto Endorse Parser Synchronizer Finality Delivery Ledger Subscription Query.

(** ** The peer *)

Section Peer.
Context `{Protos}.
Context (GetBytesProposalResponsePayload : bytes → Response → bytes → bytes → ChaincodeID → result bytes).

Record testPeer := MkTestPeer {
  tp_ledger : ledger;
  tp_builder : Invocation → ExecutionResult → outcome ProposalResponse }.

Definition newTestPeer (l : ledger) : testPeer :=
  MkTestPeer l (fabric_Endorse GetBytesProposalResponsePayload testSigner).

End Peer.

(** The calls that a client cannot use. *)
Definition DeliverFiltered : result unit := Fail (Errorf "not implemented" []).
Definition DeliverWithPrivateData : result unit := Fail (Errorf "not implemented" []).
Definition orderer_Deliver : result unit := Fail (Errorf "not implemented" []).

Definition GetBlockByNumber (number : Z) : result RawBlock :=
  Fail (Errorf "GetBlockByNumber not implemented in fabrictest" []).
Definition GetBlockByTxID (txID : string) : result RawBlock :=
  Fail (Errorf "GetBlockByTxID not implemented in fabrictest" []).
Definition GetTxByID (txID : string) : result Envelope :=
  Fail (Errorf "GetTxByID not implemented in fabrictest" []).

(** ** Serving a subscriber *)

Lemma sublist_filter_mono {A} (P : A → Prop) `{∀ x, Decision (P x)} l1 l2 :
  l1 `sublist_of` l2 → filter P l1 `sublist_of` filter P l2.
Proof.
  induction 1 as [|x l1 l2 _ IH|x l1 l2 _ IH]; [done|..]; rewrite !filter_cons; case_decide; try done; by constructor.
Qed.

(** Subsequences of increasing numbers increase. *)
Lemma sublist_sorted l1 l2 : l1 `sublist_of` l2 → StronglySorted Z.lt l2 → StronglySorted Z.lt l1.
Proof.
  induction 1 as [|x l1 l2 Hsub IH|x l1 l2 _ IH]; [done|..]; intros [Hs Hall]%StronglySorted_inv; [|by apply IH].
  constructor; [by apply IH|]. rewrite Forall_forall in *. intros y Hy. apply Hall. by eapply elem_of_sublist.
Qed.

Lemma seqZ_sorted a (n : nat) : StronglySorted Z.lt (seqZ a (Z.of_nat n)).
Proof.
  revert a. induction n as [|n IH]; intros a; [constructor|]. rewrite seqZ_cons by lia.
  replace (Z.pred (Z.of_nat (S n))) with (Z.of_nat n) by lia. constructor; [apply IH|].
  apply Forall_forall. intros x Hx%elem_of_seqZ. lia.
Qed.

Section Serving.
Context `{Protos} `{HeaderTypes}.
Context (BlockHeaderHash : BlockHeader → bytes) (ComputeBlockDataHash : list bytes → bytes).

Definition block_number (b : RawBlock) : Z := from_option bh_Number 0 (rb_Header b).

(** The loops of [Deliver] send the blocks from the start on. *)
Definition from_start (start : Z) (b : RawBlock) : Prop :=
  ∃ h, rb_Header b = Some h ∧ start ≤ bh_Number h.

#[export] Instance from_start_dec start b : Decision (from_start start b).
Proof.
  refine (match rb_Header b as o return rb_Header b = o → _ with
    | Some h => λ E, if decide (start ≤ bh_Number h) then left _ else right _
    | None => λ E, right _ end eq_refl).
  - by exists h.
  - intros (h' & Hh & ?). rewrite E in Hh. by injection Hh as <-.
  - intros (h' & Hh & ?). congruence.
Defined.

Lemma send_blocks_filter start blocks sent :
  (∀ b, b ∈ blocks → is_Some (rb_Header b)) →
  send_blocks (λ _, None) start blocks sent = Ok (sent ++ filter (from_start start) blocks, None).
Proof.
  revert sent. induction blocks as [|b blocks IH]; intros sent Hh; simpl; [by rewrite app_nil_r|].
  destruct (Hh b) as [h Eh]; [by left|]. rewrite Eh. simpl.
  assert (∀ b', b' ∈ blocks → is_Some (rb_Header b')) as Hh' by (intros b' ?; apply Hh; by right).
  rewrite filter_cons. destruct (_ <? _) eqn:E; bool_to_prop.
  - rewrite decide_False; [by apply IH|]. intros (h' & Hh0 & ?). rewrite Eh in Hh0. injection Hh0 as <-. lia.
  - rewrite decide_True; [|by exists h]. rewrite IH by done. by rewrite <- (assoc_L (++)).
Qed.

Context (filter_index : BlockMetadataIndex_TRANSACTIONS_FILTER = 2%nat).

(** Without a revert, the numbers of what was committed increase. *)
Lemma committed_sorted l u : ledger_reachable BlockHeaderHash ComputeBlockDataHash l →
  rtc (sub_step BlockHeaderHash ComputeBlockDataHash (length (ld_subs l))) (new_subscriber l) u → sb_reverts u = 0%nat →
  StronglySorted Z.lt (block_number <$> (subscribe l).1 ++ sb_committed u).
Proof.
  intros Hr Hu Hz. pose proof (sub_reachable_inv _ _ filter_index l u Hr Hu) as Hinv.
  destruct (su_chain _ _ _ _ _ Hinv Hz) as [rest Hrest].
  assert (block_number <$> (subscribe l).1 ++ sb_committed u = seqZ 0 (Z.of_nat (length ((subscribe l).1 ++ sb_committed u)))) as ->.
  { apply list_eq_same_length with (length ((subscribe l).1 ++ sb_committed u)).
    - rewrite length_seqZ. lia.
    - by rewrite length_fmap.
    - intros j x y Hj Hx Hy. apply lookup_seqZ in Hy as [-> _]. rewrite list_lookup_fmap in Hx. apply fmap_Some in Hx as (b & Hb & ->).
      destruct (chain_number _ _ filter_index (sb_ledger u) j b (su_ledger _ _ _ _ _ Hinv)) as (h & Hh & Hn).
      { rewrite Hrest. by apply lookup_app_l_Some. }
      unfold block_number. rewrite Hh. simpl. lia. }
  apply seqZ_sorted.
Qed.

Context `{Codec SeekInfo} `{!ProtosLaws} `{!CodecLaws SeekInfo} `{SeekTypes}.

(** C15: however slow a subscriber is, and whatever the ledger does meanwhile, what the peer
    sends it, out of its snapshot and then out of its channel, is a subsequence of the
    blocks from the start block on that the ledger had and then committed.  As long as
    the ledger is not reverted, those blocks are the chain, so the subscriber gets no
    block twice and none out of order. *)
Theorem deliveries_in_order l u now rand signer chan start env :
  ledger_reachable BlockHeaderHash ComputeBlockDataHash l →
  let existing := (subscribe l).1 in
  rtc (sub_step BlockHeaderHash ComputeBlockDataHash (length (ld_subs l))) (new_subscriber l) u →
  newDeliverSeekInfo now rand signer chan start = Ok env →
  ∃ sent, Deliver (λ _, None) env existing (sb_taken u) = Ok (sent, None) ∧
    sent `sublist_of` filter (from_start start) (existing ++ sb_committed u) ∧
    (sb_reverts u = 0%nat → existing ++ sb_committed u `prefix_of` ld_blocks (sb_ledger u) ∧
      StronglySorted Z.lt (block_number <$> sent)).
Proof.
  intros Hr existing Hu Henv. pose proof (sub_reachable_inv _ _ filter_index l u Hr Hu) as Hinv.
  assert (existing ++ sb_taken u `sublist_of` existing ++ sb_committed u) as Hall.
  { apply sublist_app; [done|]. etrans; [|apply (su_order _ _ _ _ _ Hinv)]. by apply sublist_inserts_r. }
  exists (filter (from_start start) (existing ++ sb_taken u)). split_and!.
  - unfold Deliver. rewrite (newDeliverSeekInfo_start _ _ _ _ _ _ Henv). simpl. rewrite <- send_blocks_app.
    rewrite send_blocks_filter; [done|]. intros b Hin. pose proof (su_headers _ _ _ _ _ Hinv) as Hh.
    rewrite Forall_forall in Hh. apply Hh. by eapply elem_of_sublist.
  - by apply sublist_filter_mono.
  - intros Hz. split; [by apply (su_chain _ _ _ _ _ Hinv)|].
    eapply sublist_sorted; [|apply (committed_sorted l u Hr Hu Hz)]. apply fmap_sublist.
    etrans; [apply sublist_filter|exact Hall].
Qed.

(** A block that finds the channel of a subscriber full is never sent to it: as long as
    the ledger is not reverted, nothing that the subscriber got and nothing in its
    channel has the number of the block. *)
Theorem full_channel_misses_block l u m b :
  ledger_reachable BlockHeaderHash ComputeBlockDataHash l →
  rtc (sub_step BlockHeaderHash ComputeBlockDataHash (length (ld_subs l))) (new_subscriber l) u →
  sb_reverts u = 0%nat → m ∈ sb_missed u → b ∈ (subscribe l).1 ++ sb_taken u ++ sb_queue u →
  block_number b ≠ block_number m.
Proof.
  intros Hr Hu Hz Hm Hb Heq. pose proof (sub_reachable_inv _ _ filter_index l u Hr Hu) as Hinv.
  pose proof (committed_sorted l u Hr Hu Hz) as Hs. apply StronglySorted_lt_NoDup in Hs.
  rewrite <- (su_all _ _ _ _ _ Hinv), (assoc_L (++)), fmap_app in Hs. apply NoDup_app in Hs as (_ & Hdisj & _).
  eapply (Hdisj (block_number b)); [by apply list_elem_of_fmap_2|]. rewrite Heq. by apply list_elem_of_fmap_2.
Qed.

End Serving.

(** ** A client that missed a block *)

(** The world state does not notice a gap: where the block [m] is missing, the next
    block that arrives is applied, and whatever is handled afterwards, the height from
    which the client resumes is behind [m] and no history has a write of it. *)
Theorem gap_never_filled db blocks m b s :
  history db blocks s → (∀ b', b' ∈ blocks → blk_Number b' < m) →
  block_wf b → 0 ≤ m < blk_Number b → blk_Number b < 2 ^ 63 →
  ∃ t, UpdateWorldState no_faults db b s = (t, Ret tt) ∧ history db (blocks ++ [b]) t ∧
    ∀ more t', history db (blocks ++ [b] ++ more) t' →
      (∃ h, BlockNumber None db t' = Ret h ∧ (h < 2 ^ 63 → m < resume h)) ∧
      ∀ ns key, ∃ recs, GetHistory None None db ns key t' = Ret recs ∧ ∀ r, r ∈ recs → rec_BlockNum r ≠ m.
Proof.
  intros Hh Hlt Hwf Hm Hmax.
  destruct (UpdateWorldState_progress db blocks b s Hh Hwf) as (t & Hup & _ & Ht); [|done|].
  { intros b' Hb'. specialize (Hlt b' Hb'). lia. }
  exists t. split_and!; [done..|]. intros more t' Hinv%history_invariant.
  assert (∀ b', b' ∈ more → blk_Number b < blk_Number b') as Hmore.
  { pose proof (hi_sorted _ _ _ Hinv) as Hs. rewrite !fmap_app in Hs. apply StronglySorted_app in Hs as (_ & _ & Hs).
    intros b' Hb'. apply StronglySorted_inv in Hs as [_ Hs]. rewrite Forall_forall in Hs. apply Hs.
    by apply list_elem_of_fmap_2. }
  split.
  - exists (chain_height (blocks ++ [b] ++ more)). split; [by apply BlockNumber_history|]. intros Hlast.
    assert (blk_Number b ≤ chain_height (blocks ++ [b] ++ more)) as Hge.
    { unfold chain_height in *. rewrite last_app in *. simpl in *. destruct more as [|x more'] using rev_ind; [simpl; lia|].
      clear IHmore'. rewrite app_comm_cons, last_snoc. specialize (Hmore x). set_solver by lia. }
    unfold resume, wrap_uint64. rewrite (proj2 (Z.ltb_lt _ _)) by lia. rewrite Z.mod_small by lia. lia.
  - intros ns key. eexists. split; [by apply GetHistory_history|].
    intros r (r0 & -> & Hr)%list_elem_of_fmap. simpl. apply elem_of_numbered in Hr as (r1 & v & Hr1 & -> & _). simpl.
    apply list_elem_of_filter in Hr1 as [_ (b0 & Hr1 & Hb0)%list_elem_of_bind].
    pose proof (block_rows_block (channel db) b0) as Hall. rewrite Forall_forall in Hall. rewrite (Hall r1 Hr1).
    apply elem_of_app in Hb0 as [Hb0|[->|Hb0]%elem_of_cons]; [specialize (Hlt b0 Hb0)| |specialize (Hmore b0 Hb0)]; lia.
Qed.

(** ** A concrete subscriber *)

Module Subscribers.
Import Wire Seeks.

#[local] Abbreviation cut l := ((process Ledgers.hash Ledgers.data_hash Ledgers.no_faults Ledgers.vdb
  (fabricx_Parse (H2 := committer_codes) Ledgers.hash 0)
  (fabricx_NewMVCCValidator (H := committer_codes) Ledgers.getter) [] l).1).

(** A batch without transactions always makes a block. *)
Lemma empty_batch_appends l : ledger_reachable Ledgers.hash Ledgers.data_hash l → ld_db l = None →
  ∃ fbl, cut l = append_block l fbl.
Proof.
  intros Hr Hdb. destruct (reachable_chained (H1 := headers) Ledgers.hash Ledgers.data_hash eq_refl l Hr) as [Hne Hall].
  destruct (last (ld_blocks l)) as [tip|] eqn:El; [|by apply last_None in El].
  pose proof El as El'. rewrite last_lookup in El'. destruct (Hall _ _ El') as (h & ? & ? & (Hh & _) & _).
  unfold process, prepare, next, tip_header. rewrite El. simpl. rewrite Hh. simpl. unfold commit. rewrite Hdb. by eexists.
Qed.

(** Blocks fill the channel of a subscriber that takes none. *)
Lemma fills l n : ledger_reachable Ledgers.hash Ledgers.data_hash l → ld_db l = None → (n ≤ sub_cap)%nat →
  ∃ u, rtc (sub_step Ledgers.hash Ledgers.data_hash (length (ld_subs l))) (new_subscriber l) u ∧
    ld_db (sb_ledger u) = None ∧ sb_open u = true ∧ sb_reverts u = 0%nat ∧ length (sb_queue u) = n.
Proof.
  intros Hr Hdb. induction n as [|n IH]; intros Hn; [exists (new_subscriber l); by split_and!|].
  destruct IH as (u & Hu & Hdb1 & Ho & Hz & Hlen); [lia|].
  pose proof (sub_reachable_inv (H1 := headers) _ _ eq_refl l u Hr Hu) as Hinv.
  destruct (empty_batch_appends (sb_ledger u) (su_ledger _ _ _ _ _ Hinv) Hdb1) as [fbl Hcut].
  eexists. split; [eapply rtc_r; [exact Hu|apply sub_process]|]. rewrite Hcut. unfold ledger_went. rewrite Ho. simpl.
  split_and!; [done..|]. rewrite list_lookup_fmap, (su_queue _ _ _ _ _ Hinv Ho). simpl. unfold notify.
  rewrite decide_True by lia. rewrite length_app. simpl. lia.
Qed.

(** So there are subscribers that miss a block. *)
Lemma overflow : ∃ l u, ledger_reachable Ledgers.hash Ledgers.data_hash l ∧
  rtc (sub_step Ledgers.hash Ledgers.data_hash (length (ld_subs l))) (new_subscriber l) u ∧
  sb_reverts u = 0%nat ∧ sb_missed u ≠ [].
Proof.
  destruct Ledgers.real_genesis as [g Hg]. set (l := newLedger g None).
  assert (ledger_reachable Ledgers.hash Ledgers.data_hash l) as Hr by (exists (0, []), g, None; split; [exact Hg|apply rtc_refl]).
  destruct (fills l sub_cap Hr eq_refl) as (u & Hu & Hdb & Ho & Hz & Hlen); [done|].
  pose proof (sub_reachable_inv (H1 := headers) _ _ eq_refl l u Hr Hu) as Hinv.
  destruct (empty_batch_appends (sb_ledger u) (su_ledger _ _ _ _ _ Hinv) Hdb) as [fbl Hcut].
  eexists l, _. split_and!; [done|eapply rtc_r; [exact Hu|apply sub_process]|..]; rewrite Hcut; unfold ledger_went;
    rewrite Ho; simpl; [done|]. rewrite decide_False by lia. rewrite drop_app_length. by destruct (sb_missed u).
Qed.

End Subscribers.

Import Wire Seeks.

Lemma deliveries_in_order_witness :
  ∃ l u env sent, sb_missed u ≠ [] ∧ Deliver (λ _, None) env (subscribe l).1 (sb_taken u) = Ok (sent, None) ∧
    sent `sublist_of` filter (from_start 1) ((subscribe l).1 ++ sb_committed u) ∧
    StronglySorted Z.lt (block_number <$> sent).
Proof.
  destruct Subscribers.overflow as (l & u & Hr & Hu & Hz & Hm). destruct seek_envelope as [env Henv].
  destruct (deliveries_in_order (H1 := headers) Ledgers.hash Ledgers.data_hash eq_refl l u _ _ _ _ 1 env Hr Hu Henv)
    as (sent & Hd & Hsub & Hrest).
  exists l, u, env, sent. exact (conj Hm (conj Hd (conj Hsub (proj2 (Hrest Hz))))).
Defined.
