(* ===== verification/Notify.v ===== *)
(** * The notification stream

    [Notify] of network/fabricx/peer.go with its two goroutines: the send loop
    that turns batches of transaction ids into subscription requests, and the
    receive loop that hands the events of a response to the processor.  Both
    report an error through [errCh], a channel of capacity one, and cancel the
    context that they share with [Notify].  A step of [notify_step] is one
    channel operation, one call on the stream, or one call of [cancel].

    [nt_offered], [nt_responses] and [nt_errs] record what came in on [txIDs],
    what the stream delivered and the errors that the loops ended with; the
    code does not read them.  The theorems: requests go out in the order of
    the batches, every response reaches the handlers, and an error that
    [Notify] returns is one that a loop reported; once its caller cancelled or a loop failed it
    can always return.  Three more record what the interleaving allows: the end
    of the stream alone never makes [Notify] return, an error can be lost to
    the cancellation that follows it, and the send loop can outlive [Notify]
    and take a batch with it.  The last section is the notifier that binds a
    processor to such a peer. *)

From S2P Require Import Prelude Blocks Status Finality.

Record NotificationRequest := MkNotificationRequest { nq_TxIds : list string; nq_Timeout : Z }.

(** The end of a loop: it holds its error, it has put it in [errCh] and not yet
    cancelled, or the goroutine is over. *)
Inductive ending :=
  | Posting (err : error)
  | Posted
  | Over.

Inductive send_pc :=
  | SendSelect
  | Sending (batch : list string)
  | SendEnd (e : ending).

Inductive recv_pc :=
  | RecvWait
  | RecvEnd (e : ending).

Section Notify.
Context `{CommitterCodes} {W : Type}.
Context (handlers : list (TxStatusHandler W)) (timeout : Z).

Record notify := MkNotify {
  nt_caller : bool;
  nt_ctx : bool;
  nt_errCh : option error;
  nt_txIDs : list (list string);
  nt_closed : bool;
  nt_sender : send_pc;
  nt_receiver : recv_pc;
  nt_sent : list NotificationRequest;
  nt_world : W;
  nt_result : option (option error);
  nt_offered : list (list string);
  nt_responses : list NotificationResponse;
  nt_errs : list error }.

Definition open_error (err : error) : error := Wrapf "open notification stream: %w" [] err.

(** [Notify] up to its select: [opened] is the answer of the service to
    [OpenNotificationStream]. *)
Definition notify_open (opened : result unit) (w : W) : notify :=
  match opened with
  | Fail err => MkNotify false false None [] false (SendEnd Over) (RecvEnd Over) [] w (Some (Some (open_error err))) [] [] []
  | Ret _ => MkNotify false false None [] false SendSelect RecvWait [] w None [] [] []
  end.

Definition set_ctx (caller : bool) (s : notify) : notify :=
  MkNotify caller true (nt_errCh s) (nt_txIDs s) (nt_closed s) (nt_sender s) (nt_receiver s) (nt_sent s) (nt_world s)
    (nt_result s) (nt_offered s) (nt_responses s) (nt_errs s).

(** A producer sends on, or closes, [txIDs]. *)
Definition offer (batch : list string) (s : notify) : notify :=
  MkNotify (nt_caller s) (nt_ctx s) (nt_errCh s) (nt_txIDs s ++ [batch]) (nt_closed s) (nt_sender s) (nt_receiver s)
    (nt_sent s) (nt_world s) (nt_result s) (nt_offered s ++ [batch]) (nt_responses s) (nt_errs s).

Definition close_txIDs (s : notify) : notify :=
  MkNotify (nt_caller s) (nt_ctx s) (nt_errCh s) (nt_txIDs s) true (nt_sender s) (nt_receiver s) (nt_sent s)
    (nt_world s) (nt_result s) (nt_offered s) (nt_responses s) (nt_errs s).

Definition sender_at (pc : send_pc) (s : notify) : notify :=
  MkNotify (nt_caller s) (nt_ctx s) (nt_errCh s) (nt_txIDs s) (nt_closed s) pc (nt_receiver s) (nt_sent s)
    (nt_world s) (nt_result s) (nt_offered s) (nt_responses s) (nt_errs s).

Definition receiver_to (pc : recv_pc) (s : notify) : notify :=
  MkNotify (nt_caller s) (nt_ctx s) (nt_errCh s) (nt_txIDs s) (nt_closed s) (nt_sender s) pc (nt_sent s)
    (nt_world s) (nt_result s) (nt_offered s) (nt_responses s) (nt_errs s).

Definition loop_failed (err : error) (s : notify) : notify :=
  MkNotify (nt_caller s) (nt_ctx s) (nt_errCh s) (nt_txIDs s) (nt_closed s) (nt_sender s) (nt_receiver s) (nt_sent s)
    (nt_world s) (nt_result s) (nt_offered s) (nt_responses s) (nt_errs s ++ [err]).

(** The send loop receives a batch; an empty one is skipped. *)
Definition take_batch (batch : list string) (rest : list (list string)) (s : notify) : notify :=
  MkNotify (nt_caller s) (nt_ctx s) (nt_errCh s) rest (nt_closed s)
    (if decide (length batch = 0%nat) then SendSelect else Sending batch) (nt_receiver s) (nt_sent s)
    (nt_world s) (nt_result s) (nt_offered s) (nt_responses s) (nt_errs s).

(** [stream.Send] succeeded. *)
Definition send_request (batch : list string) (s : notify) : notify :=
  MkNotify (nt_caller s) (nt_ctx s) (nt_errCh s) (nt_txIDs s) (nt_closed s) SendSelect (nt_receiver s)
    (nt_sent s ++ [MkNotificationRequest batch timeout])
    (nt_world s) (nt_result s) (nt_offered s) (nt_responses s) (nt_errs s).

(** The receive loop on one response; an error of the handlers is ignored. *)
Definition process_response (res : NotificationResponse) (w : W) : W :=
  let events := convertNotificationResponse res in
  if decide (0 < length events)%nat then fst (ProcessStatuses handlers events w) else w.

Definition receive_response (res : NotificationResponse) (s : notify) : notify :=
  MkNotify (nt_caller s) (nt_ctx s) (nt_errCh s) (nt_txIDs s) (nt_closed s) (nt_sender s) (nt_receiver s) (nt_sent s)
    (process_response res (nt_world s)) (nt_result s) (nt_offered s) (nt_responses s ++ [res]) (nt_errs s).

(** The select of a goroutine that ends with an error: it puts the error in
    [errCh] if there is room, and drops it otherwise. *)
Definition post (err : error) (s : notify) : notify * ending :=
  match nt_errCh s with
  | Some _ => (s, Over)
  | None =>
      (MkNotify (nt_caller s) (nt_ctx s) (Some err) (nt_txIDs s) (nt_closed s) (nt_sender s) (nt_receiver s) (nt_sent s)
         (nt_world s) (nt_result s) (nt_offered s) (nt_responses s) (nt_errs s), Posted)
  end.

(** [Notify] returns: the receive from [errCh] takes the error, and the
    deferred [cancel] runs. *)
Definition notify_return (r : option error) (s : notify) : notify :=
  MkNotify (nt_caller s) true (if r then None else nt_errCh s) (nt_txIDs s) (nt_closed s) (nt_sender s) (nt_receiver s)
    (nt_sent s) (nt_world s) (Some r) (nt_offered s) (nt_responses s) (nt_errs s).

Definition send_error (err : error) : error := Wrapf "send request: %w" [] err.
Definition recv_error (err : error) : error := Wrapf "recv: %w" [] err.

Inductive notify_step (s : notify) : notify → Prop :=
  | ns_offer batch : nt_closed s = false → notify_step s (offer batch s)
  | ns_close : notify_step s (close_txIDs s)
  | ns_caller : notify_step s (set_ctx true s)
  | ns_send_done : nt_sender s = SendSelect → nt_ctx s = true → notify_step s (sender_at (SendEnd Over) s)
  | ns_send_closed : nt_sender s = SendSelect → nt_txIDs s = [] → nt_closed s = true →
      notify_step s (sender_at (SendEnd Over) s)
  | ns_take batch rest : nt_sender s = SendSelect → nt_txIDs s = batch :: rest → notify_step s (take_batch batch rest s)
  | ns_send batch : nt_sender s = Sending batch → notify_step s (send_request batch s)
  | ns_send_error batch err : nt_sender s = Sending batch →
      notify_step s (loop_failed (send_error err) (sender_at (SendEnd (Posting (send_error err))) s))
  | ns_recv res : nt_receiver s = RecvWait → notify_step s (receive_response res s)
  | ns_recv_eof : nt_receiver s = RecvWait → notify_step s (receiver_to (RecvEnd Over) s)
  | ns_recv_cancelled : nt_receiver s = RecvWait → nt_ctx s = true → notify_step s (receiver_to (RecvEnd Over) s)
  | ns_recv_error err : nt_receiver s = RecvWait → nt_ctx s = false →
      notify_step s (loop_failed (recv_error err) (receiver_to (RecvEnd (Posting (recv_error err))) s))
  | ns_post_send err s' e : nt_sender s = SendEnd (Posting err) → post err s = (s', e) →
      notify_step s (sender_at (SendEnd e) s')
  | ns_post_recv err s' e : nt_receiver s = RecvEnd (Posting err) → post err s = (s', e) →
      notify_step s (receiver_to (RecvEnd e) s')
  | ns_cancel_send : nt_sender s = SendEnd Posted → notify_step s (sender_at (SendEnd Over) (set_ctx (nt_caller s) s))
  | ns_cancel_recv : nt_receiver s = RecvEnd Posted → notify_step s (receiver_to (RecvEnd Over) (set_ctx (nt_caller s) s))
  | ns_return_error err : nt_result s = None → nt_errCh s = Some err → notify_step s (notify_return (Some err) s)
  | ns_return : nt_result s = None → nt_ctx s = true → notify_step s (notify_return None s).

Definition notify_reachable (opened : result unit) (w : W) (s : notify) : Prop :=
  rtc notify_step (notify_open opened w) s.

(** ** The invariant *)

Definition nonempty : list (list string) → list (list string) := filter (λ batch, length batch ≠ 0%nat).

(** The batch that the send loop holds, or dropped when it ended. *)
Definition held (pc : send_pc) (lost : list (list string)) : Prop :=
  match pc with
  | SendSelect => lost = []
  | Sending batch => lost = [batch]
  | SendEnd _ => (length lost ≤ 1)%nat
  end.

Definition posting (s : notify) (err : error) : Prop :=
  nt_sender s = SendEnd (Posting err) ∨ nt_receiver s = RecvEnd (Posting err).

Record notify_inv (opened : result unit) (w : W) (s : notify) : Prop := {
  ni_world : nt_world s = foldl (λ w res, process_response res w) w (nt_responses s);
  ni_requests : ∃ lost, held (nt_sender s) lost ∧
    nonempty (nt_offered s) = (nq_TxIds <$> nt_sent s) ++ lost ++ nonempty (nt_txIDs s);
  ni_timeout : Forall (λ q, nq_Timeout q = timeout) (nt_sent s);
  ni_errCh : ∀ err, nt_errCh s = Some err → err ∈ nt_errs s;
  ni_posting : ∀ err, posting s err → err ∈ nt_errs s;
  ni_posted : nt_sender s = SendEnd Posted ∨ nt_receiver s = RecvEnd Posted → nt_errs s ≠ [];
  ni_ctx : nt_ctx s = true → nt_result s = None → nt_caller s = true ∨ nt_errs s ≠ [];
  ni_error : ∀ err, nt_result s = Some (Some err) →
    err ∈ nt_errs s ∨ ∃ cause, opened = Fail cause ∧ err = open_error cause;
  ni_nil : nt_result s = Some None → nt_caller s = true ∨ nt_errs s ≠ [];
  ni_live : nt_result s = None → nt_caller s = true ∨ nt_errs s ≠ [] →
    nt_errCh s ≠ None ∨ nt_ctx s = true ∨ ∃ err, posting s err }.

Lemma notify_open_inv opened w : notify_inv opened w (notify_open opened w).
Proof.
  destruct opened as [[]|err]; constructor; unfold posting; simpl; try naive_solver.
  exists []; split; [simpl; lia | done].
Qed.

Lemma nonempty_snoc batches batch :
  nonempty (batches ++ [batch]) = nonempty batches ++ nonempty [batch].
Proof. apply filter_app. Qed.

(** What a post does to the error channel. *)
Lemma post_spec err s s' e : post err s = (s', e) →
  s' = MkNotify (nt_caller s) (nt_ctx s) (Some (default err (nt_errCh s))) (nt_txIDs s) (nt_closed s) (nt_sender s)
         (nt_receiver s) (nt_sent s) (nt_world s) (nt_result s) (nt_offered s) (nt_responses s) (nt_errs s) ∧
  (e = Over ∨ e = Posted).
Proof.
  destruct s as [? ? errCh]; unfold post; simpl. intros Hp. destruct errCh; simplify_eq; simpl; auto.
Qed.

(** Case analysis on a step, with posts spelled out. *)
Ltac step_cases Hstep :=
  destruct Hstep;
  repeat match goal with
  | Hp : post _ _ = _ |- _ => apply post_spec in Hp as [-> ?]
  end; simpl in *.

Lemma world_step w s s' : notify_step s s' →
  nt_world s = foldl (λ w res, process_response res w) w (nt_responses s) →
  nt_world s' = foldl (λ w res, process_response res w) w (nt_responses s').
Proof. intros Hstep Hw. step_cases Hstep; try done. by rewrite foldl_app, Hw. Qed.

Lemma requests_step s s' : notify_step s s' →
  (∃ lost, held (nt_sender s) lost ∧
     nonempty (nt_offered s) = (nq_TxIds <$> nt_sent s) ++ lost ++ nonempty (nt_txIDs s)) →
  ∃ lost, held (nt_sender s') lost ∧
    nonempty (nt_offered s') = (nq_TxIds <$> nt_sent s') ++ lost ++ nonempty (nt_txIDs s').
Proof.
  intros Hstep (lost & Hheld & Heq). step_cases Hstep; try (by eauto).
  - exists lost. by rewrite !nonempty_snoc, Heq, <- !app_assoc.
  - rewrite H0 in Hheld. simpl in Hheld. subst. exists []. split; [simpl; lia | done].
  - rewrite H0 in Hheld. simpl in Hheld. subst. exists []. split; [simpl; lia | done].
  - rewrite H0 in Hheld. rewrite H1 in Heq. simpl in Hheld. subst. unfold nonempty in *.
    rewrite Heq, filter_cons. destruct batch as [|t ts]; simpl; [by exists []|]. by exists [t :: ts].
  - rewrite H0 in Hheld. simpl in Hheld. subst. exists []. by rewrite Heq, fmap_app, <- app_assoc.
  - rewrite H0 in Hheld. simpl in Hheld. subst. by exists [batch].
  - exists lost. rewrite H0 in Hheld. by destruct e.
  - exists lost. rewrite H0 in Hheld. done.
Qed.

Lemma timeout_step s s' : notify_step s s' →
  Forall (λ q, nq_Timeout q = timeout) (nt_sent s) → Forall (λ q, nq_Timeout q = timeout) (nt_sent s').
Proof. intros Hstep Hall. step_cases Hstep; try done. by apply Forall_app_2; [|constructor]. Qed.

(** Errors are never forgotten. *)
Lemma errs_step s s' : notify_step s s' → ∃ more, nt_errs s' = nt_errs s ++ more.
Proof. intros Hstep. step_cases Hstep; try (exists []; by rewrite app_nil_r). all: by eexists. Qed.

Lemma errs_nonempty_step s s' : notify_step s s' → nt_errs s ≠ [] → nt_errs s' ≠ [].
Proof. intros Hstep. destruct (errs_step s s' Hstep) as [more ->]. by destruct (nt_errs s). Qed.

Lemma errors_step s s' : notify_step s s' →
  (∀ err, nt_errCh s = Some err → err ∈ nt_errs s) → (∀ err, posting s err → err ∈ nt_errs s) →
  (∀ err, nt_errCh s' = Some err → err ∈ nt_errs s') ∧ (∀ err, posting s' err → err ∈ nt_errs s').
Proof.
  unfold posting. intros Hstep Hch Hpost. split; intros err'; step_cases Hstep; try (by eauto);
    try case_decide; try destruct (nt_errCh s) as [err0|] eqn:He; simpl; intros; destruct_or?; simplify_eq;
    set_solver.
Qed.

Lemma posted_step s s' : notify_step s s' → (∀ err, posting s err → err ∈ nt_errs s) →
  (nt_sender s = SendEnd Posted ∨ nt_receiver s = RecvEnd Posted → nt_errs s ≠ []) →
  nt_sender s' = SendEnd Posted ∨ nt_receiver s' = RecvEnd Posted → nt_errs s' ≠ [].
Proof.
  unfold posting. intros Hstep Hpost Hposted Hor. pose proof (errs_nonempty_step _ _ Hstep) as Hne.
  step_cases Hstep; try (by eauto); try case_decide; destruct_or?; simplify_eq; try (by eauto);
    intros Hnil; rewrite Hnil in *; set_solver.
Qed.

Lemma result_step opened w s s' : notify_step s s' → notify_inv opened w s →
  (nt_ctx s' = true → nt_result s' = None → nt_caller s' = true ∨ nt_errs s' ≠ []) ∧
  (∀ err, nt_result s' = Some (Some err) →
     err ∈ nt_errs s' ∨ ∃ cause, opened = Fail cause ∧ err = open_error cause) ∧
  (nt_result s' = Some None → nt_caller s' = true ∨ nt_errs s' ≠ []).
Proof.
  intros Hstep [_ _ _ Hch _ Hposted Hctx Herror Hnil _]. pose proof (errs_nonempty_step _ _ Hstep) as Hne.
  split_and!; step_cases Hstep; try done; try (by auto); intros; simplify_eq; try (by auto).
  all: try (destruct Hnil as [?|?]; [done | by left | right; auto]).
  all: try (destruct Hctx as [?|?]; [done | done | by left | right; auto]).
  all: match goal with Hr : nt_result _ = Some (Some _) |- _ => destruct (Herror _ Hr) as [?|?] end; [|by right].
  all: left; set_solver.
Qed.

Lemma live_step s s' : notify_step s s' →
  (nt_result s = None → nt_caller s = true ∨ nt_errs s ≠ [] →
     nt_errCh s ≠ None ∨ nt_ctx s = true ∨ ∃ err, posting s err) →
  nt_result s' = None → nt_caller s' = true ∨ nt_errs s' ≠ [] →
  nt_errCh s' ≠ None ∨ nt_ctx s' = true ∨ ∃ err, posting s' err.
Proof.
  unfold posting. intros Hstep Hlive Hres Hor. step_cases Hstep; try (by auto); try (by eauto 6).
  all: destruct (Hlive Hres Hor) as [?|[?|[err' [He|He]]]]; try (by auto); rewrite ?He in *; try done; eauto 6.
Qed.

Lemma notify_reachable_inv opened w s : notify_reachable opened w s → notify_inv opened w s.
Proof.
  unfold notify_reachable. intros Hreach.
  refine (rtc_ind_r (λ s, notify_inv opened w s) _ (notify_open_inv opened w) _ s Hreach).
  intros s1 s2 _ Hstep Hinv. pose proof (result_step _ _ _ _ Hstep Hinv) as (? & ? & ?).
  destruct Hinv. destruct (errors_step _ _ Hstep) as [? ?]; [done..|].
  constructor; eauto using world_step, requests_step, timeout_step, posted_step, live_step.
Qed.

(** ** Theorems *)

(** What the handlers are owed for a list of events: each is called with all of
    them, in order, until one fails. *)
Inductive handled (events : list TxStatusEvent) : list (TxStatusHandler W) → W → W → Prop :=
  | handled_all_called w : handled events [] w w
  | handled_failed h hs w w' err : h events w = (w', Fail err) → handled events (h :: hs) w w'
  | handled_next h hs w w1 w' : h events w = (w1, Ret tt) → handled events hs w1 w' → handled events (h :: hs) w w'.

(** The events of a response: the reported statuses, then the ids that timed out. *)
Definition response_events (res : NotificationResponse) : list TxStatusEvent :=
  (convert_status <$> nr_TxStatusEvents res) ++ (timeout_event <$> nr_TimeoutTxIds res).

(** The handlers have had every response with events, in order. *)
Inductive all_served : list NotificationResponse → W → W → Prop :=
  | served_nil w : all_served [] w w
  | served_empty ress res w w' : all_served ress w w' → response_events res = [] → all_served (ress ++ [res]) w w'
  | served_events ress res w w1 w' : all_served ress w w1 → response_events res ≠ [] →
      handled (response_events res) handlers w1 w' → all_served (ress ++ [res]) w w'.

Lemma handle_all_handled hs events w : handled events hs w (fst (handle_all hs events w)).
Proof.
  revert w. induction hs as [|h hs IH]; intros w; simpl; [constructor|].
  destruct (h events w) as [w1 [[]|err]] eqn:E; [by eapply handled_next|by eapply handled_failed].
Qed.

Lemma responses_served ress w : all_served ress w (foldl (λ w res, process_response res w) w ress).
Proof.
  induction ress as [|res ress IH] using rev_ind; [constructor|]. rewrite foldl_app. simpl.
  unfold process_response, ProcessStatuses. change (convertNotificationResponse res) with (response_events res).
  case_decide as Hlen.
  - assert (response_events res ≠ []) as Hne by (intros E; rewrite E in Hlen; simpl in Hlen; lia).
    rewrite bool_decide_eq_false_2 by done. eapply served_events; [exact IH|done|apply handle_all_handled].
  - apply served_empty; [done|]. destruct (response_events res); [done|simpl in Hlen; lia].
Qed.

(** C29: [Notify] does what its channels ask and reports what its loops saw: in every
    reachable state the requests sent are the non-empty batches that came in on [txIDs],
    in order and with the timeout, but for those still waiting and at most one that the
    send loop holds or lost when it ended; the handlers were called, in order, with the
    events of every response that has any (one event per reported status and per id that
    timed out), each response up to the first handler that failed on it; and an error that
    [Notify] returned is the one of opening the stream or of one of its loops. *)
Theorem notify_faithful (opened : result unit) (w : W) (s : notify) :
  notify_reachable opened w s →
  (∃ lost, nonempty (nt_offered s) = (nq_TxIds <$> nt_sent s) ++ lost ++ nonempty (nt_txIDs s) ∧ (length lost ≤ 1)%nat) ∧
  Forall (λ q, nq_Timeout q = timeout) (nt_sent s) ∧
  all_served (nt_responses s) w (nt_world s) ∧
  (∀ err, nt_result s = Some (Some err) →
     err ∈ nt_errs s ∨ ∃ cause, opened = Fail cause ∧ err = open_error cause).
Proof.
  intros Hreach. destruct (notify_reachable_inv _ _ _ Hreach) as [Hw (lost & Hheld & ?) ? ? ? ? ? ? ? ?].
  split_and!; try done; [|rewrite Hw; apply responses_served].
  exists lost. split; [done|]. destruct (nt_sender s); simpl in *; subst; simpl; lia.
Qed.

(** The steps of [Notify] and its loops, without new input. *)
Definition same_input (s s' : notify) : Prop :=
  nt_offered s' = nt_offered s ∧ nt_responses s' = nt_responses s ∧ nt_caller s' = nt_caller s.

(** A loop that holds an error can bring [errCh] to hold one. *)
Lemma posting_posts s err : posting s err → nt_result s = None →
  ∃ s', notify_step s s' ∧ same_input s s' ∧ nt_result s' = None ∧ nt_errCh s' ≠ None.
Proof.
  intros [Hpc|Hpc] Hres; destruct (post err s) as [s1 e] eqn:Hp; destruct (post_spec _ _ _ _ Hp) as [-> _].
  - exists (sender_at (SendEnd e) (fst (post err s))). rewrite Hp. split; [by eapply ns_post_send|done].
  - exists (receiver_to (RecvEnd e) (fst (post err s))). rewrite Hp. split; [by eapply ns_post_recv|done].
Qed.

Lemma returns_from s : nt_result s = None → nt_errCh s ≠ None ∨ nt_ctx s = true →
  ∃ s', notify_step s s' ∧ same_input s s' ∧ nt_result s' ≠ None.
Proof.
  intros Hres Hor. destruct (nt_errCh s) as [err|] eqn:Hch.
  - exists (notify_return (Some err) s). split; [by apply ns_return_error|done].
  - exists (notify_return None s). split; [apply ns_return; naive_solver|done].
Qed.

(** [Notify] never hangs on a failure: from every reachable state in which its caller
    has cancelled or one of its loops has failed, it can return by its own steps, without
    a further batch, response or cancellation. *)
Theorem notify_can_return (opened : result unit) (w : W) (s : notify) :
  notify_reachable opened w s → nt_caller s = true ∨ nt_errs s ≠ [] →
  ∃ s', rtc notify_step s s' ∧ same_input s s' ∧ nt_result s' ≠ None.
Proof.
  intros Hreach Hor. destruct (nt_result s) eqn:Hres; [exists s; by rewrite Hres|].
  destruct (ni_live _ _ _ (notify_reachable_inv _ _ _ Hreach) Hres Hor) as [?|[?|[err Herr]]].
  1,2: destruct (returns_from s) as (s' & ? & ? & ?); eauto using rtc_once.
  destruct (posting_posts s err Herr Hres) as (s1 & Hs1 & (Ho & Hr & Hc) & Hres1 & Hch).
  destruct (returns_from s1) as (s2 & Hs2 & (Ho2 & Hr2 & Hc2) & ?); [done|by left|].
  exists s2. split_and!; [by eapply rtc_l, rtc_once | unfold same_input; by rewrite Ho2, Hr2, Hc2 | done].
Qed.

(** The end of the stream is not noticed: as long as the caller does not cancel and no
    loop fails, [Notify] does not return, also after the receive loop ended on EOF. *)
Theorem notify_waits_after_EOF (w : W) (s : notify) :
  notify_reachable (Ret tt) w s → nt_caller s = false → nt_errs s = [] → nt_result s = None.
Proof.
  intros Hreach Hc He. destruct (notify_reachable_inv _ _ _ Hreach). destruct (nt_result s) as [[err|]|]; [..|done].
  - destruct (ni_error0 err) as [Hin|(? & ? & _)]; [done | rewrite He in Hin; by apply not_elem_of_nil in Hin | done].
  - destruct ni_nil0 as [?|?]; congruence.
Qed.

(** An error can be lost: the loop that reports it cancels the shared context, and
    [Notify] may see the cancellation first and return nil, which its caller takes for a
    clean end. *)
Theorem notify_may_lose_error (w : W) (err : error) :
  ∃ s, notify_reachable (Ret tt) w s ∧ nt_caller s = false ∧ nt_errs s = [recv_error err] ∧ nt_result s = Some None.
Proof.
  eexists. split.
  - unfold notify_reachable. eapply rtc_l; [by apply (ns_recv_error _ err)|].
    eapply rtc_l; [by eapply ns_post_recv|]. eapply rtc_l; [by apply ns_cancel_recv|].
    eapply rtc_l; [by apply ns_return|]. apply rtc_refl.
  - done.
Qed.

(** [Notify] does not wait for its send loop, which may take a batch that was offered
    after [Notify] returned and fail to send it: the batch reaches no stream. *)
Theorem notify_sender_outlives (w : W) (txID : string) (err : error) :
  ∃ s, notify_reachable (Ret tt) w s ∧ nt_result s = Some None ∧
    nt_offered s = [[txID]] ∧ nt_txIDs s = [] ∧ nt_sent s = [] ∧ nt_sender s = SendEnd (Posting (send_error err)).
Proof.
  eexists. split.
  - unfold notify_reachable. eapply rtc_l; [by apply ns_caller|]. eapply rtc_l; [by apply ns_return|].
    eapply rtc_l; [by apply (ns_offer _ [txID])|]. eapply rtc_l; [by eapply ns_take|].
    eapply rtc_l; [by apply (ns_send_error _ [txID] err)|]. apply rtc_refl.
  - done.
Qed.

End Notify.

(** ** The notifier

    [Notifier] of notification/notifier.go binds a processor to a peer.  A call
    of a peer's [Notify] is the behaviour of the call, a step relation; the
    peer of network/fabricx offers [notify_step]. *)

Section Notifier.
Context {W : Type}.

Record notification_Processor := MkNotificationProcessor { np_handlers : list (TxStatusHandler W) }.

Definition notification_NewProcessor (handlers : list (TxStatusHandler W)) : notification_Processor :=
  MkNotificationProcessor handlers.

Definition NotificationPeer : Type := notification_Processor → Z → notify (W := W) → notify (W := W) → Prop.

Record Notifier := MkNotifier {
  nf_peer : NotificationPeer;
  nf_processor : notification_Processor }.

Definition NewNotifier (peer : NotificationPeer) (processor : notification_Processor) : Notifier :=
  MkNotifier peer processor.

(** A zero timeout leaves the timeout to the committer. *)
Definition Subscribe (n : Notifier) : notify (W := W) → notify (W := W) → Prop := nf_peer n (nf_processor n) 0.

Definition fabricx_Notify `{CommitterCodes} : NotificationPeer := λ processor timeout,
  notify_step (np_handlers processor) timeout.

(** A subscription through the Fabric-X peer asks for every batch without a
    timeout of its own and gives the handlers of the notifier every response. *)
Theorem Subscribe_default_timeout `{CommitterCodes} handlers (opened : result unit) (w : W) (s : notify) :
  rtc (Subscribe (NewNotifier fabricx_Notify (notification_NewProcessor handlers))) (notify_open opened w) s →
  Forall (λ q, nq_Timeout q = 0) (nt_sent s) ∧ (nq_TxIds <$> nt_sent s) `prefix_of` nonempty (nt_offered s) ∧
  nt_world s = foldl (λ w res, process_response handlers res w) w (nt_responses s).
Proof.
  intros Hr. destruct (notify_reachable_inv handlers 0 opened w s Hr) as [Hw (lost & _ & Hreq) Ht _ _ _ _ _ _ _].
  split_and!; [done | rewrite Hreq; apply prefix_app_r; done | done].
Qed.

End Notifier.

(** ** An example *)

Module Notifying.

Definition count : list (TxStatusHandler nat) := [λ events w, (w + length events, Ret tt)%nat].

Definition response : NotificationResponse := MkNotificationResponse [MkTxStatus (Some (MkTxRef "tx" 7 0)) 1] ["late"].

Definition answered : notify (W := nat) :=
  receive_response (H := committer_codes) count response
    (send_request 60 ["tx"] (take_batch ["tx"] [] (offer ["tx"] (notify_open (Ret tt) 0%nat)))).

Lemma answered_reachable : notify_reachable (H := committer_codes) count 60 (Ret tt) 0%nat answered.
Proof.
  unfold notify_reachable, answered. eapply rtc_l; [by apply (ns_offer _ _ _ ["tx"])|].
  eapply rtc_l; [by apply ns_take|]. eapply rtc_l; [by apply ns_send|]. eapply rtc_l; [by apply ns_recv|].
  apply rtc_refl.
Qed.

Definition broken : notify (W := nat) :=
  loop_failed (recv_error (Errorf "connection reset" [])) (receiver_to (RecvEnd (Posting (recv_error (Errorf "connection reset" [])))) answered).

Lemma broken_stream_reachable : notify_reachable (H := committer_codes) count 60 (Ret tt) 0%nat broken.
Proof. eapply rtc_r; [apply answered_reachable | by apply ns_recv_error]. Qed.

End Notifying.

Lemma notify_faithful_witness :
  nq_TxIds <$> nt_sent Notifying.answered = [["tx"]] ∧ nt_world Notifying.answered = 2%nat ∧
  Forall (λ q, nq_Timeout q = 60) (nt_sent Notifying.answered).
Proof.
  destruct (notify_faithful Notifying.count 60 _ _ _ Notifying.answered_reachable) as (_ & Ht & _).
  split; [reflexivity|]. split; [reflexivity|exact Ht].
Defined.

Lemma notify_can_return_witness :
  ∃ s', rtc (notify_step (H := committer_codes) Notifying.count 60) Notifying.broken s' ∧
    same_input Notifying.broken s' ∧ nt_result s' ≠ None.
Proof. apply (notify_can_return _ _ (Ret tt) 0%nat); [apply Notifying.broken_stream_reachable | right; discriminate]. Defined.
