(* ===== verification/Sessions.v ===== *)
(** * Sessions of the finality listener

    [Start] of notification/finality.go with everything that it starts: the loop
    that opens one session after the other, [runSession] with the goroutine of
    [onConnect] and the call of [Notify] (Notify.v), and the callers of
    [WaitForFinality] (Finality.v).

    All sessions share the listener: its pending set and [subCh], from which
    each session's send loop reads.  A session is never joined, so its loops
    and its [onConnect] may still run when later sessions are open.  A step of
    [system_step] is a step of a caller, of an [onConnect], of a [Notify] on the
    shared listener, or of the loop of [Start].  [ly_log] records which session
    took a batch from [subCh], and which session was the current one then.

    The theorems: the whole implements the listener of Finality.v, so that no
    caller is lost and no handler blocks, with any number of sessions; [Start]
    can always return after a cancellation; while a session is up, the
    subscription of a caller that waits is queued or was taken from the queue
    during this session, and where the session took it itself it was sent or is
    about to be.  Two more record what goes wrong: a batch can be taken by the
    send loop of a session that is over, and after the end of its stream a
    session goes on for ever. *)

From S2P Require Import Prelude Blocks Status Finality Notify.

Section Sessions.
Context `{CommitterCodes} (order : ∀ A : Type, gmap string A → list (string * A)) (timeout : Z).

#[local] Abbreviation peer_notify := (notify (W := option FinalityListener)).
#[local] Abbreviation peer_step := (notify_step (W := option FinalityListener) [listener_handler] timeout).

(** One call of [runSession]: whether its context is done, the run of
    [onConnect] once it has its snapshot, and [Notify] once the stream is open. *)
Record session := MkSession {
  se_ctx : bool;
  se_conn : option nat;
  se_notify : option peer_notify }.

(** The loop of [Start]: at its condition, in a session, in the pause after a
    failed one, or returned. *)
Inductive start_pc := StartLoop | InSession (i : nat) | Pausing | StartReturned.

Record listener_system := MkListenerSystem {
  ly_world : listener_world;
  ly_sessions : list session;
  ly_start : start_pc;
  ly_backoff : Z;
  ly_ctx : bool;
  ly_log : list (nat * nat * list string) }.

Definition new_system : listener_system := MkListenerSystem initial_world [] StartLoop initBackoff false [].

Definition new_session : session := MkSession false None None.

(** The context of a session is done, and with it that of its [Notify]. *)
Definition cancel_session (se : session) : session := MkSession true (se_conn se) (set_ctx true <$> se_notify se).

(** The answer to [OpenNotificationStream]; the context of [Notify] derives from
    that of the session. *)
Definition open_session (opened : result unit) (f : FinalityListener) (se : session) : session :=
  let n := notify_open opened (Some f) in
  MkSession (se_ctx se) (se_conn se) (Some (if se_ctx se then set_ctx true n else n)).

(** [Notify] of a session sees the shared channel and the shared listener. *)
Definition attach (f : FinalityListener) (n : peer_notify) : peer_notify :=
  MkNotify (nt_caller n) (nt_ctx n) (nt_errCh n) (fl_subCh f) (nt_closed n) (nt_sender n) (nt_receiver n) (nt_sent n)
    (Some f) (nt_result n) (nt_offered n) (nt_responses n) (nt_errs n).

(** The steps of [Notify] and its loops, without its caller and the producers. *)
Definition own_step (n n' : peer_notify) : Prop :=
  peer_step n n' ∧ nt_offered n' = nt_offered n ∧ nt_closed n' = nt_closed n ∧ nt_caller n' = nt_caller n.

Definition current (s : listener_system) : nat := pred (length (ly_sessions s)).

Definition with_world (w : listener_world) (s : listener_system) : listener_system :=
  MkListenerSystem w (ly_sessions s) (ly_start s) (ly_backoff s) (ly_ctx s) (ly_log s).

Definition with_session (i : nat) (se : session) (s : listener_system) : listener_system :=
  MkListenerSystem (ly_world s) (<[i := se]> (ly_sessions s)) (ly_start s) (ly_backoff s) (ly_ctx s) (ly_log s).

Definition start_at (pc : start_pc) (backoff : Z) (s : listener_system) : listener_system :=
  MkListenerSystem (ly_world s) (ly_sessions s) pc backoff (ly_ctx s) (ly_log s).

(** [onConnect] takes its snapshot under the lock. *)
Definition take_snapshot (w : listener_world) : listener_world :=
  MkListenerWorld (lw_listener w) (lw_waiters w)
    (lw_connections w ++ [if decide (length (snapshot_pending order (lw_listener w)) = 0%nat) then Connected
                          else Resubscribing (snapshot_pending order (lw_listener w))]) (lw_sent w).

Definition connection_at (k : nat) (c : connection) (f : FinalityListener) (w : listener_world) : listener_world :=
  MkListenerWorld f (lw_waiters w) (<[k := c]> (lw_connections w)) (lw_sent w).

(** The steps of the callers are those of [listener_step] that move one. *)
Definition caller_step (w w' : listener_world) : Prop := listener_step order w w' ∧ lw_waiters w' ≠ lw_waiters w.

(** The effect of a step of [Notify] on what is shared: the listener, and the
    batches that left the channel. *)
Definition shared_step (f1 : FinalityListener) (n' : peer_notify) (taken : list (list string)) (w : listener_world)
    : listener_world :=
  MkListenerWorld (with_subCh f1 (nt_txIDs n')) (lw_waiters w) (lw_connections w) (lw_sent w ++ taken).

Inductive system_step (s : listener_system) : listener_system → Prop :=
  | ss_caller w : caller_step (ly_world s) w → system_step s (with_world w s)
  | ss_snapshot i se : ly_sessions s !! i = Some se → se_conn se = None →
      system_step s (with_world (take_snapshot (ly_world s))
        (with_session i (MkSession (se_ctx se) (Some (length (lw_connections (ly_world s)))) (se_notify se)) s))
  | ss_resubscribe i se k txIDs f : ly_sessions s !! i = Some se → se_conn se = Some k →
      lw_connections (ly_world s) !! k = Some (Resubscribing txIDs) →
      subscribe_batch txIDs (lw_listener (ly_world s)) = Some f →
      system_step s (with_world (connection_at k Reconciling f (ly_world s)) s)
  | ss_abandon i se k txIDs : ly_sessions s !! i = Some se → se_conn se = Some k → se_ctx se = true →
      lw_connections (ly_world s) !! k = Some (Resubscribing txIDs) →
      system_step s (with_world (connection_at k Connected (lw_listener (ly_world s)) (ly_world s)) s)
  | ss_reconcile i se k reply f : ly_sessions s !! i = Some se → se_conn se = Some k →
      lw_connections (ly_world s) !! k = Some Reconciling → reconcile reply (lw_listener (ly_world s)) = Some f →
      system_step s (with_world (connection_at k Connected f (ly_world s)) s)
  | ss_open i se opened : ly_sessions s !! i = Some se → se_notify se = None →
      system_step s (with_session i (open_session opened (lw_listener (ly_world s)) se) s)
  | ss_notify i se n n' f1 taken : ly_sessions s !! i = Some se → se_notify se = Some n →
      own_step (attach (lw_listener (ly_world s)) n) n' → nt_world n' = Some f1 →
      fl_subCh (lw_listener (ly_world s)) = taken ++ nt_txIDs n' →
      system_step s (MkListenerSystem (shared_step f1 n' taken (ly_world s))
        (<[i := MkSession (se_ctx se) (se_conn se) (Some n')]> (ly_sessions s)) (ly_start s) (ly_backoff s) (ly_ctx s)
        (ly_log s ++ ((λ batch, (i, current s, batch)) <$> taken)))
  | ss_begin : ly_start s = StartLoop → ly_ctx s = false →
      system_step s (MkListenerSystem (ly_world s) (ly_sessions s ++ [new_session]) (InSession (length (ly_sessions s)))
        (ly_backoff s) (ly_ctx s) (ly_log s))
  | ss_session_over i se n r : ly_start s = InSession i → ly_sessions s !! i = Some se → se_notify se = Some n →
      nt_result n = Some r →
      system_step s (with_session i (cancel_session se)
        (if decide (r ≠ None ∧ ly_ctx s = false) then start_at Pausing (ly_backoff s) s
         else start_at StartLoop (after_session false (ly_backoff s)).2 s))
  | ss_pause_over : ly_start s = Pausing →
      system_step s (start_at StartLoop (after_session true (ly_backoff s)).2 s)
  | ss_pause_cancelled : ly_start s = Pausing → ly_ctx s = true → system_step s (start_at StartReturned (ly_backoff s) s)
  | ss_return : ly_start s = StartLoop → ly_ctx s = true → system_step s (start_at StartReturned (ly_backoff s) s)
  | ss_cancel : system_step s (MkListenerSystem (ly_world s) (cancel_session <$> ly_sessions s) (ly_start s)
        (ly_backoff s) true (ly_log s)).

Definition system_reachable (s : listener_system) : Prop := rtc system_step new_system s.

(** ** The steps of [Notify] on what is shared *)

(** Case analysis on a step of [Notify], with posts spelled out. *)
Ltac peer_cases Hstep :=
  destruct Hstep;
  repeat match goal with
  | Hp : post _ _ = _ |- _ => apply post_spec in Hp as [-> ?]
  end; simpl in *.

(** A step leaves channel and listener alone, takes a batch, or hands the events
    of a response to the listener. *)
Lemma own_step_cases f n n' : own_step (attach f n) n' →
  (nt_txIDs n' = fl_subCh f ∧ nt_world n' = Some f) ∨
  (∃ batch, fl_subCh f = batch :: nt_txIDs n' ∧ nt_world n' = Some f) ∨
  (nt_txIDs n' = fl_subCh f ∧ ∃ res, nt_world n' = process_response [listener_handler] res (Some f)).
Proof.
  intros (Hstep & Ho & Hc & Hr). peer_cases Hstep; try (by left); try (by right; left; eexists); try (by right; right; eauto).
  exfalso. apply (f_equal length) in Ho. rewrite length_app in Ho. simpl in Ho. lia.
Qed.

Lemma process_response_handle res f :
  process_response [listener_handler] res (Some f) = Handle (convertNotificationResponse res) f.
Proof.
  unfold process_response, ProcessStatuses. destruct (convertNotificationResponse res) as [|e es] eqn:E; [done|].
  rewrite decide_True by (simpl; lia). done.
Qed.

Lemma deliver_subCh e f f' : deliver e f = Some f' → fl_subCh f' = fl_subCh f.
Proof.
  unfold deliver. destruct (fl_pending f !! ev_TxID e) as [ch|]; [|by intros [= ->]].
  destruct (fl_chans f !! ch) as [[]|]; by intros; simplify_eq.
Qed.

Lemma Handle_subCh events f f' : Handle events f = Some f' → fl_subCh f' = fl_subCh f.
Proof.
  revert f. induction events as [|e es IH]; intros f; simpl; [by intros [= ->]|].
  rewrite bind_Some. intros (f1 & Hd & Hh). rewrite (IH f1 Hh). by eapply deliver_subCh.
Qed.

Lemma with_subCh_eq f : with_subCh f (fl_subCh f) = f.
Proof. by destruct f. Qed.

(** ** Refinement of the listener *)

(** Every step is a step of the listener, or does not touch it. *)
Lemma system_step_refines s s' : system_step s s' →
  ly_world s' = ly_world s ∨ listener_step order (ly_world s) (ly_world s').
Proof.
  intros Hstep. destruct Hstep; simpl; try (by left).
  - right. by destruct H0.
  - right. destruct (ly_world s). apply ls_connect.
  - right. destruct (ly_world s). by eapply ls_resubscribe.
  - right. destruct (ly_world s). by eapply ls_disconnect.
  - right. destruct (ly_world s). by eapply ls_reconcile.
  - destruct (ly_world s) as [f ws cs sent]. unfold shared_step. simpl in *.
    destruct (own_step_cases f n n' H2) as [[Ht Hw]|[(batch & Ht & Hw)|(Ht & res & Hw)]]; simplify_eq.
    + left. rewrite Ht in H4 |- *. apply (app_inv_tail _ [] taken) in H4 as <-. by rewrite app_nil_r, with_subCh_eq.
    + right. rewrite Ht in H4. apply (app_inv_tail _ [batch] taken) in H4 as <-. by apply ls_send.
    + right. rewrite H3 in Hw. symmetry in Hw. rewrite process_response_handle in Hw.
      rewrite Ht in H4. apply (app_inv_tail _ [] taken) in H4 as <-.
      rewrite app_nil_r, Ht, <- (Handle_subCh _ _ _ Hw), with_subCh_eq.
      eapply (ls_response _ _ _ _ _ res _ (Ret tt)). unfold ProcessStatuses.
      case_bool_decide as He; [rewrite He in Hw; by injection Hw as ->|]. simpl. by rewrite Hw.
  - left. by case_decide.
Qed.

Lemma system_refines_listener s : system_reachable s → listener_reachable order (ly_world s).
Proof.
  intros Hr. refine (rtc_ind_r (λ s, listener_reachable order (ly_world s)) _ _ _ s Hr); [apply rtc_refl|].
  intros s1 s2 _ [->|Hs]%system_step_refines IH; [done|]. by eapply rtc_r.
Qed.

(** ** Callers *)

(** No handler blocks: a receive loop can always process what it received. *)
Lemma receive_enabled s j se n res : system_reachable s →
  ly_sessions s !! j = Some se → se_notify se = Some n → nt_receiver n = RecvWait →
  ∃ s' f', system_step s s' ∧ Handle (convertNotificationResponse res) (lw_listener (ly_world s)) = Some f' ∧
    lw_listener (ly_world s') = f'.
Proof.
  intros [Hi _]%system_refines_listener%listener_reachable_inv Hj Hn Hrecv.
  destruct (Handle_inv (convertNotificationResponse res) _ _ Hi) as (f' & Hf' & _).
  set (n' := receive_response [listener_handler] res (attach (lw_listener (ly_world s)) n)).
  eexists _, f'. split; [|split; [exact Hf'|]].
  - eapply (ss_notify _ j se n n' f' []); [done..| | |done].
    + split; [by apply ns_recv|done].
    + subst n'. simpl. by rewrite process_response_handle.
  - subst n'. simpl. by rewrite <- (Handle_subCh _ _ _ Hf'), with_subCh_eq.
Qed.

(** C26: no caller is lost, with any number of sessions: in every state that callers,
    sessions, failing streams and reconnects reach, as long as the ids are distinct, a
    caller that has not returned has its event in its channel, or is among those that the
    next session subscribes; and then every session that still receives, also one that is
    over, can process any response, after which the caller has the first event of its id
    that the response has, and keeps waiting if it has none. *)
Theorem sessions_serve_callers s i c :
  map_order order → system_reachable s → NoDup (wt_TxID <$> lw_waiters (ly_world s)) →
  lw_waiters (ly_world s) !! i = Some c → (∀ r, wt_at c ≠ Finished r) →
  (∃ e, fl_chans (lw_listener (ly_world s)) !! i = Some (Some e) ∧ ev_TxID e = wt_TxID c) ∨
  (wt_TxID c ∈ snapshot_pending order (lw_listener (ly_world s)) ∧
   ∀ j se n res, ly_sessions s !! j = Some se → se_notify se = Some n → nt_receiver n = RecvWait →
     ∃ s', system_step s s' ∧
       match list_find (λ e, ev_TxID e = wt_TxID c) (convertNotificationResponse res) with
       | Some (_, e) => fl_chans (lw_listener (ly_world s')) !! i = Some (Some e)
       | None => fl_pending (lw_listener (ly_world s')) !! wt_TxID c = Some i
       end).
Proof.
  intros Hord Hr HN Hc Hlive. pose proof (system_refines_listener s Hr) as Hl.
  destruct (no_waiter_lost order _ i c Hord Hl HN Hc Hlive) as [?|[Hin Hev]]; [by left|right]. split; [done|].
  intros j se n res Hj Hn Hrecv. destruct (receive_enabled s j se n res Hr Hj Hn Hrecv) as (s' & f' & Hs & Hf' & Hw).
  exists s'. split; [done|]. rewrite Hw. destruct (Hev (convertNotificationResponse res)) as (f1 & Hf1 & Hm).
  rewrite Hf1 in Hf'. by injection Hf' as <-.
Qed.

(** ** Shutdown *)

(** Cancellation reaches every context that derives from it. *)
Definition ctx_inv (s : listener_system) : Prop :=
  (∀ i, ly_start s = InSession i → is_Some (ly_sessions s !! i)) ∧
  ∀ i se, ly_sessions s !! i = Some se →
    (ly_ctx s = true → se_ctx se = true) ∧ (se_ctx se = true → ∀ n, se_notify se = Some n → nt_ctx n = true).

Lemma own_step_ctx n n' : own_step n n' → nt_ctx n = true → nt_ctx n' = true.
Proof. intros [Hstep _] Hc. peer_cases Hstep; done. Qed.

Lemma cancel_session_ctx se : ∀ n, se_notify (cancel_session se) = Some n → nt_ctx n = true.
Proof. intros n (n0 & _ & ->)%fmap_Some. done. Qed.

Lemma insert_is_Some {A} (l : list A) i j x : is_Some (l !! i) → is_Some (<[j := x]> l !! i).
Proof. rewrite !lookup_lt_is_Some, length_insert. done. Qed.

(** A change of one session. *)
Lemma ctx_inv_session s s' i se :
  ctx_inv s → ly_start s' = ly_start s ∨ (∀ k, ly_start s' ≠ InSession k) → ly_ctx s' = ly_ctx s →
  ly_sessions s' = <[i := se]> (ly_sessions s) →
  (ly_ctx s = true → se_ctx se = true) ∧ (se_ctx se = true → ∀ n, se_notify se = Some n → nt_ctx n = true) →
  ctx_inv s'.
Proof.
  intros [Hin Hall] Hst Hctx Hse Hnew. split.
  - intros k Hk. rewrite Hse. apply insert_is_Some, Hin. destruct Hst as [<-|Hst]; [done|by destruct (Hst k)].
  - intros k se'. rewrite Hse, Hctx. intros [(<- & <- & _)|(_ & Hk)]%list_lookup_insert_Some; [done|by apply (Hall k)].
Qed.

Lemma system_step_ctx s s' : system_step s s' → ctx_inv s → ctx_inv s'.
Proof.
  intros Hstep Hinv. pose proof Hinv as [Hin Hall]. destruct Hstep; try exact Hinv.
  - eapply (ctx_inv_session s); [done|by left|done|done|]. exact (Hall i se ltac:(assumption)).
  - eapply (ctx_inv_session s); [done|by left|done|done|]. simpl. split; [by apply (Hall i)|].
    intros Hc n [= <-]. by rewrite Hc.
  - eapply (ctx_inv_session s); [done|by left|done|done|]. simpl. split; [by apply (Hall i)|].
    intros Hc ? [= <-]. eapply own_step_ctx; [done|]. simpl. by apply (Hall i se).
  - split; simpl.
    + intros k [= <-]. rewrite lookup_app_r, Nat.sub_diag by lia. by eexists.
    + intros k se [Hk|[_ [_ <-]%list_lookup_singleton_Some]]%lookup_app_Some; [by apply (Hall k)|]. simpl. split; congruence.
  - eapply (ctx_inv_session s); [done| | | |].
    + right. intros k. by case_decide.
    + by case_decide.
    + by case_decide.
    + split; [done|]. intros _. apply cancel_session_ctx.
  - split; [done|exact Hall].
  - split; [done|exact Hall].
  - split; [done|exact Hall].
  - split; simpl.
    + intros k Hk. rewrite list_lookup_fmap. by apply fmap_is_Some, Hin.
    + intros k se. rewrite list_lookup_fmap. intros (se0 & _ & ->)%fmap_Some. split; [done|]. intros _. apply cancel_session_ctx.
Qed.

Lemma system_reachable_ctx s : system_reachable s → ctx_inv s.
Proof.
  intros Hr. refine (rtc_ind_r ctx_inv _ _ _ s Hr); [by split|]. intros s1 s2 _ Hs Hi. by eapply system_step_ctx.
Qed.

(** A session whose stream is open and whose context is done can end. *)
Lemma session_ends s i se n : ctx_inv s → ly_ctx s = true → ly_start s = InSession i →
  ly_sessions s !! i = Some se → se_notify se = Some n →
  ∃ s', rtc system_step s s' ∧ ly_start s' = StartReturned.
Proof.
  intros [_ Hall] Hctx Hst Hi Hn. destruct (Hall i se Hi) as [Hse Hnc].
  assert (∀ s1 se1 n1 r, ly_ctx s1 = true → ly_start s1 = InSession i → ly_sessions s1 !! i = Some se1 →
    se_notify se1 = Some n1 → nt_result n1 = Some r → ∃ s', rtc system_step s1 s' ∧ ly_start s' = StartReturned) as Hover.
  { intros s1 se1 n1 r Hc1 Hst1 Hi1 Hn1 Hr1. eexists. split.
    - eapply rtc_l; [by eapply ss_session_over|]. rewrite decide_False; [|intros [_ ?]; congruence].
      eapply rtc_once. by apply ss_return.
    - done. }
  destruct (nt_result n) as [r|] eqn:Er; [by eapply Hover|].
  set (f := lw_listener (ly_world s)).
  set (n' := notify_return None (attach f n)).
  set (se' := MkSession (se_ctx se) (se_conn se) (Some n')).
  edestruct (Hover (MkListenerSystem (shared_step f n' [] (ly_world s)) (<[i := se']> (ly_sessions s)) (ly_start s)
    (ly_backoff s) (ly_ctx s) (ly_log s ++ ((λ batch, (i, current s, batch)) <$> []))) se' n' None)
    as (s' & Hs' & Hret); [done|done| |done|done|].
  { simpl. by rewrite list_lookup_insert_eq by (by eapply lookup_lt_Some). }
  exists s'. split; [|done]. eapply rtc_l; [|exact Hs']. eapply (ss_notify _ i se n n' f []); [done..| | |done]; [|done].
  split; [|done]. apply ns_return; [done|]. simpl. apply Hnc; [by apply Hse|done].
Qed.

(** C28: [Start] ends: from every state in which its context is cancelled, whatever its
    sessions do and whether the stream of the last one is open, it can return. *)
Theorem Start_can_return s :
  system_reachable s → ly_ctx s = true → ∃ s', rtc system_step s s' ∧ ly_start s' = StartReturned.
Proof.
  intros Hr%system_reachable_ctx Hctx. destruct (ly_start s) as [|i| |] eqn:Hst.
  - eexists. split; [apply rtc_once; by apply ss_return|done].
  - destruct (proj1 Hr i Hst) as [se Hi]. destruct (se_notify se) as [n|] eqn:Hn; [by eapply session_ends|].
    pose proof (ss_open s i se (Ret tt) Hi Hn) as Hopen.
    set (se' := open_session (Ret tt) (lw_listener (ly_world s)) se) in *.
    edestruct (session_ends (with_session i se' s) i se')
      as (s' & Hs' & Hret); [by eapply system_step_ctx|done|exact Hst| |done|].
    { simpl. by rewrite list_lookup_insert_eq by (by eapply lookup_lt_Some). }
    exists s'. split; [|done]. by eapply rtc_l.
  - eexists. split; [apply rtc_once; by apply ss_pause_cancelled|done].
  - exists s. split; [apply rtc_refl|done].
Qed.

(** ** Subscriptions on their way *)

(** A caller waits for [t] and is registered for it. *)
Definition awaiting (w : listener_world) (t : string) : Prop :=
  ∃ c wt, lw_waiters w !! c = Some wt ∧ wt_TxID wt = t ∧ wt_at wt = Waiting ∧
    fl_pending (lw_listener w) !! t = Some c.

Definition queued (w : listener_world) (t : string) : Prop :=
  ∃ batch, batch ∈ fl_subCh (lw_listener w) ∧ t ∈ batch.

(** A batch with [t] was taken from the channel while [cur] was the current session. *)
Definition taken_in (cur : nat) (s : listener_system) (t : string) : Prop :=
  ∃ j batch, (j, cur, batch) ∈ ly_log s ∧ t ∈ batch.

(** What has become of a batch that a send loop took: it was sent, it is about to
    be, or the loop ended because a send failed. *)
Definition batch_fate (n : peer_notify) (batch : list string) : Prop :=
  batch ∈ nq_TxIds <$> nt_sent n ∨ nt_sender n = Sending batch ∨
  ∃ e err, nt_sender n = SendEnd e ∧ send_error err ∈ nt_errs n.

Lemma Handle_pending events f f' t c :
  Handle events f = Some f' → fl_pending f' !! t = Some c → fl_pending f !! t = Some c.
Proof.
  revert f. induction events as [|e es IH]; intros f; simpl; [by intros [= ->]|].
  rewrite bind_Some. intros (f1 & Hd & Hh) Hc. specialize (IH f1 Hh Hc). revert IH Hd. unfold deliver.
  destruct (fl_pending f !! ev_TxID e) as [ch|]; [|by intros ? [= ->]].
  destruct (fl_chans f !! ch) as [[]|]; intros Hl; intros; simplify_eq/=. by apply lookup_delete_Some in Hl as [_ ?].
Qed.

Lemma reconcile_handle reply f f' : reconcile reply f = Some f' → ∃ events, Handle events f = Some f'.
Proof.
  unfold reconcile. intros Hr. destruct reply as [[events|]|]; [case_decide; [by eexists|]|..]; by exists [].
Qed.

Lemma subscribe_batch_queue batch f f' : subscribe_batch batch f = Some f' →
  fl_subCh f' = fl_subCh f ++ [batch] ∧ fl_pending f' = fl_pending f.
Proof. unfold subscribe_batch. case_decide; by intros [= <-]. Qed.

(** A caller that begins to wait has queued its subscription. *)
Lemma caller_step_awaiting w w' t : world_inv w → caller_step w w' →
  (awaiting w' t → awaiting w t ∨ queued w' t) ∧ (queued w t → queued w' t) ∧ lw_connections w' = lw_connections w.
Proof.
  intros [[Hlen _ _ _] _] [Hstep Hne]. unfold awaiting, queued.
  destruct Hstep as [f ws cs sent t' ch f' Hr|f ws cs sent i w f' Hw Hat Hq|f ws cs sent i w e f' Hw Hat Hr
    |f ws cs sent i w Hw Hat| | | | | |]; simpl in *; try done.
  - unfold Register in Hr. destruct (fl_pending f !! t') eqn:Ef; [done|]. injection Hr as <- <-. simpl. split_and!; [|done..].
    intros (c & wt & [Hc|[_ [_ <-]%list_lookup_singleton_Some]]%lookup_app_Some & Ht & Hat & Hp); [|done].
    left. exists c, wt. split_and!; [done..|]. apply lookup_insert_Some in Hp as [[_ <-]|[_ ?]]; [|done].
    apply lookup_lt_Some in Hc. lia.
  - apply subscribe_batch_queue in Hq as [Hq Hp]. rewrite Hq, Hp. split_and!; [|set_solver|done].
    intros (c & wt & (w0 & Hw0 & Ht & [[-> _]|[_ ->]])%lookup_waiter_goto & <- & Hwt & Hpc); [|left; by exists c, w0].
    right. exists [wt_TxID w]. simplify_eq. rewrite Ht. set_solver.
  - unfold receive in Hr. destruct (fl_chans f !! i) as [[e'|]|]; [|done..]. injection Hr as _ <-. simpl. split_and!; [|done..].
    intros (c & wt & (w0 & Hw0 & Ht & [[-> Hfin]|[_ ->]])%lookup_waiter_goto & Hid & Hwt & Hpc); [congruence|].
    left. by exists c, w0.
  - split_and!; [|done..].
    intros (c & wt & (w0 & Hw0 & Ht & [[-> Hfin]|[_ ->]])%lookup_waiter_goto & Hid & Hwt & Hpc); [congruence|].
    apply lookup_delete_Some in Hpc as [_ Hpc]. left. by exists c, w0.
Qed.

(** What the channel loses, the log gains; the pending set only shrinks. *)
Lemma notify_step_shared f n n' f1 taken t :
  own_step (attach f n) n' → nt_world n' = Some f1 → fl_subCh f = taken ++ nt_txIDs n' →
  (∀ c, fl_pending f1 !! t = Some c → fl_pending f !! t = Some c) ∧
  (taken = [] ∨ ∃ batch, taken = [batch] ∧ (t ∈ batch → batch_fate n' batch)) ∧
  ∀ batch, batch_fate n batch → batch_fate n' batch.
Proof.
  intros Hown Hw Ht. split_and!.
  - intros c Hc. destruct (own_step_cases f n n' Hown) as [[_ Hw']|[(batch & _ & Hw')|(_ & res & Hw')]]; [congruence..|].
    rewrite process_response_handle, Hw in Hw'. by eapply Handle_pending.
  - destruct Hown as (Hstep & Ho & _). unfold batch_fate.
    peer_cases Hstep; try (left; by apply (app_inv_tail _ _ _ (eq_sym Ht : taken ++ _ = [] ++ _))).
    + exfalso. apply (f_equal length) in Ho. rewrite length_app in Ho. simpl in Ho. lia.
    + right. exists batch. match goal with Hq : fl_subCh f = batch :: _ |- _ => rewrite Hq in Ht end.
      apply (app_inv_tail _ [batch] taken) in Ht as <-. split; [done|]. intros Hin.
      destruct batch; [by apply elem_of_nil in Hin|]. by right; left.
  - destruct Hown as (Hstep & _). unfold batch_fate. intros b Hf.
    peer_cases Hstep; try done; destruct Hf as [?|[?|(? & ? & ? & ?)]]; simplify_eq/=; try (by left); eauto 6; try congruence.
    + left. rewrite fmap_app, elem_of_app. by left.
    + left. rewrite fmap_app, elem_of_app. right. simplify_eq. simpl. replace b with batch by congruence. by left.
    + right. right. eexists _, err. split; [done|]. apply elem_of_app. right. by left.
    + right. right. eexists _, _. split; [done|]. apply elem_of_app. left. eassumption.
Qed.

(** Each [onConnect] has a run of its own, and what the sessions took is in the log. *)
Record log_inv (s : listener_system) : Prop := {
  lg_conn : ∀ i se k, ly_sessions s !! i = Some se → se_conn se = Some k →
    (k < length (lw_connections (ly_world s)))%nat;
  lg_inj : ∀ i j se se' k, ly_sessions s !! i = Some se → ly_sessions s !! j = Some se' →
    se_conn se = Some k → se_conn se' = Some k → i = j;
  lg_fate : ∀ j cur batch t, (j, cur, batch) ∈ ly_log s → t ∈ batch →
    (cur < length (ly_sessions s))%nat ∧
    ∃ se n, ly_sessions s !! j = Some se ∧ se_notify se = Some n ∧ batch_fate n batch }.

(** The current session covers every caller that waits, once it has its snapshot. *)
Definition covers (s : listener_system) : Prop :=
  ∀ se k, ly_sessions s !! current s = Some se → se_ctx se = false → se_conn se = Some k →
  ∀ t, awaiting (ly_world s) t → queued (ly_world s) t ∨ taken_in (current s) s t ∨
    ∃ txIDs, lw_connections (ly_world s) !! k = Some (Resubscribing txIDs) ∧ t ∈ txIDs.

Lemma batch_fate_ctx n batch : batch_fate (set_ctx true n) batch ↔ batch_fate n batch.
Proof. done. Qed.

(** Replacing a session by one with the same run of [onConnect]. *)
Lemma log_inv_session s i se0 se w start backoff ctx :
  log_inv s → ly_sessions s !! i = Some se0 → se_conn se = se_conn se0 →
  (∀ n batch, se_notify se0 = Some n → batch_fate n batch → ∃ n', se_notify se = Some n' ∧ batch_fate n' batch) →
  length (lw_connections w) = length (lw_connections (ly_world s)) →
  log_inv (MkListenerSystem w (<[i := se]> (ly_sessions s)) start backoff ctx (ly_log s)).
Proof.
  intros [Hconn Hinj Hfate] Hi Hc Hn Hlen.
  assert (∀ j se', <[i := se]> (ly_sessions s) !! j = Some se' →
    ∃ se1, ly_sessions s !! j = Some se1 ∧ se_conn se' = se_conn se1) as Hold.
  { intros j se' [(<- & <- & _)|(_ & Hj)]%list_lookup_insert_Some; eauto. }
  split; simpl.
  - intros j se' k (se1 & Hj & ->)%Hold Hk. rewrite Hlen. by eapply Hconn.
  - intros j j' se' se'' k (se1 & Hj & ->)%Hold (se2 & Hj' & ->)%Hold. by eapply Hinj.
  - intros j cur batch t Hin Ht. destruct (Hfate j cur batch t Hin Ht) as (Hcur & se1 & n & Hj & Hse & Hf).
    rewrite length_insert. split; [done|]. destruct (decide (j = i)) as [->|Hne].
    + simplify_eq. destruct (Hn n batch Hse Hf) as (n' & ? & ?). exists se, n'.
      by rewrite list_lookup_insert_eq by (by eapply lookup_lt_Some).
    + exists se1, n. by rewrite list_lookup_insert_ne.
Qed.

Lemma log_inv_world s w : log_inv s →
  (length (lw_connections (ly_world s)) ≤ length (lw_connections w))%nat → log_inv (with_world w s).
Proof.
  intros [Hconn Hinj Hfate] Hlen. split; simpl; [|done..]. intros i se k Hi Hk. specialize (Hconn i se k Hi Hk). lia.
Qed.

Lemma log_inv_snapshot s i se : log_inv s → ly_sessions s !! i = Some se → se_conn se = None →
  log_inv (with_world (take_snapshot (ly_world s))
    (with_session i (MkSession (se_ctx se) (Some (length (lw_connections (ly_world s)))) (se_notify se)) s)).
Proof.
  intros [Hconn Hinj Hfate] Hi Hnone. split; simpl.
  - intros j se' k [(<- & <- & _)|(_ & Hj)]%list_lookup_insert_Some Hk; rewrite length_app; simpl.
    + injection Hk as <-. lia.
    + specialize (Hconn j se' k Hj Hk). lia.
  - intros j j' se' se'' k [(<- & <- & _)|(Hne & Hj)]%list_lookup_insert_Some
      [(<- & <- & _)|(Hne' & Hj')]%list_lookup_insert_Some Hk Hk'; [done| | |by eapply Hinj]; simpl in *; simplify_eq.
    + specialize (Hconn _ _ _ Hj' Hk'). lia.
    + specialize (Hconn _ _ _ Hj Hk). lia.
  - intros j cur batch t Hin Ht. destruct (Hfate j cur batch t Hin Ht) as (Hcur & se1 & n & Hj & Hse & Hf).
    rewrite length_insert. split; [done|]. destruct (decide (j = i)) as [->|Hne].
    + simplify_eq. eexists _, n. by rewrite list_lookup_insert_eq by (by eapply lookup_lt_Some).
    + exists se1, n. by rewrite list_lookup_insert_ne.
Qed.

Lemma log_inv_notify s i se n n' f1 taken : log_inv s → ly_sessions s !! i = Some se → se_notify se = Some n →
  own_step (attach (lw_listener (ly_world s)) n) n' → nt_world n' = Some f1 →
  fl_subCh (lw_listener (ly_world s)) = taken ++ nt_txIDs n' →
  log_inv (MkListenerSystem (shared_step f1 n' taken (ly_world s))
    (<[i := MkSession (se_ctx se) (se_conn se) (Some n')]> (ly_sessions s)) (ly_start s) (ly_backoff s) (ly_ctx s)
    (ly_log s ++ ((λ batch, (i, current s, batch)) <$> taken))).
Proof.
  intros Hinv Hi Hn Hown Hw Ht. set (se' := MkSession (se_ctx se) (se_conn se) (Some n')).
  destruct (log_inv_session s i se se' (shared_step f1 n' taken (ly_world s)) (ly_start s) (ly_backoff s) (ly_ctx s))
    as [Hconn Hinj Hfate]; [done|done|done| |done|].
  { intros n1 batch Hn1 Hf. simplify_eq. exists n'. split; [done|].
    by apply (proj2 (proj2 (notify_step_shared _ _ _ _ _ "" Hown Hw Ht))). }
  split; [exact Hconn|exact Hinj|]. simpl in *. intros j cur batch t Hin Hb.
  apply elem_of_app in Hin as [Hin|Hin]; [by eapply Hfate|]. apply list_elem_of_fmap in Hin as (b & [= -> -> ->] & Hin).
  destruct (notify_step_shared _ _ _ _ _ t Hown Hw Ht) as (_ & [->|(b' & -> & Hf)] & _); [by apply elem_of_nil in Hin|].
  apply list_elem_of_singleton in Hin as ->. rewrite length_insert. unfold current. split; [apply lookup_lt_Some in Hi; lia|].
  exists se', n'. rewrite list_lookup_insert_eq by (by eapply lookup_lt_Some). auto.
Qed.

Lemma log_inv_begin s : log_inv s →
  log_inv (MkListenerSystem (ly_world s) (ly_sessions s ++ [new_session]) (InSession (length (ly_sessions s)))
    (ly_backoff s) (ly_ctx s) (ly_log s)).
Proof.
  intros [Hconn Hinj Hfate]. split; simpl.
  - intros j se k [Hj|[_ [_ <-]%list_lookup_singleton_Some]]%lookup_app_Some Hk; [by eapply Hconn|done].
  - intros j j' se se' k [Hj|[_ [_ <-]%list_lookup_singleton_Some]]%lookup_app_Some; [|done].
    intros [Hj'|[_ [_ <-]%list_lookup_singleton_Some]]%lookup_app_Some; [by eapply Hinj|done].
  - intros j cur batch t Hin Ht. destruct (Hfate j cur batch t Hin Ht) as (Hcur & se1 & n & Hj & Hse & Hf).
    rewrite length_app. simpl. split; [lia|]. exists se1, n. by rewrite (lookup_app_l_Some _ _ _ _ Hj).
Qed.

Lemma log_inv_cancel s : log_inv s →
  log_inv (MkListenerSystem (ly_world s) (cancel_session <$> ly_sessions s) (ly_start s) (ly_backoff s) true (ly_log s)).
Proof.
  intros [Hconn Hinj Hfate]. split; simpl.
  - intros j se k. rewrite list_lookup_fmap. intros (se0 & Hj & ->)%fmap_Some. exact (Hconn j se0 k Hj).
  - intros j j' se se' k. rewrite !list_lookup_fmap. intros (se0 & Hj & ->)%fmap_Some (se1 & Hj' & ->)%fmap_Some.
    exact (Hinj j j' se0 se1 k Hj Hj').
  - intros j cur batch t Hin Ht. destruct (Hfate j cur batch t Hin Ht) as (Hcur & se1 & n & Hj & Hse & Hf).
    rewrite length_fmap. split; [done|]. exists (cancel_session se1), (set_ctx true n).
    rewrite list_lookup_fmap, Hj. simpl. by rewrite Hse.
Qed.

Lemma system_step_log s s' : world_inv (ly_world s) → system_step s s' → log_inv s → log_inv s'.
Proof.
  intros Hw Hstep Hinv. destruct Hstep as [w Hc| |i se k txIDs f Hi Hk Hcs Hq|i se k txIDs Hi Hk Hctx Hcs
    |i se k reply f Hi Hk Hcs Hrec|i se opened Hi Hn| | |i se n r Hst Hi Hn Hr| | | |].
  - apply log_inv_world; [done|]. by destruct (caller_step_awaiting _ _ "" Hw Hc) as (_ & _ & ->).
  - by apply log_inv_snapshot.
  - apply log_inv_world; [done|]. simpl. by rewrite length_insert.
  - apply log_inv_world; [done|]. simpl. by rewrite length_insert.
  - apply log_inv_world; [done|]. simpl. by rewrite length_insert.
  - eapply log_inv_session; [done|exact Hi|done| |done]. intros n batch Hn'. congruence.
  - by eapply log_inv_notify.
  - by apply log_inv_begin.
  - assert (∀ m batch, se_notify se = Some m → batch_fate m batch →
      ∃ m', se_notify (cancel_session se) = Some m' ∧ batch_fate m' batch) as Hf.
    { intros m batch Hm Hf. exists (set_ctx true m). simpl. by rewrite Hm. }
    case_decide; exact (log_inv_session s i se (cancel_session se) _ _ _ _ Hinv Hi eq_refl Hf eq_refl).
  - by destruct Hinv; split.
  - by destruct Hinv; split.
  - by destruct Hinv; split.
  - by apply log_inv_cancel.
Qed.

(** A step of another part of the system, which leaves the current session and
    its run of [onConnect] as they are. *)
Lemma covers_frame s s' :
  length (ly_sessions s') = length (ly_sessions s) →
  (∀ se', ly_sessions s' !! current s = Some se' → se_ctx se' = false →
    ∃ se, ly_sessions s !! current s = Some se ∧ se_ctx se = false ∧ se_conn se = se_conn se') →
  (∀ k t txIDs, lw_connections (ly_world s) !! k = Some (Resubscribing txIDs) → t ∈ txIDs →
    queued (ly_world s') t ∨ lw_connections (ly_world s') !! k = Some (Resubscribing txIDs) ∨
    ∃ j se, j ≠ current s ∧ ly_sessions s !! j = Some se ∧ se_conn se = Some k ∨
            j = current s ∧ ly_sessions s !! j = Some se ∧ se_ctx se = true ∧ se_conn se = Some k) →
  (∀ t, awaiting (ly_world s') t → awaiting (ly_world s) t ∨ queued (ly_world s') t) →
  (∀ t, queued (ly_world s) t → queued (ly_world s') t ∨ taken_in (current s) s' t) →
  (∀ e, e ∈ ly_log s → e ∈ ly_log s') →
  log_inv s → covers s → covers s'.
Proof.
  intros Hlen Hse Hcs Haw Hq Hlog Hinv Hcov se' k. unfold current. rewrite Hlen. fold (current s). intros Hi' Hctx' Hk' t Ht.
  destruct (Hse se' Hi' Hctx') as (se & Hi & Hctx & Hk). rewrite <- Hk in Hk'.
  destruct (Haw t Ht) as [Ht0|?]; [|by left].
  destruct (Hcov se k Hi Hctx Hk' t Ht0) as [Hq0|[(j & b & Hin & Hb)|(txIDs & Hc & Hin)]].
  - destruct (Hq t Hq0); auto.
  - right; left. exists j, b. auto.
  - destruct (Hcs k t txIDs Hc Hin) as [?|[?|(j & se1 & [(Hne & Hj & Hk1)|(-> & Hj & Hc1 & _)])]].
    + by left.
    + right; right. eauto.
    + destruct Hne. exact (lg_inj s Hinv j (current s) se1 se k Hj Hi Hk1 Hk').
    + rewrite Hi in Hj. injection Hj as <-. congruence.
Qed.

(** The snapshot of the current session has every caller that waits. *)
Lemma covers_snapshot s i se : map_order order → log_inv s → covers s →
  ly_sessions s !! i = Some se → se_conn se = None →
  covers (with_world (take_snapshot (ly_world s))
    (with_session i (MkSession (se_ctx se) (Some (length (lw_connections (ly_world s)))) (se_notify se)) s)).
Proof.
  intros Hord Hinv Hcov Hi Hnone se' k. unfold current. simpl. rewrite length_insert. fold (current s).
  intros [(<- & <- & _)|(Hne & Hj)]%list_lookup_insert_Some Hctx Hk t Ht; simpl in *.
  - injection Hk as <-. rewrite lookup_app_r, Nat.sub_diag by lia. simpl.
    destruct Ht as (c & wt & Hc & Hid & Hat & Hp). simpl in Hp.
    assert (t ∈ snapshot_pending order (lw_listener (ly_world s))) as Hin.
    { unfold snapshot_pending. rewrite (Hord nat _). apply list_elem_of_fmap. exists (t, c). by rewrite elem_of_map_to_list. }
    rewrite decide_False; [by right; right; eauto|].
    intros Hnil%nil_length_inv. rewrite Hnil in Hin. by apply elem_of_nil in Hin.
  - destruct (Hcov se' k Hj Hctx Hk t Ht) as [?|[?|(txIDs & Hc & Hin)]]; [by left|by right; left|].
    right; right. exists txIDs. by rewrite (lookup_app_l_Some _ _ _ _ Hc).
Qed.

Lemma covers_connection s i se k c f : log_inv s → covers s →
  ly_sessions s !! i = Some se → se_conn se = Some k →
  (∀ t, (∃ b, b ∈ fl_subCh (lw_listener (ly_world s)) ∧ t ∈ b) → ∃ b, b ∈ fl_subCh f ∧ t ∈ b) →
  (∀ t ch, fl_pending f !! t = Some ch → fl_pending (lw_listener (ly_world s)) !! t = Some ch) →
  (∀ txIDs t, lw_connections (ly_world s) !! k = Some (Resubscribing txIDs) → t ∈ txIDs →
     (∃ b, b ∈ fl_subCh f ∧ t ∈ b) ∨ se_ctx se = true) →
  covers (with_world (connection_at k c f (ly_world s)) s).
Proof.
  intros Hinv Hcov Hi Hk Hq Hp Hre. eapply (covers_frame s); [done| | | | |done|done|done].
  - intros se' Hi' Hc'. by exists se'.
  - intros k' t txIDs Hc Hin. simpl. destruct (decide (k' = k)) as [->|Hne]; [|right; left; by rewrite list_lookup_insert_ne].
    destruct (Hre txIDs t Hc Hin) as [?|Hctx]; [by left|]. right; right.
    destruct (decide (i = current s)) as [->|Hne]; [|by exists i, se; left]. exists (current s), se. by right.
  - intros t (ch & wt & Hw & Hid & Hat & Hpc). left. exists ch, wt. split_and!; [done..|]. by apply Hp.
  - intros t (b & Hb & Ht). left. apply Hq. eauto.
Qed.

Lemma covers_notify s i se n n' f1 taken : log_inv s → covers s → ly_sessions s !! i = Some se → se_notify se = Some n →
  own_step (attach (lw_listener (ly_world s)) n) n' → nt_world n' = Some f1 →
  fl_subCh (lw_listener (ly_world s)) = taken ++ nt_txIDs n' →
  covers (MkListenerSystem (shared_step f1 n' taken (ly_world s))
    (<[i := MkSession (se_ctx se) (se_conn se) (Some n')]> (ly_sessions s)) (ly_start s) (ly_backoff s) (ly_ctx s)
    (ly_log s ++ ((λ batch, (i, current s, batch)) <$> taken))).
Proof.
  intros Hinv Hcov Hi Hn Hown Hw Ht. eapply (covers_frame s); [simpl; by rewrite length_insert| | | | | |done|done]; simpl.
  - intros se' [(<- & <- & _)|(_ & Hj)]%list_lookup_insert_Some Hctx; [by exists se|by exists se'].
  - intros k t txIDs Hc _. right; by left.
  - intros t (ch & wt & Hwt & Hid & Hat & Hpc). left. exists ch, wt. split_and!; [done..|].
    by apply (proj1 (notify_step_shared _ _ _ _ _ t Hown Hw Ht)).
  - intros t (b & Hb & Hin). rewrite Ht in Hb. apply elem_of_app in Hb as [Hb|Hb]; [right|left; by exists b].
    exists i, b. split; [|done]. simpl. rewrite elem_of_app. right. apply list_elem_of_fmap. by exists b.
  - intros e He. rewrite elem_of_app. by left.
Qed.

(** The remaining steps change at most the state of [Notify] or the contexts. *)
Lemma covers_sessions s sessions start backoff ctx : log_inv s → covers s →
  length sessions = length (ly_sessions s) →
  (∀ i se', sessions !! i = Some se' → se_ctx se' = false →
    ∃ se, ly_sessions s !! i = Some se ∧ se_ctx se = false ∧ se_conn se = se_conn se') →
  covers (MkListenerSystem (ly_world s) sessions start backoff ctx (ly_log s)).
Proof.
  intros Hinv Hcov Hlen Hse. eapply (covers_frame s); [done|by apply Hse| | | |done|done|done].
  - intros k t txIDs Hc _. right; by left.
  - by left.
  - by left.
Qed.

Lemma covers_session s i se0 se start backoff ctx : log_inv s → covers s → ly_sessions s !! i = Some se0 →
  (se_ctx se = false → se_ctx se0 = false) → se_conn se = se_conn se0 →
  covers (MkListenerSystem (ly_world s) (<[i := se]> (ly_sessions s)) start backoff ctx (ly_log s)).
Proof.
  intros Hinv Hcov Hi Hc Hk. apply covers_sessions; [done..|by rewrite length_insert|].
  intros j se' [(<- & <- & _)|(_ & Hj)]%list_lookup_insert_Some Hctx; [exists se0; auto|by exists se'].
Qed.

Lemma system_step_covers s s' : map_order order → world_inv (ly_world s) → system_step s s' → log_inv s → covers s → covers s'.
Proof.
  intros Hord Hw Hstep Hinv Hcov. destruct Hstep as [w Hc|i se Hi Hnone|i se k txIDs f Hi Hk Hcs Hq|i se k txIDs Hi Hk Hctx Hcs
    |i se k reply f Hi Hk Hcs Hrec|i se opened Hi Hn|i se n n' f1 taken Hi Hn Hown Hw1 Ht|Hst Hctx|i se n r Hst Hi Hn Hr| | | |].
  - pose proof (λ t, caller_step_awaiting _ _ t Hw Hc) as Hall.
    eapply (covers_frame s); [done| | | | |done|done|done].
    + intros se' Hi Hctx. by exists se'.
    + intros k t ids Hk _. right; left. simpl. by rewrite (proj2 (proj2 (Hall t))).
    + intros t. apply Hall.
    + intros t Hq. left. by apply Hall.
  - by apply covers_snapshot.
  - apply subscribe_batch_queue in Hq as [Hq Hp]. eapply covers_connection; [done..| | |]; rewrite ?Hq, ?Hp.
    + set_solver.
    + done.
    + intros ids t Hids Hin. simplify_eq. left. exists txIDs. set_solver.
  - eapply covers_connection; [done..| | |]; auto.
  - destruct (reconcile_handle _ _ _ Hrec) as [events Hh]. eapply covers_connection; [done..| | |].
    + by rewrite (Handle_subCh _ _ _ Hh).
    + intros t ch. by eapply Handle_pending.
    + intros ids t Hids. congruence.
  - by eapply covers_session.
  - by eapply covers_notify.
  - intros se k. unfold current. simpl. rewrite length_app, Nat.add_1_r. simpl.
    rewrite lookup_app_r, Nat.sub_diag by lia. by intros [= <-].
  - assert (se_ctx (cancel_session se) = false → se_ctx se = false) as Hc by done.
    case_decide; exact (covers_session s i se (cancel_session se) _ _ _ Hinv Hcov Hi Hc eq_refl).
  - by apply covers_sessions; eauto.
  - by apply covers_sessions; eauto.
  - by apply covers_sessions; eauto.
  - apply covers_sessions; [done..|by rewrite length_fmap|]. intros i se'. rewrite list_lookup_fmap.
    by intros (se & _ & ->)%fmap_Some.
Qed.

Lemma system_reachable_covers s : map_order order → system_reachable s → log_inv s ∧ covers s.
Proof.
  intros Hord Hr. refine (rtc_ind_r (λ s, system_reachable s → log_inv s ∧ covers s) _ _ _ s Hr Hr).
  - intros _. split; [split; simpl; [done..|by intros ? ? ? ? ?%elem_of_nil]|]. by intros se k.
  - intros s1 s2 Hr1 Hs IH _. destruct (IH Hr1) as [Hi Hc].
    pose proof (listener_reachable_inv _ _ (system_refines_listener s1 Hr1)) as Hw.
    split; [by eapply system_step_log|by eapply system_step_covers].
Qed.

(** C27: a subscription is not forgotten: while the last session is up and has taken up the
    pending callers, the id of every caller that waits is in a batch that is queued for
    the stream, or in one that was taken from the queue during this session: by the
    session's own send loop, which then has sent it, is about to, or has ended because a
    send failed, or by the send loop of an earlier session. *)
Theorem subscription_under_way s i se k :
  map_order order → system_reachable s → ly_sessions s !! i = Some se → length (ly_sessions s) = S i →
  se_ctx se = false → se_conn se = Some k → (∀ ids, lw_connections (ly_world s) !! k ≠ Some (Resubscribing ids)) →
  ∀ t, awaiting (ly_world s) t →
    queued (ly_world s) t ∨
    (∃ n batch, se_notify se = Some n ∧ t ∈ batch ∧ batch_fate n batch) ∨
    ∃ j batch, (j < i)%nat ∧ (j, i, batch) ∈ ly_log s ∧ t ∈ batch.
Proof.
  intros Hord Hr Hi Hlen Hctx Hk Hup t Ht. destruct (system_reachable_covers s Hord Hr) as [Hinv Hcov].
  assert (current s = i) as Hcur by (unfold current; by rewrite Hlen).
  unfold covers in Hcov. rewrite Hcur in Hcov.
  destruct (Hcov se k Hi Hctx Hk t Ht) as [?|[(j & batch & Hin & Hb)|(ids & Hids & _)]];
    [by left|right|by destruct (Hup ids)].
  destruct (lg_fate s Hinv j i batch t Hin Hb) as (_ & se' & n & Hj & Hn & Hf).
  destruct (decide (j = i)) as [->|Hne]; [left|right].
  - simplify_eq. by exists n, batch.
  - exists j, batch. split; [|done]. apply lookup_lt_Some in Hj. lia.
Qed.

(** ** A stream that ended *)

(** The receive loop has ended on EOF and nothing has failed. *)
Definition silent (n : peer_notify) : Prop :=
  nt_receiver n = RecvEnd Over ∧ (nt_sender n = SendSelect ∨ ∃ batch, nt_sender n = Sending batch) ∧
  nt_caller n = false ∧ nt_ctx n = false ∧ nt_closed n = false ∧ nt_errCh n = None ∧ nt_result n = None.

Lemma silent_step n n' : own_step n n' → silent n →
  nt_errs n' ≠ [] ∨ silent n' ∧ nt_responses n' = nt_responses n.
Proof.
  unfold silent. intros (Hstep & _ & Hcl & Hca) (Hr & Hs & Hc & Hx & Hd & He & Hres).
  peer_cases Hstep; try congruence; try (by destruct Hs as [?|[? ?]]; congruence); try (by right; naive_solver).
  - right. split; [|done]. split_and!; try done. case_decide; [by left|by right; eexists].
  - left. by destruct (nt_errs n).
Qed.

Lemma errs_kept n n' : own_step n n' → nt_errs n ≠ [] → nt_errs n' ≠ [].
Proof. intros [Hstep _]. by eapply errs_nonempty_step. Qed.

(** Session [i] is where [Start] stays, until something fails or is cancelled. *)
Definition stuck_in (i : nat) (responses : list NotificationResponse) (s : listener_system) : Prop :=
  ly_ctx s = true ∨ ∃ se n, ly_sessions s !! i = Some se ∧ se_notify se = Some n ∧
    (nt_errs n ≠ [] ∨ silent n ∧ nt_responses n = responses ∧ ly_start s = InSession i).

Lemma stuck_step i responses s s' : system_step s s' → stuck_in i responses s → stuck_in i responses s'.
Proof.
  intros Hstep Hst. destruct (decide (ly_ctx s = true)) as [Hc|Hc].
  { left. destruct Hstep; simpl; try done. by case_decide. }
  destruct Hst as [?|(se & n & Hi & Hn & Hor)]; [done|].
  destruct Hstep as [w _|j sj Hj _|j sj k txIDs f _ _ _ _|j sj k txIDs _ _ _ _|j sj k reply f _ _ _ _|j sj opened Hj Hnj
    |j sj m m' f1 taken Hj Hm Hown _ _|Hs0 _|j sj m r Hs0 Hj Hm Hr|Hs0|Hs0 ?|Hs0 ?|]; try (right; exists se, n; by split_and!).
  - right. destruct (decide (j = i)) as [->|Hne]; simpl.
    + rewrite list_lookup_insert_eq by (by eapply lookup_lt_Some). simplify_eq. eexists _, n. by split_and!.
    + rewrite list_lookup_insert_ne by done. exists se, n. by split_and!.
  - right. simpl. rewrite list_lookup_insert_ne; [by exists se, n|]. intros ->. congruence.
  - right. destruct (decide (j = i)) as [->|Hne]; simpl.
    + rewrite list_lookup_insert_eq by (by eapply lookup_lt_Some). simplify_eq. eexists _, m'. split_and!; [done..|].
      destruct Hor as [He|(Hsil & Hres & Hin)]; [left; by eapply (errs_kept (attach _ m))|].
      destruct (silent_step _ _ Hown Hsil) as [?|[? Hr]]; [by left|right]. split_and!; [done|by rewrite Hr|done].
    + rewrite list_lookup_insert_ne by done. exists se, n. by split_and!.
  - right. exists se, n. simpl. rewrite (lookup_app_l_Some _ _ _ _ Hi). split_and!; [done..|].
    destruct Hor as [?|(_ & _ & ?)]; [by left|congruence].
  - right. destruct (decide (j = i)) as [->|Hne].
    + rewrite Hi in Hj. injection Hj as <-. rewrite Hn in Hm. injection Hm as <-.
      destruct Hor as [He|((_ & _ & _ & _ & _ & _ & Hnone) & _)]; [|congruence].
      exists (cancel_session se), (set_ctx true n). split_and!; [|simpl; by rewrite Hn|by left].
      case_decide; simpl; by rewrite list_lookup_insert_eq by (by eapply lookup_lt_Some).
    + exists se, n. simpl. split_and!; [case_decide; simpl; by rewrite list_lookup_insert_ne|done|].
      destruct Hor as [?|(_ & _ & ?)]; [by left|congruence].
  - right. exists se, n. split_and!; [done..|]. destruct Hor as [?|(_ & _ & ?)]; [by left|congruence].
  - by left.
Qed.

(** A stream that the service ends is not replaced: from a state in which the stream of
    the current session has ended, in every later state that is reached without a
    cancellation and without a failing send, [Start] is still in this session, whose
    receive loop is over, so that no event of the service reaches any caller. *)
Theorem ended_stream_stalls_listener s s' i se n :
  ly_start s = InSession i → ly_sessions s !! i = Some se → se_notify se = Some n → silent n →
  rtc system_step s s' → ly_ctx s' = false →
  (∀ se' n', ly_sessions s' !! i = Some se' → se_notify se' = Some n' → nt_errs n' = []) →
  ly_start s' = InSession i ∧ ∃ se' n', ly_sessions s' !! i = Some se' ∧ se_notify se' = Some n' ∧
    nt_receiver n' = RecvEnd Over ∧ nt_responses n' = nt_responses n ∧ nt_result n' = None.
Proof.
  intros Hst Hi Hn Hsil Hr Hctx Herr.
  assert (stuck_in i (nt_responses n) s') as Hstuck.
  { refine (rtc_ind_r (stuck_in i (nt_responses n)) s _ _ s' Hr); [|by intros ? ? _; apply stuck_step].
    right. exists se, n. split_and!; [done..|]. by right. }
  destruct Hstuck as [?|(se' & n' & Hi' & Hn' & Hor)]; [congruence|].
  destruct Hor as [He|(Hs' & Hresp & Hin)]; [by destruct (He (Herr se' n' Hi' Hn'))|].
  split; [done|]. exists se', n'. destruct Hs' as (? & _ & _ & _ & _ & _ & ?). by split_and!.
Qed.

End Sessions.

(** ** Runs *)

Module SessionRuns.
#[local] Existing Instance committer_codes.

#[local] Abbreviation run := (rtc (system_step map_list 60)).
#[local] Abbreviation listening := (notify_open (W := option FinalityListener) (Ret tt) (Some NewFinalityListener)).

(** A session is open and has found nobody pending. *)
Definition connected_world : listener_world := MkListenerWorld NewFinalityListener [] [Connected] [].

Definition opened : listener_system :=
  MkListenerSystem connected_world [MkSession false (Some 0%nat) (Some listening)] (InSession 0) initBackoff false [].

Lemma opened_run : run new_system opened.
Proof.
  eapply rtc_l; [by apply ss_begin|]. eapply rtc_l; [by eapply (ss_open _ _ _ 0 _ (Ret tt))|].
  eapply rtc_l; [by eapply (ss_snapshot _ _ _ 0)|]. apply rtc_refl.
Qed.

(** A caller waits for "a". *)
Definition waiting_world : listener_world :=
  MkListenerWorld (MkFinalityListener {["a" := 0%nat]} [None] [["a"]]) [MkWaiter "a" Waiting] [Connected] [].

Definition waiting : listener_system :=
  MkListenerSystem waiting_world [MkSession false (Some 0%nat) (Some listening)] (InSession 0) initBackoff false [].

Lemma callers_wait conns s :
  ly_world s = MkListenerWorld NewFinalityListener [] conns [] →
  run s (with_world (MkListenerWorld (MkFinalityListener {["a" := 0%nat]} [None] [["a"]]) [MkWaiter "a" Waiting] conns []) s).
Proof.
  intros Hw. eapply rtc_l.
  - apply ss_caller. rewrite Hw. split; [eapply (ls_register _ _ [] _ _ "a"); reflexivity|done].
  - eapply rtc_l.
    + apply ss_caller. split; [eapply (ls_queue _ _ [MkWaiter "a" Queueing] _ _ 0); reflexivity|done].
    + apply rtc_refl.
Qed.

Lemma waiting_reachable : system_reachable map_list 60 waiting.
Proof. unfold system_reachable. etrans; [exact opened_run|]. by apply (callers_wait [Connected]). Qed.

Definition cancelled : listener_system :=
  MkListenerSystem waiting_world (cancel_session <$> ly_sessions waiting) (InSession 0) initBackoff true [].

Lemma cancelled_reachable : system_reachable map_list 60 cancelled.
Proof. eapply rtc_r; [exact waiting_reachable|]. apply ss_cancel. Qed.

(** The stream of the first session breaks, and a second session opens. *)
Definition reset : error := Errorf "connection reset" [].

#[local] Abbreviation failing := (loop_failed (recv_error reset) (receiver_to (RecvEnd (Posting (recv_error reset))) listening)).
#[local] Abbreviation over := (set_ctx true (notify_return (Some (recv_error reset))
  (receiver_to (RecvEnd Posted) (fst (post (recv_error reset) failing))))).

Definition reconnected : listener_system :=
  MkListenerSystem (MkListenerWorld NewFinalityListener [] [Connected; Connected] [])
    [MkSession true (Some 0%nat) (Some over); MkSession false (Some 1%nat) (Some listening)]
    (InSession 1) (initBackoff * 2) false [].

Lemma reconnected_reachable : system_reachable map_list 60 reconnected.
Proof.
  unfold system_reachable. etrans; [exact opened_run|].
  eapply rtc_l.
  { eapply (ss_notify _ _ _ 0 _ listening failing _ []); [done..| |done|done].
    split; [by apply (ns_recv_error _ _ _ reset)|done]. }
  eapply rtc_l.
  { eapply (ss_notify _ _ _ 0 _ failing (receiver_to (RecvEnd Posted) (fst (post (recv_error reset) failing))) _ []);
      [done..| |done|done]. split; [by eapply ns_post_recv|done]. }
  eapply rtc_l.
  { eapply (ss_notify _ _ _ 0 _ _ (notify_return (Some (recv_error reset))
      (receiver_to (RecvEnd Posted) (fst (post (recv_error reset) failing)))) _ []); [done..| |done|done].
    split; [by apply ns_return_error|done]. }
  eapply rtc_l; [by eapply (ss_session_over _ _ _ 0)|]. rewrite decide_True by done.
  eapply rtc_l; [by apply ss_pause_over|]. eapply rtc_l; [by apply ss_begin|].
  eapply rtc_l; [by eapply (ss_open _ _ _ 1 _ (Ret tt))|].
  eapply rtc_l; [by eapply (ss_snapshot _ _ _ 1)|]. apply rtc_refl.
Qed.

(** The send loop of the first session takes the subscription of the caller. *)
Definition stolen : listener_system :=
  MkListenerSystem
    (MkListenerWorld (MkFinalityListener {["a" := 0%nat]} [None] []) [MkWaiter "a" Waiting] [Connected; Connected] [["a"]])
    [MkSession true (Some 0%nat) (Some (take_batch ["a"] []
       (attach (MkFinalityListener {["a" := 0%nat]} [None] [["a"]]) over)));
     MkSession false (Some 1%nat) (Some listening)]
    (InSession 1) (initBackoff * 2) false [(0%nat, 1%nat, ["a"])].

Lemma stolen_reachable : system_reachable map_list 60 stolen.
Proof.
  unfold system_reachable. etrans; [exact reconnected_reachable|]. etrans; [by apply (callers_wait [Connected; Connected])|].
  eapply rtc_l.
  - eapply (ss_notify _ _ _ 0 _ over (take_batch ["a"] []
      (attach (MkFinalityListener {["a" := 0%nat]} [None] [["a"]]) over)) _ [["a"]]); [done..| |done|done].
    split; [by apply ns_take|done].
  - apply rtc_refl.
Qed.

End SessionRuns.

(** A session that is over can take what is meant for the next one: the send loop of a
    session does not end before it sees its context, and the channel is shared.  A caller
    that registered after the current session was connected then waits although nothing
    is queued for it and the current session, which is up, has not sent its id. *)
Theorem stale_session_takes_subscription :
  ∃ s se n, @system_reachable committer_codes map_list 60 s ∧ ly_start s = InSession 1 ∧
    ly_sessions s !! 1%nat = Some se ∧ se_ctx se = false ∧ se_notify se = Some n ∧
    nt_result n = None ∧ nt_sender n = SendSelect ∧ nt_receiver n = RecvWait ∧ nt_sent n = [] ∧
    awaiting (ly_world s) "a" ∧ ¬ queued (ly_world s) "a".
Proof.
  eexists SessionRuns.stolen, _, _. split; [exact SessionRuns.stolen_reachable|]. split_and!; try done.
  - by exists 0%nat, (MkWaiter "a" Waiting).
  - by intros (batch & ?%elem_of_nil & _).
Qed.

Lemma sessions_serve_callers_witness :
  "a" ∈ snapshot_pending map_list (lw_listener (ly_world SessionRuns.waiting)).
Proof.
  destruct (sessions_serve_callers (H := committer_codes) map_list 60 SessionRuns.waiting 0 (MkWaiter "a" Waiting) map_list_order
    SessionRuns.waiting_reachable (NoDup_singleton _) eq_refl ltac:(intros r; discriminate)) as [(e & He & _)|[Hin _]];
    [discriminate He|exact Hin].
Defined.

Lemma Start_can_return_witness :
  ∃ s', rtc (system_step (H := committer_codes) map_list 60) SessionRuns.cancelled s' ∧ ly_start s' = StartReturned.
Proof. exact (Start_can_return (H := committer_codes) map_list 60 _ SessionRuns.cancelled_reachable eq_refl). Defined.

Lemma subscription_under_way_witness :
  queued (ly_world SessionRuns.waiting) "a" ∨
  (∃ n batch, se_notify (MkSession false (Some 0%nat) (Some (notify_open (Ret tt) (Some NewFinalityListener)))) = Some n ∧
     "a" ∈ batch ∧ batch_fate n batch) ∨
  ∃ j batch, (j < 0)%nat ∧ (j, 0%nat, batch) ∈ ly_log SessionRuns.waiting ∧ "a" ∈ batch.
Proof.
  apply (subscription_under_way (H := committer_codes) map_list 60 SessionRuns.waiting 0 _ 0 map_list_order
    SessionRuns.waiting_reachable eq_refl eq_refl eq_refl eq_refl); [intros ids; discriminate|].
  exists 0%nat, (MkWaiter "a" Waiting). split_and!; reflexivity.
Defined.
