(* ===== verification/QueryService.v ===== *)
(** * The query-service store

    The store of package state/queryservice, which keeps no state of its own:
    [Store] and its snapshots (store.go) read through a [Client], and
    [GRPCClient] (client.go) spreads the views over several connections.

    The class [Client] is the Go interface; [ClientLaws] is what its comments
    promise a store: the contents of an open view are fixed, at its first read
    or at any time before, and stay the same whatever else happens.
    The store is proved against the class.  [GRPCClient] is an instance of it
    over a remote service whose views live on the instance that opened them
    ([ServiceLaws]): it keeps the laws because every call of a view goes over
    the connection of the view.  Together: a snapshot reads one state of the
    ledger, through the cache and over any number of connections, while blocks
    commit and other snapshots come and go. *)

From S2P Require Import Prelude Blocks.

Record Row := MkQueryRow { qr_Key : bytes; qr_Value : bytes; qr_Version : Z }.

(** ** The interface of the store *)

Class Client (C : Type) := {
  BeginView : C → C * outcome string;
  GetRows : string → string → list bytes → C → C * outcome (list Row);
  EndView : string → C → C * outcome unit }.

(** The contents of a view: the value and the version of each key. *)
Definition contents : Type := string → bytes → option (bytes * Z).

(** [rows] answers a query for [keys] of [ns]: the first row of a key is its
    entry, and a key without row has none. *)
Definition answers (sigma : contents) (ns : string) (keys : list bytes) (rows : list Row) : Prop :=
  ∀ key, key ∈ keys →
    (λ r, (qr_Value r, qr_Version r)) <$> (list_find (λ r, qr_Key r = key) rows ≫= λ p, Some p.2) = sigma ns key.

(** What is known of the contents of a view: nothing until they are fixed, which
    is at the first read at the latest. *)
Definition fixes {A} (o o' : option A) : Prop := o = None ∨ o = o'.

Lemma fixes_trans {A} (o1 o2 o3 : option A) : fixes o1 o2 → fixes o2 o3 → fixes o1 o3.
Proof. unfold fixes. naive_solver. Qed.

Lemma fixes_some {A} (x : A) o : fixes (Some x) o → o = Some x.
Proof. by intros [|<-]. Qed.

(** [holds view o c]: the view is open in the state [c], with the contents [o] if
    they are fixed.  [commits] are the changes of the remote state that are not
    calls of the client. *)
Class ClientLaws (C : Type) `{Client C} (holds : string → option contents → C → Prop) (commits : C → C → Prop) := {
  BeginView_holds c c' view : BeginView c = (c', Ok view) → view ≠ "" ∧ ∃ o, holds view o c';
  BeginView_keeps c view o : holds view o c → ∃ o', fixes o o' ∧ holds view o' (fst (BeginView c));
  GetRows_answers c c' view o ns keys rows :
    holds view o c → GetRows view ns keys c = (c', Ok rows) →
    ∃ sigma, fixes o (Some sigma) ∧ holds view (Some sigma) c' ∧ answers sigma ns keys rows;
  GetRows_keeps c view view' o ns keys :
    holds view o c → ∃ o', fixes o o' ∧ holds view o' (fst (GetRows view' ns keys c));
  GetRows_safe c view o ns keys : holds view o c → snd (GetRows view ns keys c) ≠ Panic;
  EndView_keeps c view view' o : view ≠ view' → holds view o c → ∃ o', fixes o o' ∧ holds view o' (fst (EndView view' c));
  commits_keep c c' view o : commits c c' → holds view o c → ∃ o', fixes o o' ∧ holds view o' c' }.

(** ** The store and its snapshots *)

Section Store.
Context {C : Type} `{Client C}.

Record Store := MkStore { st_height : Z }.

Definition NewStore : Store := MkStore 0.

(** A snapshot; the cache maps to [None] a key that is known to be absent. *)
Record snapshot := MkQuerySnapshot { sn_viewID : string; sn_cache : gmap string (option WriteRecord) }.

Definition store_Snapshot (c : C) : C * outcome snapshot :=
  let '(c', r) := BeginView c in (c', (λ viewID, MkQuerySnapshot viewID ∅) <$> r).

Definition ErrHistoryUnavailable : error := Errorf "state: history unavailable at requested height" [].

Definition store_SnapshotAt (block : Z) : result snapshot := Fail ErrHistoryUnavailable.

(** The first row whose key is the one asked for. *)
Fixpoint first_row (namespace key : string) (rows : list Row) : option WriteRecord :=
  match rows with
  | [] => None
  | r :: rs =>
      if bool_decide (string_of_bytes (qr_Key r) = key)
      then Some (MkWriteRecord namespace key 0 0 (qr_Version r) (qr_Value r) false "")
      else first_row namespace key rs
  end.

Definition store_get (viewID namespace key : string) (c : C) : C * outcome (option WriteRecord) :=
  let '(c', r) := GetRows viewID namespace [bytes_of_string key] c in (c', first_row namespace key <$> r).

Definition store_Get (namespace key : string) (c : C) : C * outcome (option WriteRecord) :=
  store_get "" namespace key c.

Definition store_Handle (b : Block) (s : Store) : Store :=
  if st_height s <? blk_Number b then MkStore (blk_Number b) else s.

Definition SetBlockNumber (n : Z) (s : Store) : Store := MkStore n.

Definition store_BlockNumber (s : Store) : result Z := Ret (st_height s).

Definition cache_key (namespace key : string) : string := join_key nul namespace key.

Definition cached_Get (namespace key : string) (s : snapshot) (c : C) : snapshot * C * outcome (option WriteRecord) :=
  let ck := cache_key namespace key in
  match sn_cache s !! ck with
  | Some rec => (s, c, Ok rec)
  | None =>
      match store_get (sn_viewID s) namespace key c with
      | (c', Ok rec) => (MkQuerySnapshot (sn_viewID s) (<[ck := rec]> (sn_cache s)), c', Ok rec)
      | (c', Err err) => (s, c', Err err)
      | (c', Panic) => (s, c', Panic)
      end
  end.

Definition snapshot_Close (s : snapshot) (c : C) : C * outcome unit := EndView (sn_viewID s) c.

(** What can happen while a snapshot is not closed: reads of it in namespaces
    without NUL, calls of other users of the client, and commits.  A read has as
    its label what it returned. *)
Definition observation : Type := string * string * outcome (option WriteRecord).

Inductive snapshot_step (commits : C → C → Prop) : snapshot * C → list observation → snapshot * C → Prop :=
  | sn_get ns key s c s' c' r :
      string_free nul ns = true → cached_Get ns key s c = (s', c', r) → snapshot_step commits (s, c) [(ns, key, r)] (s', c')
  | sn_other_begin s c : snapshot_step commits (s, c) [] (s, fst (BeginView c))
  | sn_other_get view ns keys s c : snapshot_step commits (s, c) [] (s, fst (GetRows view ns keys c))
  | sn_other_end view s c : sn_viewID s ≠ view → snapshot_step commits (s, c) [] (s, fst (EndView view c))
  | sn_commit s c c' : commits c c' → snapshot_step commits (s, c) [] (s, c').

Inductive snapshot_run (commits : C → C → Prop) : snapshot * C → list observation → snapshot * C → Prop :=
  | sr_refl sc : snapshot_run commits sc [] sc
  | sr_step sc obs1 sc1 obs2 sc2 :
      snapshot_step commits sc obs1 sc1 → snapshot_run commits sc1 obs2 sc2 → snapshot_run commits sc (obs1 ++ obs2) sc2.

(** The record that a view has for a key. *)
Definition view_record (sigma : contents) (ns key : string) : option WriteRecord :=
  (λ vv, MkWriteRecord ns key 0 0 vv.2 vv.1 false "") <$> sigma ns (bytes_of_string key).

Lemma first_row_spec ns key rows :
  first_row ns key rows =
  (λ r, MkWriteRecord ns key 0 0 (qr_Version r) (qr_Value r) false "") <$>
    (list_find (λ r, qr_Key r = bytes_of_string key) rows ≫= λ p, Some p.2).
Proof.
  induction rows as [|r rows IH]; simpl; [done|]. case_bool_decide as Heq; case_decide as Hd; simpl.
  - done.
  - destruct Hd. by rewrite <- Heq, bytes_of_string_of_bytes.
  - destruct Heq. by rewrite Hd, string_of_bytes_of_string.
  - rewrite IH. by destruct (list_find _ rows) as [[]|].
Qed.

Lemma first_row_answers sigma ns key rows :
  answers sigma ns [bytes_of_string key] rows → first_row ns key rows = view_record sigma ns key.
Proof.
  intros Ha. unfold view_record. rewrite <- (Ha (bytes_of_string key)) by set_solver.
  rewrite first_row_spec, <- option_fmap_compose. done.
Qed.

(** An observation that agrees with the contents. *)
Definition observes (sigma : contents) (ob : observation) : Prop :=
  let '(ns, key, r) := ob in r ≠ Panic ∧ ∀ rec, r = Ok rec → rec = view_record sigma ns key.

Section reads.
Context (holds : string → option contents → C → Prop) (commits : C → C → Prop).
Context `{!ClientLaws C holds commits}.

(** The view is open, and the cache holds what it reads, once it has read. *)
Definition snapshot_inv (o : option contents) (sc : snapshot * C) : Prop :=
  holds (sn_viewID sc.1) o sc.2 ∧
  ∀ ck rec, sn_cache sc.1 !! ck = Some rec →
    ∃ sigma ns key, o = Some sigma ∧ string_free nul ns = true ∧ ck = cache_key ns key ∧ rec = view_record sigma ns key.

(** Fixing the contents keeps what the cache has. *)
Lemma snapshot_inv_fixes o o' s c c' : snapshot_inv o (s, c) → fixes o o' → holds (sn_viewID s) o' c' →
  snapshot_inv o' (s, c').
Proof.
  intros [_ Hc] Hf Hh. split; [done|]. intros ck rec Hck. destruct (Hc ck rec Hck) as (sigma & ns & key & -> & ?).
  exists sigma, ns, key. by rewrite (fixes_some _ _ Hf).
Qed.

Lemma store_get_reads o view ns key c c' r :
  holds view o c → store_get view ns key c = (c', r) →
  ∃ o', fixes o o' ∧ holds view o' c' ∧ r ≠ Panic ∧
    ∀ rec, r = Ok rec → ∃ sigma, o' = Some sigma ∧ rec = view_record sigma ns key.
Proof.
  unfold store_get. intros Hh. destruct (GetRows view ns _ c) as [c1 r1] eqn:Hg. intros [= <- <-].
  pose proof (GetRows_safe c view o ns [bytes_of_string key] Hh) as Hs. rewrite Hg in Hs.
  destruct r1 as [rows|err|]; [..|done].
  - destruct (GetRows_answers _ _ _ _ _ _ _ Hh Hg) as (sigma & Hf & Hh' & Ha). exists (Some sigma).
    split_and!; [done..|]. intros rec [= <-]. exists sigma. split; [done|]. by apply first_row_answers.
  - destruct (GetRows_keeps c view view o ns [bytes_of_string key] Hh) as (o' & Hf & Hh'). rewrite Hg in Hh'.
    by exists o'.
Qed.

(** A read returns the record of the view, or an error of the client. *)
Lemma cached_Get_reads o ns key s c s' c' r :
  snapshot_inv o (s, c) → string_free nul ns = true → cached_Get ns key s c = (s', c', r) →
  ∃ o', fixes o o' ∧ snapshot_inv o' (s', c') ∧ r ≠ Panic ∧
    ∀ rec, r = Ok rec → ∃ sigma, o' = Some sigma ∧ rec = view_record sigma ns key.
Proof.
  intros Hinv Hns. pose proof Hinv as [Hh Hc]. unfold cached_Get.
  destruct (sn_cache s !! cache_key ns key) as [rec|] eqn:Hck.
  { intros [= <- <- <-]. exists o. split_and!; [by right|done..|]. intros ? [= <-].
    destruct (Hc _ _ Hck) as (sigma & ns' & key' & -> & Hns' & Heq & ->).
    destruct (join_key_inj _ _ _ _ _ Hns Hns' Heq) as [-> ->]. by exists sigma. }
  destruct (store_get (sn_viewID s) ns key c) as [c1 r1] eqn:Hg.
  destruct (store_get_reads _ _ _ _ _ _ _ Hh Hg) as (o' & Hf & Hh' & Hp & Hr).
  pose proof (snapshot_inv_fixes o o' s c c1 Hinv Hf Hh') as Hinv'.
  destruct r1 as [rec|err|]; intros [= <- <- <-]; [|by exists o'..].
  destruct (Hr rec eq_refl) as (sigma & -> & ->). exists (Some sigma). split_and!; [done| |done|by intros ? [= <-]; exists sigma].
  split; [done|]. intros ck rec'. simpl. rewrite lookup_insert_Some.
  intros [[<- <-]|[_ Hin]]; [by exists sigma, ns, key|by apply (proj2 Hinv')].
Qed.

Lemma snapshot_step_inv o sc obs sc' : snapshot_step commits sc obs sc' → snapshot_inv o sc →
  ∃ o', fixes o o' ∧ snapshot_inv o' sc' ∧ ∀ sigma, fixes o' (Some sigma) → Forall (observes sigma) obs.
Proof.
  intros [ns key s c s' c' r Hns Hg|s c|view ns keys s c|view s c Hne|s c c' Hcom] Hinv.
  { destruct (cached_Get_reads _ _ _ _ _ _ _ _ Hinv Hns Hg) as (o' & Hf & Hinv' & Hp & Hr). exists o'. split_and!; [done..|].
    intros sigma Hs. constructor; [|done]. split; [done|]. intros rec Hrec. destruct (Hr rec Hrec) as (sigma' & -> & ->).
    apply fixes_some in Hs. by injection Hs as ->. }
  all: assert (∀ c', (∃ o', fixes o o' ∧ holds (sn_viewID s) o' c') →
    ∃ o', fixes o o' ∧ snapshot_inv o' (s, c') ∧ ∀ sigma, fixes o' (Some sigma) → Forall (observes sigma) []) as Hq
    by (intros c1 (o' & Hf & Hh'); exists o'; split_and!; [done|by eapply snapshot_inv_fixes|done]);
    pose proof (proj1 Hinv) as Hh; apply Hq.
  - by apply BeginView_keeps.
  - by apply GetRows_keeps.
  - by apply EndView_keeps.
  - by eapply commits_keep.
Qed.

(** A new snapshot has a view and an empty cache. *)
Lemma store_Snapshot_inv c c' s : store_Snapshot c = (c', Ok s) → ∃ o, snapshot_inv o (s, c').
Proof.
  unfold store_Snapshot. destruct (BeginView c) as [c1 [view| |]] eqn:Hb; simpl; intros [= <- <-].
  destruct (BeginView_holds _ _ _ Hb) as [_ [o Hh]]. exists o. split; [done|]. intros ck rec Hin. simpl in Hin. by apply lookup_empty_Some in Hin.
Qed.

(** All that a run observes agrees with the contents that are fixed on the way. *)
Lemma snapshot_run_reads o sc obs sc' : snapshot_run commits sc obs sc' → snapshot_inv o sc →
  ∃ sigma, fixes o (Some sigma) ∧ Forall (observes sigma) obs.
Proof.
  intros Hrun. revert o. induction Hrun as [sc|sc obs1 sc1 obs2 sc2 Hs _ IH]; intros o Hinv.
  { destruct o as [sigma|]; [exists sigma; by split; [right|]|exists (λ _ _, None); by split; [left|]]. }
  destruct (snapshot_step_inv _ _ _ _ Hs Hinv) as (o1 & Hf & Hinv1 & Hobs). destruct (IH o1 Hinv1) as (sigma & Hf1 & Hall).
  exists sigma. split; [by eapply fixes_trans|]. apply Forall_app. split; [|done]. by apply Hobs.
Qed.

End reads.

(** A key that was read once is answered from the cache: no call is made and the
    answer is the same. *)
Lemma cached_Get_again ns key s c s' c' rec c'' :
  cached_Get ns key s c = (s', c', Ok rec) → cached_Get ns key s' c'' = (s', c'', Ok rec).
Proof.
  unfold cached_Get. destruct (sn_cache s !! _) eqn:Hck; [by intros [= <- <- <-]; rewrite Hck|].
  destruct (store_get _ ns key c) as [c1 [r| |]]; intros [= <- <- <-]. simpl. by rewrite lookup_insert_eq.
Qed.

(** The cache key of a namespace with a NUL is ambiguous: after a read of one key, a read
    of the other returns its record, under the wrong name. *)
Lemma cache_key_collision : cache_key ("a" +:+ String nul "b") "c" = cache_key "a" ("b" +:+ String nul "c").
Proof. done. Qed.

End Store.

(** ** The gRPC client *)

(** One request: the view, if any, and the keys of one namespace. *)
Record QueryRequest := MkQueryRequest { q_View : option string; q_NsId : string; q_Keys : list bytes }.

Record RowsNamespace := MkRowsNamespace { rn_NsId : string; rn_Rows : list Row }.

(** The generated stub of one connection, over the state of the remote
    service. *)
Record QueryServiceClient (R : Type) := MkQueryServiceClient {
  rpc_BeginView : R → R * result string;
  rpc_GetRows : QueryRequest → R → R * result (list RowsNamespace);
  rpc_EndView : string → R → R * result unit }.
Arguments rpc_BeginView {R} _ _.
Arguments rpc_GetRows {R} _ _ _.
Arguments rpc_EndView {R} _ _ _.

Section GRPC.
Context {R : Type} (clients : list (QueryServiceClient R)).

(** The counter of [pick] and the connection of each open view. *)
Record GRPCClient := MkGRPCClient { gc_next : Z; gc_views : gmap string nat }.

(** [NewGRPCClient]: dials [conns] connections; when one fails it closes those
    it opened.  The result is the connections opened, those closed again, and
    the answer. *)
Fixpoint open_connections {P : Type} (dial : nat → result P) (i conns : nat) (peers : list P)
    : list P * list P * result unit :=
  match conns with
  | O => (peers, [], Ret tt)
  | S n =>
      match dial i with
      | Fail err => (peers, peers, Fail err)
      | Ret p => open_connections dial (S i) n (peers ++ [p])
      end
  end.

Definition NewGRPCClient {P : Type} (dial : nat → result P) (conns : Z) : list P * list P * result unit :=
  if conns <? 1 then ([], [], Fail (Errorf "queryservice: need at least one connection" []))
  else open_connections dial 0 (Z.to_nat conns) [].

(** Round-robin over the connections; the counter is a [uint64]. *)
Definition pick (c : GRPCClient) : GRPCClient * outcome nat :=
  let next := wrap_uint64 (gc_next c + 1) in
  (MkGRPCClient next (gc_views c),
   if decide (length clients = 0%nat) then Panic else Ok (Z.to_nat (next mod Z.of_nat (length clients)))).

Definition clientFor (viewID : string) (c : GRPCClient) : GRPCClient * outcome nat :=
  match gc_views c !! viewID with
  | Some i => (c, Ok i)
  | None => pick c
  end.

Definition remote : Type := GRPCClient * R.

(** A call over connection [i]. *)
Definition call {A} (i : outcome nat) (rpc : QueryServiceClient R → R → R * result A) (r : R) : R * outcome A :=
  match i ≫= λ i, deref (clients !! i) with
  | Ok cl => let '(r', a) := rpc cl r in (r', lift a)
  | Err err => (r, Err err)
  | Panic => (r, Panic)
  end.

Definition grpc_BeginView (cr : remote) : remote * outcome string :=
  let '(c, r) := cr in
  let '(c1, i) := pick c in
  match call i rpc_BeginView r, i with
  | (r1, Ok view), Ok i => ((MkGRPCClient (gc_next c1) (<[view := i]> (gc_views c1)), r1), Ok view)
  | (r1, a), _ => ((c1, r1), a)
  end.

(** The rows of the namespace asked for. *)
Definition rows_of (ns : string) (res : list RowsNamespace) : list Row :=
  res ≫= λ rns, if bool_decide (rn_NsId rns = ns) then rn_Rows rns else [].

Definition grpc_GetRows (viewID ns : string) (keys : list bytes) (cr : remote) : remote * outcome (list Row) :=
  let '(c, r) := cr in
  let q := MkQueryRequest (if bool_decide (viewID = "") then None else Some viewID) ns keys in
  let '(c1, i) := clientFor viewID c in
  let '(r1, a) := call i (λ cl, rpc_GetRows cl q) r in
  ((c1, r1), rows_of ns <$> a).

(** The view is forgotten also when the call fails. *)
Definition grpc_EndView (viewID : string) (cr : remote) : remote * outcome unit :=
  let '(c, r) := cr in
  let '(c1, i) := clientFor viewID c in
  let '(r1, a) := call i (λ cl, rpc_EndView cl viewID) r in
  ((MkGRPCClient (gc_next c1) (delete viewID (gc_views c1)), r1), a).

(** [Close] closes every connection and joins the errors. *)
Definition grpc_Close (closes : list (result unit)) : list error :=
  closes ≫= λ r, match r with Ret _ => [] | Fail err => [err] end.

#[export] Instance grpc_client : Client remote := {|
  BeginView := grpc_BeginView; GetRows := grpc_GetRows; EndView := grpc_EndView |}.

(** What the service promises: [opened i view o r] says that the instance behind
    connection [i] has the view open, with the contents [o] if they are fixed.
    The id of a new view is in use nowhere; the contents of an open view are
    fixed at its first read at the latest, it answers from them, and only its own
    [EndView] closes it. *)
Class ServiceLaws (opened : nat → string → option contents → R → Prop) (commits : R → R → Prop) := {
  sv_begin i cl r r' view : clients !! i = Some cl → rpc_BeginView cl r = (r', Ret view) →
    view ≠ "" ∧ (∃ o, opened i view o r') ∧ ∀ j o, ¬ opened j view o r;
  sv_begin_keeps i j cl r view o : clients !! i = Some cl →
    opened j view o r → ∃ o', fixes o o' ∧ opened j view o' (fst (rpc_BeginView cl r));
  sv_get i cl r r' view ns keys o res : clients !! i = Some cl → opened i view o r →
    rpc_GetRows cl (MkQueryRequest (Some view) ns keys) r = (r', Ret res) →
    ∃ sigma, fixes o (Some sigma) ∧ opened i view (Some sigma) r' ∧ answers sigma ns keys (rows_of ns res);
  sv_get_keeps i j cl q r view o : clients !! i = Some cl →
    opened j view o r → ∃ o', fixes o o' ∧ opened j view o' (fst (rpc_GetRows cl q r));
  sv_end_keeps i j cl r view view' o : clients !! i = Some cl → view ≠ view' →
    opened j view o r → ∃ o', fixes o o' ∧ opened j view o' (fst (rpc_EndView cl view' r));
  sv_commits r r' j view o : commits r r' → opened j view o r → ∃ o', fixes o o' ∧ opened j view o' r' }.

Section laws.
Context (opened : nat → string → option contents → R → Prop) (commits : R → R → Prop) `{!ServiceLaws opened commits}.

(** The client knows the connection of the view, and its instance has it. *)
Definition grpc_holds (view : string) (o : option contents) (cr : remote) : Prop :=
  view ≠ "" ∧ ∃ i, gc_views cr.1 !! view = Some i ∧ is_Some (clients !! i) ∧ opened i view o cr.2.

Definition grpc_commits (cr cr' : remote) : Prop := cr'.1 = cr.1 ∧ commits cr.2 cr'.2.

Lemma pick_spec c : ∃ i, pick c = (MkGRPCClient (wrap_uint64 (gc_next c + 1)) (gc_views c), i) ∧
  (length clients = 0%nat ∨ ∃ n, i = Ok n ∧ (n < length clients)%nat).
Proof.
  unfold pick. eexists. split; [done|]. case_decide; [by left|]. right. eexists. split; [done|].
  pose proof (Z.mod_pos_bound (wrap_uint64 (gc_next c + 1)) (Z.of_nat (length clients))). lia.
Qed.

Lemma clientFor_views view c : gc_views (fst (clientFor view c)) = gc_views c.
Proof. unfold clientFor. destruct (gc_views c !! view); [done|]. by destruct (pick_spec c) as (i & -> & _). Qed.

(** A call runs the stub of a connection, or does nothing. *)
Lemma call_cases {A} i (rpc : QueryServiceClient R → R → R * result A) r :
  (∃ n cl, i = Ok n ∧ clients !! n = Some cl ∧ call i rpc r = (fst (rpc cl r), lift (snd (rpc cl r)))) ∨
  (fst (call i rpc r) = r ∧ ∀ a, snd (call i rpc r) ≠ Ok a).
Proof.
  unfold call. destruct i as [n| |]; simpl; [|by right..]. destruct (clients !! n) as [cl|] eqn:Hcl; simpl; [|by right].
  left. exists n, cl. by destruct (rpc cl r).
Qed.

(** Calls keep the views of the service, when the stubs do. *)
Lemma call_keeps {A} i (rpc : QueryServiceClient R → R → R * result A) r (P : option contents → R → Prop) o :
  (∀ n cl, clients !! n = Some cl → P o r → ∃ o', fixes o o' ∧ P o' (fst (rpc cl r))) → P o r →
  ∃ o', fixes o o' ∧ P o' (fst (call i rpc r)).
Proof.
  intros Hk HP. destruct (call_cases i rpc r) as [(n & cl & _ & Hcl & ->)|[-> _]]; simpl; [eauto|].
  exists o. by split; [right|].
Qed.

Lemma grpc_BeginView_spec c r cr' a : grpc_BeginView (c, r) = (cr', a) →
  (∃ n cl r1 view, clients !! n = Some cl ∧ rpc_BeginView cl r = (r1, Ret view) ∧ a = Ok view ∧
     gc_views cr'.1 = <[view := n]> (gc_views c) ∧ cr'.2 = r1) ∨
  (gc_views cr'.1 = gc_views c ∧ (∀ view, a ≠ Ok view) ∧ ∃ i, cr'.2 = fst (call i rpc_BeginView r)).
Proof.
  unfold grpc_BeginView. destruct (pick_spec c) as (i & -> & _).
  destruct (call_cases i rpc_BeginView r) as [(n & cl & -> & Hcl & Hcall)|[Hr Hno]].
  - rewrite Hcall. destruct (rpc_BeginView cl r) as [r1 [view|err]] eqn:Hb; simpl; intros [= <- <-]; simpl.
    + left. by exists n, cl, r1, view.
    + right. split_and!; [done..|]. exists (Ok n). by rewrite Hcall.
  - destruct (call i rpc_BeginView r) as [r1 a1] eqn:Hcall; simpl in *. intros Heq. right.
    assert (cr' = (MkGRPCClient (wrap_uint64 (gc_next c + 1)) (gc_views c), r1) ∧ a = a1) as [-> ->]
      by (destruct a1 as [v| |]; [by destruct (Hno v)|by simplify_eq..]).
    split_and!; [done..|]. exists i. by rewrite Hcall.
Qed.

Lemma grpc_begin_holds c r cr' view :
  grpc_BeginView (c, r) = (cr', Ok view) → view ≠ "" ∧ ∃ o, grpc_holds view o cr'.
Proof.
  intros Hb. destruct (grpc_BeginView_spec _ _ _ _ Hb)
    as [(n & cl & r1 & v & Hcl & Hr & [= <-] & Hv & Hr1)|(_ & Hno & _)]; [|by destruct (Hno view)].
  destruct (sv_begin _ _ _ _ _ Hcl Hr) as (Hne & [o Ho] & _). split; [done|]. exists o. split; [done|].
  exists n. rewrite Hv, Hr1. split_and!; [by rewrite lookup_insert_eq | by eexists | done].
Qed.

Lemma grpc_begin_keeps c r view o :
  grpc_holds view o (c, r) → ∃ o', fixes o o' ∧ grpc_holds view o' (fst (grpc_BeginView (c, r))).
Proof.
  intros (Hne & i & Hi & Hcl & Ho). destruct (grpc_BeginView (c, r)) as [cr' a] eqn:Hb. simpl in *.
  destruct (grpc_BeginView_spec _ _ _ _ Hb) as [(n & cl & r1 & v & Hn & Hr & _ & Hv & Hr1)|(Hv & _ & j & Hr)].
  - destruct (sv_begin _ _ _ _ _ Hn Hr) as (_ & _ & Hfresh).
    assert (v ≠ view) by (intros ->; by apply (Hfresh i o)).
    destruct (sv_begin_keeps n i cl r view o Hn Ho) as (o' & Hf & Ho'). rewrite Hr in Ho'. exists o'. split; [done|].
    split; [done|]. exists i. by rewrite Hv, Hr1, lookup_insert_ne.
  - destruct (call_keeps j rpc_BeginView r (opened i view) o) as (o' & Hf & Ho'); [|done|].
    { intros m cl Hm. by apply (sv_begin_keeps m i). }
    exists o'. split; [done|]. split; [done|]. exists i. by rewrite Hv, Hr.
Qed.

(** The calls of an open view go over its connection. *)
Lemma grpc_get_own c r view o ns keys : grpc_holds view o (c, r) →
  ∃ i cl, clients !! i = Some cl ∧ gc_views c !! view = Some i ∧ opened i view o r ∧
    grpc_GetRows view ns keys (c, r) =
    let '(r1, a) := rpc_GetRows cl (MkQueryRequest (Some view) ns keys) r in ((c, r1), rows_of ns <$> lift a).
Proof.
  intros (Hne & i & Hi & [cl Hcl] & Ho). exists i, cl. split_and!; [done..|].
  unfold grpc_GetRows, clientFor, call. simpl in *. rewrite Hi, bool_decide_eq_false_2 by done. simpl.
  rewrite Hcl. simpl. by destruct (rpc_GetRows cl _ r).
Qed.

(** A call of any view that the service survives keeps an open view, as long as
    the client keeps its entry. *)
Lemma grpc_call_keeps {A} (rpc : QueryServiceClient R → R → R * result A) c c1 r view view' o :
  (∀ i j cl, clients !! i = Some cl → opened j view o r → ∃ o', fixes o o' ∧ opened j view o' (fst (rpc cl r))) →
  grpc_holds view o (c, r) → gc_views c1 !! view = gc_views c !! view →
  ∃ o', fixes o o' ∧ grpc_holds view o' (c1, fst (call (snd (clientFor view' c)) rpc r)).
Proof.
  intros Hrpc (Hne & i & Hi & Hcl & Ho) Hv.
  destruct (call_keeps (snd (clientFor view' c)) rpc r (opened i view) o) as (o' & Hf & Ho'); [|done|].
  { intros n cl Hn. by apply (Hrpc n). }
  exists o'. split; [done|]. split; [done|]. exists i. simpl in *. by rewrite Hv.
Qed.

Lemma grpc_get_keeps c r view view' o ns keys :
  grpc_holds view o (c, r) → ∃ o', fixes o o' ∧ grpc_holds view o' (fst (grpc_GetRows view' ns keys (c, r))).
Proof.
  intros Hh. unfold grpc_GetRows. pose proof (clientFor_views view' c) as Hv.
  pose proof (grpc_call_keeps (λ cl, rpc_GetRows cl (MkQueryRequest (if bool_decide (view' = "") then None else Some view') ns keys))
    c (fst (clientFor view' c)) r view view' o) as Hk.
  destruct (clientFor view' c) as [c1 j]. simpl in *. destruct (call j _ r) as [r1 a]. simpl in *.
  apply Hk; [|done|by rewrite Hv]. intros m i cl Hm. by apply (sv_get_keeps m i).
Qed.

Lemma grpc_end_keeps c r view view' o : view ≠ view' →
  grpc_holds view o (c, r) → ∃ o', fixes o o' ∧ grpc_holds view o' (fst (grpc_EndView view' (c, r))).
Proof.
  intros Hvv Hh. unfold grpc_EndView. pose proof (clientFor_views view' c) as Hv.
  pose proof (grpc_call_keeps (λ cl, rpc_EndView cl view') c
    (MkGRPCClient (gc_next (fst (clientFor view' c))) (delete view' (gc_views (fst (clientFor view' c)))))
    r view view' o) as Hk.
  destruct (clientFor view' c) as [c1 j]. simpl in *. destruct (call j _ r) as [r1 a]. simpl in *.
  apply Hk; [|done|by rewrite lookup_delete_ne, Hv]. intros m i cl Hm. by apply (sv_end_keeps m i).
Qed.

#[export] Instance grpc_laws : ClientLaws remote grpc_holds grpc_commits.
Proof.
  split.
  - intros [c r] cr' view. apply grpc_begin_holds.
  - intros [c r] view o. apply grpc_begin_keeps.
  - intros [c r] cr' view o ns keys rows Hh. change (GetRows (C := remote)) with grpc_GetRows.
    destruct (grpc_get_own c r view o ns keys Hh) as (i & cl & Hcl & Hi & Ho & ->).
    destruct (rpc_GetRows cl _ r) as [r1 [res|err]] eqn:Hg; simpl; intros [= <- <-].
    destruct (sv_get _ _ _ _ _ _ _ _ _ Hcl Ho Hg) as (sigma & Hf & Ho' & Ha). exists sigma. split_and!; [done| |done].
    split; [apply Hh|]. exists i. by split_and!; [|eexists|].
  - intros [c r] view view' o ns keys. apply grpc_get_keeps.
  - intros [c r] view o ns keys Hh. change (GetRows (C := remote)) with grpc_GetRows.
    destruct (grpc_get_own c r view o ns keys Hh) as (i & cl & Hcl & _ & Ho & ->).
    by destruct (rpc_GetRows cl _ r) as [r1 [res|err]].
  - intros [c r] view view' o. apply grpc_end_keeps.
  - intros [c r] [c' r'] view o [Hc Hr] (Hne & i & Hi & Hcl & Ho). simpl in *. subst.
    destruct (sv_commits _ _ _ _ _ Hr Ho) as (o' & Hf & Ho'). exists o'. split; [done|]. split; [done|]. by exists i.
Qed.

End laws.

(** C25: a snapshot of the query-service store reads one state of the ledger: when the
    service fixes the contents of a view at its first read at the latest and keeps them,
    there are contents that every successful read of the snapshot (in namespaces without
    NUL) agrees with, from the cache or over the wire, however the connections are used in
    between: by other snapshots that open and close, by other reads, and while blocks
    commit.  No read panics. *)
Theorem grpc_snapshot_consistent opened commits `{!ServiceLaws opened commits} (cr cr0 : remote) (s0 : snapshot) obs sc :
  store_Snapshot cr = (cr0, Ok s0) → snapshot_run (grpc_commits commits) (s0, cr0) obs sc →
  ∃ sigma, ∀ ns key r, (ns, key, r) ∈ obs → r ≠ Panic ∧ ∀ rec, r = Ok rec → rec = view_record sigma ns key.
Proof.
  intros Hs Hrun. destruct (store_Snapshot_inv (grpc_holds opened) (grpc_commits commits) _ _ _ Hs) as [o Hinv].
  destruct (snapshot_run_reads _ _ _ _ _ _ Hrun Hinv) as (sigma & _ & Hall). exists sigma. intros ns key r Hin.
  rewrite Forall_forall in Hall. exact (Hall _ Hin).
Qed.

(** ** Spreading over the connections *)

Fixpoint picks (n : nat) (c : GRPCClient) : list (outcome nat) :=
  match n with
  | O => []
  | S n' => let '(c', i) := pick c in i :: picks n' c'
  end.

Lemma picks_spec n c : (0 < length clients)%nat → 0 ≤ gc_next c → gc_next c + Z.of_nat n < 2 ^ 64 →
  picks n c = (λ k, Ok (Z.to_nat ((gc_next c + 1 + Z.of_nat k) mod Z.of_nat (length clients)))) <$> seq 0 n.
Proof.
  intros Hlen. revert c. induction n as [|n IH]; intros c Hlo Hhi; [done|]. simpl.
  case_decide; [lia|]. assert (wrap_uint64 (gc_next c + 1) = gc_next c + 1) as Hw by (apply Z.mod_small; lia).
  rewrite IH; simpl; rewrite Hw; [|lia..].
  f_equal; [by rewrite Z.add_0_r|]. rewrite <- fmap_S_seq, <- list_fmap_compose. apply list_fmap_ext.
  intros i k _. simpl. do 3 f_equal. lia.
Qed.

Lemma mod_shift_inj a n i j : 0 ≤ i < n → 0 ≤ j < n → (a + i) mod n = (a + j) mod n → i = j.
Proof.
  intros Hi Hj Heq. assert ((i - j) mod n = 0) as Hz.
  { replace (i - j) with ((a + i) - (a + j)) by lia. rewrite Zminus_mod, Heq, Z.sub_diag. apply Z.mod_0_l. lia. }
  apply Z.mod_divide in Hz as [q Hq]; [|lia]. assert (q = 0) by nia. lia.
Qed.

(** Views and reads spread evenly: as long as the 64-bit counter does not wrap, as many
    consecutive picks as there are connections use every connection exactly once; and
    also when it wraps, a pick is one of the connections. *)
Theorem pick_round_robin (c : GRPCClient) :
  (0 < length clients)%nat →
  (0 ≤ gc_next c → gc_next c + Z.of_nat (length clients) < 2 ^ 64 →
   picks (length clients) c ≡ₚ Ok <$> seq 0 (length clients)) ∧
  ∃ i, snd (pick c) = Ok i ∧ (i < length clients)%nat.
Proof.
  intros Hlen. split; [|by destruct (pick_spec c) as (i & -> & [?|(n & -> & ?)]); [lia|exists n]].
  intros Hlo Hhi. rewrite picks_spec by done. set (n := length clients) in *.
  rewrite (list_fmap_compose (λ k, Z.to_nat ((gc_next c + 1 + Z.of_nat k) mod Z.of_nat n)) Ok).
  apply fmap_Permutation, submseteq_length_Permutation; [|by rewrite length_fmap, !length_seq].
  apply NoDup_submseteq.
  - apply NoDup_fmap_2_strong; [|apply NoDup_seq]. intros i j Hi%elem_of_seq Hj%elem_of_seq Heq.
    assert (0 < Z.of_nat n) as Hpos by lia.
    pose proof (Z.mod_pos_bound (gc_next c + 1 + Z.of_nat i) (Z.of_nat n) Hpos).
    pose proof (Z.mod_pos_bound (gc_next c + 1 + Z.of_nat j) (Z.of_nat n) Hpos).
    apply Nat2Z.inj, (mod_shift_inj (gc_next c + 1) (Z.of_nat n)); lia.
  - intros k (i & -> & Hi)%list_elem_of_fmap. apply elem_of_seq.
    pose proof (Z.mod_pos_bound (gc_next c + 1 + Z.of_nat i) (Z.of_nat n)). lia.
Qed.

End GRPC.

(** [NewGRPCClient] leaks no connection: it returns with all of them open, or with an
    error and every connection that it opened closed again. *)
Theorem NewGRPCClient_no_leak {P : Type} (dial : nat → result P) conns opened closed r :
  NewGRPCClient dial conns = (opened, closed, r) →
  match r with
  | Ret _ => 1 ≤ conns ∧ Z.of_nat (length opened) = conns ∧ closed = []
  | Fail _ => closed = opened
  end.
Proof.
  assert (∀ n i peers, open_connections dial i n peers = (opened, closed, r) →
    match r with Ret _ => length opened = (length peers + n)%nat ∧ closed = [] | Fail _ => closed = opened end) as Hopen.
  { induction n as [|n IH]; intros i peers; simpl; [intros [= <- <- <-]; split; [lia|done]|].
    destruct (dial i) as [p|err]; [|by intros [= <- <- <-]]. intros Hrun. specialize (IH _ _ Hrun).
    destruct r; [|done]. rewrite length_app in IH. simpl in IH. split; [lia|apply IH]. }
  unfold NewGRPCClient. destruct (conns <? 1) eqn:Hc; bool_to_prop; [by intros [= <- <- <-]|].
  intros Hrun. specialize (Hopen _ _ _ Hrun). destruct r; [|done]. simpl in Hopen. split_and!; [lia|lia|apply Hopen].
Qed.

(** The height of the store is the largest of the number it was set to and the blocks it
    saw, so it never moves back while blocks arrive. *)
Theorem store_height (n : Z) (bs : list Block) (s : Store) :
  store_BlockNumber (foldl (λ s b, store_Handle b s) (SetBlockNumber n s) bs) =
  Ret (foldr Z.max n (blk_Number <$> bs)).
Proof.
  unfold store_BlockNumber. f_equal. revert n s. induction bs as [|b bs IH] using rev_ind; intros n s; [done|].
  rewrite foldl_app, fmap_app. simpl. rewrite foldr_app. simpl.
  assert (∀ l a, foldr Z.max (Z.max a n) l = Z.max a (foldr Z.max n l)) as Hmax
    by (induction l; simpl; intros; [done|rewrite IHl; lia]).
  rewrite Hmax. unfold store_Handle at 1. rewrite (IH n s).
  destruct (_ <? _) eqn:Hlt; bool_to_prop; simpl; rewrite ?IH; lia.
Qed.

(** ** An example service

    Two instances behind two connections, each with its own views, over a
    ledger in which every key has the number of commits as its version.  A view
    has no contents until its first read. *)

Module Served.

Record service := MkService { sv_version : Z; sv_views : gmap string (nat * option Z) }.

Definition at_version (z : Z) : contents := λ _ _, Some ([], z).

Definition reply (z : Z) (q : QueryRequest) : list RowsNamespace :=
  [MkRowsNamespace (q_NsId q) ((λ key, MkQueryRow key [] z) <$> q_Keys q)].

Definition new_id (r : service) : string := fresh ({[""]} ∪ dom (sv_views r) : gset string).

Definition stub (i : nat) : QueryServiceClient service := {|
  rpc_BeginView r := (MkService (sv_version r) (<[new_id r := (i, None)]> (sv_views r)), Ret (new_id r));
  rpc_GetRows q r :=
    match q_View q with
    | None => (r, Ret (reply (sv_version r) q))
    | Some view =>
        match sv_views r !! view with
        | Some (j, z) =>
            if decide (j = i) then
              let z := default (sv_version r) z in
              (MkService (sv_version r) (<[view := (i, Some z)]> (sv_views r)), Ret (reply z q))
            else (r, Fail (Errorf "unknown view" []))
        | None => (r, Fail (Errorf "unknown view" []))
        end
    end;
  rpc_EndView view r := (MkService (sv_version r) (delete view (sv_views r)), Ret tt) |}.

Definition stubs : list (QueryServiceClient service) := [stub 0; stub 1].

Definition opened (i : nat) (view : string) (o : option contents) (r : service) : Prop :=
  ∃ z, sv_views r !! view = Some (i, z) ∧ o = at_version <$> z.

Definition commits (r r' : service) : Prop := sv_version r' = sv_version r + 1 ∧ sv_views r' = sv_views r.

Lemma stubs_stub i cl : stubs !! i = Some cl → cl = stub i.
Proof. by destruct i as [|[|i]]; intros [= <-]. Qed.

Lemma new_id_fresh r : new_id r ≠ "" ∧ sv_views r !! new_id r = None.
Proof.
  unfold new_id. pose proof (is_fresh ({[""]} ∪ dom (sv_views r) : gset string)) as Hf.
  apply not_elem_of_union in Hf as [Hne Hdom]. split; [set_solver|by apply not_elem_of_dom].
Qed.

Lemma reply_answers z ns keys :
  answers (at_version z) ns keys (rows_of ns (reply z (MkQueryRequest (Some "") ns keys))).
Proof.
  intros key Hin. unfold rows_of, reply. simpl. rewrite bool_decide_eq_true_2, app_nil_r by done.
  induction keys as [|k keys IH]; [by apply not_elem_of_nil in Hin|]. simpl. case_decide as Hk; [done|].
  apply elem_of_cons in Hin as [->|Hin]; [done|]. rewrite <- (IH Hin). by destruct (list_find _ _) as [[]|].
Qed.

(** A read of any view leaves every view open, and fixes at most the one read. *)
Lemma stub_get_keeps i j q r view o : opened j view o r →
  ∃ o', fixes o o' ∧ opened j view o' (fst (rpc_GetRows (stub i) q r)).
Proof.
  intros (z & Hz & ->). simpl.
  assert (∃ o', fixes (at_version <$> z) o' ∧ opened j view o' r) as Hsame by (eexists; split; [by right|by exists z]).
  destruct (q_View q) as [view'|]; [|done]. destruct (sv_views r !! view') as [[j' z']|] eqn:Hz'; [|done].
  case_decide as Hi; [subst j'|done]. destruct (decide (view' = view)) as [->|Hne].
  - rewrite Hz in Hz'. injection Hz' as -> ->. exists (Some (at_version (default (sv_version r) z'))). split.
    + destruct z'; [by right|by left].
    + eexists. simpl. by rewrite lookup_insert_eq.
  - eexists. split; [by right|]. exists z. simpl. by rewrite lookup_insert_ne.
Qed.

#[export] Instance served_laws : ServiceLaws stubs opened commits.
Proof.
  split.
  - intros i cl r r' view ->%stubs_stub [= <- <-]. destruct (new_id_fresh r) as [Hne Hnone].
    split_and!; [done | exists None, None; simpl; by rewrite lookup_insert_eq |].
    intros j o (z & Hz & _). congruence.
  - intros i j cl r view o ->%stubs_stub (z & Hz & ->). eexists. split; [by right|]. exists z. simpl.
    destruct (new_id_fresh r) as [_ Hnone]. rewrite lookup_insert_ne; [done|]. intros <-. congruence.
  - intros i cl r r' view ns keys o res ->%stubs_stub (z & Hz & ->). simpl. rewrite Hz, decide_True by done.
    intros [= <- <-]. exists (at_version (default (sv_version r) z)). split_and!.
    + destruct z; [by right|by left].
    + eexists. simpl. by rewrite lookup_insert_eq.
    + apply (reply_answers _ ns keys).
  - intros i j cl q r view o ->%stubs_stub. apply stub_get_keeps.
  - intros i j cl r view view' o ->%stubs_stub Hne (z & Hz & ->). eexists. split; [by right|]. exists z. simpl.
    by rewrite lookup_delete_ne.
  - intros r r' j view o [_ Hv] (z & Hz & ->). eexists. split; [by right|]. exists z. by rewrite Hv.
Qed.

Definition start : remote (R := service) := (MkGRPCClient 0 ∅, MkService 3 ∅).

Definition opened_snapshot : snapshot * remote :=
  (MkQuerySnapshot (new_id (snd start)) ∅, fst (grpc_BeginView stubs start)).

(** A commit before the first read and one after it. *)
Definition committed (sc : snapshot * remote) : snapshot * remote :=
  (sc.1, (sc.2.1, MkService (sv_version sc.2.2 + 1) (sv_views sc.2.2))).

Definition read (key : string) (sc : snapshot * remote) : snapshot * remote * outcome (option WriteRecord) :=
  cached_Get (H := grpc_client stubs) "cc" key sc.1 sc.2.

Definition observed : list observation :=
  [("cc", "a", (read "a" (committed opened_snapshot)).2);
   ("cc", "b", (read "b" (committed (read "a" (committed opened_snapshot)).1)).2)].

Lemma committed_step sc : snapshot_step (H := grpc_client stubs) (grpc_commits commits) sc [] (committed sc).
Proof. destruct sc as [s [c r]]. apply sn_commit. by split. Qed.

Lemma read_step key sc :
  snapshot_step (H := grpc_client stubs) (grpc_commits commits) sc [("cc", key, (read key sc).2)] (read key sc).1.
Proof.
  destruct (read key sc) as [[s' cr'] r] eqn:E. destruct sc as [s cr]. by apply sn_get.
Qed.

Lemma run_observed : ∃ sc, snapshot_run (H := grpc_client stubs) (grpc_commits commits) opened_snapshot observed sc.
Proof.
  eexists. eapply (sr_step _ _ [] _ observed); [apply committed_step|].
  eapply (sr_step _ _ [_] _ [_]); [apply read_step|]. eapply (sr_step _ _ [] _ [_]); [apply committed_step|].
  eapply (sr_step _ _ [_] _ []); [apply read_step|]. apply sr_refl.
Qed.

End Served.

Lemma grpc_snapshot_consistent_witness :
  ∃ sigma, ∀ ns key r, (ns, key, r) ∈ Served.observed → r ≠ Panic ∧ ∀ rec, r = Ok rec → rec = view_record sigma ns key.
Proof.
  destruct Served.run_observed as [sc Hrun].
  apply (grpc_snapshot_consistent Served.stubs Served.opened Served.commits
    (ServiceLaws0 := Served.served_laws) Served.start _ _ _ sc eq_refl Hrun).
Defined.

Lemma pick_round_robin_witness :
  picks Served.stubs 2 (fst Served.start) ≡ₚ [Ok 0%nat; Ok 1%nat].
Proof. apply (pick_round_robin Served.stubs (fst Served.start)); simpl; lia. Defined.
