(* ===== verification/Kvs.v ===== *)
(** * Stores that an endorser simulates against

    The interface of state/kvs.go: a [Snapshot] is a view of the committed state
    at one height, and blocks that are committed after it was opened do not
    affect its reads.  [Snapshots] is the operation, [SnapshotsLaws] this
    promise, and both stores of the repository keep it: [VersionedDB]
    (state/db.go) and the query-service store (state/queryservice).

    The theorem is what the promise is worth to an endorser: a chaincode that is
    simulated on a snapshot while blocks commit, other snapshots come and go and
    other users read, does what it does on one fixed state. *)

From S2P Require Import Prelude Blocks Mvcc QueryService WorldState WorldStateTheory Simulation Serial.

(** ** The interface *)

(** What a snapshot shows: the record of each key of each namespace. *)
Definition world : Type := string → string → option WriteRecord.

(** A snapshot of type [S] of a store in the state [W]; reading may change
    both (a cache, a connection). *)
Class Snapshots (S W : Type) := snap_Get : string → string → S → W → S * W * outcome (option WriteRecord).

(** [pinned o s w]: the snapshot [s] is open in the state [w] and shows [o], if
    what it shows is fixed already, which it is at the first read at the latest.
    [others s] are the changes of the store that are not reads of [s], and
    [served] the namespaces that the store keeps apart. *)
Class SnapshotsLaws (S W : Type) `{Snapshots S W} (pinned : option world → S → W → Prop) (others : S → W → W → Prop)
    (served : string → Prop) := {
  snap_Get_reads o ns key s w s' w' r : served ns →
    pinned o s w → snap_Get ns key s w = (s', w', r) →
    ∃ o', fixes o o' ∧ pinned o' s' w' ∧ r ≠ Panic ∧ ∀ rec, r = Ok rec → ∃ v, o' = Some v ∧ rec = v ns key;
  others_keep o s w w' : pinned o s w → others s w w' → ∃ o', fixes o o' ∧ pinned o' s w' }.

(** ** Simulating while the store changes *)

Section Simulate.
Context {S W : Type} `{Snapshots S W} (others : S → W → W → Prop).

Definition with_snap (g : RecordGetter) (sim : SimulationStore) : SimulationStore :=
  {| sim_namespace := sim_namespace sim; sim_snap := g; sim_blockNum := sim_blockNum sim;
     sim_reads := sim_reads sim; sim_writes := sim_writes sim; sim_logs := sim_logs sim;
     sim_monotonicVersions := sim_monotonicVersions sim |}.

(** [GetState] where the snapshot answered [rec]. *)
Definition GetState_answer (rec : option WriteRecord) (key : string) (sim : SimulationStore)
    : SimulationStore * result bytes :=
  let '(sim', v) := GetState (with_snap (λ _ _, Ret rec) sim) key in (with_snap (sim_snap sim) sim', v).

(** The chaincode and the rest of the system take turns.  Reads of the snapshot
    that fail are not part of this relation: the endorsement fails with them. *)
Inductive execution {R} : chaincode R → SimulationStore → S → W → SimulationStore → R → Prop :=
  | ex_return r sim s w : execution (Return r) sim s w sim r
  | ex_others p sim s w w' sim' r : others s w w' → execution p sim s w' sim' r → execution p sim s w sim' r
  | ex_get_own key k sim s w sim1 v sim' r : is_Some (sim_writes sim !! key) → GetState sim key = (sim1, v) →
      execution (k v) sim1 s w sim' r → execution (CallGet key k) sim s w sim' r
  | ex_get key k sim s w s1 w1 rec sim1 v sim' r : sim_writes sim !! key = None →
      snap_Get (sim_namespace sim) key s w = (s1, w1, Ok rec) → GetState_answer rec key sim = (sim1, v) →
      execution (k v) sim1 s1 w1 sim' r → execution (CallGet key k) sim s w sim' r
  | ex_put key value k sim s w sim1 e sim' r : PutState sim key value = (sim1, e) →
      execution (k e) sim1 s w sim' r → execution (CallPut key value k) sim s w sim' r
  | ex_del key k sim s w sim1 e sim' r : DelState sim key = (sim1, e) →
      execution (k e) sim1 s w sim' r → execution (CallDel key k) sim s w sim' r
  | ex_log address topics data k sim s w sim' r :
      execution k (AddLog sim address topics data) s w sim' r →
      execution (CallLog address topics data k) sim s w sim' r.

Context (pinned : option world → S → W → Prop) (served : string → Prop) `{!SnapshotsLaws S W pinned others served}.

(** The store that reads a fixed state. *)
Definition fixed (v : world) (sim : SimulationStore) : SimulationStore := with_snap (λ ns k, Ret (v ns k)) sim.

Lemma GetState_own sim g key : is_Some (sim_writes sim !! key) →
  GetState (with_snap g sim) key = (with_snap g (GetState sim key).1, (GetState sim key).2).
Proof. intros [w Hw]. unfold GetState. simpl. rewrite Hw. by destruct (wr_IsDelete w). Qed.

Lemma GetState_fixed v sim key sim1 val : sim_writes sim !! key = None →
  GetState_answer (v (sim_namespace sim) key) key sim = (sim1, val) →
  GetState (fixed v sim) key = (fixed v sim1, val) ∧ sim_namespace sim1 = sim_namespace sim.
Proof.
  intros Hw. unfold GetState_answer, GetState, fixed. simpl. rewrite Hw.
  destruct (v (sim_namespace sim) key) as [rec|]; [destruct (rec_IsDelete rec)|]; intros [= <- <-]; by destruct sim.
Qed.

Lemma PutState_fixed v sim key value :
  PutState (fixed v sim) key value = (fixed v (PutState sim key value).1, (PutState sim key value).2) ∧
  sim_namespace (PutState sim key value).1 = sim_namespace sim.
Proof. unfold PutState. destruct (_ =? 0)%nat; [done|]. by destruct (_ =? 0)%nat. Qed.

(** An execution on a snapshot is the run on what the snapshot shows. *)
Lemma execution_run {R} (p : chaincode R) sim s w sim' r o :
  execution p sim s w sim' r → served (sim_namespace sim) → pinned o s w →
  ∃ v, fixes o (Some v) ∧ run p (fixed v sim) = (fixed v sim', r).
Proof.
  intros Hex. revert o. induction Hex as [r sim s w|p sim s w w' sim' r Ho _ IH|key k sim s w sim1 val sim' r Hw Hg _ IH
    |key k sim s w s1 w1 rec sim1 val sim' r Hw Hs Ha _ IH|key value k sim s w sim1 e sim' r Hp _ IH
    |key k sim s w sim1 e sim' r Hd _ IH|address topics data k sim s w sim' r _ IH]; intros o Hns Hpin; simpl.
  - destruct o as [v|]; [exists v; by split; [right|]|exists (λ _ _, None); by split; [left|]].
  - destruct (others_keep _ _ _ _ Hpin Ho) as (o' & Hf & Hpin'). destruct (IH o' Hns Hpin') as (v & Hf' & Hrun).
    exists v. split; [by eapply fixes_trans|done].
  - destruct (GetState_keeps _ _ _ _ Hg) as [(Hns1 & _) _]. destruct (IH o) as (v & Hf & Hrun); [by rewrite Hns1|done|].
    exists v. split; [done|]. unfold fixed at 1. by rewrite GetState_own, Hg.
  - destruct (snap_Get_reads _ _ _ _ _ _ _ _ Hns Hpin Hs) as (o1 & Hf1 & Hpin1 & _ & Hrec).
    destruct (Hrec rec eq_refl) as (v & -> & ->). destruct (GetState_fixed v sim key sim1 val Hw Ha) as [Hg Hns1].
    destruct (IH (Some v)) as (v' & Hf & Hrun); [by rewrite Hns1|done|]. apply fixes_some in Hf. injection Hf as ->.
    exists v. split; [done|]. by rewrite Hg.
  - destruct (IH o) as (v & Hf & Hrun); [|done|].
    + destruct (PutState_fixed (λ _ _, None) sim key value) as [_ Hns1]. rewrite Hp in Hns1. simpl in Hns1. by rewrite Hns1.
    + exists v. split; [done|]. destruct (PutState_fixed v sim key value) as [-> _]. by rewrite Hp.
  - injection Hd as <- <-. by apply IH.
  - by apply IH.
Qed.

End Simulate.

(** ** The two stores *)

(** [VersionedDB], whose snapshots are heights. *)
#[export] Instance versioned_snapshots : Snapshots versionedSnapshot Backend := λ ns key sn s,
  (sn, s, lift (snapshot_Get None sn ns key s)).

(** What they show is fixed when they are opened. *)
Definition versioned_pinned (o : option world) (sn : versionedSnapshot) (s : Backend) : Prop :=
  ∃ v, o = Some v ∧ view_open v sn s.

(** Blocks of the channel that come after what the database has, whether or not
    the snapshot was asked for a block that it had not reached; replays; updates
    of other channels; and updates that fail. *)
Definition versioned_others (sn : versionedSnapshot) : Backend → Backend → Prop := later_step (snap_db sn).

#[export] Instance versioned_snapshots_laws : SnapshotsLaws versionedSnapshot Backend versioned_pinned versioned_others (λ _, True).
Proof.
  split.
  - intros o ns key sn s sn' s' r _ (v & -> & Hpin) [= <- <- <-]. exists (Some v). split; [by right|].
    split; [by exists v|]. destruct Hpin as (_ & _ & _ & Hr). rewrite Hr. split; [done|]. intros rec [= <-]. by exists v.
  - intros o sn s t (v & -> & Hpin) Ho. exists (Some v). split; [by right|]. exists v. split; [done|].
    by eapply later_step_view.
Qed.

(** The query-service store, whose snapshots are views of the remote service
    behind a cache. *)
#[export] Instance query_snapshots {C} `{Client C} : Snapshots snapshot C := cached_Get.

Definition query_pinned {C} (holds : string → option contents → C → Prop) (o : option world) (s : snapshot) (c : C) : Prop :=
  ∃ o', snapshot_inv holds o' (s, c) ∧ o = view_record <$> o'.

(** Calls of other users of the client, and commits of the service. *)
Definition query_others {C} `{Client C} (commits : C → C → Prop) (s : snapshot) (c c' : C) : Prop :=
  snapshot_step commits (s, c) [] (s, c').

Lemma fixes_fmap {A B} (f : A → B) o o' : fixes o o' → fixes (f <$> o) (f <$> o').
Proof. intros [-> | ->]; [by left|by right]. Qed.

#[export] Instance query_snapshots_laws {C} `{Client C} (holds : string → option contents → C → Prop) (commits : C → C → Prop)
    `{!ClientLaws C holds commits} : SnapshotsLaws snapshot C (query_pinned holds) (query_others commits) (λ ns, string_free nul ns = true).
Proof.
  split.
  - intros o ns key s c s' c' r Hns (o0 & Hinv & ->) Hg.
    destruct (cached_Get_reads _ _ _ _ _ _ _ _ _ _ Hinv Hns Hg) as (o' & Hf & Hinv' & Hp & Hr).
    exists (view_record <$> o'). split_and!; [by apply fixes_fmap|by exists o'|done|].
    intros rec (sigma & -> & ->)%Hr. by eexists.
  - intros o s c c' (o0 & Hinv & ->) Hstep.
    destruct (snapshot_step_inv _ _ _ _ _ _ Hstep Hinv) as (o' & Hf & Hinv' & _).
    exists (view_record <$> o'). split; [by apply fixes_fmap|by exists o'].
Qed.

(** ** Isolation *)


(** The same for the query-service store: there is one state that the simulation
    on a snapshot sees. *)
Theorem query_simulation_isolated {C} `{Client C} holds commits `{!ClientLaws C holds commits} (c c' : C) (s : snapshot)
    {R} (p : chaincode R) g ns n mono sim r :
  store_Snapshot c = (c', Ok s) → string_free nul ns = true →
  execution (query_others commits) p (NewSimulationStore g ns n mono) s c' sim r →
  ∃ (v : world) final, run p (NewSimulationStore (λ ns k, Ret (v ns k)) ns n mono) = (final, r) ∧
    sim_reads final = sim_reads sim ∧ sim_writes final = sim_writes sim ∧ sim_logs final = sim_logs sim.
Proof.
  intros Hs Hns Hex. destruct (store_Snapshot_inv holds commits _ _ _ Hs) as [o Hinv].
  assert (query_pinned holds (view_record <$> o) s c') as Hpin by (by exists o).
  destruct (execution_run (query_others commits) (query_pinned holds) (λ ns, string_free nul ns = true) _ _ _ _ _ _ _ Hex Hns Hpin)
    as (v & _ & Hrun). by eexists v, _.
Qed.

(** ** An example

    The chaincode of [Simulation.Stub] on a snapshot that was asked for block 7
    when the database was at block 1 reads its key after block 2, which deletes
    it, was committed. *)

