(* ===== verification/Pragmas.v ===== *)
(** * SQLite connections

    Package state/sqlite: the default pragmas, the connection string that may
    override them, and the connector that runs them on every connection the
    pool opens.

    Connection strings are sequences of bytes; [strings.ToLower] and
    [strings.TrimSpace] are modelled on ASCII, which is all that a pragma name
    can be.  The driver is a parameter: whether it opens a connection and what
    it answers to a statement.

    The theorems: a pragma name is recognised in every form the driver takes,
    and a connection handed to the pool is open and has run exactly the default
    pragmas that the connection string leaves alone, in their order, while a
    connection that fails on the way is closed. *)

From Stdlib Require Import Strings.Ascii.
From S2P Require Import Prelude.

(** ** Strings of the standard library *)

(** [strings.Cut]: the parts before and after the first separator. *)
Fixpoint cut (c : Ascii.ascii) (s : string) : string * string * bool :=
  match s with
  | EmptyString => ("", "", false)
  | String a s' =>
      if Ascii.eqb a c then ("", s', true) else let '(b, t, found) := cut c s' in (String a b, t, found)
  end.

Definition before (c : Ascii.ascii) (s : string) : string := fst (fst (cut c s)).

(** [s[strings.LastIndexByte(s, c)+1:]]: all of [s] where [c] does not occur. *)
Fixpoint after_last (c : Ascii.ascii) (s : string) : string :=
  match s with
  | EmptyString => ""
  | String a s' => if Ascii.eqb a c && string_free c s' then s' else if string_free c s' then s else after_last c s'
  end.

Definition is_space (a : Ascii.ascii) : bool :=
  bool_decide (a ∈ [" "; "009"; "010"; "011"; "012"; "013"]%char).

Fixpoint trim_left (s : string) : string :=
  match s with
  | EmptyString => ""
  | String a s' => if is_space a then trim_left s' else s
  end.

Fixpoint trim_right (s : string) : string :=
  match s with
  | EmptyString => ""
  | String a s' =>
      match trim_right s' with
      | EmptyString => if is_space a then "" else String a ""
      | t => String a t
      end
  end.

Definition TrimSpace (s : string) : string := trim_right (trim_left s).

Definition lower (a : Ascii.ascii) : Ascii.ascii :=
  let n := Ascii.N_of_ascii a in
  if ((65 <=? n) && (n <=? 90))%N then Ascii.ascii_of_N (n + 32) else a.

Fixpoint ToLower (s : string) : string :=
  match s with
  | EmptyString => ""
  | String a s' => String (lower a) (ToLower s')
  end.

(** The value of a hexadecimal digit. *)
Definition unhex (a : Ascii.ascii) : option N :=
  let n := Ascii.N_of_ascii a in
  (if (48 <=? n) && (n <=? 57) then Some (n - 48)
   else if (97 <=? n) && (n <=? 102) then Some (n - 87)
   else if (65 <=? n) && (n <=? 70) then Some (n - 55) else None)%N.

Definition escape_error (s : string) : error := Errorf "invalid URL escape %q" [AStr (String.substring 0 3 s)].

(** [url.QueryUnescape]. *)
Fixpoint QueryUnescape (s : string) : result string :=
  match s with
  | EmptyString => Ret ""
  | String "%" s' =>
      match s' with
      | String a (String b s'') =>
          match unhex a, unhex b with
          | Some x, Some y => String (Ascii.ascii_of_N (16 * x + y)) <$> QueryUnescape s''
          | _, _ => Fail (escape_error s)
          end
      | _ => Fail (escape_error s)
      end
  | String "+" s' => String " " <$> QueryUnescape s'
  | String a s' => String a <$> QueryUnescape s'
  end.

(** One parameter of a query string: [None] is skipped. *)
Definition parse_param (p : string) : result (option (string * string)) :=
  if bool_decide (p = "") then Ret None
  else
    let '(key, value, _) := cut "=" p in
    key ← QueryUnescape key; value ← QueryUnescape value; mret (Some (key, value)).

(** The parameters of a query string, separated by [&]. *)
Fixpoint split_params (s : string) : list string :=
  match s with
  | EmptyString => [""]
  | String a s' =>
      if Ascii.eqb a "&" then "" :: split_params s'
      else match split_params s' with
           | [] => [String a ""]
           | p :: ps => String a p :: ps
           end
  end.

Definition max_params : nat := Z.to_nat 10000.

(** [url.ParseQuery], for a caller that drops the values on an error: too many
    parameters are refused, a semicolon error hides every other, and otherwise
    the first error counts. *)
Definition ParseQuery (s : string) : result (list (string * string)) :=
  let params := split_params s in
  if decide (max_params < length params)%nat then Fail (Errorf "number of URL query parameters exceeded limit" [])
  else if negb (forallb (string_free ";") params) then Fail (Errorf "invalid semicolon separator in query" [])
  else (λ ps, omap (M := list) id ps) <$> (mapM (M := result) parse_param params).

(** ** Pragmas *)

Definition defaultPragmas : list (string * string) :=
  [("busy_timeout", "5000"); ("journal_mode", "WAL"); ("foreign_keys", "ON"); ("synchronous", "NORMAL");
   ("cache_size", "-64000"); ("temp_store", "MEMORY")].

Definition dsnShorthands : list (string * string) :=
  [("_busy_timeout", "busy_timeout"); ("_timeout", "busy_timeout"); ("_journal_mode", "journal_mode");
   ("_journal", "journal_mode"); ("_foreign_keys", "foreign_keys"); ("_fk", "foreign_keys");
   ("_synchronous", "synchronous"); ("_sync", "synchronous")].

Definition pragmaName (v : string) : string :=
  after_last "." (ToLower (TrimSpace (before "=" (before "(" v)))).

(** The query string: what follows the first [?], unless that is the first
    character. *)
Definition dsn_query (dsn : string) : option string :=
  match dsn with
  | EmptyString => None
  | String a _ => let '(_, q, found) := cut "?" dsn in if found && negb (Ascii.eqb a "?") then Some q else None
  end.

(** The pragmas that the parameters set: by a shorthand, in whatever order the
    map is visited, or by [_pragma]. *)
Definition set_by (q : list (string * string)) : list string :=
  (filter (λ sh, sh.1 ∈ q.*1) dsnShorthands).*2 ++ (pragmaName ∘ snd <$> filter (λ p, p.1 = "_pragma") q).

(** The statement that sets a pragma. *)
Definition pragma_stmt (p : string * string) : string := "PRAGMA " +:+ p.1 +:+ "=" +:+ p.2.

Definition pragmasFor (dsn : string) : result (list string) :=
  set ← match dsn_query dsn with
        | None => mret []
        | Some query => set_by <$> wrapf "parse connection string parameters: %w" [] (ParseQuery query)
        end;
  mret (pragma_stmt <$> filter (λ p, p.1 ∉ set) defaultPragmas).

(** ** Connections *)

Record conn := MkConn { cn_ran : list string; cn_closed : bool }.

Definition close_conn (c : conn) : conn := MkConn (cn_ran c) true.

Section Connector.
(** The driver: whether it opens a connection, whether the connection can
    execute statements, and its answer to a statement after others. *)
Context (drv_open : result unit) (is_execer : bool) (exec : list string → string → result unit).

Fixpoint run_pragmas (pragmas : list string) (c : conn) : conn * result unit :=
  match pragmas with
  | [] => (c, Ret tt)
  | p :: ps =>
      match exec (cn_ran c) p with
      | Fail err => (close_conn c, Fail (Wrapf "set pragma %q: %w" [AStr p] err))
      | Ret _ => run_pragmas ps (MkConn (cn_ran c ++ [p]) (cn_closed c))
      end
  end.

(** [Connect]: the connection that the driver opened, if any, and the answer. *)
Definition Connect (pragmas : list string) : option conn * result conn :=
  match drv_open with
  | Fail err => (None, Fail err)
  | Ret _ =>
      let c := MkConn [] false in
      if is_execer
      then match run_pragmas pragmas c with
           | (c', Ret _) => (Some c', Ret c')
           | (c', Fail err) => (Some c', Fail err)
           end
      else (Some (close_conn c), Fail (Errorf "sqlite connection %T cannot execute statements" []))
  end.

(** [open] up to the pool: the pragmas of the path, and the connection that
    [PingContext] makes the pool open.  [sql.Open] only looks up the driver. *)
Definition open_db (path : string) : option conn * result conn :=
  match wrapf "open sqlite: %w" [] (pragmasFor path) with
  | Fail err => (None, Fail err)
  | Ret pragmas =>
      match Connect pragmas with
      | (c, Ret c') => (c, Ret c')
      | (c, Fail err) => (c, Fail (Wrapf "open sqlite: %w" [] err))
      end
  end.

Lemma run_pragmas_spec pragmas c c' r : cn_closed c = false → run_pragmas pragmas c = (c', r) →
  match r with
  | Ret _ => cn_closed c' = false ∧ cn_ran c' = cn_ran c ++ pragmas
  | Fail _ => cn_closed c' = true
  end.
Proof.
  revert c. induction pragmas as [|p ps IH]; intros c Hc; simpl; [intros [= <- <-]; by rewrite app_nil_r|].
  destruct (exec (cn_ran c) p); [|by intros [= <- <-]]. intros Hr. specialize (IH (MkConn (cn_ran c ++ [p]) (cn_closed c)) Hc Hr). destruct r; [|done].
  simpl in IH. by rewrite <- app_assoc in IH.
Qed.

Lemma Connect_spec pragmas oc r : Connect pragmas = (oc, r) →
  match r with
  | Ret c => oc = Some c ∧ cn_closed c = false ∧ cn_ran c = pragmas
  | Fail _ => ∀ c, oc = Some c → cn_closed c = true
  end.
Proof.
  unfold Connect. destruct drv_open; [|by intros [= <- <-]]. destruct is_execer; [|by intros [= <- <-] c [= <-]].
  destruct (run_pragmas pragmas (MkConn [] false)) as [c' r'] eqn:Hr.
  pose proof (run_pragmas_spec pragmas (MkConn [] false) c' r' eq_refl Hr) as Hspec. destruct r'; intros [= <- <-]; simpl in Hspec.
  - by destruct Hspec as [? ?].
  - by intros c [= <-].
Qed.

(** The connection string sets a pragma itself. *)
Definition dsn_sets (dsn name : string) : Prop :=
  ∃ query q key value, dsn_query dsn = Some query ∧ ParseQuery query = Ret q ∧ (key, value) ∈ q ∧
    ((key, name) ∈ dsnShorthands ∨ key = "_pragma" ∧ pragmaName value = name).

Lemma set_by_spec q name : name ∈ set_by q ↔
  ∃ key value, (key, value) ∈ q ∧ ((key, name) ∈ dsnShorthands ∨ key = "_pragma" ∧ pragmaName value = name).
Proof.
  unfold set_by. rewrite elem_of_app, !list_elem_of_fmap. split.
  - intros [([key n] & -> & [Hin Hsh]%list_elem_of_filter)|([key value] & -> & [Hp Hin]%list_elem_of_filter)]; simpl in *.
    + apply list_elem_of_fmap in Hin as ([k v] & -> & Hin). eauto.
    + eauto 6.
  - intros (key & value & Hin & [Hsh|[-> <-]]).
    + left. exists (key, name). split; [done|]. apply list_elem_of_filter. split; [|done].
      apply list_elem_of_fmap. by exists (key, value).
    + right. exists ("_pragma", value). split; [done|]. by apply list_elem_of_filter.
Qed.

Lemma pragmasFor_spec dsn stmts : pragmasFor dsn = Ret stmts →
  ∃ kept, stmts = pragma_stmt <$> kept ∧ kept `sublist_of` defaultPragmas ∧
    ∀ p, p ∈ defaultPragmas → p ∈ kept ↔ ¬ dsn_sets dsn p.1.
Proof.
  unfold pragmasFor. intros (set & Hset & [= <-])%result_bind_ret. exists (filter (λ p, p.1 ∉ set) defaultPragmas).
  split_and!; [done|apply sublist_filter|]. intros p Hp. rewrite list_elem_of_filter. unfold dsn_sets.
  destruct (dsn_query dsn) as [query|].
  - destruct (ParseQuery query) as [q|err] eqn:Hq; simpl in Hset; [|done]. injection Hset as <-. split.
    + intros [Hno _] (query' & q' & key & value & [= <-] & Hq' & Hsets). apply Hno, set_by_spec.
      exists key, value. congruence.
    + intros Hno. split; [|done]. intros (key & value & Hsets)%set_by_spec. apply Hno. by exists query, q, key, value.
  - injection Hset as <-. split; [intros _ (? & ? & ? & ? & ? & _); done|]. intros _. split; [set_solver|done].
Qed.

(** Every connection is configured, or not used: a connection that is handed to the
    pool is open and has run, in their order, exactly the default pragmas that the
    connection string does not set itself, by a shorthand or by [_pragma]; when opening
    fails, a connection that the driver had opened is closed again. *)
Theorem connections_configured (path : string) (oc : option conn) (r : result conn) :
  open_db path = (oc, r) →
  match r with
  | Ret c => oc = Some c ∧ cn_closed c = false ∧
      ∃ kept, cn_ran c = pragma_stmt <$> kept ∧ kept `sublist_of` defaultPragmas ∧
        ∀ p, p ∈ defaultPragmas → p ∈ kept ↔ ¬ dsn_sets path p.1
  | Fail _ => ∀ c, oc = Some c → cn_closed c = true
  end.
Proof.
  unfold open_db. destruct (pragmasFor path) as [pragmas|err] eqn:Hp; simpl; [|by intros [= <- <-]].
  destruct (Connect pragmas) as [oc' r'] eqn:Hc. pose proof (Connect_spec _ _ _ Hc) as Hspec.
  destruct r' as [c|err]; intros [= <- <-]; [|done]. destruct Hspec as (? & ? & ->).
  split_and!; [done..|]. by apply pragmasFor_spec.
Qed.

End Connector.

(** ** Names of pragmas *)

(** A word: characters that none of the separators of a pragma is. *)
Fixpoint word (s : string) : bool :=
  match s with
  | EmptyString => true
  | String a s' =>
      negb (is_space a) && negb (Ascii.eqb a "(") && negb (Ascii.eqb a "=") && negb (Ascii.eqb a ".") && word s'
  end.

Fixpoint spaces (s : string) : bool :=
  match s with
  | EmptyString => true
  | String a s' => is_space a && spaces s'
  end.

(** The qualification of a pragma by a database. *)
Definition qualifier (schema : option string) : string :=
  match schema with Some db => db +:+ "." | None => "" end.

#[local] Arguments String.append _ _ : simpl nomatch.

Lemma string_app_assoc (a b c : string) : (a +:+ b) +:+ c = a +:+ b +:+ c.
Proof. induction a; simpl; congruence. Qed.

Lemma string_app_nil_r (s : string) : s +:+ "" = s.
Proof. induction s; simpl; congruence. Qed.

Lemma string_free_app c s t : string_free c (s +:+ t) = string_free c s && string_free c t.
Proof. induction s as [|a s IH]; simpl; [done|]. by rewrite IH, andb_assoc. Qed.

Lemma before_free c s : string_free c s = true → before c s = s.
Proof.
  unfold before. induction s as [|a s IH]; simpl; [done|]. intros [Ha Hs]%andb_true_iff. apply negb_true_iff in Ha.
  rewrite Ha. specialize (IH Hs). destruct (cut c s) as [[b t] f]. simpl in *. by f_equal.
Qed.

Lemma before_app c s t : string_free c s = true → before c (s +:+ t) = s +:+ before c t.
Proof.
  unfold before. induction s as [|a s IH]; simpl; [done|]. intros [Ha Hs]%andb_true_iff. apply negb_true_iff in Ha.
  rewrite Ha. specialize (IH Hs). destruct (cut c (s +:+ t)) as [[b u] f]. simpl in *. by f_equal.
Qed.

Lemma trim_left_app s t : spaces s = true → trim_left (s +:+ t) = trim_left t.
Proof. induction s as [|a s IH]; simpl; [done|]. intros [-> Hs]%andb_true_iff. by apply IH. Qed.

Lemma trim_right_spaces s : spaces s = true → trim_right s = "".
Proof. induction s as [|a s IH]; simpl; [done|]. intros [-> Hs]%andb_true_iff. by rewrite IH. Qed.

Lemma trim_right_app s t : spaces t = true → trim_right (s +:+ t) = trim_right s.
Proof. intros Ht. induction s as [|a s IH]; simpl; [by apply trim_right_spaces|]. by rewrite IH. Qed.

(** A string without space is what trimming leaves. *)
Fixpoint solid (s : string) : bool :=
  match s with
  | EmptyString => true
  | String a s' => negb (is_space a) && solid s'
  end.

Lemma solid_app s t : solid (s +:+ t) = solid s && solid t.
Proof. induction s as [|a s IH]; simpl; [done|]. by rewrite IH, andb_assoc. Qed.

Lemma trim_right_solid s : solid s = true → trim_right s = s.
Proof.
  induction s as [|a s IH]; simpl; [done|]. intros [Ha Hs]%andb_true_iff. apply negb_true_iff in Ha.
  rewrite (IH Hs), Ha. by destruct s.
Qed.

Lemma TrimSpace_solid pre s post :
  spaces pre = true → solid s = true → spaces post = true → TrimSpace (pre +:+ s +:+ post) = s.
Proof.
  intros Hpre Hs Hpost. unfold TrimSpace. rewrite trim_left_app by done. destruct s as [|a s].
  - simpl. assert (trim_left post = "") as ->; [|done].
    clear -Hpost. induction post as [|a p IH]; simpl in *; [done|]. apply andb_true_iff in Hpost as [-> ?]. by apply IH.
  - assert (trim_left (String a s +:+ post) = String a s +:+ post) as ->.
    { simpl in *. apply andb_true_iff in Hs as [Ha _]. apply negb_true_iff in Ha. by rewrite Ha. }
    rewrite trim_right_app by done. by apply trim_right_solid.
Qed.

Lemma ToLower_app s t : ToLower (s +:+ t) = ToLower s +:+ ToLower t.
Proof. induction s; simpl; congruence. Qed.

Lemma lower_dot a : Ascii.eqb (lower a) "." = Ascii.eqb a ".".
Proof. destruct a as [[] [] [] [] [] [] [] []]; reflexivity. Qed.

Lemma ToLower_free s : string_free "." (ToLower s) = string_free "." s.
Proof. induction s as [|a s IH]; simpl; [done|]. by rewrite lower_dot, IH. Qed.

Lemma after_last_free c s : string_free c s = true → after_last c s = s.
Proof.
  destruct s as [|a s]; simpl; [done|]. intros [Ha ->]%andb_true_iff. apply negb_true_iff in Ha. by rewrite Ha.
Qed.

Lemma after_last_app c s t : string_free c t = true → after_last c (s +:+ String c t) = t.
Proof.
  intros Ht. induction s as [|a s IH]; simpl; [by rewrite Ascii.eqb_refl, Ht|].
  rewrite string_free_app. simpl. by rewrite Ascii.eqb_refl, andb_false_r, andb_false_r.
Qed.

Lemma word_spec s : word s = true →
  solid s = true ∧ string_free "(" s = true ∧ string_free "=" s = true ∧ string_free "." s = true.
Proof.
  induction s as [|a s IH]; [done|]. cbn [word solid string_free].
  intros [[[[-> ->]%andb_true_iff ->]%andb_true_iff ->]%andb_true_iff Hs]%andb_true_iff. by apply IH.
Qed.

Lemma spaces_free c s : is_space c = false → spaces s = true → string_free c s = true.
Proof.
  intros Hc. induction s as [|a s IH]; simpl; [done|]. intros [Ha Hs]%andb_true_iff. rewrite (IH Hs), andb_true_r.
  apply negb_true_iff, Ascii.eqb_neq. congruence.
Qed.

(** The name of a pragma is recognised in every form that a connection string may give
    it: bare, with arguments in parentheses or after an equals sign, with spaces around
    it, qualified by a database, and in any case. *)
Theorem pragmaName_forms (pre post name tail : string) (schema : option string) :
  spaces pre = true → spaces post = true → word name = true → word (default "" schema) = true →
  tail = "" ∨ (∃ t, tail = String "(" t) ∨ (∃ t, tail = String "=" t) →
  pragmaName (pre +:+ qualifier schema +:+ name +:+ post +:+ tail) = ToLower name.
Proof.
  intros Hpre Hpost Hname Hschema Htail. destruct (word_spec _ Hname) as (Hn1 & Hn2 & Hn3 & Hn4).
  destruct (word_spec _ Hschema) as (Hs1 & Hs2 & Hs3 & Hs4). set (body := qualifier schema +:+ name).
  assert (solid body = true ∧ string_free "(" body = true ∧ string_free "=" body = true) as (Hb1 & Hb2 & Hb3).
  { unfold body, qualifier. rewrite solid_app, !string_free_app, Hn1, Hn2, Hn3.
    destruct schema as [db|]; simpl in *; [|done]. by rewrite solid_app, !string_free_app, Hs1, Hs2, Hs3. }
  assert (before "=" (before "(" (pre +:+ qualifier schema +:+ name +:+ post +:+ tail)) = pre +:+ body +:+ post) as Hcut.
  { replace (pre +:+ qualifier schema +:+ name +:+ post +:+ tail) with ((pre +:+ body +:+ post) +:+ tail)
      by (unfold body; by rewrite !string_app_assoc).
    assert (string_free "(" (pre +:+ body +:+ post) = true ∧ string_free "=" (pre +:+ body +:+ post) = true) as [Hf1 Hf2].
    { by rewrite !string_free_app, Hb2, Hb3, !(spaces_free _ pre), !(spaces_free _ post). }
    rewrite before_app by done. rewrite before_app by done.
    assert (before "=" (before "(" tail) = "") as ->; [|by rewrite string_app_nil_r].
    destruct Htail as [->|[[t ->]|[t ->]]]; [done..|]. unfold before; simpl. by destruct (cut "(" t) as [[b u] f]. }
  unfold pragmaName. rewrite Hcut, TrimSpace_solid by done. unfold body. rewrite ToLower_app.
  destruct schema as [db|]; simpl; [|by rewrite after_last_free; rewrite ?ToLower_free].
  rewrite ToLower_app, string_app_assoc. apply after_last_app. by rewrite ToLower_free.
Qed.

(** ** Examples *)

Definition example_dsn : string := "state.db?_fk=0&_pragma=main.Busy_Timeout%28100%29".

Definition example_conn : conn :=
  MkConn ["PRAGMA journal_mode=WAL"; "PRAGMA synchronous=NORMAL"; "PRAGMA cache_size=-64000"; "PRAGMA temp_store=MEMORY"]
    false.

Lemma connections_configured_witness :
  cn_closed example_conn = false ∧
  ∃ kept, cn_ran example_conn = pragma_stmt <$> kept ∧ kept `sublist_of` defaultPragmas ∧
    ∀ p, p ∈ defaultPragmas → p ∈ kept ↔ ¬ dsn_sets example_dsn p.1.
Proof.
  apply (connections_configured (Ret tt) true (λ _ _, Ret tt) example_dsn (Some example_conn) (Ret example_conn)).
  vm_compute. reflexivity.
Defined.

Lemma pragmaName_forms_witness : pragmaName " main.Cache_Size (-2000)" = "cache_size".
Proof.
  apply (pragmaName_forms " " " " "Cache_Size" "(-2000)" (Some "main")); try reflexivity.
  right. left. by exists "-2000)".
Defined.
