(* ===== verification/Database.v ===== *)
(** * Database handles

    The constructors and [Close] of [VersionedDB] (state/db.go) over [Open] and
    [OpenReadOnly] of state/sqlite: a database file that several handles share
    and that outlives them.  A table of the file may be missing, and the schema
    is executed statement by statement, each of which may fail.

    The theorems: opening keeps what is in the file and creates what is
    missing, also after an earlier attempt that failed half way; a closed handle
    answers every call with the error of database/sql and changes nothing; and
    whatever handles are opened, used and closed on a file, in whatever order
    and with whatever failures, the tables are exactly what the updates that
    returned nil make of an empty database, so that the theorems on
    [UpdateWorldState] and on the reads hold across restarts. *)

From S2P Require Import Prelude Blocks WorldState WorldStateTheory Pragmas.

(** ** Files *)

Record file := MkFile { f_worldstate : option (list Row); f_progress : option (gmap string Z) }.

Definition new_file : file := MkFile None None.

(** The tables, a missing one taken for empty. *)
Definition tables (f : file) : Backend := MkBackend (default [] (f_worldstate f)) (default ∅ (f_progress f)).

Definition file_of (s : Backend) : file := MkFile (Some (worldstate s)) (Some (channel_progress s)).

Definition no_such_table (name : string) : error := Errorf "no such table: %s" [AStr name].

(** The statements of the schema, all of them [IF NOT EXISTS]. *)
Inductive ddl := CreateWorldstate | CreateIndex (name : string) | CreateProgress.

Definition schema : list ddl :=
  [CreateWorldstate; CreateIndex "idx_worldstate_ns_key"; CreateIndex "idx_worldstate_block_tx";
   CreateIndex "idx_worldstate_version"; CreateProgress].

Definition exec_ddl (d : ddl) (f : file) : file :=
  match d with
  | CreateWorldstate => MkFile (Some (default [] (f_worldstate f))) (f_progress f)
  | CreateIndex _ => f
  | CreateProgress => MkFile (f_worldstate f) (Some (default ∅ (f_progress f)))
  end.

(** [Exec] of several statements: it stops at the first that fails, and what
    came before stays. *)
Fixpoint exec_all (faults : nat → bool) (n : nat) (ds : list ddl) (f : file) : file * result unit :=
  match ds with
  | [] => (f, Ret tt)
  | d :: ds' => if faults n then (f, Fail driver_error) else exec_all faults (S n) ds' (exec_ddl d f)
  end.

Definition db_init (faults : nat → bool) (f : file) : file * result unit :=
  let '(f', r) := exec_all faults 0 schema f in (f', wrapf "init tables: %w" [] r).

(** ** Handles *)

(** [sql.DB] as [open] configures it. *)
Record pool := MkPool { po_maxOpen : Z; po_maxIdle : Z; po_closed : bool }.

(** [VersionedDB] with its backend. *)
Record handle := MkHandle { hd_db : VersionedDB; hd_pool : pool }.

Definition closed (h : handle) : bool := po_closed (hd_pool h).

Section Driver.
(** The driver, as in [open_db], and the number of processors. *)
Context (drv_open : result unit) (is_execer : bool) (exec : list string → string → result unit) (NumCPU : Z).

Definition open (path : string) (maxOpen maxIdle : Z) : result pool :=
  match open_db drv_open is_execer exec path with
  | (_, Ret _) => Ret (MkPool maxOpen maxIdle false)
  | (_, Fail err) => Fail err
  end.

Definition Open (path : string) : result pool := open path 1 1.

Definition OpenReadOnly (path : string) : result pool :=
  let n := 4 `max` NumCPU in open path n 4.

Definition NewReadDB (channel connStr : string) : result handle :=
  db ← OpenReadOnly connStr;
  mret (MkHandle (MkVersionedDB channel) db).

Definition NewWriteDB (faults : nat → bool) (channel connStr : string) (f : file) : file * result handle :=
  match Open connStr with
  | Fail err => (f, Fail err)
  | Ret db =>
      match db_init faults f with
      | (f', Ret _) => (f', Ret (MkHandle (MkVersionedDB channel) db))
      | (f', Fail err) => (f', Fail err)
      end
  end.

End Driver.

Definition db_Close (h : handle) : handle :=
  MkHandle (hd_db h) (MkPool (po_maxOpen (hd_pool h)) (po_maxIdle (hd_pool h)) true).

(** ** Operations of a handle

    database/sql refuses a call on a closed pool before it looks at anything
    else; a statement on a missing table fails when it is prepared. *)

(** The error of a read of the table [t], with the driver's answer [fault]. *)
Definition read_fault {A} (t : option A) (name : string) (fault : option error) : option error :=
  match t with
  | None => Some (no_such_table name)
  | Some _ => fault
  end.

Definition db_Get (fault : option error) (h : handle) (ns key : string) (f : file) : result (option WriteRecord) :=
  if closed h then Fail (Wrapf "get current: %w" [] ErrDBClosed)
  else Get (read_fault (f_worldstate f) "worldstate" fault) (hd_db h) ns key (tables f).

Definition db_GetAt (fault : option error) (h : handle) (ns key : string) (lastBlock : Z) (f : file)
    : result (option WriteRecord) :=
  if closed h then Fail (Wrapf "get: %w" [] ErrDBClosed)
  else GetAt (read_fault (f_worldstate f) "worldstate" fault) (hd_db h) ns key lastBlock (tables f).

Definition db_GetHistory (fault iter_fault : option error) (h : handle) (ns key : string) (f : file)
    : result (list WriteRecord) :=
  if closed h then Fail (Wrapf "get history: %w" [] ErrDBClosed)
  else GetHistory (read_fault (f_worldstate f) "worldstate" fault) iter_fault (hd_db h) ns key (tables f).

Definition db_BlockNumber (fault : option error) (h : handle) (f : file) : result Z :=
  if closed h then Fail (Wrapf "query last processed block: %w" [] ErrDBClosed)
  else BlockNumber (read_fault (f_progress f) "channel_progress" fault) (hd_db h) (tables f).

(** The calls of an update whose last table is missing. *)
Definition update_no_progress (faults : nat → bool) (db : VersionedDB) (b : Block) : sql unit :=
  BeginTx faults ;;
  WorldState.call faults "prepare batch insert: %w" ;;
  WorldState.call faults "prepare conflict check: %w" ;;
  for_each (write_transaction faults (channel db) (blk_Number b)) (blk_Transactions b) ;;
  uint64_arg "update last block: %w" (blk_Number b) ;;
  throw (Wrapf "update last block: %w" [] (no_such_table "channel_progress")).

Definition db_UpdateWorldState (faults : nat → bool) (h : handle) (b : Block) (f : file) : file * result unit :=
  if closed h then (f, Fail (Wrapf "begin batch insert: %w" [] ErrDBClosed))
  else
    match f_worldstate f, f_progress f with
    | Some _, Some _ => let '(s, r) := UpdateWorldState faults (hd_db h) b (tables f) in (file_of s, r)
    | Some _, None =>
        let '(c, r) := in_transaction (update_no_progress faults (hd_db h) b) (tables f) in
        (MkFile (Some (worldstate (sc_committed c))) None, r)
    | None, _ =>
        (f, Fail (if faults 0%nat then Wrapf "begin batch insert: %w" [] driver_error
                  else Wrapf "prepare batch insert: %w" [] (no_such_table "worldstate")))
    end.

(** ** Opening *)

Lemma exec_all_tables faults n ds f f' r : exec_all faults n ds f = (f', r) → tables f' = tables f.
Proof.
  revert n f. induction ds as [|d ds IH]; intros n f; simpl; [by intros [= <- _]|].
  destruct (faults n); [by intros [= <- _]|]. intros ->%IH. by destruct d, f as [[] []].
Qed.

Lemma db_init_spec faults f f' r : db_init faults f = (f', r) →
  tables f' = tables f ∧ (r = Ret tt → f' = file_of (tables f)).
Proof.
  unfold db_init. destruct (exec_all faults 0 schema f) as [f1 r1] eqn:E. intros [= <- <-].
  split; [by eapply exec_all_tables|]. intros Hr%wrapf_ret. subst r1. revert E. unfold schema. simpl.
  repeat (destruct (faults _); [done|]). by intros [= <-].
Qed.

(** Where the tables exist, no statement of the schema changes anything. *)
Lemma db_init_existing faults s f' r : db_init faults (file_of s) = (f', r) → f' = file_of s.
Proof.
  unfold db_init. destruct (exec_all faults 0 schema (file_of s)) as [f1 r1] eqn:E. intros [= <- _]. revert E.
  unfold schema. simpl. repeat (destruct (faults _); [by intros [= <- _]|]). by intros [= <- _].
Qed.

(** Opening for writing never loses anything: whether it succeeds or fails at any
    statement of the schema, the rows and the progress in the file are what they were;
    when it succeeds both tables exist, and the handle is open, on its channel and limited
    to one connection. *)
Theorem NewWriteDB_keeps drv_open is_execer exec faults channel path f f' r :
  NewWriteDB drv_open is_execer exec faults channel path f = (f', r) →
  tables f' = tables f ∧
  ∀ h, r = Ret h → f' = file_of (tables f) ∧ h = MkHandle (MkVersionedDB channel) (MkPool 1 1 false).
Proof.
  unfold NewWriteDB, Open, open. destruct (open_db _ _ _ path) as [c [db|err]]; [|by intros [= <- <-]].
  destruct (db_init faults f) as [f1 r1] eqn:E. destruct (db_init_spec _ _ _ _ E) as [Ht Hf].
  destruct r1 as [[]|err]; intros [= <- <-]; split; try done. intros h [= <-]. split; [by apply Hf|done].
Qed.

(** A handle that was closed answers every call with an error that wraps the one of
    database/sql, and an update through it leaves the file alone. *)
Theorem closed_handle_refuses (h : handle) (f : file) (b : Block) faults fault iter_fault ns key block :
  (∃ fmt, db_UpdateWorldState faults (db_Close h) b f = (f, Fail (Wrapf fmt [] ErrDBClosed))) ∧
  (∃ fmt, db_Get fault (db_Close h) ns key f = Fail (Wrapf fmt [] ErrDBClosed)) ∧
  (∃ fmt, db_GetAt fault (db_Close h) ns key block f = Fail (Wrapf fmt [] ErrDBClosed)) ∧
  (∃ fmt, db_GetHistory fault iter_fault (db_Close h) ns key f = Fail (Wrapf fmt [] ErrDBClosed)) ∧
  (∃ fmt, db_BlockNumber fault (db_Close h) f = Fail (Wrapf fmt [] ErrDBClosed)).
Proof. split_and!; by eexists. Qed.

(** ** Restarts *)

(** Without the progress table no update gets as far as [Commit]. *)
Lemma update_no_progress_fails faults db b s :
  ∃ e, in_transaction (update_no_progress faults db b) s = (MkSqlConn s None, Fail e).
Proof.
  assert (uncommitted (update_no_progress faults db b)) as Hu.
  { unfold update_no_progress. repeat (apply uncommitted_bind; [|intros _]); try done.
    apply uncommitted_for_each. intros tx. apply uncommitted_write_transaction. }
  unfold in_transaction. specialize (Hu (MkSqlConn s None) 0%nat).
  destruct (update_no_progress faults db b (MkSqlConn s None) 0%nat) as [[c n] [[]|e]] eqn:E.
  - exfalso. unfold update_no_progress in E. repeat (apply sql_bind_ret in E as (? & ? & ? & ? & E)). done.
  - exists e. unfold Rollback. simpl in Hu. by rewrite Hu.
Qed.

Lemma db_UpdateWorldState_cases faults h b f f' r :
  db_UpdateWorldState faults h b f = (f', r) →
  (f' = f ∧ r ≠ Ret tt) ∨
  (r = Ret tt ∧ closed h = false ∧ f' = file_of (tables f') ∧
   UpdateWorldState faults (hd_db h) b (tables f) = (tables f', Ret tt)).
Proof.
  unfold db_UpdateWorldState. destruct (closed h); [intros [= <- <-]; by left|].
  destruct f as [[rows|] [p|]]; simpl; [|..|intros [= <- <-]; by left|intros [= <- <-]; by left].
  - destruct (UpdateWorldState _ _ _ _) as [[rows' p'] [[]|err]] eqn:E; intros [= <- <-]; [by right|left].
    apply UpdateWorldState_fail in E as [= -> ->]. done.
  - destruct (update_no_progress_fails faults (hd_db h) b (MkBackend rows ∅)) as [e He].
    change (tables (MkFile (Some rows) None)) with (MkBackend rows ∅). rewrite He. intros [= <- <-]. by left.
Qed.

(** A file, the handles of the process that uses it, and the updates so far that
    returned nil, with the channel they were made for. *)
Record file_use := MkFileUse { fu_file : file; fu_handles : list handle; fu_log : list (VersionedDB * Block) }.

Definition fresh_file : file_use := MkFileUse new_file [] [].

Inductive file_step (u : file_use) : file_use → Prop :=
  | file_open_write drv_open is_execer exec faults channel path f' r :
      NewWriteDB drv_open is_execer exec faults channel path (fu_file u) = (f', r) →
      file_step u (MkFileUse f' (match r with Ret h => fu_handles u ++ [h] | Fail _ => fu_handles u end) (fu_log u))
  | file_open_read drv_open is_execer exec NumCPU channel path h :
      NewReadDB drv_open is_execer exec NumCPU channel path = Ret h →
      file_step u (MkFileUse (fu_file u) (fu_handles u ++ [h]) (fu_log u))
  | file_update i h faults b f' r :
      fu_handles u !! i = Some h → db_UpdateWorldState faults h b (fu_file u) = (f', r) →
      file_step u (MkFileUse f' (fu_handles u)
        (match r with Ret _ => fu_log u ++ [(hd_db h, b)] | Fail _ => fu_log u end))
  | file_close i h : fu_handles u !! i = Some h →
      file_step u (MkFileUse (fu_file u) (<[i := db_Close h]> (fu_handles u)) (fu_log u))
  | file_crash : file_step u (MkFileUse (fu_file u) [] (fu_log u)).

(** The updates on a database that is never closed and whose driver never
    fails. *)
Fixpoint replay (log : list (VersionedDB * Block)) (s : Backend) : option Backend :=
  match log with
  | [] => Some s
  | (db, b) :: log' =>
      match UpdateWorldState no_faults db b s with
      | (s', Ret _) => replay log' s'
      | (_, Fail _) => None
      end
  end.

Lemma replay_app log1 log2 s : replay (log1 ++ log2) s = replay log1 s ≫= replay log2.
Proof.
  revert s. induction log1 as [|[db b] log1 IH]; intros s; simpl; [done|].
  by destruct (UpdateWorldState no_faults db b s) as [s' [[]|]].
Qed.

(** What holds of a file in use. *)
Definition file_inv (u : file_use) : Prop :=
  replay (fu_log u) init = Some (tables (fu_file u)) ∧ (fu_log u ≠ [] → fu_file u = file_of (tables (fu_file u))).

Lemma file_step_inv u u' : file_step u u' → file_inv u → file_inv u'.
Proof.
  intros Hs [Hr Ht]. destruct Hs as [drv ex exec faults ch path f' r Ho| |i h faults b f' r Hi Hu|i h Hi|]; try done.
  - destruct (NewWriteDB_keeps _ _ _ _ _ _ _ _ _ Ho) as [Htab Hex]. split; simpl; [by rewrite Htab|].
    intros Hne. destruct r as [h|err]; [by rewrite Htab; apply (Hex h)|]. rewrite Htab.
    revert Ho. unfold NewWriteDB. destruct (Open _ _ _ _); [|by intros [= <- _]; apply Ht].
    destruct (db_init faults (fu_file u)) as [f1 [[]|e]] eqn:E; [done|]. intros [= <- _].
    rewrite (Ht Hne). rewrite (Ht Hne) in E. by eapply db_init_existing.
  - destruct (db_UpdateWorldState_cases _ _ _ _ _ _ Hu) as [[-> Hf]|(-> & _ & Hf & Hup)].
    + by destruct r as [[]|e].
    + split; [|done]. simpl. rewrite replay_app, Hr. simpl.
      apply UpdateWorldState_ret in Hup as (? & rows' & ? & ->). by rewrite (UpdateWorldState_no_faults _ _ _ rows').
Qed.

(** C22: restarts are transparent.  Whatever handles a process, and the processes after it,
    open on a new file, update it through and close, with failing opens and updates and
    with crashes in between, the tables in the file are exactly what the updates that
    returned nil, in their order, make of an empty database that is never closed; none of
    them is lost and nothing else is added.  Once there was one, every read through a handle
    that is open, also one that was opened after the restarts, is the read of that
    database. *)
Theorem restarts_transparent (u : file_use) :
  rtc file_step fresh_file u →
  ∃ s, replay (fu_log u) init = Some s ∧ tables (fu_file u) = s ∧
  ∀ h ns key block, h ∈ fu_handles u → closed h = false → fu_log u ≠ [] →
    db_Get None h ns key (fu_file u) = Get None (hd_db h) ns key s ∧
    db_GetAt None h ns key block (fu_file u) = GetAt None (hd_db h) ns key block s ∧
    db_GetHistory None None h ns key (fu_file u) = GetHistory None None (hd_db h) ns key s ∧
    db_BlockNumber None h (fu_file u) = BlockNumber None (hd_db h) s.
Proof.
  intros Hr. assert (file_inv u) as [Hrep Hex].
  { refine (rtc_ind_r file_inv fresh_file _ _ u Hr); [by split|]. eauto using file_step_inv. }
  exists (tables (fu_file u)). split_and!; [done..|]. intros h ns key block _ Hc Hne.
  unfold db_Get, db_GetAt, db_GetHistory, db_BlockNumber. rewrite Hc. rewrite (Hex Hne). by destruct (fu_file u).
Qed.

(** ** An example

    A block is handled, the process crashes, and the next one opens the file and
    handles the second block. *)

Definition example_handle : handle := MkHandle Chain.db (MkPool 1 1 false).

Definition example_use : file_use :=
  MkFileUse (file_of Chain.s2) [example_handle] [(Chain.db, Chain.b1); (Chain.db, Chain.b2)].

Lemma example_use_reachable : rtc file_step fresh_file example_use.
Proof.
  eapply rtc_l; [apply (file_open_write fresh_file (Ret tt) true (λ _ _, Ret tt) no_faults (channel Chain.db) "state.db"
    (file_of init) (Ret example_handle)); reflexivity|].
  eapply rtc_l; [apply (file_update _ 0 example_handle no_faults Chain.b1 (file_of Chain.s1) (Ret tt)); reflexivity|].
  eapply rtc_l; [apply file_crash|].
  eapply rtc_l; [apply (file_open_write _ (Ret tt) true (λ _ _, Ret tt) no_faults (channel Chain.db) "state.db"
    (file_of Chain.s1) (Ret example_handle)); reflexivity|].
  eapply rtc_l; [apply (file_update _ 0 example_handle no_faults Chain.b2 (file_of Chain.s2) (Ret tt)); reflexivity|].
  apply rtc_refl.
Qed.

Lemma restarts_transparent_witness :
  db_GetAt None example_handle "cc" "k" 1 (fu_file example_use) =
    Ret (Some (MkWriteRecord "cc" "k" 1 0 0 (Chain.value "v1") false "t1")).
Proof.
  destruct (restarts_transparent _ example_use_reachable) as (s & Hs & _ & Hreads). injection Hs as <-.
  destruct (Hreads example_handle "cc" "k" 1 (list_elem_of_here _ _) eq_refl) as (_ & Hget & _); [done|].
  rewrite Hget. vm_compute. reflexivity.
Defined.
