(* ===== verification/Network.v ===== *)
(** * The test network

    [Network] of fabrictest/network.go: [Start] listens on two local ports and
    wires the ledger, the orderer and the peer together, and [Stop] takes them
    down, when it is called and again when the context ends.

    The operating system is a parameter: the address at which it opens a
    listener, given the ports in use.  [net.SplitHostPort], [strconv.Atoi] and
    the formatting of a number are modelled on strings.

    The theorems: [listen] returns the port that the listener has; a network
    that starts has two ports that were free, and none starts on a fixed port;
    [Stop] may be called once only; and a transaction that is still queued when
    the network stops can crash the process. *)

From Stdlib Require Import Strings.Ascii.
From stdpp Require Import pretty.
From S2P Require Import Prelude Blocks Status Mvcc WorldState WorldStateTheory Proto Endorse Parser Finality Delivery Ledger TestOrderer Requests Pragmas Database.

#[local] Arguments String.append _ _ : simpl nomatch.

(** ** Strings of the standard library *)

Fixpoint index (c : Ascii.ascii) (s : string) : option nat :=
  match s with
  | EmptyString => None
  | String a s' => if Ascii.eqb a c then Some 0%nat else S <$> index c s'
  end.

Fixpoint last_index (c : Ascii.ascii) (s : string) : option nat :=
  match s with
  | EmptyString => None
  | String a s' =>
      match last_index c s' with
      | Some n => Some (S n)
      | None => if Ascii.eqb a c then Some 0%nat else None
      end
  end.

(** [s[n:]] and [s[:n]] within the bounds. *)
Fixpoint sdrop (n : nat) (s : string) : string :=
  match n, s with
  | S n', String _ s' => sdrop n' s'
  | _, _ => s
  end.

Fixpoint stake (n : nat) (s : string) : string :=
  match n, s with
  | S n', String a s' => String a (stake n' s')
  | _, _ => ""
  end.

Definition addr_error (why addr : string) : error := Errorf "address %s: %s" [AStr addr; AStr why].

(** [net.SplitHostPort]. *)
Definition SplitHostPort (s : string) : result (string * string) :=
  match last_index ":" s with
  | None => Fail (addr_error "missing port in address" s)
  | Some i =>
      let rest (j k : nat) (host : string) : result (string * string) :=
        match index "[" (sdrop j s), index "]" (sdrop k s) with
        | Some _, _ => Fail (addr_error "unexpected '[' in address" s)
        | None, Some _ => Fail (addr_error "unexpected ']' in address" s)
        | None, None => Ret (host, sdrop (S i) s)
        end in
      match s with
      | String "[" _ =>
          match index "]" s with
          | None => Fail (addr_error "missing ']' in address" s)
          | Some e =>
              if decide (S e = String.length s) then Fail (addr_error "missing port in address" s)
              else if decide (S e = i) then rest 1%nat (S e) (sdrop 1 (stake e s))
              else match sdrop (S e) s with
                   | String ":" _ => Fail (addr_error "too many colons in address" s)
                   | _ => Fail (addr_error "missing port in address" s)
                   end
          end
      | _ =>
          let host := stake i s in
          match index ":" host with
          | Some _ => Fail (addr_error "too many colons in address" s)
          | None => rest 0%nat 0%nat host
          end
      end
  end.

(** The value of a decimal digit. *)
Definition digit (a : Ascii.ascii) : option Z :=
  let n := Z.of_N (Ascii.N_of_ascii a) in
  if (48 <=? n) && (n <=? 57) then Some (n - 48) else None.

Fixpoint digits (s : string) (acc : Z) : option Z :=
  match s with
  | EmptyString => Some acc
  | String a s' => d ← digit a; digits s' (10 * acc + d)
  end.

Definition atoi_error (why s : string) : error := Errorf "strconv.Atoi: parsing %q: %s" [AStr s; AStr why].

(** [strconv.Atoi] on a 64-bit platform. *)
Definition Atoi (s : string) : result Z :=
  let '(neg, body) := match s with
                      | String "-" s' => (true, s')
                      | String "+" s' => (false, s')
                      | _ => (false, s)
                      end in
  match body with
  | EmptyString => Fail (atoi_error "invalid syntax" s)
  | _ =>
      match digits body 0 with
      | None => Fail (atoi_error "invalid syntax" s)
      | Some n =>
          if neg : bool then (if n <=? 2 ^ 63 then Ret (- n) else Fail (atoi_error "value out of range" s))
          else (if n <? 2 ^ 63 then Ret n else Fail (atoi_error "value out of range" s))
      end
  end.

(** [fmt.Sprintf("127.0.0.1:%d", port)]. *)
Definition local_addr (port : Z) : string := "127.0.0.1:" +:+ pretty port.

(** ** Listening *)

(** The operating system: the address of a new listener, given the ports in use
    and the address asked for; port 0 asks for any. *)
Class Sockets := Listen : gset Z → string → result string.

Class SocketsLaws `{Sockets} := {
  Listen_addr used port addr : 0 ≤ port < 2 ^ 16 → Listen used (local_addr port) = Ret addr →
    ∃ q, 0 < q < 2 ^ 16 ∧ q ∉ used ∧ addr = local_addr q ∧ (port ≠ 0 → q = port) }.

(** [listen]: the ports in use after it, and the port of the listener.  A
    listener whose address cannot be read is closed again. *)
Definition listen `{Sockets} (port : Z) (used : gset Z) : gset Z * result Z :=
  match Listen used (local_addr port) with
  | Fail err => (used, Fail err)
  | Ret addr =>
      match SplitHostPort addr with
      | Fail err => (used, Fail err)
      | Ret (_, actualPort) =>
          match Atoi actualPort with
          | Fail err => (used, Fail err)
          | Ret p => ({[p]} ∪ used, Ret p)
          end
      end
  end.

Lemma digit_char x : (x < 10)%N → digit (pretty_N_char x) = Some (Z.of_N x).
Proof. intros Hx. by do 10 (destruct x as [|x] using N.peano_ind; [done|clear IHx]); lia. Qed.

Lemma digits_go x s : digits (pretty_N_go x s) 0 = digits s (Z.of_N x).
Proof.
  revert s. induction (N.lt_wf_0 x) as [x _ IH]. intros s. destruct (decide (x = 0%N)) as [->|Hx]; [done|].
  rewrite pretty_N_go_step by lia. rewrite IH by (apply N.div_lt; lia). simpl.
  rewrite digit_char by (by apply N.mod_lt). simpl. f_equal.
  rewrite N2Z.inj_div, N2Z.inj_mod. pose proof (Z.div_mod (Z.of_N x) 10). simpl in *. lia.
Qed.

Lemma digits_pretty p : 0 ≤ p → digits (pretty p) 0 = Some p.
Proof. intros Hp. destruct p as [|p|p]; [done| |lia]. exact (digits_go (Npos p) ""). Qed.

(** [Atoi] reads back a number that was printed. *)
Lemma Atoi_pretty p : 0 ≤ p < 2 ^ 63 → Atoi (pretty p) = Ret p.
Proof.
  intros Hp. pose proof (digits_pretty p (proj1 Hp)) as Hd. destruct (decide (p = 0)) as [->|Hne]; [done|].
  unfold Atoi. destruct (pretty p) as [|a s]; [by injection Hd|].
  assert ((match String a s with String "-" s' => (true, s') | String "+" s' => (false, s') | _ => (false, String a s) end)
    = (false, String a s)) as ->.
  { by destruct a as [[] [] [] [] [] [] [] []]. }
  rewrite Hd. by rewrite (proj2 (Z.ltb_lt _ _)) by lia.
Qed.

(** A decimal number has no colon and no bracket in it. *)
Lemma index_digits c s acc n : digits s acc = Some n → digit c = None → index c s = None ∧ last_index c s = None.
Proof.
  intros Hd Hc. revert acc Hd. induction s as [|a s IH]; intros acc; simpl; [done|].
  destruct (digit a) as [d|] eqn:Ea; simpl; [|done]. intros Hd. destruct (IH _ Hd) as [-> ->].
  destruct (Ascii.eqb_spec a c) as [->|]; [congruence|done].
Qed.

Lemma SplitHostPort_local q : 0 ≤ q → SplitHostPort (local_addr q) = Ret ("127.0.0.1", pretty q).
Proof.
  intros Hq. pose proof (digits_pretty q Hq) as Hd. unfold local_addr. revert Hd. generalize (pretty q). intros s Hd.
  destruct (index_digits ":" s 0 q Hd eq_refl) as [Hi1 Hi2]. destruct (index_digits "[" s 0 q Hd eq_refl) as [Hi3 _].
  destruct (index_digits "]" s 0 q Hd eq_refl) as [Hi5 _]. unfold SplitHostPort. simpl. rewrite Hi2. simpl.
  by rewrite Hi3, Hi5.
Qed.

(** The port that [listen] returns is the one that the listener has. *)
Lemma listen_spec `{SocketsLaws} port used : 0 ≤ port < 2 ^ 16 →
  (∃ err, listen port used = (used, Fail err)) ∨
  ∃ q, Listen used (local_addr port) = Ret (local_addr q) ∧ listen port used = ({[q]} ∪ used, Ret q) ∧
    0 < q < 2 ^ 16 ∧ q ∉ used ∧ (port ≠ 0 → q = port).
Proof.
  intros Hp. unfold listen. destruct (Listen used (local_addr port)) as [addr|err] eqn:El; [|left; by exists err].
  destruct (Listen_addr used port addr Hp El) as (q & Hq & Hfree & -> & Hport). right. exists q.
  rewrite SplitHostPort_local by lia. simpl. rewrite Atoi_pretty by lia. done.
Qed.

(** ** The network *)

Inductive kind := KindFabric | KindFabricX.

Definition kind_of (networkType : string) : result kind :=
  if bool_decide (networkType = "fabric") then Ret KindFabric
  else if bool_decide (networkType = "fabric-x") then Ret KindFabricX
  else Fail (Errorf "networkType must be fabric or fabric-x" []).

(** [nw_oSrv] and [nw_pSrv] say that a server is serving. *)
Record Network := MkNetwork {
  nw_PeerPort : Z;
  nw_OrdererPort : Z;
  nw_oSrv : bool;
  nw_pSrv : bool;
  nw_kind : kind;
  nw_requests : requests }.

Definition nw_orderer (n : Network) : testOrderer := rq_orderer (nw_requests n).
Definition nw_ledger (n : Network) : ledger := to_ledger (nw_orderer n).

Definition with_requests (r : requests) (n : Network) : Network :=
  MkNetwork (nw_PeerPort n) (nw_OrdererPort n) (nw_oSrv n) (nw_pSrv n) (nw_kind n) r.

Definition set_ledger (l : ledger) (o : testOrderer) : testOrderer :=
  MkTestOrderer (to_inCh o) (to_batch o) (to_timer o) l (to_stopped o) (to_returned o) (to_panicked o).

Definition with_ledger (l : ledger) (n : Network) : Network :=
  with_requests (with_orderer (set_ledger l (nw_orderer n)) (nw_requests n)) n.

(** The channel of the world state that the network makes for itself. *)
Definition own_db : VersionedDB := MkVersionedDB "mychannel".

Section Network.
Context `{Protos} `{HeaderTypes} `{C : CommitterCodes} `{V : ValidationCodes} `{Sockets}.
Context (BlockHeaderHash : BlockHeader → bytes) (ComputeBlockDataHash : list bytes → bytes).
(** The SQLite driver. *)
Context (drv_open : result unit) (is_execer : bool) (exec : list string → string → result unit).

Definition kind_parser (k : kind) (now : Z) : RawBlock → outcome Block :=
  match k with
  | KindFabric => fabric_Parse BlockHeaderHash now
  | KindFabricX => fabricx_Parse BlockHeaderHash now
  end.

Definition kind_validator (k : kind) (rg : RecordGetter) : MVCCValidator :=
  match k with
  | KindFabric => fabric_NewMVCCValidator rg
  | KindFabricX => fabricx_NewMVCCValidator rg
  end.

(** What the validator reads: the world state of the caller, or its own. *)
Definition record_getter (db1 : RecordGetter) (l : ledger) : RecordGetter :=
  match ld_db l with
  | None => db1
  | Some s =>
      if ld_closed l then λ _ _, Fail (Wrapf "get current: %w" [] ErrDBClosed)
      else as_getter own_db s
  end.

(** [Start]; [external] says that the caller passes a world state [db1]. *)
Definition Start (faults : nat → bool) (genesis_config : Proto.Config) (networkType : string) (cfg : Config) (external : bool)
    (used : gset Z) : gset Z * outcome Network :=
  match (if external then Ret None
         else match NewWriteDB drv_open is_execer exec faults (channel own_db) ":memory:" new_file with
              | (f, Ret _) => Ret (Some (tables f))
              | (_, Fail err) => Fail err
              end) with
  | Fail err => (used, Err err)
  | Ret db =>
      match kind_of networkType with
      | Fail err => (used, Err err)
      | Ret k =>
          match listen (oc_OrdererPort cfg) used with
          | (used1, Fail err) => (used1, Err err)
          | (used1, Ret oPort) =>
              match listen (oc_OrdererPort cfg) used1 with
              | (used2, Fail err) => (used2, Err err)
              | (used2, Ret pPort) =>
                  (used2,
                   genesis ← makeGenesisBlock ComputeBlockDataHash genesis_config;
                   Ok (MkNetwork pPort oPort true true k (new_requests (newTestOrderer (newLedger genesis db)))))
              end
          end
      end
  end.

(** Both servers, the orderer, then the ledger. *)
Definition Stop (n : Network) : outcome Network :=
  o ← stop (nw_orderer n);
  Ok (MkNetwork (nw_PeerPort n) (nw_OrdererPort n) false false (nw_kind n)
        (with_orderer (set_ledger (close (to_ledger o)) o) (nw_requests n))).

Definition CutBlock (n : Network) : Network := with_requests (call CutReq (nw_requests n)) n.

Definition Revert (num : Z) (n : Network) : Network := with_requests (call (RevertReq num) (nw_requests n)) n.

(** A step of the running network: of the orderer and its callers, with any
    answers of the driver, of the clock and of an external world state; a client
    of the peer that subscribes or takes a block; or [Stop]. *)
Inductive network_step (cfg : Config) : Network → Network → Prop :=
  | ns_requests faults now db1 n r' :
      requests_step BlockHeaderHash ComputeBlockDataHash faults own_db (kind_parser (nw_kind n) now)
        (λ l, kind_validator (nw_kind n) (record_getter db1 l)) cfg (nw_requests n) r' →
      network_step cfg n (with_requests r' n)
  | ns_subscribe n : nw_pSrv n = true → network_step cfg n (with_ledger (subscribe (nw_ledger n)).2 n)
  | ns_take n i b ch : ld_subs (nw_ledger n) !! i = Some (b :: ch) →
      network_step cfg n (with_ledger (MkLedger (ld_blocks (nw_ledger n)) (<[i := ch]> (ld_subs (nw_ledger n)))
        (ld_db (nw_ledger n)) (ld_closed (nw_ledger n))) n)
  | ns_stop n n' : Stop n = Ok n' → network_step cfg n n'.

(** ** Starting *)

(** What a call of [Start] that returns a network did. *)
Lemma Start_ok faults config networkType cfg external used used' n :
  Start faults config networkType cfg external used = (used', Ok n) →
  ∃ used1 genesis db, listen (oc_OrdererPort cfg) used = (used1, Ret (nw_OrdererPort n)) ∧
    listen (oc_OrdererPort cfg) used1 = (used', Ret (nw_PeerPort n)) ∧
    kind_of networkType = Ret (nw_kind n) ∧ makeGenesisBlock ComputeBlockDataHash config = Ok genesis ∧
    nw_requests n = new_requests (newTestOrderer (newLedger genesis db)) ∧
    db = if external then None else Some init.
Proof.
  unfold Start. destruct (if external then _ else _) as [db|err] eqn:Edb; [|done].
  assert (db = if external then None else Some init) as Hdb.
  { destruct external; [by injection Edb as <-|]. destruct (NewWriteDB _ _ _ _ _ _ _) as [f r] eqn:Eo.
    apply NewWriteDB_keeps in Eo as [Ht _]. destruct r; [|done]. injection Edb as <-. by rewrite Ht. }
  destruct (kind_of networkType) as [k|]; [|done].
  destruct (listen (oc_OrdererPort cfg) used) as [used1 [oPort|]] eqn:E1; [|done].
  destruct (listen (oc_OrdererPort cfg) used1) as [used2 [pPort|]] eqn:E2; [|done].
  intros [= -> Hn]. apply outcome_bind_ok in Hn as (genesis & Hg & [= <-]).
  exists used1, genesis, db. split_and!; done.
Qed.

(** What a network has when it starts: two different ports that were free, the parser and
    the validator of its type, and a chain that is only genesis, with an empty world state
    of its own unless the caller brings one.  It starts on free ports of the system's
    choice only: with a fixed [OrdererPort] it never does, whatever [PeerPort] is. *)
Theorem Start_network `{!SocketsLaws} faults config networkType cfg external used used' n :
  0 ≤ oc_OrdererPort cfg < 2 ^ 16 → Start faults config networkType cfg external used = (used', Ok n) →
  oc_OrdererPort cfg = 0 ∧
  nw_OrdererPort n ∉ used ∧ nw_PeerPort n ∉ used ∧ nw_PeerPort n ≠ nw_OrdererPort n ∧
  used' = {[nw_PeerPort n]} ∪ ({[nw_OrdererPort n]} ∪ used) ∧
  kind_of networkType = Ret (nw_kind n) ∧
  ∃ genesis, makeGenesisBlock ComputeBlockDataHash config = Ok genesis ∧
    nw_ledger n = newLedger genesis (if external then None else Some init).
Proof.
  intros Hport (used1 & genesis & db & Hl1 & Hl2 & Hk & Hg & Hr & Hdb)%Start_ok.
  destruct (listen_spec (oc_OrdererPort cfg) used Hport) as [[err He]|(o & _ & Ho & _ & Hfree1 & Heq1)]; [congruence|].
  rewrite Ho in Hl1. injection Hl1 as <- Hoo.
  destruct (listen_spec (oc_OrdererPort cfg) ({[o]} ∪ used) Hport) as [[err He]|(p & _ & Hp & _ & Hfree2 & Heq2)]; [congruence|].
  rewrite Hp in Hl2. injection Hl2 as <- Hpp. rewrite <- Hoo, <- Hpp. split_and!; try done.
  - destruct (decide (oc_OrdererPort cfg = 0)) as [|Hne]; [done|]. specialize (Heq1 Hne). specialize (Heq2 Hne).
    destruct Hfree2. apply elem_of_union_l, elem_of_singleton. congruence.
  - set_solver.
  - set_solver.
  - exists genesis. split; [done|]. unfold nw_ledger, nw_orderer. rewrite Hr. simpl. by rewrite Hdb.
Qed.

(** A failed start on a fixed port leaves the listener of the orderer behind. *)
Theorem fixed_port_leaks `{!SocketsLaws} faults config networkType cfg used used' err k addr :
  0 < oc_OrdererPort cfg < 2 ^ 16 → kind_of networkType = Ret k →
  Listen used (local_addr (oc_OrdererPort cfg)) = Ret addr →
  Start faults config networkType cfg true used = (used', err) →
  (∀ n, err ≠ Ok n) ∧ used' = {[oc_OrdererPort cfg]} ∪ used.
Proof.
  intros Hport Hk Hl. unfold Start. rewrite Hk.
  destruct (listen_spec (oc_OrdererPort cfg) used) as [[e He]|(o & _ & Ho & _ & _ & Heq)]; [lia| |].
  { unfold listen in He. rewrite Hl in He.
    destruct (Listen_addr used (oc_OrdererPort cfg) addr ltac:(lia) Hl) as (q & Hq & _ & -> & _).
    rewrite SplitHostPort_local in He by lia. simpl in He. rewrite Atoi_pretty in He by lia. done. }
  rewrite Ho. rewrite (Heq ltac:(lia)) in *.
  destruct (listen_spec (oc_OrdererPort cfg) ({[oc_OrdererPort cfg]} ∪ used)) as [[e He]|(p & _ & Hp & _ & Hfree & Heq2)];
    [lia| |].
  - rewrite He. intros [= <- <-]. done.
  - rewrite (Heq2 ltac:(lia)) in Hfree. set_solver.
Qed.

(** ** Running and stopping *)

(** What any step of the orderer does to its ledger and to the stop channel. *)
Lemma flush_effect faults vdb parser validator o :
  let o' := flush BlockHeaderHash ComputeBlockDataHash faults vdb parser validator o in
  rtc (ledger_step BlockHeaderHash ComputeBlockDataHash) (to_ledger o) (to_ledger o') ∧
  to_stopped o' = to_stopped o ∧ (to_panicked o = true → to_panicked o' = true).
Proof.
  unfold flush. destruct (to_batch o) as [|e batch] eqn:Eb; [done|]. rewrite <- Eb.
  pose proof (lg_process BlockHeaderHash ComputeBlockDataHash faults vdb parser (validator (to_ledger o)) (to_batch o)
    (to_ledger o)) as Hs.
  unfold process_batch. destruct (process _ _ _ _ _ _ (to_batch o) (to_ledger o)) as [l' [u| |]]; simpl in *;
    (split_and!; [by apply rtc_once|done|done]).
Qed.

Lemma requests_step_effect faults vdb parser validator cfg r r' :
  requests_step BlockHeaderHash ComputeBlockDataHash faults vdb parser validator cfg r r' →
  rtc (ledger_step BlockHeaderHash ComputeBlockDataHash) (to_ledger (rq_orderer r)) (to_ledger (rq_orderer r')) ∧
  (to_stopped (rq_orderer r) = true → to_stopped (rq_orderer r') = true).
Proof.
  intros Hs. destruct Hs as [env r o' Hb|r o' Hst|env rest r _ _ _|r _ _ _|r _ _ _|req r|id req r _ _ _ Ht
    |r r' _ Hsend|id req a ch r _ _|id req r _]; simpl; try done.
  - unfold broadcast in Hb. case_decide; by simplify_eq/=.
  - unfold stop in Hst. destruct (to_stopped (rq_orderer r)); by simplify_eq/=.
  - unfold receive_env. set (o' := MkTestOrderer rest _ _ _ _ _ _).
    destruct (_ || _); [|done]. destruct (flush_effect faults vdb parser validator o') as (? & -> & _). done.
  - destruct (flush_effect faults vdb parser validator (rq_orderer r)) as (? & -> & _). done.
  - unfold take_request, serve. destruct req as [|num]; simpl.
    + pose proof (lg_process BlockHeaderHash ComputeBlockDataHash faults vdb parser
        (validator (to_ledger (rq_orderer r))) [] (to_ledger (rq_orderer r))) as Hl.
      unfold TestOrderer.cut, process_batch. destruct (process _ _ _ _ _ _ [] _) as [l' [u| |]]; simpl in *;
        (split; [by apply rtc_once|done]).
    + pose proof (lg_truncate BlockHeaderHash ComputeBlockDataHash num (to_ledger (rq_orderer r)) (proj1 Ht)) as Hl.
      unfold revert. destruct (truncate num (to_ledger (rq_orderer r))) as [l' a]. simpl in *.
      split; [by apply rtc_once|done].
  - unfold send_reply in Hsend. destruct (rq_pending r) as [[id a]|]; [|done].
    destruct (rq_replies r !! id); simpl in Hsend; [|done]. case_decide; by simplify_eq/=.
Qed.

Lemma network_step_effect cfg n n' : network_step cfg n n' →
  rtc (ledger_step BlockHeaderHash ComputeBlockDataHash) (nw_ledger n) (nw_ledger n') ∧
  (to_stopped (nw_orderer n) = true → to_stopped (nw_orderer n') = true).
Proof.
  intros Hs. destruct Hs as [faults now db1 n r' Hr|n _|n i b ch Hi|n n' Hst].
  - by apply requests_step_effect in Hr.
  - split; [apply rtc_once, lg_subscribe|done].
  - split; [by eapply rtc_once, lg_receive|done].
  - unfold Stop, stop in Hst. unfold nw_ledger, nw_orderer in *. destruct (to_stopped (rq_orderer (nw_requests n))); simplify_eq/=.
    split; [apply rtc_once, lg_close|done].
Qed.

Lemma network_steps_effect cfg n n' : rtc (network_step cfg) n n' →
  rtc (ledger_step BlockHeaderHash ComputeBlockDataHash) (nw_ledger n) (nw_ledger n') ∧
  (to_stopped (nw_orderer n) = true → to_stopped (nw_orderer n') = true).
Proof.
  induction 1 as [n|n n1 n' Hs%network_step_effect _ IH]; [done|]. destruct Hs, IH. split; [by etrans|auto].
Qed.

(** The chain of a network is sound from its start on, whatever its clients do,
    and also while and after it stops. *)
Lemma network_chained faults config networkType cfg external used used' n n' :
  BlockMetadataIndex_TRANSACTIONS_FILTER = 2%nat →
  Start faults config networkType cfg external used = (used', Ok n) → rtc (network_step cfg) n n' →
  chained BlockHeaderHash ComputeBlockDataHash (ld_blocks (nw_ledger n')).
Proof.
  intros Hidx (used1 & genesis & db & _ & _ & _ & Hg & Hr & _)%Start_ok [Hl _]%network_steps_effect.
  apply reachable_chained; [done|]. exists config, genesis, db. split; [done|].
  unfold nw_ledger at 1 in Hl. unfold nw_orderer in Hl. by rewrite Hr in Hl.
Qed.

(** A network can be stopped only once: after a call of [Stop], whatever happens in
    between, the next one panics on the stop channel that is closed already.  [Start] calls
    [Stop] when its context ends, so a program that also calls it crashes then. *)
Theorem second_Stop_panics cfg n n' n'' :
  Stop n = Ok n' → rtc (network_step cfg) n' n'' → Stop n'' = Panic.
Proof.
  intros Hst [_ Hs]%network_steps_effect. unfold Stop, stop in *.
  unfold nw_orderer in *. destruct (to_stopped (rq_orderer (nw_requests n))); simplify_eq/=.
  by rewrite (Hs eq_refl).
Qed.

(** A batch that is cut after the ledger was closed crashes the process. *)
Lemma flush_closed faults vdb parser validator o :
  to_batch o ≠ [] → is_Some (ld_db (to_ledger o)) → ld_closed (to_ledger o) = true →
  to_panicked (flush BlockHeaderHash ComputeBlockDataHash faults vdb parser validator o) = true.
Proof.
  intros Hb [db Hdb] Hc. unfold flush. destruct (to_batch o) as [|e batch] eqn:Eb; [done|].
  unfold process_batch. destruct (process _ _ _ _ _ _ _ (to_ledger o)) as [l' r] eqn:Ep.
  destruct (process_cases _ _ _ _ _ _ _ _ _ _ Ep) as [[Hr _]|(_ & bl & fbl & _ & Hcm)]; [by destruct r as [[]| |]|].
  apply commit_cases in Hcm as [(? & [=] & _)|(_ & _ & _ & _ & Hl)]. rewrite Hdb in Hl. destruct Hl. congruence.
Qed.

(** Stopping is not safe while a transaction is queued: in a network with a world state of
    its own that cuts a block for every transaction, when [Stop] returns while an envelope
    is in the channel, the loop may still receive it, and then the process panics, because
    the database that the block goes to is closed. *)
Theorem Stop_races_with_queue cfg n n' env rest :
  oc_BlockCutTime cfg = 0 → is_Some (ld_db (nw_ledger n)) → running (nw_orderer n) → rq_pending (nw_requests n) = None →
  to_inCh (nw_orderer n) = env :: rest → Stop n = Ok n' →
  ∃ n'', network_step cfg n' n'' ∧ to_panicked (nw_orderer n'') = true.
Proof.
  intros Hcut Hdb [Hret Hp] Hpend Hin Hst. unfold Stop, stop, nw_ledger, nw_orderer in *.
  destruct (to_stopped (rq_orderer (nw_requests n))); simplify_eq/=.
  eexists. split; [eapply (ns_requests cfg no_faults 0 (λ _ _, Ret None)), rs_receive; done|].
  simpl. unfold receive_env. rewrite Hcut. simpl. apply flush_closed; simpl; [by destruct (to_batch _)|done|done].
Qed.

End Network.

(** ** A concrete network *)

Module Networks.
Import Wire.

(** A system that hands out the first free port of the dynamic range. *)
Definition free_port (used : gset Z) : option Z := head (filter (λ q, q ∉ used) (seqZ 49152 64)).

Lemma free_port_spec used q : free_port used = Some q → 0 < q < 2 ^ 16 ∧ q ∉ used.
Proof.
  unfold free_port. intros [Hq Hin%elem_of_seqZ]%head_Some_elem_of%list_elem_of_filter. split; [lia|done].
Qed.

#[export] Instance sockets : Sockets := λ used addr,
  match SplitHostPort addr with
  | Fail err => Fail err
  | Ret (_, p) =>
      match Atoi p with
      | Fail err => Fail err
      | Ret p =>
          if p =? 0 then
            match free_port used with
            | Some q => Ret (local_addr q)
            | None => Fail (Errorf "bind: no free port" [])
            end
          else if decide (p ∈ used) then Fail (Errorf "bind: address already in use" [])
          else Ret (local_addr p)
      end
  end.

#[export] Instance sockets_laws : SocketsLaws.
Proof.
  split. intros used port addr Hp. unfold Listen, sockets. rewrite SplitHostPort_local by lia. simpl.
  rewrite Atoi_pretty by lia. destruct (port =? 0) eqn:E; bool_to_prop.
  - destruct (free_port used) as [q|] eqn:Ef; [|done]. intros [= <-]. apply free_port_spec in Ef as [Hq Hf].
    exists q. split_and!; [lia|lia|done|done|lia].
  - case_decide; [done|]. intros [= <-]. exists port. split_and!; [lia|lia|done|done|done].
Qed.

Definition cfg : Config := MkOrdererConfig 0 0 0 0.

Definition started : gset Z * outcome Network :=
  Start Ledgers.data_hash (Ret tt) true (λ _ _, Ret tt)
    no_faults (0, []) "fabric-x" cfg false ∅.

Lemma started_ok : ∃ used n, started = (used, Ok n).
Proof. by eexists _, _. Qed.

(** The state of [started], and then with an envelope in the channel. *)
Definition network : Network :=
  match started.2 with
  | Ok n => n
  | _ => MkNetwork 0 0 false false KindFabric (new_requests (newTestOrderer Ledgers.start))
  end.

Definition step : Network → Network → Prop :=
  network_step (C := committer_codes) (V := fabric_codes) Ledgers.hash Ledgers.data_hash cfg.

Lemma network_started : started = (started.1, Ok network).
Proof. reflexivity. Qed.

Definition queued : Network :=
  with_requests (with_orderer (MkTestOrderer [Ledgers.env] [] false (nw_ledger network) false false false)
    (nw_requests network)) network.

Lemma queue_step : step network queued.
Proof.
  exact (ns_requests (C := committer_codes) (V := fabric_codes) Ledgers.hash Ledgers.data_hash cfg no_faults 0
    (λ _ _, Ret None) network _ (rs_broadcast _ _ _ _ _ _ _ Ledgers.env (nw_requests network) _ eq_refl)).
Qed.

Definition stopped : Network :=
  match Stop queued with Ok n => n | _ => queued end.

End Networks.

Import Wire Networks.

Lemma Start_network_witness :
  nw_PeerPort network ≠ nw_OrdererPort network ∧ nw_kind network = KindFabricX.
Proof.
  destruct (Start_network (H0 := protos) (H1 := headers) Ledgers.data_hash (Ret tt) true (λ _ _, Ret tt) no_faults (0, []) "fabric-x" cfg false ∅
    started.1 network ltac:(unfold cfg; simpl; lia) network_started) as (_ & _ & _ & Hne & _ & Hk & _).
  exact (conj Hne (f_equal (λ r, match r with Ret k => k | Fail _ => KindFabric end) (eq_sym Hk))).
Defined.

Lemma second_Stop_panics_witness : Stop stopped = Panic.
Proof.
  exact (second_Stop_panics (C := committer_codes) (V := fabric_codes) Ledgers.hash Ledgers.data_hash cfg queued stopped
    stopped eq_refl (rtc_refl _ _)).
Defined.

Lemma Stop_races_with_queue_witness : ∃ n, step stopped n ∧ to_panicked (nw_orderer n) = true.
Proof.
  exact (Stop_races_with_queue (C := committer_codes) (V := fabric_codes) Ledgers.hash Ledgers.data_hash cfg queued
    stopped Ledgers.env [] eq_refl (ex_intro _ _ eq_refl) (conj eq_refl eq_refl) eq_refl eq_refl eq_refl).
Defined.
