(* ===== verification/Recovery.v ===== *)
(** * Crash recovery

    A client that keeps a [VersionedDB] in step with a chain across crashes:
    [NewWriteDB] (state/db.go) when the process starts, then the loop of
    [Synchronizer.Start] (network/synchronizer.go), which asks the database for
    its last block and subscribes from the block that [resume] computes, and the
    handler [VersionedDB.Handle] on each block of the stream.

    A step is a (re)start of the process, an attempt to open the database, a
    subscription, the handling of one block, or the end of the stream; opening,
    reading the height and updating may fail at any driver call, and the process
    may crash between any two steps.  The stream is assumed to deliver the blocks
    of the chain from the block asked for without gaps: a peer of the test
    network does so as long as the subscriber keeps up and the chain is not
    reverted (Subscription.v); what a gap does is in TestPeer.v.

    The theorems: at every moment the database holds exactly a prefix of the
    chain, with no block missing, repeated or out of order; from every state the
    client reaches the end of the chain once nothing goes wrong any more; and a block with a transaction that
    writes a key twice stops it for good. *)

From S2P Require Import Prelude Blocks WorldState WorldStateTheory Synchronizer Pragmas Database.

Record client := MkClient {
  cl_file : file;
  cl_handle : option handle;
  (** The number of the block that the stream delivers next. *)
  cl_next : option Z }.

Section Recovery.
Context (drv_open : result unit) (is_execer : bool) (exec : list string → string → result unit).
Context (ch path : string) (chain : list Block).

Definition db : VersionedDB := MkVersionedDB ch.

(** [NewWriteDB] at the start of the process. *)
Definition client_open (faults : nat → bool) (c : client) : client :=
  let '(f, r) := NewWriteDB drv_open is_execer exec faults ch path (cl_file c) in
  MkClient f (match r with Ret h => Some h | Fail _ => None end) None.

(** One turn of the loop up to [SubscribeBlocks]. *)
Definition client_subscribe (fault : option error) (h : handle) (c : client) : client :=
  match db_BlockNumber fault h (cl_file c) with
  | Ret lastBlock => MkClient (cl_file c) (cl_handle c) (Some (resume lastBlock))
  | Fail _ => c
  end.

(** The handler on the next block; an error ends the stream. *)
Definition client_handle (faults : nat → bool) (h : handle) (k : Z) (b : Block) (c : client) : client :=
  let '(f, r) := db_UpdateWorldState faults h b (cl_file c) in
  MkClient f (cl_handle c) (match r with Ret _ => Some (k + 1) | Fail _ => None end).

Inductive client_step : client → client → Prop :=
  | cs_crash c : client_step c (MkClient (cl_file c) None None)
  | cs_open faults c : cl_handle c = None → client_step c (client_open faults c)
  | cs_subscribe fault h c : cl_handle c = Some h → cl_next c = None → client_step c (client_subscribe fault h c)
  | cs_handle faults h k b c : cl_handle c = Some h → cl_next c = Some k → chain !! Z.to_nat k = Some b →
      client_step c (client_handle faults h k b c)
  | cs_end c : client_step c (MkClient (cl_file c) (cl_handle c) None).

Definition new_client : client := MkClient new_file None None.

(** The chain is numbered from genesis and its blocks are as a parser makes them. *)
Definition chain_wf : Prop :=
  Z.of_nat (length chain) < 2 ^ 63 ∧
  ∀ i b, chain !! i = Some b → block_wf b ∧ blk_Number b = Z.of_nat i.

(** The database holds the first [k] blocks, and the stream is not past them. *)
Record client_inv (k : nat) (c : client) : Prop := {
  ci_bound : (k ≤ length chain)%nat;
  ci_history : history db (take k chain) (tables (cl_file c));
  ci_handle : ∀ h, cl_handle c = Some h →
    h = MkHandle db (MkPool 1 1 false) ∧ cl_file c = file_of (tables (cl_file c));
  ci_next : ∀ j, cl_next c = Some j → 0 ≤ j ≤ Z.of_nat k }.

Lemma chain_take_numbers k b : chain_wf → b ∈ take k chain → blk_Number b < Z.of_nat k.
Proof.
  intros [_ Hwf] (i & Hi)%list_elem_of_lookup. apply lookup_take_Some in Hi as [Hi Hlt].
  destruct (Hwf i b Hi) as [_ ->]. lia.
Qed.

(** Where the loop resumes with the first [k] blocks in the database: behind
    them, or at genesis when these are genesis alone. *)
Lemma resume_chain k : chain_wf → (k ≤ length chain)%nat →
  resume (chain_height (take k chain)) = if (k <=? 1)%nat then 0 else Z.of_nat k.
Proof.
  intros [Hlen Hwf] Hk. unfold chain_height. rewrite last_lookup, length_take, Nat.min_l by done.
  destruct k as [|k]; [done|]. simpl pred. rewrite lookup_take_lt by lia.
  destruct (lookup_lt_is_Some_2 chain k) as [b Hb]; [lia|]. rewrite Hb.
  destruct (Hwf k b Hb) as [_ ->]. unfold resume. destruct k as [|k]; [done|].
  rewrite (proj2 (Z.ltb_lt _ _)) by lia. simpl Nat.leb. unfold wrap_uint64. rewrite Z.mod_small; lia.
Qed.

Lemma db_BlockNumber_chain fault h k c n : client_inv k c → cl_handle c = Some h →
  db_BlockNumber fault h (cl_file c) = Ret n → n = chain_height (take k chain).
Proof.
  intros [_ Hh Hhd _] Hc. destruct (Hhd h Hc) as [-> Hf]. unfold db_BlockNumber. rewrite Hf. simpl.
  destruct fault; [done|]. apply history_invariant, BlockNumber_history in Hh.
  replace (tables (file_of (tables (cl_file c)))) with (tables (cl_file c)) by done. rewrite Hh. by intros [= <-].
Qed.

(** Handling the next block of the stream. *)
Lemma client_handle_inv k faults h j b c : chain_wf → client_inv k c →
  cl_handle c = Some h → cl_next c = Some j → chain !! Z.to_nat j = Some b →
  ∃ k', (k ≤ k')%nat ∧ client_inv k' (client_handle faults h j b c).
Proof.
  intros Hchain [Hk Hh Hhd Hnext] Hc Hj Hb. destruct (Hhd h Hc) as [-> Hf]. pose proof (Hnext j Hj) as Hjk.
  unfold client_handle. destruct (db_UpdateWorldState _ _ _ _) as [f' r] eqn:Hup.
  apply db_UpdateWorldState_cases in Hup as [[-> Hr]|(-> & _ & Hf' & Hup)].
  { exists k. split; [done|]. split; simpl; [done..|]. destruct r as [[]|]; done. }
  destruct (decide (j = Z.of_nat k)) as [->|Hne].
  - rewrite Nat2Z.id in Hb. destruct Hchain as [Hlen Hwf]. destruct (Hwf k b Hb) as [Hbwf Hnum].
    exists (S k). split; [lia|]. split; simpl.
    + by apply lookup_lt_Some in Hb.
    + rewrite (take_S_r _ _ _ Hb). eapply history_apply; [done..| |exact Hup].
      intros b' Hb'. rewrite Hnum. by apply chain_take_numbers.
    + intros h' Hh'. split; [by apply Hhd|done].
    + intros ? [= <-]. lia.
  - exists k. split; [done|]. split; simpl.
    + done.
    + eapply history_replay; [done| |exact Hup]. eapply list_elem_of_lookup_2. rewrite lookup_take_lt; [done|lia].
    + intros h' Hh'. split; [by apply Hhd|done].
    + intros ? [= <-]. lia.
Qed.

Lemma client_step_inv k c c' : chain_wf → client_step c c' → client_inv k c →
  ∃ k', (k ≤ k')%nat ∧ client_inv k' c'.
Proof.
  intros Hchain Hs Hinv. destruct Hs as [c|faults c Hnone|fault h c Hc Hn|faults h j b c Hc Hj Hb|c].
  - exists k. destruct Hinv. split; [done|]. by split.
  - exists k. destruct Hinv as [Hk Hh Hhd _]. unfold client_open.
    destruct (NewWriteDB _ _ _ faults ch path (cl_file c)) as [f r] eqn:Ho.
    apply NewWriteDB_keeps in Ho as [Ht Hr]. split; [done|]. split; simpl; [done|by rewrite Ht| |done].
    intros h Hh'. destruct r as [h0|]; [|done]. injection Hh' as <-. destruct (Hr h0 eq_refl) as [-> ->]. done.
  - exists k. split; [done|]. unfold client_subscribe.
    destruct (db_BlockNumber fault h (cl_file c)) as [n|err] eqn:E; [|done].
    rewrite (db_BlockNumber_chain _ _ _ _ _ Hinv Hc E). destruct Hinv as [Hk Hh Hhd _]. split; simpl; [done..|].
    intros ? [= <-]. rewrite resume_chain by done. destruct (k <=? 1)%nat; lia.
  - by eapply client_handle_inv.
  - exists k. destruct Hinv. split; [done|]. by split.
Qed.

Lemma client_steps_inv k c c' : chain_wf → rtc client_step c c' → client_inv k c →
  ∃ k', (k ≤ k')%nat ∧ client_inv k' c'.
Proof.
  intros Hchain Hr. revert k. induction Hr as [c|c c1 c' Hs _ IH]; intros k Hinv; [by exists k|].
  destruct (client_step_inv k c c1 Hchain Hs Hinv) as (k1 & ? & Hinv1).
  destruct (IH k1 Hinv1) as (k2 & ? & ?). exists k2. split; [lia|done].
Qed.

Lemma new_client_inv : client_inv 0 new_client.
Proof. split; simpl; [lia|constructor|done|done]. Qed.

(** C6: recovery is exact, on a chain of well-formed blocks that the stream delivers without
    gaps: at every moment, after any crashes, restarts, failed opens, failed reads, failed
    updates and broken streams, there is a prefix of the chain such that the
    database answers every read with the last write of that prefix and the whole history of
    a key with its writes in it; and a client never goes back: later states hold a prefix
    at least as long. *)
Theorem recovery_exact (c c' : client) :
  chain_wf → rtc client_step new_client c → rtc client_step c c' →
  ∃ k k', (k ≤ k' ≤ length chain)%nat ∧
    (∀ ns key, Get None db ns key (tables (cl_file c)) =
       Ret (record_of <$> last (key_history ch ns key (take k chain)))) ∧
    (∀ ns key, GetHistory None None db ns key (tables (cl_file c')) =
       Ret (record_of <$> key_history ch ns key (take k' chain))) ∧
    BlockNumber None db (tables (cl_file c')) = Ret (chain_height (take k' chain)).
Proof.
  intros Hchain Hr Hr'. destruct (client_steps_inv 0 _ _ Hchain Hr new_client_inv) as (k & _ & Hinv).
  destruct (client_steps_inv k _ _ Hchain Hr' Hinv) as (k' & Hle & Hinv').
  exists k, k'. split; [split; [done|by apply ci_bound in Hinv']|]. split_and!.
  - intros ns key. by apply (Get_history db), history_invariant, ci_history.
  - intros ns key. by apply (GetHistory_history db), history_invariant, ci_history.
  - by apply BlockNumber_history, history_invariant, ci_history.
Qed.

(** ** Reaching the end of the chain *)

(** Without driver faults the next block of the stream is accepted, be it new
    or handled before. *)
Lemma next_accepted k c j b : chain_wf → client_inv k c → cl_next c = Some j → chain !! Z.to_nat j = Some b →
  ∃ t, UpdateWorldState no_faults db b (tables (cl_file c)) = (t, Ret tt).
Proof.
  intros [Hlen Hwf] Hinv Hj Hb. pose proof (ci_next _ _ Hinv j Hj) as Hjk.
  destruct (Hwf _ _ Hb) as [Hbwf Hnum]. pose proof (lookup_lt_Some _ _ _ Hb) as Hlt.
  destruct (decide (j = Z.of_nat k)) as [->|Hne].
  - destruct (UpdateWorldState_next db (take k chain) b (tables (cl_file c))) as (t & Ht & _);
      [by apply ci_history|done| |lia|by exists t].
    intros b' Hb'%chain_take_numbers; [lia|done].
  - destruct (history_replay_same db (take k chain) (tables (cl_file c)) b) as [Hins _].
    { by apply history_invariant, ci_history. }
    { eapply list_elem_of_lookup_2. rewrite lookup_take_lt; [done|lia]. }
    eexists. apply (UpdateWorldState_no_faults db b _ _ ltac:(lia) Hins).
Qed.

Lemma db_update_open h b f t : closed h = false → f = file_of (tables f) →
  UpdateWorldState no_faults (hd_db h) b (tables f) = (t, Ret tt) →
  db_UpdateWorldState no_faults h b f = (file_of t, Ret tt).
Proof. intros Hc -> Hup. unfold db_UpdateWorldState. rewrite Hc. simpl. by rewrite Hup. Qed.

(** A turn of the client in which nothing goes wrong: it opens the database,
    subscribes, or handles the next block; at the end of the chain it waits. *)
Definition calm (c : client) : option client :=
  match cl_handle c, cl_next c with
  | None, _ => Some (client_open no_faults c)
  | Some h, None => Some (client_subscribe None h c)
  | Some h, Some k => b ← chain !! Z.to_nat k; Some (client_handle no_faults h k b c)
  end.

Fixpoint calm_run (n : nat) (c : client) : option client :=
  match n with
  | O => Some c
  | S n => c' ← calm c; calm_run n c'
  end.

Lemma calm_run_steps n c c' : calm_run n c = Some c' → rtc client_step c c'.
Proof.
  revert c. induction n as [|n IH]; intros c; simpl; [by intros [= ->]|]. intros (c1 & Hc & Hr)%bind_Some.
  eapply rtc_l; [|by apply IH]. revert Hc. unfold calm. destruct (cl_handle c) as [h|] eqn:Eh; [|intros [= <-]; by apply cs_open].
  destruct (cl_next c) as [k|] eqn:En; [|intros [= <-]; by apply cs_subscribe].
  intros (b & Hb & [= <-])%bind_Some. by apply cs_handle.
Qed.

Lemma stream_to_end n k c h j : chain_wf → client_inv k c → cl_handle c = Some h → cl_next c = Some j →
  (length chain - Z.to_nat j)%nat = n →
  ∃ c', calm_run n c = Some c' ∧ calm c' = None ∧ client_inv (length chain) c'.
Proof.
  intros Hchain. revert k c j. induction n as [|n IH]; intros k c j Hinv Hc Hj Hn.
  - exists c. split; [done|]. pose proof (ci_next _ _ Hinv j Hj). pose proof (ci_bound _ _ Hinv). split.
    + unfold calm. rewrite Hc, Hj, lookup_ge_None_2 by lia. done.
    + by replace (length chain) with k by lia.
  - destruct (lookup_lt_is_Some_2 chain (Z.to_nat j)) as [b Hb]; [lia|].
    destruct (next_accepted k c j b Hchain Hinv Hj Hb) as [t Ht]. destruct (ci_handle _ _ Hinv h Hc) as [-> Hf].
    destruct (client_handle_inv k no_faults _ j b c Hchain Hinv Hc Hj Hb) as (k' & _ & Hinv').
    simpl. unfold calm at 1. rewrite Hc, Hj, Hb. simpl. unfold client_handle in *.
    rewrite (db_update_open (MkHandle db (MkPool 1 1 false)) b (cl_file c) t eq_refl Hf Ht) in *.
    pose proof (ci_next _ _ Hinv j Hj). by apply (IH k' _ (j + 1)); [..|lia].
Qed.

(** A client with an open database subscribes, and gets to the end. *)
Lemma subscribe_to_end k c h : chain_wf → client_inv k c → cl_handle c = Some h → cl_next c = None →
  ∃ n c', (n ≤ length chain + 1)%nat ∧ calm_run n c = Some c' ∧ calm c' = None ∧ client_inv (length chain) c'.
Proof.
  intros Hchain Hinv Hc Hn. destruct (ci_handle _ _ Hinv h Hc) as [-> Hf].
  assert (∃ j, client_subscribe None (MkHandle db (MkPool 1 1 false)) c = MkClient (cl_file c) (cl_handle c) (Some j)) as [j Hj].
  { unfold client_subscribe. rewrite Hf.
    change (db_BlockNumber None _ (file_of (tables (cl_file c)))) with (BlockNumber None db (tables (cl_file c))).
    rewrite (BlockNumber_history db _ _ (history_invariant _ _ _ (ci_history _ _ Hinv))). by eexists. }
  assert (client_step c (MkClient (cl_file c) (cl_handle c) (Some j))) as Hs by (rewrite <- Hj; by apply cs_subscribe).
  destruct (client_step_inv k _ _ Hchain Hs Hinv) as (k1 & _ & Hinv1).
  destruct (stream_to_end _ k1 _ _ j Hchain Hinv1 Hc eq_refl eq_refl) as (c' & Hr & Hend).
  exists (S (length chain - Z.to_nat j)), c'. split; [lia|]. split; [|done].
  simpl. unfold calm. by rewrite Hc, Hn, Hj.
Qed.

(** C21: recovery is complete, on a chain of well-formed blocks (in particular without a
    transaction that writes a key twice) that the stream delivers without gaps, and where
    the database can be opened: from every
    state that a client reaches, whatever went wrong before, as soon as nothing goes wrong
    any more the client comes to the end of the chain, in at most one turn per block beside
    the opening of the database and the subscription, and then its database holds the whole
    chain, and its height is that of the chain. *)
Theorem recovery_complete (c : client) (cn : conn) :
  chain_wf → (open_db drv_open is_execer exec path).2 = Ret cn → rtc client_step new_client c →
  ∃ n c', (n ≤ length chain + 2)%nat ∧ calm_run n c = Some c' ∧ rtc client_step c c' ∧ calm c' = None ∧
    history db chain (tables (cl_file c')) ∧ BlockNumber None db (tables (cl_file c')) = Ret (chain_height chain).
Proof.
  intros Hchain Hopen Hr. destruct (client_steps_inv 0 _ _ Hchain Hr new_client_inv) as (k & _ & Hinv).
  enough (∃ n c', (n ≤ length chain + 2)%nat ∧ calm_run n c = Some c' ∧ calm c' = None ∧ client_inv (length chain) c')
    as (n & c' & Hn & Hrun & Hstop & Hend).
  { exists n, c'. pose proof (ci_history _ _ Hend) as Hh. rewrite firstn_all in Hh.
    split_and!; [done|done|by eapply calm_run_steps|done|done|]. by apply BlockNumber_history, history_invariant. }
  destruct (cl_handle c) as [h|] eqn:Eh.
  - destruct (cl_next c) as [j|] eqn:En.
    + destruct (stream_to_end _ k c h j Hchain Hinv Eh En eq_refl) as (c' & ?). eexists _, c'. split; [|done]. lia.
    + destruct (subscribe_to_end k c h Hchain Hinv Eh En) as (n & c' & ? & ?). exists n, c'. split; [lia|done].
  - assert (client_open no_faults c = MkClient (file_of (tables (cl_file c))) (Some (MkHandle db (MkPool 1 1 false))) None) as Ho.
    { unfold client_open, NewWriteDB, Open, open. by destruct (open_db _ _ _ path) as [? [?|?]]; simplify_eq/=. }
    destruct (client_step_inv k _ _ Hchain (cs_open no_faults c Eh) Hinv) as (k1 & _ & Hinv1).
    destruct (subscribe_to_end k1 _ (MkHandle db (MkPool 1 1 false)) Hchain Hinv1) as (n & c' & Hn & Hrun & ?); [by rewrite Ho..|].
    exists (S n), c'. split; [lia|]. split; [|done]. simpl. unfold calm at 1. by rewrite Eh.
Qed.

(** ** A block that is refused *)

(** The stream has not passed block [p], and the database has not reached it. *)
Record stuck_inv (p : nat) (c : client) : Prop := {
  si_next : ∀ j, cl_next c = Some j → 0 ≤ j ≤ Z.of_nat p;
  si_progress : ∀ n, channel_progress (tables (cl_file c)) !! ch = Some n → 0 ≤ n < Z.of_nat p;
  si_handle : ∀ h, cl_handle c = Some h → hd_db h = db }.

Lemma client_step_stuck p c c' : (∀ i b, chain !! i = Some b → blk_Number b = Z.of_nat i) →
  Z.of_nat p < 2 ^ 63 → (∀ b, chain !! p = Some b → ∀ faults s, ∃ err, UpdateWorldState faults db b s = (s, Fail err)) →
  client_step c c' → stuck_inv p c → stuck_inv p c'.
Proof.
  intros Hnum Hp Hbad Hs [Hn Hpr Hh]. destruct Hs as [c|faults c _|fault h c Hc _|faults h j b c Hc Hj Hb|c]; try by split.
  - unfold client_open. destruct (NewWriteDB _ _ _ faults ch path (cl_file c)) as [f r] eqn:Ho.
    apply NewWriteDB_keeps in Ho as [Ht Hr]. split; cbn [cl_file cl_next cl_handle]; [done|by rewrite Ht|].
    intros h Hh'. destruct r as [h0|]; [|done]. injection Hh' as <-. by destruct (Hr h0 eq_refl) as [_ ->].
  - unfold client_subscribe, db_BlockNumber. destruct (closed h); [by split|]. unfold BlockNumber. rewrite (Hh h Hc).
    destruct (read_fault _ _ _); [by split|]. simpl channel.
    destruct (channel_progress (tables (cl_file c)) !! ch) as [n|] eqn:E.
    + specialize (Hpr n eq_refl). rewrite (proj2 (Z.ltb_ge _ _)) by lia. split; cbn [cl_file cl_next cl_handle]; [|naive_solver|done].
      intros ? [= <-]. unfold resume, wrap_uint64. destruct (0 <? n); [rewrite Z.mod_small; lia|lia].
    + split; cbn [cl_file cl_next cl_handle]; [|by rewrite E|done]. intros ? [= <-]. unfold resume. simpl. lia.
  - specialize (Hn j Hj). unfold client_handle. destruct (db_UpdateWorldState _ _ _ _) as [f' r] eqn:Hup.
    apply db_UpdateWorldState_cases in Hup as [[-> Hr]|(-> & _ & _ & Hup)].
    { split; cbn [cl_file cl_next cl_handle]; [|done..]. by destruct r as [[]|]. }
    rewrite (Hh h Hc) in Hup. assert (j ≠ Z.of_nat p) as Hne.
    { intros ->. rewrite Nat2Z.id in Hb. destruct (Hbad b Hb faults (tables (cl_file c))) as [err Hf]. congruence. }
    apply UpdateWorldState_ret in Hup as (_ & rows' & _ & Hf). split; cbn [cl_file cl_next cl_handle]; [intros ? [= <-]; lia| |done].
    intros n. rewrite Hf. change (channel_progress (after_update db b (tables (cl_file c)) rows'))
      with (upsert_progress (channel_progress (tables (cl_file c))) ch (blk_Number b)).
    rewrite upsert_progress_lookup, (Hnum _ _ Hb), decide_True by done.
    destruct (channel_progress (tables (cl_file c)) !! ch) as [old|] eqn:E; intros [= <-]; [specialize (Hpr old eq_refl)|]; lia.
Qed.

(** A transaction that writes a key twice stops a client for good: nothing of
    the block that holds it, nor any later block, ever reaches the database,
    however often the client retries or restarts. *)
Theorem duplicate_write_stops_client (p : nat) (b : Block) tx n1 n2 w1 w2 (c : client) :
  (∀ i b, chain !! i = Some b → blk_Number b = Z.of_nat i) → Z.of_nat p < 2 ^ 63 → chain !! p = Some b →
  tx ∈ blk_Transactions b → Transaction_Valid tx = true → n1 ∈ tx_NsRWS tx → n2 ∈ tx_NsRWS tx →
  ns_Namespace n1 = ns_Namespace n2 → w1 ∈ rws_Writes (ns_RWS n1) → w2 ∈ rws_Writes (ns_RWS n2) →
  wr_Key w1 = wr_Key w2 → wr_Value w1 ≠ wr_Value w2 ∨ wr_IsDelete w1 ≠ wr_IsDelete w2 →
  rtc client_step new_client c →
  ∀ n, channel_progress (tables (cl_file c)) !! ch = Some n → n < Z.of_nat p.
Proof.
  intros Hnum Hp Hb Htx Hv Hn1 Hn2 Hns Hw1 Hw2 Hk Hne Hr n Hc.
  enough (stuck_inv p c) as Hi by (by apply (si_progress _ _ Hi)).
  refine (rtc_ind_r (stuck_inv p) new_client _ _ c Hr); [by split|]. intros c1 c2 _ Hs.
  apply client_step_stuck; try done. intros b' Hb' faults s. assert (b' = b) as -> by congruence.
  exact (duplicate_write_refused faults db b s tx n1 n2 w1 w2 Htx Hv Hn1 Hn2 Hns Hw1 Hw2 Hk Hne).
Qed.

End Recovery.

(** ** An example

    A chain of genesis and the two blocks of [WorldStateTheory.Chain]; the
    process crashes after block 1 and catches up when it is started again. *)

Module Recoveries.

Definition blocks : list Block := [Chain.block 0 []; Chain.b1; Chain.b2].

Definition step := client_step (Ret tt) true (λ _ _, Ret tt) "ch" "state.db" blocks.

Definition opened : client := client_open (Ret tt) true (λ _ _, Ret tt) "ch" "state.db" no_faults new_client.

Lemma blocks_wf : chain_wf blocks.
Proof.
  split; [done|]. intros [|[|[|i]]] b Hb; simplify_eq/=.
  - split; [|done]. split; [split; [by vm_compute|constructor]|constructor|constructor].
  - split; [apply Chain.b1_wf|done].
  - split; [apply Chain.b2_wf|done].
Qed.

Lemma opened_reached : rtc step new_client opened.
Proof. by apply rtc_once, cs_open. Qed.

End Recoveries.

Lemma recovery_exact_witness :
  ∃ k k', (k ≤ k' ≤ length Recoveries.blocks)%nat ∧
    BlockNumber None (db "ch") (tables (cl_file Recoveries.opened)) = Ret (chain_height (take k' Recoveries.blocks)).
Proof.
  destruct (recovery_exact _ _ _ _ _ _ _ _ Recoveries.blocks_wf Recoveries.opened_reached (rtc_refl _ _))
    as (k & k' & Hk & _ & _ & Hn).
  exists k, k'. exact (conj Hk Hn).
Defined.

Lemma recovery_complete_witness :
  ∃ n c', (n ≤ 5)%nat ∧
    calm_run (Ret tt) true (λ _ _, Ret tt) "ch" "state.db" Recoveries.blocks n Recoveries.opened = Some c' ∧
    BlockNumber None (db "ch") (tables (cl_file c')) = Ret 2.
Proof.
  destruct (recovery_complete (Ret tt) true (λ _ _, Ret tt) "ch" "state.db" Recoveries.blocks Recoveries.opened
    (MkConn (fmap (M := list) pragma_stmt defaultPragmas) false) Recoveries.blocks_wf eq_refl Recoveries.opened_reached)
    as (n & c' & Hle & Hr & _ & _ & _ & Hn).
  exists n, c'. exact (conj Hle (conj Hr Hn)).
Defined.
