(* ===== verification/Replica.v ===== *)
(** * Replicas of the world state

    How the parts fit together: the test ledger (fabrictest/ledger.go) orders,
    validates and applies batches, and a client (the processor of
    blocks/processor.go with the Fabric-X parser and a [VersionedDB] handler,
    fed by [SubscribeBlocks] of network/peer.go) applies the raw blocks that it
    is sent.  The client never validates: it trusts the filter of a block.

    The theorem: a client that starts from the ledger's world state and is sent
    the blocks that the ledger appended has, after them, exactly the ledger's
    world state, whatever batches failed in between. *)

From S2P Require Import Prelude Blocks Status Mvcc WorldState WorldStateTheory Proto Endorse Parser Finality Delivery Ledger Subscription.

(** ** Blocks with the same outcomes *)

Lemma write_transaction_outcome faults ch n t t' :
  same_outcome t t' → write_transaction faults ch n t' = write_transaction faults ch n t.
Proof.
  intros (Hb & Hs & _). unfold write_transaction, Transaction_Valid. rewrite Hs. rewrite Hb. done.
Qed.

Lemma for_each_outcome faults ch n txs txs' : Forall2 same_outcome txs txs' →
  for_each (write_transaction faults ch n) txs' = for_each (write_transaction faults ch n) txs.
Proof.
  induction 1 as [|t t' txs txs' Ht _ IH]; simpl; [done|]. by rewrite IH, (write_transaction_outcome faults ch n t t').
Qed.

(** The update looks at nothing of a block but its number and the outcomes. *)
Lemma UpdateWorldState_outcome faults db b b' s :
  blk_Number b' = blk_Number b → Forall2 same_outcome (blk_Transactions b) (blk_Transactions b') →
  UpdateWorldState faults db b' s = UpdateWorldState faults db b s.
Proof. intros Hn Ht. unfold UpdateWorldState, update_statements. by rewrite Hn, (for_each_outcome _ _ _ _ _ Ht). Qed.

Section Replica.
Context `{Protos} `{HeaderTypes} `{!HeaderTypesLaws} `{CL : CommitterCodesLaws}.
Context (BlockHeaderHash : BlockHeader → bytes) (ComputeBlockDataHash : list bytes → bytes) (vdb : VersionedDB).
Context (filter_index : BlockMetadataIndex_TRANSACTIONS_FILTER = 2%nat).

(** The database as a handler of the processor. *)
Definition db_handler : BlockHandler (W := Backend) := λ b s,
  let '(s', r) := WorldState.Handle WorldState.no_faults vdb b s in (s', lift r).

(** The client, reading its clock at [now] for every block. *)
Definition replica (now : Z) : RawBlock → Backend → Backend * outcome unit :=
  ProcessBlock (MkProcessor (fabricx_Parse BlockHeaderHash now) [db_handler]).

(** One batch at the ledger, whether it is appended or fails. *)
Inductive batch_step : ledger → ledger → Prop :=
  | batch_processed faults getter now envs l :
      batch_step l (process BlockHeaderHash ComputeBlockDataHash faults vdb (fabricx_Parse BlockHeaderHash now)
                      (fabricx_NewMVCCValidator getter) envs l).1.

(** A client that applies the block of a batch makes the same update. *)
Lemma replica_applies getter now now' envs l bl fbl faults db db' :
  prepare BlockHeaderHash ComputeBlockDataHash (fabricx_Parse BlockHeaderHash now)
    (fabricx_NewMVCCValidator getter) envs l = Ok (bl, fbl) →
  UpdateWorldState faults vdb bl db = (db', Ret tt) → replica now' fbl db = (db', Ok tt).
Proof.
  intros Hp Hup. destruct (fabricx_prepare_reparse BlockHeaderHash ComputeBlockDataHash getter now now' envs l bl fbl
    filter_index Hp) as (bl' & Hparse & Hn & _ & Ht).
  unfold replica, ProcessBlock. simpl. rewrite Hparse. simpl. unfold db_handler, WorldState.Handle.
  rewrite (UpdateWorldState_outcome _ _ _ _ _ Hn Ht).
  apply UpdateWorldState_ret in Hup as (? & rows' & ? & ->). by rewrite (UpdateWorldState_no_faults vdb bl db rows').
Qed.

(** A batch appends one block and updates the database, or changes neither. *)
Lemma batch_step_spec l l' db now' : batch_step l l' → ld_db l = Some db →
  (ld_blocks l' = ld_blocks l ∧ ld_db l' = Some db) ∨
  ∃ fbl db', ld_blocks l' = ld_blocks l ++ [fbl] ∧ ld_db l' = Some db' ∧ replica now' fbl db = (db', Ok tt).
Proof.
  intros [faults getter now envs l0] Hdb. destruct (process _ _ _ _ _ _ envs l0) as [l1 r] eqn:E. simpl.
  apply process_cases in E as [[_ ->]|(_ & bl & fbl & Hp & Hc)]; [by left|].
  apply commit_cases in Hc as [(? & [=] & _)|(_ & Hb & _ & _ & Hup)]. rewrite Hdb in Hup.
  destruct Hup as (_ & db' & Hl & Hup). right. exists fbl, db'. split_and!; [done..|]. by eapply replica_applies.
Qed.

Lemma process_all_app (process : RawBlock → Backend → Backend * outcome unit) bs bs' w w' :
  process_all process bs w = Some w' → process_all process (bs ++ bs') w = process_all process bs' w'.
Proof.
  revert w. induction bs as [|b bs IH]; intros w; simpl; [by intros [= ->]|].
  destruct (process b w) as [w1 [[]| |]]; [apply IH|done..].
Qed.

Lemma replica_run now l l' db : ld_db l = Some db → rtc batch_step l l' →
  ∃ fbls db', ld_blocks l' = ld_blocks l ++ fbls ∧ ld_db l' = Some db' ∧ process_all (replica now) fbls db = Some db'.
Proof.
  intros Hdb. revert l'. refine (rtc_ind_r _ l _ _); [exists [], db; by rewrite app_nil_r|].
  intros l1 l2 _ Hstep (fbls & db1 & Hb & Hdb1 & Hall).
  destruct (batch_step_spec l1 l2 db1 now Hstep Hdb1) as [[Hb2 Hdb2]|(fbl & db2 & Hb2 & Hdb2 & Hr)].
  - exists fbls, db1. by rewrite Hb2.
  - exists (fbls ++ [fbl]), db2. split_and!; [by rewrite Hb2, Hb, app_assoc|done|].
    rewrite (process_all_app _ _ _ _ _ Hall). simpl. by rewrite Hr.
Qed.

(** A replica has the ledger's world state: for every sequence of batches that a Fabric-X
    ledger with a database of its own processes, failing ones included, it appends some
    blocks; and a client with a copy of the database from before that receives these
    blocks on a delivery stream handles each of them without error and ends with the
    database that the ledger has. *)
Theorem replica_follows_ledger (l l' : ledger) (db : Backend) (now : Z) (success : Z) :
  ld_db l = Some db → rtc batch_step l l' →
  ∃ fbls db', ld_blocks l' = ld_blocks l ++ fbls ∧ ld_db l' = Some db' ∧
    receive_blocks (replica now) success (DeliverBlock <$> fbls) db = (db', None).
Proof.
  intros Hdb Hrun. destruct (replica_run now l l' db Hdb Hrun) as (fbls & db' & Hb & Hdb' & Hall).
  exists fbls, db'. split_and!; [done..|].
  pose proof (receive_blocks_in_order (replica now) success fbls [] db db' Hall) as Hrec.
  by rewrite app_nil_r in Hrec.
Qed.

End Replica.

(** ** An example *)

Import Wire.

Definition example_ledger : ledger := MkLedger [Ledgers.genesis] [] (Some (MkBackend [] ∅)) false.

Lemma replica_follows_ledger_witness :
  ∃ fbls db', ld_blocks (process Ledgers.hash Ledgers.data_hash Ledgers.no_faults Ledgers.vdb
      (fabricx_Parse (H2 := committer_codes) Ledgers.hash 0)
      (fabricx_NewMVCCValidator (H := committer_codes) Ledgers.getter) [Ledgers.env] example_ledger).1 =
    [Ledgers.genesis] ++ fbls ∧
    receive_blocks (replica (V := committer_codes) Ledgers.hash Ledgers.vdb 0) 200 (DeliverBlock <$> fbls)
      (MkBackend [] ∅) = (db', None).
Proof.
  destruct (replica_follows_ledger (H1 := headers) (CL := committer_codes_laws) Ledgers.hash Ledgers.data_hash Ledgers.vdb eq_refl
    example_ledger _ (MkBackend [] ∅) 0 200 eq_refl
    (rtc_once _ _ (batch_processed (V := committer_codes) Ledgers.hash Ledgers.data_hash Ledgers.vdb Ledgers.no_faults
       Ledgers.getter 0 [Ledgers.env] example_ledger)))
    as (fbls & db' & Hb & _ & Hr).
  exists fbls, db'. exact (conj Hb Hr).
Defined.
