(* ===== verification/Msp.v ===== *)
(** * Identities

    Package identity: a signer read from an MSP directory, its signatures, and
    the two serializations of its certificate.

    The file system, PEM, x509, the hash and ECDSA are parameters: what they
    return for an input.  The theorems: a signer of an MSP directory has the
    private key and the certificate of that directory and serializes the
    certificate; choosing another serialization changes neither the key nor the
    certificate, so the signatures stay, and the last choice counts. *)

From S2P Require Import Prelude Proto Endorse.

(** The messages of the packages msp and msppb that a signer serializes. *)
Record SerializedIdentity := MkSerializedIdentity { sid_Mspid : string; sid_IdBytes : bytes }.
Record CertIdentity := MkCertIdentity { ci_MspId : string; ci_CertificateId : string }.

Section Msp.
Context `{Codec SerializedIdentity} `{Codec CertIdentity}.
(** Keys as x509 parses them, and the private keys of ECDSA among them. *)
Context {Key PrivateKey : Type} (as_ecdsa : Key → option PrivateKey).
Context (Glob : string → result (list string)) (Join : list string → string) (ReadFile : string → result bytes).
Context (pem_Decode : bytes → option (string * bytes)).
Context (ParsePKCS8PrivateKey : bytes → result Key) (ParseCertificate : bytes → result unit).
Context (Sum256 : bytes → bytes) (hex : bytes → string).
(** One signature: [rand] is the randomness it consumes. *)
Context (ecdsa_Sign : PrivateKey → bytes → bytes → result (Z * Z)) (ToLowS : PrivateKey → Z → result Z)
  (MarshalECDSASignature : Z → Z → result bytes).

Record MspSigner := MkMspSigner {
  sg_priv_sk : PrivateKey;
  sg_signcert : bytes;
  sg_mspID : string;
  sg_serialized : bytes }.

Definition parsePrivateKey (privPEM : bytes) : result PrivateKey :=
  match pem_Decode privPEM with
  | None => Fail (Errorf "failed to decode PEM private key" [])
  | Some (_, der) =>
      key ← wrapf "parse pkcs8 private key: %w" [] (ParsePKCS8PrivateKey der);
      match as_ecdsa key with
      | None => Fail (Errorf "not an ECDSA private key" [])
      | Some pk => Ret pk
      end
  end.

(** [err != nil || len(files) == 0] after a glob. *)
Definition no_files (files : result (list string)) : bool :=
  match files with Ret (_ :: _) => false | _ => true end.

(** The error of a glob that found nothing: [%w] of a nil error. *)
Definition no_files_error (fmt : string) (args : list arg) (files : result (list string)) : error :=
  match files with Fail err => Wrapf fmt args err | Ret _ => Errorf fmt args end.

(** The key files: those that fabric names, or else those that fabric-ca
    names. *)
Definition key_files (dir : string) : result (list string) :=
  let keyFiles := Glob (Join [dir; "keystore"; "*_sk"]) in
  if no_files keyFiles then Glob (Join [dir; "keystore"; "*.pem"]) else keyFiles.

Definition first_file (fmt : string) (args : list arg) (files : result (list string)) : result string :=
  match files with
  | Ret (f :: _) => Ret f
  | _ => Fail (no_files_error fmt args files)
  end.

Definition SignerFromMSP (dir mspID : string) : result MspSigner :=
  keyFile ← first_file "no private key found in path %s: %w" [AStr (Join [dir; "keystore"])] (key_files dir);
  privBytes ← ReadFile keyFile;
  pk ← parsePrivateKey privBytes;
  certFile ← first_file "no signcert found: %w" [] (Glob (Join [dir; "signcerts"; "*.pem"]));
  certPEM ← ReadFile certFile;
  serialized ← wrapf "serialize certificate identity: %w" [] (Marshal (MkSerializedIdentity mspID certPEM));
  Ret (MkMspSigner pk certPEM mspID serialized).

Definition sign (rand : bytes) (k : PrivateKey) (message : bytes) : result bytes :=
  '(r, s) ← ecdsa_Sign k rand (Sum256 message);
  s ← ToLowS k s;
  MarshalECDSASignature r s.

Definition msp_Sign (rand : bytes) (s : MspSigner) (msg : bytes) : result bytes := sign rand (sg_priv_sk s) msg.

Definition WithCertificateID (s : MspSigner) (certificateID : string) : result MspSigner :=
  if bool_decide (certificateID = "") then Fail (Errorf "certificate ID must not be empty" [])
  else
    serialized ← wrapf "serialize certificate ID identity: %w" [] (Marshal (MkCertIdentity (sg_mspID s) certificateID));
    Ret (MkMspSigner (sg_priv_sk s) (sg_signcert s) (sg_mspID s) serialized).

Definition WithCertificateHash (s : MspSigner) : result MspSigner :=
  match pem_Decode (sg_signcert s) with
  | Some (typ, der) =>
      if bool_decide (typ = "CERTIFICATE") then
        wrapf "parse sign certificate: %w" [] (ParseCertificate der) ;;
        WithCertificateID s (hex (Sum256 der))
      else Fail (Errorf "failed to decode PEM sign certificate" [])
  | None => Fail (Errorf "failed to decode PEM sign certificate" [])
  end.

Definition msp_Serialize (s : MspSigner) : result bytes := Ret (sg_serialized s).

(** The signer that the rest of the SDK sees. *)
Definition sdk_signer (rand : bytes) (s : MspSigner) : Signer := MkSigner (msp_Sign rand s) (msp_Serialize s).

(** The signer of the test network (fabrictest/signer.go). *)
Definition MockSigner : Signer :=
  MkSigner (λ _, Ret (bytes_of_string "signature"))
    (Marshal (MkSerializedIdentity "test-msp" (bytes_of_string "serialised identity"))).

Context `{!CodecLaws SerializedIdentity} `{!CodecLaws CertIdentity}.

(** A signer of a directory: its key is the one in the first key file, where the names of
    fabric come before those of fabric-ca, and it serializes to its MSP and the first
    certificate. *)
Theorem SignerFromMSP_reads dir mspID s : SignerFromMSP dir mspID = Ret s →
  ∃ keyFile keyFiles privPEM certFile certFiles certPEM,
    (Glob (Join [dir; "keystore"; "*_sk"]) = Ret (keyFile :: keyFiles) ∨
     no_files (Glob (Join [dir; "keystore"; "*_sk"])) = true ∧
     Glob (Join [dir; "keystore"; "*.pem"]) = Ret (keyFile :: keyFiles)) ∧
    ReadFile keyFile = Ret privPEM ∧ parsePrivateKey privPEM = Ret (sg_priv_sk s) ∧
    Glob (Join [dir; "signcerts"; "*.pem"]) = Ret (certFile :: certFiles) ∧ ReadFile certFile = Ret certPEM ∧
    ∃ b, msp_Serialize s = Ret b ∧ Unmarshal b = Ret (MkSerializedIdentity mspID certPEM).
Proof.
  unfold SignerFromMSP. rewrite result_bind_ret. intros (kf & Hkf & Hs).
  apply result_bind_ret in Hs as (priv & Hpriv & Hs). apply result_bind_ret in Hs as (pk & Hpk & Hs).
  apply result_bind_ret in Hs as (cf & Hcf & Hs). apply result_bind_ret in Hs as (cert & Hcert & Hs).
  apply result_bind_ret in Hs as (b & Hb%wrapf_ret & [= <-]). simpl.
  destruct (key_files dir) as [[|kf' kfs]|] eqn:Hk; simplify_eq/=.
  destruct (Glob (Join [dir; "signcerts"; "*.pem"])) as [[|cf' cfs]|] eqn:Hc; simplify_eq/=.
  exists kf, kfs, priv, cf, cfs, cert. split_and!; [|done..|].
  - unfold key_files in Hk. destruct (no_files _) eqn:Hno; [by right|by left].
  - exists b. split; [done|by apply Unmarshal_Marshal].
Qed.

(** Certificate ids: the signatures and the certificate stay, and the identity that is
    serialized is the one chosen last, so choices may be repeated. *)
Theorem WithCertificateID_only_identity s id s' : WithCertificateID s id = Ret s' →
  (∀ rand msg, msp_Sign rand s' msg = msp_Sign rand s msg) ∧ sg_signcert s' = sg_signcert s ∧
  (∃ b, msp_Serialize s' = Ret b ∧ Unmarshal b = Ret (MkCertIdentity (sg_mspID s) id)) ∧
  ∀ id', WithCertificateID s' id' = WithCertificateID s id'.
Proof.
  unfold WithCertificateID. case_bool_decide; [done|]. rewrite result_bind_ret. intros (b & Hb%wrapf_ret & [= <-]). simpl.
  split_and!; [done..| |done]. exists b. split; [done|by apply Unmarshal_Marshal].
Qed.

(** The default id is the hash of the DER certificate, not of the PEM text. *)
Theorem WithCertificateHash_id s s' : WithCertificateHash s = Ret s' →
  ∃ der, pem_Decode (sg_signcert s) = Some ("CERTIFICATE", der) ∧ WithCertificateID s (hex (Sum256 der)) = Ret s'.
Proof.
  unfold WithCertificateHash. destruct (pem_Decode (sg_signcert s)) as [[typ der]|]; [|done].
  case_bool_decide as Ht; [|done]. subst. rewrite result_bind_ret. intros (_ & _ & Hs). by exists der.
Qed.

End Msp.
