(* ===== verification/Logging.v ===== *)
(** * Loggers

    The loggers of logging.go.  A line is a format string and its arguments;
    log.Printf and t.Logf append to two logs.

    [TestLogger] is used by goroutines that may outlive their test, while
    [testing] forbids t.Logf once the test has completed.  The step relation
    [logger_step] interleaves any number of calls of [logf] with the cleanup
    that [NewTestLogger] registers and with the completion of the test, which
    [testing] lets happen only after the cleanups.

    The theorem: no call of t.Logf is made after the test has completed, and
    every call of [logf] that returned has written its line once. *)

From S2P Require Import Prelude.

Definition line : Type := string * list arg.

Inductive level := DEBUG | INFO | WARN | ERROR.

Definition level_name (l : level) : string :=
  match l with DEBUG => "DEBUG" | INFO => "INFO" | WARN => "WARN" | ERROR => "ERROR" end.

(** The interface [Logger]: what one of its methods does to the state of the
    logs. *)
Definition Logger (S : Type) : Type := level → string → list arg → S → S.

Definition NoOpLogger {S} : Logger S := λ _ _ _ s, s.

(** [NewStdLogger]; the level is part of the format, the component is not. *)
Definition NewStdLogger (component : string) : Logger (list line) := λ lvl template args stderr,
  stderr ++ [("[%s] [" +:+ level_name lvl +:+ "] " +:+ template, AStr component :: args)].

(** ** TestLogger *)

(** A call of [logf]: waiting for the mutex, in front of the write that the check
    of [done] chose, in front of the unlock, or returned. *)
Inductive call_pc := Locking | AtLogf | AtPrintf | AtUnlock | Returned.

(** The cleanup, followed by the completion of the test. *)
Inductive cleanup_pc := NotRun | Setting | Unlocking | CleanedUp | Completed.

Record log_call := MkCall { lc_level : level; lc_template : string; lc_args : list arg; lc_at : call_pc }.

Record TestLogger := MkTestLogger {
  tl_name : string;
  tl_prefix : string;
  (** The holder of the mutex: a call, or the cleanup. *)
  tl_mu : option (option nat);
  tl_done : bool;
  tl_calls : list log_call;
  tl_cleanup : cleanup_pc;
  (** The lines of t.Logf, each with the number of its call and whether the test
      had completed, and those of log.Printf. *)
  tl_testLog : list (nat * line * bool);
  tl_stderr : list (nat * line) }.

Definition NewTestLogger (test component : string) : TestLogger :=
  MkTestLogger test component None false [] NotRun [] [].

Definition test_line (l : TestLogger) (c : log_call) : line :=
  ("[%s] [%s] " +:+ lc_template c, AStr (tl_prefix l) :: AStr (level_name (lc_level c)) :: lc_args c).

Definition late_line (l : TestLogger) (c : log_call) : line :=
  ("[%s] [%s] (after %s) " +:+ lc_template c,
   AStr (tl_prefix l) :: AStr (level_name (lc_level c)) :: AStr (tl_name l) :: lc_args c).

Definition completed (l : TestLogger) : bool :=
  match tl_cleanup l with Completed => true | _ => false end.

Definition move (c : log_call) (pc : call_pc) : log_call := MkCall (lc_level c) (lc_template c) (lc_args c) pc.

(** Updates of single fields. *)
Definition with_call (i : nat) (c : log_call) (mu : option (option nat)) (l : TestLogger) : TestLogger :=
  MkTestLogger (tl_name l) (tl_prefix l) mu (tl_done l) (<[i := c]> (tl_calls l)) (tl_cleanup l)
    (tl_testLog l) (tl_stderr l).

Definition with_cleanup (pc : cleanup_pc) (mu : option (option nat)) (done : bool) (l : TestLogger) : TestLogger :=
  MkTestLogger (tl_name l) (tl_prefix l) mu done (tl_calls l) pc (tl_testLog l) (tl_stderr l).

Definition write_test (i : nat) (c : log_call) (l : TestLogger) : TestLogger :=
  MkTestLogger (tl_name l) (tl_prefix l) (tl_mu l) (tl_done l) (tl_calls l) (tl_cleanup l)
    (tl_testLog l ++ [(i, test_line l c, completed l)]) (tl_stderr l).

Definition write_late (i : nat) (c : log_call) (l : TestLogger) : TestLogger :=
  MkTestLogger (tl_name l) (tl_prefix l) (tl_mu l) (tl_done l) (tl_calls l) (tl_cleanup l)
    (tl_testLog l) (tl_stderr l ++ [(i, late_line l c)]).

(** [Debugf], [Infof], [Warnf] or [Errorf] is called. *)
Definition new_call (lvl : level) (template : string) (args : list arg) (l : TestLogger) : TestLogger :=
  MkTestLogger (tl_name l) (tl_prefix l) (tl_mu l) (tl_done l) (tl_calls l ++ [MkCall lvl template args Locking])
    (tl_cleanup l) (tl_testLog l) (tl_stderr l).

Inductive logger_step : TestLogger → TestLogger → Prop :=
  | lt_call lvl template args l : logger_step l (new_call lvl template args l)
  | lt_lock i c l : tl_calls l !! i = Some c → lc_at c = Locking → tl_mu l = None →
      logger_step l (with_call i (move c (if tl_done l then AtPrintf else AtLogf)) (Some (Some i)) l)
  | lt_logf i c l : tl_calls l !! i = Some c → lc_at c = AtLogf →
      logger_step l (with_call i (move c AtUnlock) (tl_mu l) (write_test i c l))
  | lt_printf i c l : tl_calls l !! i = Some c → lc_at c = AtPrintf →
      logger_step l (with_call i (move c AtUnlock) (tl_mu l) (write_late i c l))
  | lt_unlock i c l : tl_calls l !! i = Some c → lc_at c = AtUnlock →
      logger_step l (with_call i (move c Returned) None l)
  | lt_cleanup_lock l : tl_cleanup l = NotRun → tl_mu l = None →
      logger_step l (with_cleanup Setting (Some None) (tl_done l) l)
  | lt_cleanup_set l : tl_cleanup l = Setting → logger_step l (with_cleanup Unlocking (tl_mu l) true l)
  | lt_cleanup_unlock l : tl_cleanup l = Unlocking → logger_step l (with_cleanup CleanedUp None (tl_done l) l)
  | lt_completed l : tl_cleanup l = CleanedUp → logger_step l (with_cleanup Completed (tl_mu l) (tl_done l) l).

(** ** The invariant *)

(** The call holds the mutex. *)
Definition holding (c : log_call) : bool :=
  match lc_at c with AtLogf | AtPrintf | AtUnlock => true | _ => false end.

(** The call has written its line. *)
Definition written (c : log_call) : bool :=
  match lc_at c with AtUnlock | Returned => true | _ => false end.

(** The calls that the logs have lines of. *)
Definition logged (l : TestLogger) : list nat := (tl_testLog l).*1.*1 ++ (tl_stderr l).*1.

Record logger_inv (l : TestLogger) : Prop := {
  li_call : ∀ i c, tl_calls l !! i = Some c → holding c = true → tl_mu l = Some (Some i);
  li_cleanup : tl_cleanup l = Setting ∨ tl_cleanup l = Unlocking → tl_mu l = Some None;
  li_done : tl_done l = true ↔ tl_cleanup l ≠ NotRun ∧ tl_cleanup l ≠ Setting;
  li_logf : ∀ i c, tl_calls l !! i = Some c → lc_at c = AtLogf → tl_done l = false;
  li_once : NoDup (logged l);
  li_logged : ∀ i, i ∈ logged l ↔ ∃ c, tl_calls l !! i = Some c ∧ written c = true;
  li_test : ∀ i ln late, (i, ln, late) ∈ tl_testLog l → late = false ∧
    ∃ c, tl_calls l !! i = Some c ∧ ln = test_line l c;
  li_stderr : ∀ i ln, (i, ln) ∈ tl_stderr l → ∃ c, tl_calls l !! i = Some c ∧ ln = late_line l c }.

Lemma logger_inv_new test component : logger_inv (NewTestLogger test component).
Proof.
  split; simpl; try done.
  - intros [|]; done.
  - split; [done|]. by intros [].
  - constructor.
  - intros i. split; [by intros ?%elem_of_nil|]. by intros (c & ? & _).
  - by intros i ln late ?%elem_of_nil.
  - by intros i ln ?%elem_of_nil.
Qed.

(** What the calls are after call [i] has moved to [pc]. *)
Lemma lookup_moved (cs : list log_call) i c pc j d : cs !! i = Some c →
  <[i := move c pc]> cs !! j = Some d ↔ (j = i ∧ d = move c pc) ∨ (j ≠ i ∧ cs !! j = Some d).
Proof.
  intros Hi. destruct (decide (j = i)) as [->|Hne].
  - rewrite list_lookup_insert_eq by (by eapply lookup_lt_Some). naive_solver.
  - rewrite list_lookup_insert_ne by done. naive_solver.
Qed.

(** Who holds the mutex after a call that held it, or took it, has moved. *)
Lemma moved_mutex l i c pc mu : logger_inv l → tl_calls l !! i = Some c →
  mu = tl_mu l ∨ tl_mu l = None ∨ tl_mu l = Some (Some i) → (holding (move c pc) = true → mu = Some (Some i)) →
  (∀ j d, <[i := move c pc]> (tl_calls l) !! j = Some d → holding d = true → mu = Some (Some j)) ∧
  (tl_cleanup l = Setting ∨ tl_cleanup l = Unlocking → mu = Some None).
Proof.
  intros Hinv Hi Hmu Hh. split.
  - intros j d [[-> ->]|[Hne Hj]]%(lookup_moved _ _ _ _ _ _ Hi) Hd; [by apply Hh|].
    pose proof (li_call _ Hinv j d Hj Hd). destruct Hmu as [->|[?|?]]; congruence.
  - intros Hc. pose proof (li_cleanup _ Hinv Hc). destruct Hmu as [->|[?|?]]; congruence.
Qed.

(** The lines of the logs are those of the calls, before and after. *)
Lemma moved_line {A} (f : log_call → A) l i c pc j x : tl_calls l !! i = Some c → (∀ c, f (move c pc) = f c) →
  (∃ d, tl_calls l !! j = Some d ∧ x = f d) → ∃ d, <[i := move c pc]> (tl_calls l) !! j = Some d ∧ x = f d.
Proof.
  intros Hi Hf (d & Hj & ->). destruct (decide (j = i)) as [->|Hne].
  - assert (d = c) as -> by congruence. exists (move c pc). rewrite Hf. split; [|done]. apply (lookup_moved _ _ _ _ _ _ Hi). by left.
  - exists d. split; [|done]. apply (lookup_moved _ _ _ _ _ _ Hi). by right.
Qed.

Lemma lock_move_inv l i c pc mu : logger_inv l → tl_calls l !! i = Some c →
  mu = tl_mu l ∨ tl_mu l = None ∨ tl_mu l = Some (Some i) → (holding (move c pc) = true → mu = Some (Some i)) →
  written (move c pc) = written c → (pc = AtLogf → tl_done l = false) → logger_inv (with_call i (move c pc) mu l).
Proof.
  intros Hinv Hi Hmu Hh Hw Hl. destruct (moved_mutex l i c pc mu Hinv Hi Hmu Hh) as [Hcall Hclean]. split; simpl; try done.
  - apply Hinv.
  - intros j d [[-> ->]|[Hne Hj]]%(lookup_moved _ _ _ _ _ _ Hi); [done|by apply (li_logf _ Hinv j d)].
  - apply Hinv.
  - intros j. rewrite (li_logged _ Hinv j). split; intros (d & Hj & Hd).
    + destruct (decide (j = i)) as [->|Hne]; [assert (d = c) as -> by congruence; exists (move c pc)|exists d];
        (split; [apply (lookup_moved _ _ _ _ _ _ Hi); naive_solver|congruence]).
    + apply (lookup_moved _ _ _ _ _ _ Hi) in Hj as [[-> ->]|[Hne Hj]]; [exists c|exists d]; naive_solver congruence.
  - intros j ln late Hin. destruct (li_test _ Hinv j ln late Hin) as [? Hd]. split; [done|].
    by apply (moved_line (test_line l)).
  - intros j ln Hin. by apply (moved_line (late_line l)), (li_stderr _ Hinv).
Qed.

(** The calls that have written, and those about to call t.Logf, after call [i]
    has written. *)
Lemma written_after l i c j : logger_inv l → tl_calls l !! i = Some c → written c = false →
  ((∃ d, <[i := move c AtUnlock]> (tl_calls l) !! j = Some d ∧ written d = true) ↔ j = i ∨ j ∈ logged l) ∧
  (∀ d, <[i := move c AtUnlock]> (tl_calls l) !! j = Some d → lc_at d = AtLogf → tl_done l = false).
Proof.
  intros Hinv Hi Hw. split.
  - rewrite (li_logged _ Hinv). split.
    + intros (d & [[-> ->]|[Hne Hj]]%(lookup_moved _ _ _ _ _ _ Hi) & Hd); [by left|right; eauto].
    + intros [->|(d & Hj & Hd)]; [exists (move c AtUnlock)|exists d]; (split; [|done]);
        apply (lookup_moved _ _ _ _ _ _ Hi); [by left|]. right. split; [congruence|done].
  - intros d [[-> ->]|[Hne Hj]]%(lookup_moved _ _ _ _ _ _ Hi); [done|by apply (li_logf _ Hinv j d)].
Qed.

(** A call in front of t.Logf still has a running test. *)
Lemma logf_not_completed l i c : logger_inv l → tl_calls l !! i = Some c → lc_at c = AtLogf → completed l = false.
Proof.
  intros Hinv Hi Hc. unfold completed. pose proof (li_logf _ Hinv i c Hi Hc) as Hd.
  destruct (tl_cleanup l) eqn:E; try done. rewrite (proj2 (li_done _ Hinv)) in Hd; [done|]. by rewrite E.
Qed.

(** A call that writes its line, to the one log or to the other. *)
Lemma write_inv l i c l' : logger_inv l → tl_calls l !! i = Some c →
  lc_at c = AtLogf ∧ l' = write_test i c l ∨ lc_at c = AtPrintf ∧ l' = write_late i c l →
  logger_inv (with_call i (move c AtUnlock) (tl_mu l) l').
Proof.
  intros Hinv Hi Hl'.
  assert (written c = false ∧ holding c = true) as [Hw Hhold] by (unfold written, holding; destruct Hl' as [[-> _]|[-> _]]; done).
  pose proof (li_call _ Hinv i c Hi Hhold) as Hmu.
  assert (i ∉ logged l) as Hnew by (intros (d & Hd & Hwd)%(li_logged _ Hinv); congruence).
  destruct (moved_mutex l i c AtUnlock (tl_mu l) Hinv Hi) as [Hcall Hclean]; [by left|done|].
  pose proof (λ j, proj1 (written_after l i c j Hinv Hi Hw)) as Hlog.
  pose proof (λ j, proj2 (written_after l i c j Hinv Hi Hw)) as Hlogf.
  assert (∃ d, <[i := move c AtUnlock]> (tl_calls l) !! i = Some d ∧ test_line l c = test_line l d ∧
    late_line l c = late_line l d) as Hline.
  { exists (move c AtUnlock). split; [|done]. apply (lookup_moved _ _ _ _ _ _ Hi). by left. }
  destruct Hl' as [[Hc ->]|[Hc ->]]; split; try done; try apply Hinv; unfold logged in *; simpl.
  - rewrite !fmap_app. simpl. rewrite <- (assoc_L (++)), (comm (++) [i]), (assoc_L (++)).
    apply NoDup_app. split_and!; [apply Hinv| |apply NoDup_singleton]. intros j Hj ->%list_elem_of_singleton. done.
  - intros j. rewrite Hlog, !fmap_app. simpl. set_solver.
  - intros j ln late [Hin|[= -> -> ->]%list_elem_of_singleton]%elem_of_app.
    + destruct (li_test _ Hinv j ln late Hin) as [? Hd]. split; [done|]. by apply (moved_line (test_line l)).
    + split; [by eapply logf_not_completed|]. destruct Hline as (d & ? & ? & _). by exists d.
  - intros j ln Hin. by apply (moved_line (late_line l)), (li_stderr _ Hinv).
  - rewrite !fmap_app, (assoc_L (++)). simpl. apply NoDup_app. split_and!; [apply Hinv| |apply NoDup_singleton].
    intros j Hj ->%list_elem_of_singleton. done.
  - intros j. rewrite Hlog, !fmap_app. simpl. set_solver.
  - intros j ln late Hin. destruct (li_test _ Hinv j ln late Hin) as [? Hd]. split; [done|].
    by apply (moved_line (test_line l)).
  - intros j ln [Hin|[= -> ->]%list_elem_of_singleton]%elem_of_app.
    + by apply (moved_line (late_line l)), (li_stderr _ Hinv).
    + destruct Hline as (d & ? & _ & ?). by exists d.
Qed.

Lemma new_call_inv lvl template args l : logger_inv l → logger_inv (new_call lvl template args l).
Proof.
  intros Hinv. set (c := MkCall lvl template args Locking).
  assert (∀ j d, (tl_calls l ++ [c]) !! j = Some d → tl_calls l !! j = Some d ∨ d = c) as Hcase.
  { intros j d [?|[_ Hj]]%lookup_app_Some; [by left|]. apply list_lookup_singleton_Some in Hj. naive_solver. }
  assert (∀ j d, tl_calls l !! j = Some d → (tl_calls l ++ [c]) !! j = Some d) as Hold.
  { intros j d Hj. by rewrite (lookup_app_l_Some _ _ _ _ Hj). }
  split; simpl; try apply Hinv.
  - intros j d [Hj| ->]%Hcase; [by apply (li_call _ Hinv)|done].
  - intros j d [Hj| ->]%Hcase; [by apply (li_logf _ Hinv j)|done].
  - intros j. unfold logged. simpl. fold (logged l). rewrite (li_logged _ Hinv). split; intros (d & Hj & Hd); [eauto|].
    apply Hcase in Hj as [Hj| ->]; [eauto|done].
  - intros j ln late Hin. destruct (li_test _ Hinv j ln late Hin) as (? & d & ? & ?). split; [done|]. exists d. auto.
  - intros j ln Hin. destruct (li_stderr _ Hinv j ln Hin) as (d & ? & ?). exists d. auto.
Qed.

Lemma logger_step_inv l l' : logger_step l l' → logger_inv l → logger_inv l'.
Proof.
  intros Hs Hinv. destruct Hs as [lvl template args l|i c l Hi Hc Hmu|i c l Hi Hc|i c l Hi Hc|i c l Hi Hc
    |l Hc Hmu|l Hc|l Hc|l Hc].
  - by apply new_call_inv.
  - apply lock_move_inv; try done; [by right; left| |].
    + unfold written. rewrite Hc. by destruct (tl_done l).
    + by destruct (tl_done l).
  - apply (write_inv l i c); [done..|by left].
  - apply (write_inv l i c); [done..|by right].
  - assert (tl_mu l = Some (Some i)) as Hmu by (apply (li_call _ Hinv i c Hi); unfold holding; by rewrite Hc).
    apply lock_move_inv; try done; [by right; right|]. unfold written. by rewrite Hc.
  - destruct Hinv. split; simpl; try done; rewrite ?Hc in *; [|naive_solver].
    intros i c Hi Hh. specialize (li_call0 i c Hi Hh). congruence.
  - destruct Hinv. split; simpl; try done; [naive_solver|].
    intros i c Hi Hat. assert (tl_mu l = Some (Some i)) as Hm by (apply (li_call0 i c Hi); unfold holding; by rewrite Hat).
    rewrite li_cleanup0 in Hm by (by left). done.
  - destruct Hinv. split; simpl; try done; [|naive_solver|rewrite Hc in *; naive_solver].
    intros i c Hi Hh. specialize (li_call0 i c Hi Hh). rewrite li_cleanup0 in li_call0 by (by right). done.
  - destruct Hinv. split; simpl; try done; [naive_solver|rewrite Hc in *; naive_solver].
Qed.

(** [TestLogger] is safe in a goroutine that outlives its test: however the calls of any
    number of goroutines interleave with each other, with the cleanup and with the end of
    the test, t.Logf is never called once the test has completed; and every call that
    returned has written its own line once, to the log of the test or to stderr. *)
Theorem test_logger_safe (test component : string) (l : TestLogger) :
  rtc logger_step (NewTestLogger test component) l →
  (∀ i ln late, (i, ln, late) ∈ tl_testLog l → late = false) ∧
  NoDup (logged l) ∧
  ∀ i c, tl_calls l !! i = Some c → lc_at c = Returned →
    (i, test_line l c, false) ∈ tl_testLog l ∨ (i, late_line l c) ∈ tl_stderr l.
Proof.
  intros Hr. assert (logger_inv l) as Hinv.
  { refine (rtc_ind_r logger_inv _ (logger_inv_new test component) _ l Hr).
    intros l1 l2 _ Hs Hi. by eapply logger_step_inv. }
  split_and!; [intros i ln late Hin; by apply (li_test _ Hinv i ln)|apply Hinv|]. intros i c Hi Hc.
  assert (i ∈ logged l) as Hin by (apply (li_logged _ Hinv); exists c; split; [done|]; unfold written; by rewrite Hc).
  unfold logged in Hin. apply elem_of_app in Hin as [Hin|Hin].
  - apply list_elem_of_fmap in Hin as (k & -> & Hin). apply list_elem_of_fmap in Hin as ([[j ln] late] & -> & Hin).
    left. simpl in *. destruct (li_test _ Hinv j ln late Hin) as (-> & d & Hd & ->). by simplify_eq.
  - apply list_elem_of_fmap in Hin as ([j ln] & -> & Hin). right. simpl in *.
    destruct (li_stderr _ Hinv j ln Hin) as (d & Hd & ->). by simplify_eq.
Qed.

(** ** An example

    One call that returns before the cleanup, and its line. *)

Definition example_call (pc : call_pc) : log_call := MkCall INFO "synced to %d" [AInt 7] pc.

Definition example_logger : TestLogger :=
  MkTestLogger "TestSync" "sync" None false [example_call Returned] NotRun
    [(0%nat, ("[%s] [%s] synced to %d", [AStr "sync"; AStr "INFO"; AInt 7]), false)] [].

Lemma example_run : rtc logger_step (NewTestLogger "TestSync" "sync") example_logger.
Proof.
  eapply rtc_l; [apply (lt_call INFO "synced to %d" [AInt 7])|].
  eapply rtc_l; [apply (lt_lock 0 (example_call Locking)); reflexivity|].
  eapply rtc_l; [apply (lt_logf 0 (example_call AtLogf)); reflexivity|].
  apply rtc_once. apply (lt_unlock 0 (example_call AtUnlock)
    (MkTestLogger "TestSync" "sync" (Some (Some 0%nat)) false [example_call AtUnlock] NotRun
      [(0%nat, ("[%s] [%s] synced to %d", [AStr "sync"; AStr "INFO"; AInt 7]), false)] [])); reflexivity.
Qed.

Lemma test_logger_safe_witness :
  (0%nat, test_line example_logger (example_call Returned), false) ∈ tl_testLog example_logger ∨
  (0%nat, late_line example_logger (example_call Returned)) ∈ tl_stderr example_logger.
Proof.
  exact (proj2 (proj2 (test_logger_safe "TestSync" "sync" example_logger example_run)) 0%nat (example_call Returned)
    eq_refl eq_refl).
Defined.
