(* ===== verification/System.v ===== *)
(** * The whole system

    A Fabric-X test network (fabrictest) with a world state of its own, and a
    client that starts with an empty database, receives the blocks of its peer
    from genesis on and applies them (blocks/processor.go, state/db.go).

    The network keeps its world state from genesis on without applying the
    genesis block, while the client applies it and so records block 0 as its
    height.  The two databases are therefore compared by what can be read from
    them, [obs_equiv]: height 0 and no height are the same to a reader.

    The theorem: for every run of the network, the client reads what the
    network reads, after every prefix of the chain that it has applied. *)

From S2P Require Import Prelude Blocks Status Mvcc WorldState WorldStateTheory Proto Endorse Parser Finality Delivery Ledger TestOrderer Requests Subscription Pragmas Database Network Replica.

(** ** Databases that read alike *)

Definition obs_equiv (s t : Backend) : Prop :=
  worldstate s = worldstate t ∧
  ∀ ch, default 0 (channel_progress s !! ch) = default 0 (channel_progress t !! ch).

#[export] Instance backend_equiv : Equiv Backend := obs_equiv.

#[export] Instance obs_equivalence : Equivalence (≡@{Backend}).
Proof.
  split.
  - by intros s.
  - intros s t [Hw Hp]. by split; [|intros ch; rewrite Hp].
  - intros s t u [Hw1 Hp1] [Hw2 Hp2]. split; [congruence|]. intros ch. by rewrite Hp1.
Qed.

#[export] Instance Get_proper fault db ns key : Proper ((≡) ==> (=)) (Get fault db ns key).
Proof. intros s t [Hw _]. unfold Get. by rewrite Hw. Qed.

#[export] Instance GetAt_proper fault db ns key block : Proper ((≡) ==> (=)) (GetAt fault db ns key block).
Proof. intros s t [Hw _]. unfold GetAt. by rewrite Hw. Qed.

#[export] Instance GetHistory_proper fault iter_fault db ns key : Proper ((≡) ==> (=)) (GetHistory fault iter_fault db ns key).
Proof. intros s t [Hw _]. unfold GetHistory. by rewrite Hw. Qed.

#[export] Instance BlockNumber_proper fault db : Proper ((≡) ==> (=)) (BlockNumber fault db).
Proof.
  intros s t [_ Hp]. specialize (Hp (channel db)). unfold BlockNumber. destruct fault; [done|].
  destruct (channel_progress s !! channel db), (channel_progress t !! channel db); simpl in *; by subst.
Qed.

(** Snapshots too, and with them everything that reads a database. *)
#[export] Instance SnapshotAt_proper fault db block : Proper ((≡) ==> (=)) (SnapshotAt fault db block).
Proof. intros s t Hst. unfold SnapshotAt. by rewrite Hst. Qed.

(** The next block makes equivalent databases of equivalent ones. *)
Lemma UpdateWorldState_obs faults db b s t s' :
  s ≡ t → 0 ≤ blk_Number b → UpdateWorldState faults db b s = (s', Ret tt) →
  ∃ t', UpdateWorldState no_faults db b t = (t', Ret tt) ∧ s' ≡ t'.
Proof.
  intros [Hw Hp] Hn (Hb & rows' & Hins & ->)%UpdateWorldState_ret. rewrite Hw in Hins.
  eexists. split; [by apply UpdateWorldState_no_faults|]. split; [done|]. intros ch. simpl.
  rewrite !upsert_progress_lookup. case_decide; [subst ch|by apply Hp]. specialize (Hp (channel db)). simpl.
  destruct (channel_progress s !! channel db), (channel_progress t !! channel db); simpl in *; lia.
Qed.

(** ** The client and the network *)

Section System.
Context `{Protos} `{HeaderTypes} `{!HeaderTypesLaws} `{CL : CommitterCodesLaws} `{W : ValidationCodes} `{Sockets}.
Context (BlockHeaderHash : BlockHeader → bytes) (ComputeBlockDataHash : list bytes → bytes).
Context (drv_open : result unit) (is_execer : bool) (exec : list string → string → result unit).
Context (filter_index : BlockMetadataIndex_TRANSACTIONS_FILTER = 2%nat).

(** The client of the network, on a database of the same channel. *)
Definition client (now : Z) : RawBlock → Backend → Backend * outcome unit :=
  replica BlockHeaderHash own_db now.

(** What a step does to the chain and to the network's own world state [s]:
    nothing, or one block is appended that the client applies as the network
    did. *)
Definition grows (now : Z) (s : Backend) (l l' : ledger) : Prop :=
  ld_blocks l' = ld_blocks l ∧ ld_db l' = Some s ∨
  ∃ fbl s', ld_blocks l' = ld_blocks l ++ [fbl] ∧ ld_db l' = Some s' ∧ client now fbl s = (s', Ok tt).

Lemma process_grows now s faults clock db1 envs l l' r :
  ld_db l = Some s →
  process_batch BlockHeaderHash ComputeBlockDataHash faults own_db (kind_parser BlockHeaderHash KindFabricX clock)
    (λ l, kind_validator KindFabricX (record_getter db1 l)) envs l = (l', r) → grows now s l l'.
Proof.
  intros Hdb Hp. unfold process_batch in Hp. simpl in Hp.
  pose proof (batch_processed BlockHeaderHash ComputeBlockDataHash own_db faults (record_getter db1 l) clock envs l) as Hb.
  rewrite Hp in Hb. exact (batch_step_spec _ _ _ filter_index _ _ _ now Hb Hdb).
Qed.

Lemma flush_grows now s faults clock db1 o :
  ld_db (to_ledger o) = Some s →
  grows now s (to_ledger o) (to_ledger (flush BlockHeaderHash ComputeBlockDataHash faults own_db
    (kind_parser BlockHeaderHash KindFabricX clock) (λ l, kind_validator KindFabricX (record_getter db1 l)) o)).
Proof.
  intros Hdb. unfold flush. destruct (to_batch o) as [|e batch] eqn:Eb; [by left|]. rewrite <- Eb.
  destruct (process_batch _ _ _ _ _ _ (to_batch o) (to_ledger o)) as [l' r] eqn:Ep.
  apply (process_grows now s) in Ep; [|done]. by destruct r.
Qed.

Lemma requests_step_grows now s faults clock db1 cfg r r' :
  ld_db (to_ledger (rq_orderer r)) = Some s →
  requests_step BlockHeaderHash ComputeBlockDataHash faults own_db (kind_parser BlockHeaderHash KindFabricX clock)
    (λ l, kind_validator KindFabricX (record_getter db1 l)) cfg r r' →
  grows now s (to_ledger (rq_orderer r)) (to_ledger (rq_orderer r')).
Proof.
  intros Hdb Hs. destruct Hs as [env r o' Hb|r o' Hst|env rest r _ _ _|r _ _ _|r _ _ _|req r|id req r _ _ _ _
    |r r' _ Hsend|id req a ch r _ _|id req r _]; simpl; try (by left).
  - unfold broadcast in Hb. case_decide; simplify_eq/=. by left.
  - unfold stop in Hst. destruct (to_stopped (rq_orderer r)); simplify_eq/=. by left.
  - unfold receive_env. set (o' := MkTestOrderer rest _ _ _ _ _ _).
    destruct (_ || _); [by apply (flush_grows now s faults clock db1 o')|by left].
  - by apply flush_grows.
  - unfold take_request, serve. destruct req as [|num]; simpl.
    + unfold TestOrderer.cut. destruct (process_batch _ _ _ _ _ _ [] _) as [l' a] eqn:Ep.
      apply (process_grows now s) in Ep; [|done]. by destruct a.
    + unfold revert, truncate. rewrite Hdb. by left.
  - unfold send_reply in Hsend. destruct (rq_pending r) as [[id a]|]; [|done].
    destruct (rq_replies r !! id); simpl in Hsend; [|done]. case_decide; simplify_eq/=. by left.
Qed.

Lemma network_step_grows now s cfg n n' :
  nw_kind n = KindFabricX → ld_db (nw_ledger n) = Some s →
  network_step BlockHeaderHash ComputeBlockDataHash cfg n n' →
  nw_kind n' = KindFabricX ∧ grows now s (nw_ledger n) (nw_ledger n').
Proof.
  intros Hk Hdb Hs. destruct Hs as [faults clock db1 n r' Hr|n _|n i b ch Hi|n n' Hst].
  - split; [done|]. rewrite Hk in Hr. by eapply requests_step_grows.
  - split; [done|]. by left.
  - split; [done|]. by left.
  - unfold Stop, stop in Hst. unfold nw_ledger, nw_orderer in *.
    destruct (to_stopped (rq_orderer (nw_requests n))); simplify_eq/=. split; [done|]. by left.
Qed.

(** A run appends blocks that take the client from the one world state to the
    other. *)
Lemma network_run_grows now s cfg n n' :
  nw_kind n = KindFabricX → ld_db (nw_ledger n) = Some s →
  rtc (network_step BlockHeaderHash ComputeBlockDataHash cfg) n n' →
  nw_kind n' = KindFabricX ∧ ∃ fbls s', ld_blocks (nw_ledger n') = ld_blocks (nw_ledger n) ++ fbls ∧
    ld_db (nw_ledger n') = Some s' ∧ process_all (client now) fbls s = Some s'.
Proof.
  intros Hk Hdb Hr. revert s Hk Hdb. induction Hr as [n|n n1 n' Hs _ IH]; intros s Hk Hdb.
  - split; [done|]. exists [], s. by rewrite app_nil_r.
  - destruct (network_step_grows now s _ _ _ Hk Hdb Hs) as [Hk1 [[Hb Hdb1]|(fbl & s1 & Hb & Hdb1 & Hc)]].
    + destruct (IH s Hk1 Hdb1) as (? & fbls & s' & Hb' & ? & ?). split; [done|]. exists fbls, s'.
      by rewrite Hb', Hb.
    + destruct (IH s1 Hk1 Hdb1) as (? & fbls & s' & Hb' & ? & Hall). split; [done|]. exists (fbl :: fbls), s'.
      rewrite Hb', Hb, <- (assoc_L (++)). split_and!; [done..|]. simpl. by rewrite Hc.
Qed.

(** ** From genesis on *)

Context `{!ProtosLaws}.

Definition numbered_block (fbl : RawBlock) : Prop := ∀ h, rb_Header fbl = Some h → 0 ≤ bh_Number h.

Lemma client_obs now fbl s t s' :
  numbered_block fbl → s ≡ t → client now fbl s = (s', Ok tt) → ∃ t', client now fbl t = (t', Ok tt) ∧ s' ≡ t'.
Proof.
  intros Hnum Hst. unfold client, replica, ProcessBlock. simpl.
  destruct (fabricx_Parse BlockHeaderHash now fbl) as [bl| |] eqn:Ep; [|done..].
  assert (0 ≤ blk_Number bl) as Hn.
  { unfold fabricx_Parse, Parse in Ep. apply outcome_bind_ok in Ep as (header & Hh & Ep).
    apply outcome_bind_ok in Ep as (metadata & _ & Ep). destruct (metadata !! _) as [txFilter|]; [|done].
    apply outcome_bind_ok in Ep as (data & _ & Ep).
    apply parse_loop_spec in Ep as (-> & _); [|apply fabricx_ParseTx_header]. simpl.
    unfold deref in Hh. destruct (rb_Header fbl) as [h|] eqn:E; [|done]. injection Hh as <-. by apply Hnum. }
  simpl. unfold db_handler, WorldState.Handle.
  destruct (UpdateWorldState _ own_db bl s) as [s1 [[]|err]] eqn:Hup; simpl; [|done]. intros [= <-].
  destruct (UpdateWorldState_obs _ _ _ _ _ _ Hst Hn Hup) as (t' & Hup' & Heq). exists t'. by rewrite Hup'.
Qed.

Lemma clients_obs now fbls s t s' :
  Forall numbered_block fbls → s ≡ t → process_all (client now) fbls s = Some s' →
  ∃ t', process_all (client now) fbls t = Some t' ∧ s' ≡ t'.
Proof.
  intros Hnum. revert s t. induction Hnum as [|fbl fbls Hb _ IH]; intros s t Hst; simpl; [intros [= <-]; by exists t|].
  destruct (client now fbl s) as [s1 [[]| |]] eqn:Ec; [|done..]. intros Hall.
  destruct (client_obs now fbl s t s1 Hb Hst Ec) as (t1 & -> & Hst1). by apply (IH s1 t1).
Qed.

(** The genesis block is a configuration and holds no transaction. *)
Lemma genesis_parsed now config genesis :
  (∀ env : Envelope, ∃ b, Marshal env = Ret b) → (∃ b, Marshal config = Ret b) →
  makeGenesisBlock ComputeBlockDataHash config = Ok genesis →
  ∃ bl, fabricx_Parse BlockHeaderHash now genesis = Ok bl ∧ blk_Number bl = 0 ∧ blk_Transactions bl = [].
Proof.
  intros Henv [cb Hcb] Hg. unfold makeGenesisBlock, MarshalOrPanic in Hg.
  destruct (Marshal (MkChannelHeader _ _ _ _ _ _ _ _)) as [chdr|] eqn:E1; [|done].
  destruct (Marshal (MkConfigEnvelope _)) as [data|] eqn:E2; [|done]. simpl in Hg.
  destruct (Marshal (MkPayload _ _)) as [pl|] eqn:E3; [|done]. injection Hg as <-.
  destruct (Henv (MkEnvelope pl [])) as [eb E4].
  unfold fabricx_Parse, Parse, makeBlock. simpl. rewrite filter_index. simpl.
  unfold marshal_envelope. rewrite E4. unfold parse_envelope.
  rewrite (Unmarshal_Marshal _ _ E4). simpl. rewrite (Unmarshal_Marshal _ _ E3). simpl.
  rewrite (Unmarshal_Marshal _ _ E1). simpl. rewrite Z.eqb_refl, (Unmarshal_Marshal _ _ E2). simpl. rewrite Hcb. simpl.
  eexists. split; [done|]. done.
Qed.

Lemma client_genesis now config genesis :
  (∀ env : Envelope, ∃ b, Marshal env = Ret b) → (∃ b, Marshal config = Ret b) →
  makeGenesisBlock ComputeBlockDataHash config = Ok genesis →
  ∃ t, client now genesis init = (t, Ok tt) ∧ init ≡ t.
Proof.
  intros Henv Hcfg Hg. destruct (genesis_parsed now config genesis Henv Hcfg Hg) as (bl & Hp & Hn & Htx).
  unfold client, replica, ProcessBlock. simpl. rewrite Hp. simpl. unfold db_handler, WorldState.Handle.
  assert (block_rows (channel own_db) bl = []) as Hrows by (unfold block_rows; by rewrite Htx).
  rewrite (UpdateWorldState_no_faults own_db bl init []); [|by rewrite Hn|by rewrite Hrows]. simpl. eexists. split; [done|].
  split; [done|]. intros ch. simpl. rewrite upsert_progress_lookup, lookup_empty, Hn. by case_decide.
Qed.

(** C2: a client reads what the network reads: take a Fabric-X network with a world state of
    its own from its start through any run of broadcasts, batches, cut and reverted blocks
    and subscribers to a first and a later state, also while it stops.  The chain of the
    later state extends the chain of the first; a client that starts with an empty database
    and receives the first chain from its genesis block on handles every block and then
    reads, by key, by height, by history and as its height, what the network reads at that
    moment, and after the further blocks what the network reads then. *)
Theorem client_follows_network faults config cfg used used' n0 n1 n2 now success :
  (∀ env : Envelope, ∃ b, Marshal env = Ret b) → (∃ b, Marshal config = Ret b) →
  Start ComputeBlockDataHash drv_open is_execer exec faults config "fabric-x" cfg false used = (used', Ok n0) →
  rtc (network_step BlockHeaderHash ComputeBlockDataHash cfg) n0 n1 →
  rtc (network_step BlockHeaderHash ComputeBlockDataHash cfg) n1 n2 →
  ∃ fbls s1 s2 t1 t2,
    ld_blocks (nw_ledger n2) = ld_blocks (nw_ledger n1) ++ fbls ∧
    ld_db (nw_ledger n1) = Some s1 ∧ ld_db (nw_ledger n2) = Some s2 ∧
    receive_blocks (client now) success (DeliverBlock <$> ld_blocks (nw_ledger n1)) init = (t1, None) ∧
    receive_blocks (client now) success (DeliverBlock <$> fbls) t1 = (t2, None) ∧ s1 ≡ t1 ∧ s2 ≡ t2.
Proof.
  intros Henv Hcfg Hstart Hr1 Hr2.
  assert (chained BlockHeaderHash ComputeBlockDataHash (ld_blocks (nw_ledger n2))) as [_ Hchain].
  { eapply (network_chained BlockHeaderHash); [exact filter_index|exact Hstart|by etrans]. }
  destruct (Start_ok _ _ _ _ _ _ _ _ _ _ _ _ Hstart) as (_ & genesis & db & _ & _ & [= Hk] & Hg & Hreq & ->).
  assert (nw_ledger n0 = newLedger genesis (Some init)) as Hl0 by (unfold nw_ledger, nw_orderer; by rewrite Hreq).
  destruct (network_run_grows now init cfg n0 n1) as (Hk1 & fbls1 & s1 & Hb1 & Hs1 & Hall1); [done|by rewrite Hl0|done|].
  destruct (network_run_grows now s1 cfg n1 n2) as (_ & fbls & s2 & Hb2 & Hs2 & Hall2); [done..|].
  rewrite Hl0 in Hb1. simpl in Hb1.
  assert (Forall numbered_block (fbls1 ++ fbls)) as [Hn1 Hn2]%Forall_app.
  { apply Forall_forall. intros b Hin h Hh. assert (b ∈ ld_blocks (nw_ledger n2)) as [i Hi]%list_elem_of_lookup
      by (rewrite Hb2, Hb1; set_solver).
    destruct (Hchain i b Hi) as (h' & ? & ? & (Hh' & _) & Hnum & _). assert (h = h') as -> by congruence. lia. }
  destruct (client_genesis now config genesis Henv Hcfg Hg) as (t0 & Hc0 & Heq0).
  destruct (clients_obs now fbls1 init t0 s1 Hn1 Heq0 Hall1) as (t1 & Ht1 & Heq1).
  destruct (clients_obs now fbls s1 t1 s2 Hn2 Heq1 Hall2) as (t2 & Ht2 & Heq2).
  exists fbls, s1, s2, t1, t2. split_and!; try done.
  - rewrite <- (app_nil_r (DeliverBlock <$> _)), (receive_blocks_in_order _ _ _ _ _ t1); [done|].
    rewrite Hb1. simpl. by rewrite Hc0.
  - rewrite <- (app_nil_r (DeliverBlock <$> _)). by rewrite (receive_blocks_in_order _ _ _ _ _ t2).
Qed.

End System.

(** ** An example

    The network of [Network.Networks] cuts a block with the envelope that was
    queued. *)

Module Systems.
Import Wire Networks.

Definition received : Network :=
  with_requests (with_orderer (receive_env Ledgers.hash Ledgers.data_hash no_faults own_db
    (kind_parser (C := committer_codes) (V := fabric_codes) Ledgers.hash KindFabricX 0)
    (λ l, kind_validator (C := committer_codes) (V := fabric_codes) KindFabricX (record_getter (λ _ _, Ret None) l))
    cfg Ledgers.env [] (nw_orderer queued)) (nw_requests queued)) queued.

Lemma network_receives : step queued received.
Proof.
  exact (ns_requests (C := committer_codes) (V := fabric_codes) Ledgers.hash Ledgers.data_hash cfg no_faults 0
    (λ _ _, Ret None) queued _ (rs_receive _ _ _ _ _ _ _ Ledgers.env [] (nw_requests queued)
      (conj eq_refl eq_refl) eq_refl eq_refl)).
Qed.

End Systems.

Import Wire.

Lemma client_follows_network_witness :
  ∃ fbls s2 t2, ld_blocks (nw_ledger Systems.received) = ld_blocks (nw_ledger Networks.queued) ++ fbls ∧
    ld_db (nw_ledger Systems.received) = Some s2 ∧ s2 ≡ t2 ∧
    (receive_blocks (client (V := committer_codes) Ledgers.hash 0) 200
      (DeliverBlock <$> ld_blocks (nw_ledger Systems.received)) init).2 = None.
Proof.
  destruct (client_follows_network (H0 := protos) (H1 := headers) (CL := committer_codes_laws) (W := fabric_codes)
    Ledgers.hash Ledgers.data_hash (Ret tt) true (λ _ _, Ret tt) eq_refl no_faults (0, []) Networks.cfg ∅
    Networks.started.1 Networks.network Networks.queued Systems.received 0 200
    (λ env, ex_intro _ _ eq_refl) (ex_intro _ _ eq_refl) Networks.network_started
    (rtc_once _ _ Networks.queue_step) (rtc_once _ _ Systems.network_receives))
    as (fbls & s1 & s2 & t1 & t2 & Hb & _ & Hs2 & _ & _ & _ & Heq).
  exists fbls, s2, t2. split_and!; [exact Hb|exact Hs2|exact Heq|]. vm_compute. reflexivity.
Defined.
